(** * A shallow embedding of the BusTub storage core

    The development follows the C++ sources:
    - [container/hash/extendible_hash_table.cpp]  -> [Module ExtendibleHash]
    - [buffer/lru_k_replacer.cpp]                 -> [Module LRUK]
    - [buffer/buffer_pool_manager_instance.cpp]   -> [Module BufferPool]
    - [storage/index/index_iterator.cpp] and
      [storage/index/b_plus_tree.cpp]             -> [Module BPlusTree]
      and, with the page latches,                    [Module Crabbing]

    Objects that the C++ code shares through pointers ([shared_ptr<Bucket>],
    [Page *]) live in an explicit store and are referred to by address or
    page id.  Machine integers are [Z]; loops that the C++ code runs without
    a static bound take a [fuel] argument and return [None] when it runs out.
    [None] is also the result of a failed [BUSTUB_ASSERT] and of a read the
    C++ code performs outside the live part of an array. *)

From Stdlib Require Import ZArith Lia.
From stdpp Require Import sorting functions base option list gmap strings.

Local Open Scope Z_scope.

(* ===================================================================== *)
(** ** Extendible hash table *)
(* ===================================================================== *)

Module ExtendibleHash.

Section Table.
Context {K V : Type} `{EqDecision K}.
(** [std::hash<K>()(key)], a [size_t]. *)
Variable hash : K → Z.

(** [Bucket]: [size_] (capacity), [depth_] and the item list [list_]. *)
Record Bucket := mkBucket {
  size_ : nat;
  depth_ : Z;
  list_ : list (K * V)
}.

(** The table.  [dir_] is a [vector<shared_ptr<Bucket>>]: several slots may
    hold the same pointer, so the buckets live in [heap] and [dir_] holds
    addresses.  A new bucket gets the address [length heap]. *)
Record Table := mkTable {
  bucket_size_ : nat;
  global_depth_ : Z;
  num_buckets_ : Z;
  dir_ : list nat;
  heap : list Bucket
}.

(** Constructor: depth 0, one bucket, a directory of one slot. *)
Definition new_table (bucket_size : nat) : Table :=
  mkTable bucket_size 0 1 [0%nat] [mkBucket bucket_size 0 []].

(** [IndexOf]: [hash(key) & ((1 << global_depth_) - 1)]. *)
Definition IndexOf (t : Table) (key : K) : nat :=
  let mask := Z.shiftl 1 (global_depth_ t) - 1 in
  Z.to_nat (Z.land (hash key) mask).




(** *** Bucket operations *)

(** [Bucket::Find]: first item with an equal key. *)
Fixpoint find_item (l : list (K * V)) (key : K) : option V :=
  match l with
  | [] => None
  | (k, v) :: r => if decide (k = key) then Some v else find_item r key
  end.

(** [Bucket::Remove]: erase the first item with an equal key. *)
Fixpoint remove_item (l : list (K * V)) (key : K) : option (list (K * V)) :=
  match l with
  | [] => None
  | (k, v) :: r =>
      if decide (k = key) then Some r
      else r' ← remove_item r key; Some ((k, v) :: r')
  end.

(** First loop of [Bucket::Insert]: overwrite the value of an equal key. *)
Fixpoint update_item (l : list (K * V)) (key : K) (value : V)
  : option (list (K * V)) :=
  match l with
  | [] => None
  | (k, v) :: r =>
      if decide (k = key) then Some ((k, value) :: r)
      else r' ← update_item r key value; Some ((k, v) :: r')
  end.

(** [Bucket::IsFull] is declared in the header: [list_.size() == size_]. *)
Definition IsFull (b : Bucket) : bool :=
  bool_decide (length (list_ b) = size_ b).

Definition set_list (b : Bucket) (l : list (K * V)) : Bucket :=
  mkBucket (size_ b) (depth_ b) l.

Definition bucket_Find (b : Bucket) (key : K) : option V :=
  find_item (list_ b) key.

Definition bucket_Remove (b : Bucket) (key : K) : bool * Bucket :=
  match remove_item (list_ b) key with
  | Some l => (true, set_list b l)
  | None => (false, b)
  end.

Definition bucket_Insert (b : Bucket) (key : K) (value : V) : bool * Bucket :=
  match update_item (list_ b) key value with
  | Some l => (true, set_list b l)
  | None =>
      if IsFull b then (false, b)
      else (true, set_list b (list_ b ++ [(key, value)]))
  end.

Definition IncrementDepth (b : Bucket) : Bucket :=
  mkBucket (size_ b) (depth_ b + 1) (list_ b).

(** *** Table operations *)

Definition set_heap (t : Table) (h : list Bucket) : Table :=
  mkTable (bucket_size_ t) (global_depth_ t) (num_buckets_ t) (dir_ t) h.

Definition Find (t : Table) (key : K) : option (option V) :=
  a ← dir_ t !! IndexOf t key;
  b ← heap t !! a;
  Some (bucket_Find b key).

Definition Remove (t : Table) (key : K) : option (bool * Table) :=
  a ← dir_ t !! IndexOf t key;
  b ← heap t !! a;
  let '(r, b') := bucket_Remove b key in
  Some (r, set_heap t (<[a := b']> (heap t))).

(** The hash bit a split at [split_mask] looks at. *)
Definition on_split_side (split_mask h : Z) : bool :=
  negb (Z.land h split_mask =? 0).

(** [RedistributeBucket(bucket)], [a] being the address of [bucket]. *)
Definition RedistributeBucket (t : Table) (a : nat) : option Table :=
  b ← heap t !! a;
  let b1 := IncrementDepth b in
  let new_addr := length (heap t) in
  let local_depth := depth_ b1 in
  let split_mask := Z.shiftl 1 (local_depth - 1) in
  let items_to_redistribute := list_ b1 in
  let moved :=
    filter (λ it, on_split_side split_mask (hash it.1) = true)
           items_to_redistribute in
  let kept :=
    filter (λ it, on_split_side split_mask (hash it.1) = false)
           items_to_redistribute in
  let new_bucket := mkBucket (bucket_size_ t) local_depth moved in
  let dir' :=
    imap (λ i p, if decide (p = a)
                 then if on_split_side split_mask (Z.of_nat i)
                      then new_addr else p
                 else p) (dir_ t) in
  Some (mkTable (bucket_size_ t) (global_depth_ t) (num_buckets_ t + 1) dir'
          (<[a := set_list b1 kept]> (heap t) ++ [new_bucket])).

(** Step 1 of the split in [Insert]: [dir_.resize(old_size * 2)] and the
    copy of the lower half into the upper half. *)
Definition grow_directory (t : Table) : Table :=
  mkTable (bucket_size_ t) (global_depth_ t + 1) (num_buckets_ t)
          (dir_ t ++ dir_ t) (heap t).

(** One pass of the body of [while (true)] after [bucket->Insert] failed. *)
Definition split_step (t : Table) (a : nat) (b : Bucket) : option Table :=
  RedistributeBucket
    (if decide (depth_ b = global_depth_ t) then grow_directory t else t) a.

(** [Insert]: the [while (true)] loop, [fuel] bounding the passes. *)
Fixpoint Insert (fuel : nat) (t : Table) (key : K) (value : V)
  : option Table :=
  match fuel with
  | O => None
  | S n =>
      a ← dir_ t !! IndexOf t key;
      b ← heap t !! a;
      let '(ok, b') := bucket_Insert b key value in
      if ok then Some (set_heap t (<[a := b']> (heap t)))
      else t' ← split_step t a b; Insert n t' key value
  end.


(** *** The split in the words of the specification *)

(** Slot [i] of the directory after the split of the bucket [b] at address
    [a]: the directory is first doubled, the upper half repeating the
    lower, when the local depth of [b] equals the global depth; then every
    slot that points to [a] and whose index has the bit [depth_ b] set
    points to the new bucket, whose address is [length (heap t)]. *)
Definition directory_after (t : Table) (a : nat) (b : Bucket) (i : nat)
  : option nat :=
  old ← (if decide (depth_ b = global_depth_ t) then dir_ t ++ dir_ t
         else dir_ t) !! i;
  Some (if decide (old = a)
        then if Z.testbit (Z.of_nat i) (depth_ b) then length (heap t) else a
        else old).

(** The items of [b] whose hash has the bit [depth_ b] equal to [bit]. *)
Definition items_with_bit (b : Bucket) (bit : bool) : list (K * V) :=
  filter (λ it, Z.testbit (hash it.1) (depth_ b) = bit) (list_ b).

(** *** What the table keeps *)

(** [x] and [y] have the same [d] low bits. *)
Definition agree (d x y : Z) : Prop :=
  ∀ n, 0 ≤ n < d → Z.testbit x n = Z.testbit y n.

(** The bucket [b] at address [a], seen from the directory slot [i] that
    points to it: its local depth is within the global depth, it holds at
    most [bucket_size_] items and no key twice, the hash of every key it
    holds has the low [depth_] bits of [i], and the slots that point to it
    are those whose index has these bits. *)
Definition bucket_ok (t : Table) (i a : nat) (b : Bucket) : Prop :=
  0 ≤ depth_ b ≤ global_depth_ t ∧ size_ b = bucket_size_ t ∧
  (length (list_ b) ≤ size_ b)%nat ∧ NoDup (list_ b).*1 ∧
  (∀ k v, (k, v) ∈ list_ b → agree (depth_ b) (hash k) (Z.of_nat i)) ∧
  (∀ j a', dir_ t !! j = Some a' →
           a' = a ↔ agree (depth_ b) (Z.of_nat j) (Z.of_nat i)).

(** The directory has [2 ^ global_depth_] slots, each pointing to a bucket
    that is in order. *)
Definition table_ok (t : Table) : Prop :=
  0 ≤ global_depth_ t ∧
  length (dir_ t) = Z.to_nat (2 ^ global_depth_ t) ∧
  ∀ i a, dir_ t !! i = Some a →
         ∃ b, heap t !! a = Some b ∧ bucket_ok t i a b.

End Table.

Arguments Bucket : clear implicits.
Arguments Table : clear implicits.

(** Scenario S1: [bucket_size = 2], [hash(x) = x], keys 1 and 2 inserted
    into the sole bucket of depth 0; [fuel] bounds every [Insert]. *)
Definition s1_hash (x : Z) : Z := x.

Definition s1_before (fuel : nat) : option (Table Z string) :=
  t ← Insert s1_hash fuel (new_table 2) 1 "a"%string;
  Insert s1_hash fuel t 2 "b"%string.

Definition s1_after (fuel : nat) : option (Table Z string) :=
  t ← s1_before fuel; Insert s1_hash fuel t 3 "c"%string.

End ExtendibleHash.

(* ===================================================================== *)
(** ** LRU-K replacer *)
(* ===================================================================== *)

Module LRUK.

(** [size_t] arithmetic: 64 bits, wrapping. *)
Definition SIZE_MAX : Z := 2 ^ 64 - 1.
Definition wrap (z : Z) : Z := z mod 2 ^ 64.

(** [history_] maps a frame to the deque of its recorded timestamps, oldest
    at the front; [evictable_] maps a frame to its flag. *)
Record Replacer := mkReplacer {
  replacer_size_ : Z;
  k_ : Z;
  current_timestamp_ : Z;
  curr_size_ : Z;
  history_ : gmap Z (list Z);
  evictable_ : gmap Z bool
}.

Definition new_replacer (num_frames k : Z) : Replacer :=
  mkReplacer num_frames k 0 0 ∅ ∅.

(** [BUSTUB_ASSERT(static_cast<size_t>(frame_id) < replacer_size_, ...)]. *)
Definition valid_frame (r : Replacer) (frame_id : Z) : bool :=
  bool_decide (wrap frame_id < replacer_size_ r).

(** [evictable_.find(fid) != evictable_.end() && evictable_[fid]]. *)
Definition is_evictable (r : Replacer) (fid : Z) : bool :=
  match evictable_ r !! fid with
  | Some b => b
  | None => false
  end.

(** The locals of the loop in [Evict]. *)
Record scan := mkScan {
  candidate_frame : Z;
  max_k_distance : Z;
  has_inf : bool;
  earliest_timestamp : Z
}.

Definition scan_init : scan := mkScan (-1) 0 false SIZE_MAX.

(** [history.front()]; undefined on an empty deque. *)
Definition front (history : list Z) : option Z := head history.

(** One pass of the body of [for (const auto &entry : history_)]. *)
Definition scan_step (r : Replacer) (st : scan) (entry : Z * list Z)
  : option scan :=
  let fid := entry.1 in
  let history := entry.2 in
  if negb (is_evictable r fid) then Some st
  else if bool_decide (Z.of_nat (length history) < k_ r) then
    (* fewer than k accesses: +inf *)
    ft ← front history;
    if negb (has_inf st) then
      Some (mkScan fid (max_k_distance st) true ft)
    else if bool_decide (ft < earliest_timestamp st) then
      Some (mkScan fid (max_k_distance st) true ft)
    else Some st
  else
    kth_timestamp ← front history;
    let k_distance := wrap (current_timestamp_ r - kth_timestamp) in
    if negb (has_inf st) then
      if bool_decide (candidate_frame st = -1)
         || bool_decide (k_distance > max_k_distance st) then
        Some (mkScan fid k_distance (has_inf st) (earliest_timestamp st))
      else if bool_decide (k_distance = max_k_distance st) then
        ch ← history_ r !! candidate_frame st;
        cf ← front ch;
        if bool_decide (kth_timestamp < cf) then
          Some (mkScan fid (max_k_distance st) (has_inf st)
                  (earliest_timestamp st))
        else Some st
      else Some st
    else Some st.

Fixpoint scan_entries (r : Replacer) (st : scan) (entries : list (Z * list Z))
  : option scan :=
  match entries with
  | [] => Some st
  | e :: rest => st' ← scan_step r st e; scan_entries r st' rest
  end.

(** The part of [Evict] after the loop, for the loop result [st]. *)
Definition evict_finish (r : Replacer) (st : scan) : option Z * Replacer :=
  if bool_decide (candidate_frame st = -1) then (None, r)
  else
    let c := candidate_frame st in
    (Some c,
     mkReplacer (replacer_size_ r) (k_ r) (current_timestamp_ r)
       (wrap (curr_size_ r - 1))
       (delete c (history_ r)) (delete c (evictable_ r))).

(** [Evict] with the entries of [history_] visited in the order [entries]
    (an [unordered_map] fixes no order). *)
Definition Evict_in_order (r : Replacer) (entries : list (Z * list Z))
  : option (option Z * Replacer) :=
  if bool_decide (curr_size_ r = 0) then Some (None, r)
  else st ← scan_entries r scan_init entries; Some (evict_finish r st).

(** [Evict(frame_id)]: [Some (Some f, r')] for [true] with [*frame_id = f],
    [Some (None, r)] for [false]. *)
Definition Evict (r : Replacer) : option (option Z * Replacer) :=
  Evict_in_order r (map_to_list (history_ r)).

(** [history_[frame_id]]: a missing entry reads as an empty deque. *)
Definition history_of (r : Replacer) (frame_id : Z) : list Z :=
  default [] (history_ r !! frame_id).

Definition RecordAccess (r : Replacer) (frame_id : Z) : option Replacer :=
  if negb (valid_frame r frame_id) then None
  else
    let h := history_of r frame_id ++ [current_timestamp_ r] in
    let h' := if bool_decide (Z.of_nat (length h) > k_ r) then tail h else h in
    Some (mkReplacer (replacer_size_ r) (k_ r)
            (wrap (current_timestamp_ r + 1)) (curr_size_ r)
            (<[frame_id := h']> (history_ r)) (evictable_ r)).

Definition SetEvictable (r : Replacer) (frame_id : Z) (set_evictable : bool)
  : option Replacer :=
  if negb (valid_frame r frame_id) then None
  else match history_ r !! frame_id with
  | None => Some r
  | Some _ =>
      let was_evictable := is_evictable r frame_id in
      if bool_decide (was_evictable = set_evictable) then Some r
      else
        Some (mkReplacer (replacer_size_ r) (k_ r) (current_timestamp_ r)
                (if set_evictable then wrap (curr_size_ r + 1)
                 else wrap (curr_size_ r - 1))
                (history_ r) (<[frame_id := set_evictable]> (evictable_ r)))
  end.

(** [Remove]: [None] is a failed assertion. *)
Definition Remove (r : Replacer) (frame_id : Z) : option Replacer :=
  if negb (valid_frame r frame_id) then None
  else match history_ r !! frame_id with
  | None => Some r
  | Some _ =>
      if negb (is_evictable r frame_id) then None
      else
        Some (mkReplacer (replacer_size_ r) (k_ r) (current_timestamp_ r)
                (wrap (curr_size_ r - 1))
                (delete frame_id (history_ r))
                (delete frame_id (evictable_ r)))
  end.

Definition Size (r : Replacer) : Z := curr_size_ r.

(** *** The policy in the words of the specification *)

(** A backward k-distance: a number, or +inf. *)
Inductive distance := Finite (d : Z) | Infinite.

(** Timestamp of the k-th most recent access, if there are k of them. *)
Definition kth_most_recent (k : Z) (history : list Z) : option Z :=
  if bool_decide (Z.of_nat (length history) < k) then None
  else history !! (length history - Z.to_nat k)%nat.

Definition backward_k_distance (r : Replacer) (history : list Z) : distance :=
  match kth_most_recent (k_ r) history with
  | Some t => Finite (current_timestamp_ r - t)
  | None => Infinite
  end.

Definition oldest (history : list Z) : Z := default 0 (head history).

(** [better r h g]: history [h] wins over history [g]: a larger backward
    k-distance, or the same distance and an older (or equal) oldest access. *)
Definition better (r : Replacer) (h g : list Z) : Prop :=
  match backward_k_distance r h, backward_k_distance r g with
  | Infinite, Finite _ => True
  | Finite _, Infinite => False
  | Infinite, Infinite => oldest h ≤ oldest g
  | Finite a, Finite b => b < a ∨ (a = b ∧ oldest h ≤ oldest g)
  end.

(** What [RecordAccess] keeps true of every tracked history. *)
Definition history_ok (r : Replacer) (h : list Z) : Prop :=
  h ≠ [] ∧ Z.of_nat (length h) ≤ k_ r ∧
  ∀ t, t ∈ h → 0 ≤ t ∧ t ≤ current_timestamp_ r.

Definition wf (r : Replacer) : Prop :=
  current_timestamp_ r < 2 ^ 64 ∧
  replacer_size_ r < 2 ^ 64 ∧
  ∀ f h, history_ r !! f = Some h → f ≠ -1 ∧ history_ok r h.

(** The test [history.size() < k_] of the loop in [Evict]. *)
Definition is_inf (r : Replacer) (h : list Z) : bool :=
  bool_decide (Z.of_nat (length h) < k_ r).

(** The order the loop of [Evict] compares two histories by. *)
Definition code_better (r : Replacer) (h hg : list Z) : Prop :=
  match is_inf r h, is_inf r hg with
  | true, false => True
  | false, true => False
  | _, _ => oldest h ≤ oldest hg
  end.

(** What the loop of [Evict] has established after the entries [seen]. *)
Definition scan_inv (r : Replacer) (seen : list (Z * list Z)) (st : scan)
  : Prop :=
  if decide (candidate_frame st = -1) then
    has_inf st = false ∧
    ∀ g hg, (g, hg) ∈ seen → is_evictable r g = false
  else
    ∃ h, (candidate_frame st, h) ∈ seen ∧
         is_evictable r (candidate_frame st) = true ∧
         has_inf st = is_inf r h ∧
         (has_inf st = true → earliest_timestamp st = oldest h) ∧
         (has_inf st = false →
            max_k_distance st = current_timestamp_ r - oldest h) ∧
         ∀ g hg, (g, hg) ∈ seen → is_evictable r g = true →
                 code_better r h hg.

(** The access sequence of scenario S3: frames 0,1,2,0,1 with k = 2 and
    three frames, then every frame set evictable. *)
Definition s3_replacer : option Replacer :=
  r ← RecordAccess (new_replacer 3 2) 0;
  r ← RecordAccess r 1;
  r ← RecordAccess r 2;
  r ← RecordAccess r 0;
  r ← RecordAccess r 1;
  r ← SetEvictable r 0 true;
  r ← SetEvictable r 1 true;
  SetEvictable r 2 true.

(** The replacer that [s3_replacer] computes. *)
Definition s3_state : Replacer :=
  mkReplacer 3 2 5 3
    (list_to_map [(0, [0; 3]); (1, [1; 4]); (2, [2])])
    (list_to_map [(0, true); (1, true); (2, true)]).

(** *** What the replacer keeps *)

(** The tracked frames whose flag is set: the frames [Evict] may pick. *)
Definition evictable_frames (r : Replacer) : gset Z :=
  filter (λ f, is_evictable r f = true) (dom (history_ r)).

(** [frame_id_t] is [int32_t]. *)
Definition frame_id_range (frame_id : Z) : Prop :=
  - 2 ^ 31 ≤ frame_id < 2 ^ 31.

(** The bookkeeping of the replacer: histories as [wf] has them, [k_] at
    least 1, tracked frames below [replacer_size_], a flag only for a
    tracked frame, and [curr_size_] the number of evictable frames. *)
Definition counted (r : Replacer) : Prop :=
  wf r ∧ 1 ≤ k_ r ∧ 0 ≤ current_timestamp_ r ∧
  0 ≤ replacer_size_ r ≤ 2 ^ 64 - 2 ^ 31 ∧
  (∀ f, is_Some (history_ r !! f) → 0 ≤ f < replacer_size_ r) ∧
  (∀ f, is_Some (evictable_ r !! f) → is_Some (history_ r !! f)) ∧
  curr_size_ r = Z.of_nat (size (evictable_frames r)).

End LRUK.

(* ===================================================================== *)
(** ** Buffer pool manager *)
(* ===================================================================== *)

Module BufferPool.

Definition INVALID_PAGE_ID : Z := -1.

(** [std::hash<page_id_t>]: the value itself, as a [size_t]. *)
Definition hash_page_id (p : Z) : Z := LRUK.wrap p.

Abbreviation PageTable := (ExtendibleHash.Table Z Z).

(** Passes allowed to the [while (true)] of the page table's [Insert]; a
    directory deeper than that overflows the [int] shift in [IndexOf]. *)
Definition page_table_fuel : nat := 32.

Section Pool.
(** The bytes of a page, and what [ResetMemory] leaves. *)
Context {Data : Type}.
Variable zero_data : Data.

(** [Page]: the header fields the pool manages, and the buffer. *)
Record Page := mkPage {
  page_id_ : Z;
  pin_count_ : Z;
  is_dirty_ : bool;
  data_ : Data
}.

(** Modelled from the spec: the disk manager, a collaborator with
    [ReadPage(page_id, buffer)] and [WritePage(page_id, buffer)].  The model
    keeps what was last written per page and the list of all writes; a page
    never written reads as zeroes. *)
Record DiskManager := mkDisk {
  stored : gmap Z Data;
  writes : list (Z * Data)
}.

Definition WritePage (d : DiskManager) (page_id : Z) (buf : Data)
  : DiskManager :=
  mkDisk (<[page_id := buf]> (stored d)) (writes d ++ [(page_id, buf)]).

Definition ReadPage (d : DiskManager) (page_id : Z) : Data :=
  default zero_data (stored d !! page_id).

Record BufferPoolManagerInstance := mkPool {
  pool_size_ : nat;
  pages_ : list Page;
  page_table_ : PageTable;
  replacer_ : LRUK.Replacer;
  free_list_ : list Z;
  next_page_id_ : Z;
  disk_manager_ : DiskManager
}.

(** Constructor; [bucket_size] is the constant [bucket_size_] of the
    header. *)
Definition new_pool (pool_size : nat) (replacer_k : Z) (bucket_size : nat)
  : BufferPoolManagerInstance :=
  mkPool pool_size
    (replicate pool_size (mkPage INVALID_PAGE_ID 0 false zero_data))
    (ExtendibleHash.new_table bucket_size)
    (LRUK.new_replacer (Z.of_nat pool_size) replacer_k)
    (Z.of_nat <$> seq 0 pool_size)
    0
    (mkDisk ∅ []).

(** [pages_[frame_id]]. *)
Definition frame_at (bpm : BufferPoolManagerInstance) (frame_id : Z)
  : option Page :=
  if bool_decide (frame_id < 0) then None
  else pages_ bpm !! Z.to_nat frame_id.

Definition set_frame (bpm : BufferPoolManagerInstance) (frame_id : Z)
  (p : Page) : BufferPoolManagerInstance :=
  mkPool (pool_size_ bpm) (<[Z.to_nat frame_id := p]> (pages_ bpm))
    (page_table_ bpm) (replacer_ bpm) (free_list_ bpm) (next_page_id_ bpm)
    (disk_manager_ bpm).

Definition set_replacer (bpm : BufferPoolManagerInstance)
  (r : LRUK.Replacer) : BufferPoolManagerInstance :=
  mkPool (pool_size_ bpm) (pages_ bpm) (page_table_ bpm) r (free_list_ bpm)
    (next_page_id_ bpm) (disk_manager_ bpm).

Definition set_page_table (bpm : BufferPoolManagerInstance)
  (t : PageTable) : BufferPoolManagerInstance :=
  mkPool (pool_size_ bpm) (pages_ bpm) t (replacer_ bpm) (free_list_ bpm)
    (next_page_id_ bpm) (disk_manager_ bpm).

Definition set_free_list (bpm : BufferPoolManagerInstance)
  (l : list Z) : BufferPoolManagerInstance :=
  mkPool (pool_size_ bpm) (pages_ bpm) (page_table_ bpm) (replacer_ bpm) l
    (next_page_id_ bpm) (disk_manager_ bpm).

Definition set_disk (bpm : BufferPoolManagerInstance)
  (d : DiskManager) : BufferPoolManagerInstance :=
  mkPool (pool_size_ bpm) (pages_ bpm) (page_table_ bpm) (replacer_ bpm)
    (free_list_ bpm) (next_page_id_ bpm) d.

(** [page_table_->Find(page_id, frame_id)]. *)
Definition table_find (bpm : BufferPoolManagerInstance) (page_id : Z)
  : option (option Z) :=
  ExtendibleHash.Find hash_page_id (page_table_ bpm) page_id.

(** [AllocatePage]: [return next_page_id_++]. *)
Definition AllocatePage (bpm : BufferPoolManagerInstance)
  : Z * BufferPoolManagerInstance :=
  (next_page_id_ bpm,
   mkPool (pool_size_ bpm) (pages_ bpm) (page_table_ bpm) (replacer_ bpm)
     (free_list_ bpm) (next_page_id_ bpm + 1) (disk_manager_ bpm)).

(** The frame selection that opens [NewPgImp] and the second half of
    [FetchPgImp]: the front of the free list, else a victim of the
    replacer, written back when dirty and dropped from the page table.
    [Some None] is the [return nullptr]. *)
Definition obtain_frame (bpm : BufferPoolManagerInstance)
  : option (option (Z * BufferPoolManagerInstance)) :=
  match free_list_ bpm with
  | frame_id :: rest => Some (Some (frame_id, set_free_list bpm rest))
  | [] =>
      '(victim_id, r) ← LRUK.Evict (replacer_ bpm);
      match victim_id with
      | None => Some None
      | Some frame_id =>
          let bpm := set_replacer bpm r in
          victim ← frame_at bpm frame_id;
          if bool_decide (page_id_ victim ≠ INVALID_PAGE_ID) then
            let bpm :=
              if is_dirty_ victim then
                set_frame
                  (set_disk bpm (WritePage (disk_manager_ bpm)
                                   (page_id_ victim) (data_ victim)))
                  frame_id
                  (mkPage (page_id_ victim) (pin_count_ victim) false
                     (data_ victim))
              else bpm in
            '(_, t) ← ExtendibleHash.Remove hash_page_id (page_table_ bpm)
                        (page_id_ victim);
            Some (Some (frame_id, set_page_table bpm t))
          else Some (Some (frame_id, bpm))
      end
  end.

(** Steps shared by the tails of [NewPgImp] and [FetchPgImp]: install the
    page in the frame, enter it in the page table, record the access and
    forbid eviction. *)
Definition install (bpm : BufferPoolManagerInstance) (frame_id page_id : Z)
  (buf : Data) : option BufferPoolManagerInstance :=
  _ ← frame_at bpm frame_id;
  let bpm := set_frame bpm frame_id (mkPage page_id 1 false buf) in
  t ← ExtendibleHash.Insert hash_page_id page_table_fuel (page_table_ bpm)
        page_id frame_id;
  let bpm := set_page_table bpm t in
  r ← LRUK.RecordAccess (replacer_ bpm) frame_id;
  r ← LRUK.SetEvictable r frame_id false;
  Some (set_replacer bpm r).

(** [NewPgImp]: [Some (Some (page_id, frame_id), bpm')] returns the page in
    frame [frame_id]; [Some (None, bpm')] is [nullptr]. *)
Definition NewPgImp (bpm : BufferPoolManagerInstance)
  : option (option (Z * Z) * BufferPoolManagerInstance) :=
  o ← obtain_frame bpm;
  match o with
  | None => Some (None, bpm)
  | Some (frame_id, bpm) =>
      let '(page_id, bpm) := AllocatePage bpm in
      bpm ← install bpm frame_id page_id zero_data;
      Some (Some (page_id, frame_id), bpm)
  end.

(** [FetchPgImp]: the frame holding the page, or [nullptr]. *)
Definition FetchPgImp (bpm : BufferPoolManagerInstance) (page_id : Z)
  : option (option Z * BufferPoolManagerInstance) :=
  if bool_decide (page_id = INVALID_PAGE_ID) then Some (None, bpm)
  else
    found ← table_find bpm page_id;
    match found with
    | Some frame_id =>
        page ← frame_at bpm frame_id;
        let bpm :=
          set_frame bpm frame_id
            (mkPage (page_id_ page) (pin_count_ page + 1) (is_dirty_ page)
               (data_ page)) in
        r ← LRUK.RecordAccess (replacer_ bpm) frame_id;
        r ← LRUK.SetEvictable r frame_id false;
        Some (Some frame_id, set_replacer bpm r)
    | None =>
        o ← obtain_frame bpm;
        match o with
        | None => Some (None, bpm)
        | Some (frame_id, bpm) =>
            bpm ← install bpm frame_id page_id
                    (ReadPage (disk_manager_ bpm) page_id);
            Some (Some frame_id, bpm)
        end
    end.

Definition UnpinPgImp (bpm : BufferPoolManagerInstance) (page_id : Z)
  (is_dirty : bool) : option (bool * BufferPoolManagerInstance) :=
  found ← table_find bpm page_id;
  match found with
  | None => Some (false, bpm)
  | Some frame_id =>
      page ← frame_at bpm frame_id;
      if bool_decide (pin_count_ page ≤ 0) then Some (false, bpm)
      else
        let pin := pin_count_ page - 1 in
        let dirty := if is_dirty then true else is_dirty_ page in
        let bpm :=
          set_frame bpm frame_id (mkPage (page_id_ page) pin dirty
                                    (data_ page)) in
        if bool_decide (pin = 0) then
          r ← LRUK.SetEvictable (replacer_ bpm) frame_id true;
          Some (true, set_replacer bpm r)
        else Some (true, bpm)
  end.

Definition FlushPgImp (bpm : BufferPoolManagerInstance) (page_id : Z)
  : option (bool * BufferPoolManagerInstance) :=
  if bool_decide (page_id = INVALID_PAGE_ID) then Some (false, bpm)
  else
    found ← table_find bpm page_id;
    match found with
    | None => Some (false, bpm)
    | Some frame_id =>
        page ← frame_at bpm frame_id;
        let bpm :=
          set_disk bpm (WritePage (disk_manager_ bpm) page_id (data_ page)) in
        Some (true,
              set_frame bpm frame_id
                (mkPage (page_id_ page) (pin_count_ page) false (data_ page)))
    end.

(** Body of the loop of [FlushAllPgsImp] for frame [i]. *)
Definition flush_frame (bpm : BufferPoolManagerInstance) (i : nat)
  : option BufferPoolManagerInstance :=
  page ← pages_ bpm !! i;
  if bool_decide (page_id_ page ≠ INVALID_PAGE_ID) then
    let bpm :=
      set_disk bpm (WritePage (disk_manager_ bpm) (page_id_ page)
                      (data_ page)) in
    Some (set_frame bpm (Z.of_nat i)
            (mkPage (page_id_ page) (pin_count_ page) false (data_ page)))
  else Some bpm.

Fixpoint flush_frames (bpm : BufferPoolManagerInstance) (frames : list nat)
  : option BufferPoolManagerInstance :=
  match frames with
  | [] => Some bpm
  | i :: rest => bpm' ← flush_frame bpm i; flush_frames bpm' rest
  end.

(** [FlushAllPgsImp]: [for (size_t i = 0; i < pool_size_; i++)]. *)
Definition FlushAllPgsImp (bpm : BufferPoolManagerInstance)
  : option BufferPoolManagerInstance :=
  flush_frames bpm (seq 0 (pool_size_ bpm)).

(** [DeletePgImp]; [DeallocatePage] does nothing. *)
Definition DeletePgImp (bpm : BufferPoolManagerInstance) (page_id : Z)
  : option (bool * BufferPoolManagerInstance) :=
  found ← table_find bpm page_id;
  match found with
  | None => Some (true, bpm)
  | Some frame_id =>
      page ← frame_at bpm frame_id;
      if bool_decide (pin_count_ page > 0) then Some (false, bpm)
      else
        r ← LRUK.SetEvictable (replacer_ bpm) frame_id true;
        r ← LRUK.Remove r frame_id;
        let bpm := set_replacer bpm r in
        '(_, t) ← ExtendibleHash.Remove hash_page_id (page_table_ bpm) page_id;
        let bpm := set_page_table bpm t in
        let bpm :=
          set_frame bpm frame_id (mkPage INVALID_PAGE_ID 0 false zero_data) in
        Some (true, set_free_list bpm (free_list_ bpm ++ [frame_id]))
  end.

(** *** Observations used in the statements *)

(** [page_id] is resident in frame [frame_id] holding [page]. *)
Definition resident (bpm : BufferPoolManagerInstance) (page_id frame_id : Z)
  (page : Page) : Prop :=
  table_find bpm page_id = Some (Some frame_id) ∧
  frame_at bpm frame_id = Some page.

Definition not_resident (bpm : BufferPoolManagerInstance) (page_id : Z)
  : Prop :=
  table_find bpm page_id = Some None.

(** Every pin count is at least 0. *)
Definition pins_nonneg (bpm : BufferPoolManagerInstance) : Prop :=
  ∀ frame_id page, frame_at bpm frame_id = Some page → 0 ≤ pin_count_ page.

(** A frame after [FlushAllPgsImp]: clean if it holds a page. *)
Definition flushed (page : Page) : Page :=
  if bool_decide (page_id_ page ≠ INVALID_PAGE_ID)
  then mkPage (page_id_ page) (pin_count_ page) false (data_ page)
  else page.

(** The disk writes [FlushAllPgsImp] makes for the frames [frames]. *)
Definition flush_writes (frames : list Page) : list (Z * Data) :=
  (λ page, (page_id_ page, data_ page))
    <$> filter (λ page, page_id_ page ≠ INVALID_PAGE_ID) frames.

(** *** What the pool keeps *)

(** The replacer has a history for the frame. *)
Definition tracked (bpm : BufferPoolManagerInstance) (frame_id : Z)
  : Prop :=
  is_Some (LRUK.history_ (replacer_ bpm) !! frame_id).

(** A frame and the rest of the pool agree: a frame without a page is in
    the free list and unknown to the replacer; a frame with a page holds an
    allocated page id that the page table maps to the frame, is not in the
    free list, is tracked by the replacer, and is evictable exactly when
    its pin count is 0. *)
Definition frame_ok (bpm : BufferPoolManagerInstance) (frame_id : Z)
  (page : Page) : Prop :=
  if decide (page_id_ page = INVALID_PAGE_ID) then
    frame_id ∈ free_list_ bpm ∧ (¬ tracked bpm frame_id)
  else
    0 ≤ page_id_ page < next_page_id_ bpm ∧
    table_find bpm (page_id_ page) = Some (Some frame_id) ∧
    (frame_id ∉ free_list_ bpm) ∧ tracked bpm frame_id ∧
    0 ≤ pin_count_ page ∧
    (LRUK.is_evictable (replacer_ bpm) frame_id = true
     ↔ pin_count_ page = 0).

(** The pool between two calls ([hole = None]) and inside [NewPgImp] and
    [FetchPgImp] once a frame has been chosen ([hole = Some frame_id]):
    the chosen frame is then in no list, and no page id maps to it. *)
Definition pool_inv (hole : option Z) (bpm : BufferPoolManagerInstance)
  : Prop :=
  length (pages_ bpm) = pool_size_ bpm ∧
  Z.of_nat (pool_size_ bpm) < 2 ^ 31 ∧
  ExtendibleHash.table_ok hash_page_id (page_table_ bpm) ∧
  (1 ≤ ExtendibleHash.bucket_size_ (page_table_ bpm))%nat ∧
  LRUK.counted (replacer_ bpm) ∧
  LRUK.replacer_size_ (replacer_ bpm) = Z.of_nat (pool_size_ bpm) ∧
  0 ≤ next_page_id_ bpm < 2 ^ 31 ∧
  NoDup (free_list_ bpm) ∧
  (∀ f, f ∈ free_list_ bpm → 0 ≤ f < Z.of_nat (pool_size_ bpm)) ∧
  (∀ f page, frame_at bpm f = Some page → hole ≠ Some f →
             frame_ok bpm f page) ∧
  (∀ pid f, table_find bpm pid = Some (Some f) →
            hole ≠ Some f ∧
            ∃ page, frame_at bpm f = Some page ∧ page_id_ page = pid ∧
                    pid ≠ INVALID_PAGE_ID) ∧
  (∀ h, hole = Some h →
        0 ≤ h < Z.of_nat (pool_size_ bpm) ∧ (h ∉ free_list_ bpm) ∧
        (¬ tracked bpm h)).

Definition pool_ok (bpm : BufferPoolManagerInstance) : Prop :=
  pool_inv None bpm.

(** The page [pid] takes the frame [f], whose page, if any, goes to disk
    when dirty: the common effect of [NewPgImp] and [FetchPgImp]. *)
Definition takes_frame (bpm bpm' : BufferPoolManagerInstance)
  (f pid : Z) : Prop :=
  table_find bpm' pid = Some (Some f) ∧
  (∀ g, g ≠ f → frame_at bpm' g = frame_at bpm g) ∧
  ∃ victim, frame_at bpm f = Some victim ∧
    if decide (page_id_ victim = INVALID_PAGE_ID) then
      free_list_ bpm = f :: free_list_ bpm' ∧
      (∀ q, q ≠ pid → table_find bpm' q = table_find bpm q) ∧
      disk_manager_ bpm' = disk_manager_ bpm
    else
      free_list_ bpm = [] ∧ free_list_ bpm' = [] ∧
      pin_count_ victim = 0 ∧
      table_find bpm (page_id_ victim) = Some (Some f) ∧
      table_find bpm' (page_id_ victim) = Some None ∧
      (∀ q, q ≠ pid → q ≠ page_id_ victim →
            table_find bpm' q = table_find bpm q) ∧
      disk_manager_ bpm'
      = if is_dirty_ victim
        then WritePage (disk_manager_ bpm) (page_id_ victim) (data_ victim)
        else disk_manager_ bpm.

(** The pool after the page of frame [f] is written to disk and marked
    clean. *)
Definition written_back (bpm : BufferPoolManagerInstance) (f : Z)
  (page : Page) : BufferPoolManagerInstance :=
  set_frame
    (set_disk bpm (WritePage (disk_manager_ bpm) (page_id_ page) (data_ page)))
    f (mkPage (page_id_ page) (pin_count_ page) false (data_ page)).

(** The bytes of page [page_id] as a client of the pool sees them: those
    of its frame when the page is resident, else those on disk. *)
Definition page_content (bpm : BufferPoolManagerInstance) (page_id : Z)
  : option Data :=
  found ← table_find bpm page_id;
  match found with
  | Some frame_id => page ← frame_at bpm frame_id; Some (data_ page)
  | None => Some (ReadPage (disk_manager_ bpm) page_id)
  end.

(** Every clean resident page has the bytes the disk holds for it, and
    the disk holds nothing for a page id not yet allocated. *)
Definition disk_ok (bpm : BufferPoolManagerInstance) : Prop :=
  (∀ f page, frame_at bpm f = Some page →
             page_id_ page ≠ INVALID_PAGE_ID → is_dirty_ page = false →
             data_ page = ReadPage (disk_manager_ bpm)
                            (page_id_ page)) ∧
  ∀ pid, is_Some (stored (disk_manager_ bpm) !! pid) →
         pid < next_page_id_ bpm.

End Pool.

Arguments Page : clear implicits.
Arguments DiskManager : clear implicits.
Arguments BufferPoolManagerInstance : clear implicits.

(** A pool of 3 frames (k = 2, buckets of 4) over integer page data, after
    one [NewPgImp]: page 0 sits in frame 0 with pin count 1. *)
Definition demo_pool : BufferPoolManagerInstance Z :=
  match NewPgImp 0 (new_pool 0 3 2 4) with
  | Some (_, bpm) => bpm
  | None => new_pool 0 3 2 4
  end.

(** The page that [demo_pool] holds in frame 0. *)
Definition demo_page : Page Z := mkPage 0 1 false 0.

End BufferPool.

(* ===================================================================== *)
(** ** B+-tree index and its iterator *)
(* ===================================================================== *)

Module BPlusTree.

Definition INVALID_PAGE_ID : Z := -1.

(** Modelled from the spec: the key comparator, an injected three-way
    comparator that is a total order.  Keys are the integers a
    [GenericKey] is set from, values stand for record ids. *)
Definition comparator_ (a b : Z) : Z :=
  match a ?= b with Lt => -1 | Eq => 0 | Gt => 1 end.

(** *** Pages *)

(** A leaf page: parent id, max size, next leaf, and the live items
    [(key, value)].  [GetSize] is the length of the item list; the slots
    of the C++ array past [GetSize] are not part of the model, and a read
    there is [None]. *)
Record LeafPage := mkLeaf {
  l_parent : Z;
  l_max : Z;
  l_next : Z;
  l_items : list (Z * Z)
}.

(** An internal page: items [(key, child page id)], the key of item 0
    unused. *)
Record InternalPage := mkInternal {
  i_parent : Z;
  i_max : Z;
  i_items : list (Z * Z)
}.

Inductive BPlusTreePage :=
| LeafNode (l : LeafPage)
| InternalNode (n : InternalPage).

Definition IsLeafPage (p : BPlusTreePage) : bool :=
  match p with LeafNode _ => true | InternalNode _ => false end.

Definition GetSize (p : BPlusTreePage) : Z :=
  match p with
  | LeafNode l => Z.of_nat (length (l_items l))
  | InternalNode n => Z.of_nat (length (i_items n))
  end.

Definition GetMaxSize (p : BPlusTreePage) : Z :=
  match p with LeafNode l => l_max l | InternalNode n => i_max n end.

(** Modelled from the spec: [GetMinSize] (its definition is in the page
    classes, not in the tree): for a leaf the ceiling of [max_size / 2],
    for an internal page the ceiling of [(max_size + 1) / 2]. *)
Definition leaf_min_size (max_size : Z) : Z := Z.quot (max_size + 1) 2.
Definition internal_min_size (max_size : Z) : Z := Z.quot (max_size + 2) 2.

Definition GetMinSize (p : BPlusTreePage) : Z :=
  match p with
  | LeafNode l => leaf_min_size (l_max l)
  | InternalNode n => internal_min_size (i_max n)
  end.

Definition GetParentPageId (p : BPlusTreePage) : Z :=
  match p with LeafNode l => l_parent l | InternalNode n => i_parent n end.

Definition IsRootPage (p : BPlusTreePage) : bool :=
  bool_decide (GetParentPageId p = INVALID_PAGE_ID).

Definition SetParentPageId (p : BPlusTreePage) (parent : Z) : BPlusTreePage :=
  match p with
  | LeafNode l => LeafNode (mkLeaf parent (l_max l) (l_next l) (l_items l))
  | InternalNode n => InternalNode (mkInternal parent (i_max n) (i_items n))
  end.

Definition set_l_items (l : LeafPage) (items : list (Z * Z)) : LeafPage :=
  mkLeaf (l_parent l) (l_max l) (l_next l) items.

Definition set_l_next (l : LeafPage) (next : Z) : LeafPage :=
  mkLeaf (l_parent l) (l_max l) next (l_items l).

Definition set_i_items (n : InternalPage) (items : list (Z * Z))
  : InternalPage :=
  mkInternal (i_parent n) (i_max n) items.

(** [KeyAt(i)], [ValueAt(i)], [GetItem(i)] within the live items. *)
Definition item_at (items : list (Z * Z)) (i : Z) : option (Z * Z) :=
  if bool_decide (i < 0) then None else items !! Z.to_nat i.
Definition KeyAt (items : list (Z * Z)) (i : Z) : option Z :=
  fst <$> item_at items i.
Definition ValueAt (items : list (Z * Z)) (i : Z) : option Z :=
  snd <$> item_at items i.

(** [SetKeyAt(i, key)] on a live item. *)
Definition SetKeyAt (items : list (Z * Z)) (i : Z) (key : Z)
  : option (list (Z * Z)) :=
  it ← item_at items i;
  Some (<[Z.to_nat i := (key, it.2)]> items).

(** Shifting the tail right by one and storing at [pos]. *)
Definition insert_at (items : list (Z * Z)) (pos : nat) (it : Z * Z)
  : list (Z * Z) :=
  take pos items ++ it :: drop pos items.

(** Shifting the tail left by one over [pos]. *)
Definition remove_at (items : list (Z * Z)) (pos : nat) : list (Z * Z) :=
  take pos items ++ drop (S pos) items.

(** *** The buffer pool as the tree sees it *)

(** The tree reaches its pages through [buffer_pool_manager_].  Here the
    pool is the store of the node each page id holds, the page id counter,
    and the record of the header page.  Pin counts, dirty flags and
    latches are not tracked here: whether the pool can serve a [NewPage] or
    [FetchPage] is read off [replies], one entry per request ([true]: a
    page is returned, [false]: [nullptr]); an exhausted list means the
    request is served; and a page keeps what was last written to it.

    The operations of this module make the pool requests of the calls with
    [transaction == nullptr] and leave the latches out: they give the pages
    such a call computes when none of its latch requests has to wait.
    [Module Crabbing] further down has [GetValue], [Insert] and
    [InsertIntoParent] once more with their latches and the page set, for
    calls with and without a transaction. *)
Record Pool := mkPool {
  pages : gmap Z BPlusTreePage;
  next_page_id : Z;
  replies : list bool;
  header_record : option Z
}.

Record BPlusTree := mkTree {
  root_page_id_ : Z;
  leaf_max_size_ : Z;
  internal_max_size_ : Z;
  buffer_pool_manager_ : Pool
}.

Definition new_tree (leaf_max_size internal_max_size : Z)
  (first_page_id : Z) (replies : list bool) : BPlusTree :=
  mkTree INVALID_PAGE_ID leaf_max_size internal_max_size
    (mkPool ∅ first_page_id replies None).

Definition set_pool (t : BPlusTree) (p : Pool) : BPlusTree :=
  mkTree (root_page_id_ t) (leaf_max_size_ t) (internal_max_size_ t) p.

Definition set_root (t : BPlusTree) (root : Z) : BPlusTree :=
  mkTree root (leaf_max_size_ t) (internal_max_size_ t)
    (buffer_pool_manager_ t).

Definition next_reply (t : BPlusTree) : bool * BPlusTree :=
  let p := buffer_pool_manager_ t in
  match replies p with
  | [] => (true, t)
  | b :: rest =>
      (b, set_pool t (mkPool (pages p) (next_page_id p) rest
                        (header_record p)))
  end.

(** [buffer_pool_manager_->NewPage(&id)]: the new id, or [nullptr]. *)
Definition NewPage (t : BPlusTree) : option Z * BPlusTree :=
  let '(ok, t) := next_reply t in
  if ok then
    let p := buffer_pool_manager_ t in
    (Some (next_page_id p),
     set_pool t (mkPool (pages p) (next_page_id p + 1) (replies p)
                   (header_record p)))
  else (None, t).

(** [buffer_pool_manager_->FetchPage(id)]: [false] is [nullptr]; the pool
    returns it for [INVALID_PAGE_ID] without looking further. *)
Definition FetchPage (t : BPlusTree) (page_id : Z) : bool * BPlusTree :=
  if bool_decide (page_id = INVALID_PAGE_ID) then (false, t)
  else next_reply t.

(** [buffer_pool_manager_->DeletePage(id)]. *)
Definition DeletePage (t : BPlusTree) (page_id : Z) : BPlusTree :=
  let p := buffer_pool_manager_ t in
  set_pool t (mkPool (delete page_id (pages p)) (next_page_id p) (replies p)
                (header_record p)).

(** [page->GetData()] seen as a tree page. *)
Definition page_at (t : BPlusTree) (page_id : Z) : option BPlusTreePage :=
  pages (buffer_pool_manager_ t) !! page_id.

(** The [reinterpret_cast]s to [LeafPage *] and [InternalPage *]. *)
Definition leaf_at (t : BPlusTree) (page_id : Z) : option LeafPage :=
  p ← page_at t page_id;
  match p with LeafNode l => Some l | InternalNode _ => None end.

Definition internal_at (t : BPlusTree) (page_id : Z) : option InternalPage :=
  p ← page_at t page_id;
  match p with InternalNode n => Some n | LeafNode _ => None end.

(** A write to the page [page_id]: the page holds [p] from then on.  The
    [is_dirty] flag the page is unpinned with later is not recorded, nor is
    an eviction. *)
Definition write_page (t : BPlusTree) (page_id : Z) (p : BPlusTreePage)
  : BPlusTree :=
  let b := buffer_pool_manager_ t in
  set_pool t (mkPool (<[page_id := p]> (pages b)) (next_page_id b)
                (replies b) (header_record b)).

(** [node->SetParentPageId(parent)] on the page [page_id]. *)
Definition set_parent_of (t : BPlusTree) (page_id parent : Z)
  : option BPlusTree :=
  p ← page_at t page_id;
  Some (write_page t page_id (SetParentPageId p parent)).

(** Modelled from the spec: the header page keeps the record
    (index name -> root page id); [InsertRecord] adds it when there is
    none, [UpdateRecord] changes one that exists. *)
Definition UpdateRootPageId (t : BPlusTree) (insert_record : bool)
  : option BPlusTree :=
  let '(ok, t) := next_reply t in
  if ok then
    let b := buffer_pool_manager_ t in
    let rec' :=
      match insert_record, header_record b with
      | true, None => Some (root_page_id_ t)
      | false, Some _ => Some (root_page_id_ t)
      | _, r => r
      end in
    Some (set_pool t (mkPool (pages b) (next_page_id b) (replies b) rec'))
  else None.

Definition IsEmpty (t : BPlusTree) : bool :=
  bool_decide (root_page_id_ t = INVALID_PAGE_ID).

Definition GetRootPageId (t : BPlusTree) : Z := root_page_id_ t.

(** *** Search *)

(** [index] after
    [while (index < size && comparator_(key, KeyAt(index)) >= 0) index++],
    [rest] being the items from [index] on. *)
Fixpoint child_scan (rest : list (Z * Z)) (key : Z) (index : Z) : Z :=
  match rest with
  | [] => index
  | (k, _) :: rest' =>
      if bool_decide (0 ≤ comparator_ key k)
      then child_scan rest' key (index + 1)
      else index
  end.

(** The child an internal page sends [key] to. *)
Definition child_for (items : list (Z * Z)) (key : Z) (left_most : bool)
  : option Z :=
  if left_most then ValueAt items 0
  else ValueAt items (child_scan (tail items) key 1 - 1).

(** The loop of [FindLeafPage] from the page [current_page_id]: the
    pages visited and the fetches made; the latches, [IsSafe] and the page
    set are in [Crabbing.descend]. *)
Fixpoint descend (fuel : nat) (t : BPlusTree) (current_page_id : Z)
  (key : Z) (left_most : bool) : option (option Z * BPlusTree) :=
  node ← page_at t current_page_id;
  match node with
  | LeafNode _ => Some (Some current_page_id, t)
  | InternalNode n =>
      match fuel with
      | O => None
      | S fuel' =>
          next_page_id ← child_for (i_items n) key left_most;
          let '(ok, t) := FetchPage t next_page_id in
          if ok then descend fuel' t next_page_id key left_most
          else Some (None, t)
      end
  end.

(** [FindLeafPage]: the id of the leaf page, or [nullptr]; with its
    latches it is [Crabbing.FindLeafPage]. *)
Definition FindLeafPage (fuel : nat) (t : BPlusTree) (key : Z)
  (left_most : bool) : option (option Z * BPlusTree) :=
  let root_id := root_page_id_ t in
  if bool_decide (root_id = INVALID_PAGE_ID) then Some (None, t)
  else
    let '(ok, t) := FetchPage t root_id in
    if ok then descend fuel t root_id key left_most
    else Some (None, t).

(** The scan of a leaf in [GetValue]. *)
Fixpoint leaf_lookup (items : list (Z * Z)) (key : Z) : option Z :=
  match items with
  | [] => None
  | (k, v) :: rest =>
      if bool_decide (comparator_ key k = 0) then Some v
      else if bool_decide (comparator_ key k < 0) then None
      else leaf_lookup rest key
  end.

(** [GetValue]: the value pushed to [result], if the key was found. *)
Definition GetValue (fuel : nat) (t : BPlusTree) (key : Z)
  : option (option Z * BPlusTree) :=
  '(page, t) ← FindLeafPage fuel t key false;
  match page with
  | None => Some (None, t)
  | Some leaf_id =>
      leaf_node ← leaf_at t leaf_id;
      Some (leaf_lookup (l_items leaf_node) key, t)
  end.

(** *** Insert *)

(** The scan of a leaf in [Insert]: [(insert_pos, duplicate_found)]. *)
Fixpoint find_insert_pos (items : list (Z * Z)) (key : Z) (pos : nat)
  : nat * bool :=
  match items with
  | [] => (pos, false)
  | (k, _) :: rest =>
      if bool_decide (comparator_ key k = 0) then (pos, true)
      else if bool_decide (comparator_ key k < 0) then (pos, false)
      else find_insert_pos rest key (S pos)
  end.

(** First index [i] of [items] with [ValueAt(i) == page_id]. *)
Fixpoint index_of_child (items : list (Z * Z)) (page_id : Z) (i : nat)
  : option nat :=
  match items with
  | [] => None
  | (_, v) :: rest =>
      if bool_decide (v = page_id) then Some i
      else index_of_child rest page_id (S i)
  end.

(** The check on the successor leaf in [Insert], made when the scan ran
    past the last item of a leaf that is not empty: the leaf to insert
    into, the position there and whether the key was met. *)
Definition hand_off (t : BPlusTree) (page_id : Z) (leaf_node : LeafPage)
  (key : Z) (insert_pos : nat) (duplicate_found : bool)
  : option (Z * nat * bool * BPlusTree) :=
  let items := l_items leaf_node in
  let stay := Some (page_id, insert_pos, duplicate_found, t) in
  if bool_decide (length items ≤ insert_pos)%nat
     && bool_decide (0 < length items)%nat then
    last_key ← KeyAt items (Z.of_nat (length items) - 1);
    if bool_decide (0 < comparator_ key last_key) then
      let next_page_id := l_next leaf_node in
      if bool_decide (next_page_id ≠ INVALID_PAGE_ID) then
        let '(ok, t) := FetchPage t next_page_id in
        if ok then
          next_leaf ← leaf_at t next_page_id;
          match l_items next_leaf with
          | (k0, _) :: _ =>
              if bool_decide (0 ≤ comparator_ key k0) then
                let '(pos, dup) :=
                  find_insert_pos (l_items next_leaf) key 0 in
                Some (next_page_id, pos, dup, t)
              else Some (page_id, insert_pos, duplicate_found, t)
          | [] => Some (page_id, insert_pos, duplicate_found, t)
          end
        else Some (page_id, insert_pos, duplicate_found, t)
      else stay
    else stay
  else stay.

(** The loop of [InsertIntoParent] that makes the new internal page the
    parent of the children moved to it; [false] when a fetch failed. *)
Fixpoint adopt_children (t : BPlusTree) (children : list Z)
  (new_page_id : Z) : option (bool * BPlusTree) :=
  match children with
  | [] => Some (true, t)
  | child_id :: rest =>
      let '(ok, t) := FetchPage t child_id in
      if ok then
        t ← set_parent_of t child_id new_page_id;
        adopt_children t rest new_page_id
      else Some (false, t)
  end.

(** The body of [InsertIntoParent(parent_id, left_id, key, right_id)],
    [recur] standing for the recursive call: the branch of
    [transaction == nullptr], which fetches the parent, without the latch
    it then takes on it (see [Crabbing.InsertIntoParent_body]). *)
Definition InsertIntoParent_body
  (recur : BPlusTree → Z → Z → Z → Z → option BPlusTree) (t : BPlusTree)
  (parent_id left_id key right_id : Z) : option BPlusTree :=
  if bool_decide (parent_id = INVALID_PAGE_ID) then
    (* a new root *)
    let '(new_root, t) := NewPage t in
    match new_root with
    | None => Some t
    | Some new_root_id =>
        let t :=
          write_page t new_root_id
            (InternalNode (mkInternal INVALID_PAGE_ID (internal_max_size_ t)
                             [(0, left_id); (key, right_id)])) in
        let '(left_ok, t) := FetchPage t left_id in
        let '(right_ok, t) := FetchPage t right_id in
        if left_ok && right_ok then
          t ← set_parent_of t left_id new_root_id;
          t ← set_parent_of t right_id new_root_id;
          UpdateRootPageId (set_root t new_root_id) false
        else Some t
    end
  else
    let '(ok, t) := FetchPage t parent_id in
    if negb ok then Some t
    else
      parent_node ← internal_at t parent_id;
      let insert_pos :=
        match index_of_child (i_items parent_node) left_id 0 with
        | Some i => S i
        | None => O
        end in
      let t :=
        write_page t parent_id
          (InternalNode
             (set_i_items parent_node
                (insert_at (i_items parent_node) insert_pos
                   (key, right_id)))) in
      let '(right_ok, t) := FetchPage t right_id in
      t ← (if right_ok then set_parent_of t right_id parent_id else Some t);
      parent_node ← internal_at t parent_id;
      let items := i_items parent_node in
      let size := Z.of_nat (length items) in
      if bool_decide (i_max parent_node < size) then
        (* split the internal page *)
        let '(new_page, t) := NewPage t in
        match new_page with
        | None => Some t
        | Some new_page_id =>
            let split_index := Z.quot (size + 1) 2 in
            middle_key ← KeyAt items split_index;
            pivot_child ← ValueAt items split_index;
            let new_items :=
              (0, pivot_child) :: drop (S (Z.to_nat split_index)) items in
            let t :=
              write_page t new_page_id
                (InternalNode (mkInternal (i_parent parent_node)
                                 (internal_max_size_ t) new_items)) in
            let t :=
              write_page t parent_id
                (InternalNode
                   (set_i_items parent_node
                      (take (Z.to_nat split_index) items))) in
            '(ok, t) ← adopt_children t (snd <$> new_items) new_page_id;
            if (ok : bool) then
              parent_node ← internal_at t parent_id;
              recur t (i_parent parent_node) parent_id middle_key new_page_id
            else Some t
        end
      else Some t.

(** [InsertIntoParent]; [fuel] bounds the recursion towards the root. *)
Fixpoint InsertIntoParent (fuel : nat)
  : BPlusTree → Z → Z → Z → Z → option BPlusTree :=
  InsertIntoParent_body
    match fuel with
    | O => λ _ _ _ _ _, None
    | S fuel' => InsertIntoParent fuel'
    end.

(** [Insert(key, value)].  The branch of the first insertion taken when
    another thread has set the root in the meantime is not reachable
    here. *)
Definition Insert (fuel : nat) (t : BPlusTree) (key value : Z)
  : option (bool * BPlusTree) :=
  if bool_decide (root_page_id_ t = INVALID_PAGE_ID) then
    let '(new_page, t) := NewPage t in
    match new_page with
    | None => Some (false, t)
    | Some new_page_id =>
        let t :=
          write_page t new_page_id
            (LeafNode (mkLeaf INVALID_PAGE_ID (leaf_max_size_ t)
                         INVALID_PAGE_ID [(key, value)])) in
        t ← UpdateRootPageId (set_root t new_page_id) true;
        Some (true, t)
    end
  else
    '(page, t) ← FindLeafPage fuel t key false;
    match page with
    | None => Some (false, t)
    | Some page_id =>
        leaf_node ← leaf_at t page_id;
        let '(insert_pos, duplicate_found) :=
          find_insert_pos (l_items leaf_node) key 0 in
        '(page_id, insert_pos, duplicate_found, t) ←
          hand_off t page_id leaf_node key insert_pos duplicate_found;
        if (duplicate_found : bool) then Some (false, t)
        else
          leaf_node ← leaf_at t page_id;
          let items := insert_at (l_items leaf_node) insert_pos (key, value) in
          let t := write_page t page_id (LeafNode (set_l_items leaf_node items)) in
          let size := Z.of_nat (length items) in
          if bool_decide (l_max leaf_node ≤ size) then
            (* split the leaf *)
            let '(new_page, t) := NewPage t in
            match new_page with
            | None => Some (false, t)
            | Some new_page_id =>
                let split_index := Z.to_nat (Z.quot size 2) in
                let new_items := drop split_index items in
                let t :=
                  write_page t new_page_id
                    (LeafNode (mkLeaf (l_parent leaf_node) (leaf_max_size_ t)
                                 (l_next leaf_node) new_items)) in
                let t :=
                  write_page t page_id
                    (LeafNode (mkLeaf (l_parent leaf_node) (l_max leaf_node)
                                 new_page_id (take split_index items))) in
                middle_key ← KeyAt new_items 0;
                t ← InsertIntoParent fuel t (l_parent leaf_node) page_id
                      middle_key new_page_id;
                Some (true, t)
            end
          else Some (true, t)
    end.

(** *** Remove *)

(** The scan of a leaf in [Remove]: [delete_pos], [None] for "not found". *)
Fixpoint find_delete_pos (items : list (Z * Z)) (key : Z) (i : nat)
  : option nat :=
  match items with
  | [] => None
  | (k, _) :: rest =>
      if bool_decide (comparator_ key k = 0) then Some i
      else if bool_decide (comparator_ key k < 0) then None
      else find_delete_pos rest key (S i)
  end.

(** The sibling [CoalesceOrRedistribute] picks for the child at
    [index_in_parent]: the left one if there is one, else the right one;
    [(sibling_id, is_left_sibling)]. *)
Definition choose_sibling (items : list (Z * Z)) (index_in_parent : nat)
  : option (option (Z * bool)) :=
  if bool_decide (0 < index_in_parent)%nat then
    v ← ValueAt items (Z.of_nat index_in_parent - 1); Some (Some (v, true))
  else if bool_decide (Z.of_nat index_in_parent < Z.of_nat (length items) - 1)
  then
    v ← ValueAt items (Z.of_nat index_in_parent + 1); Some (Some (v, false))
  else Some None.

(** [CoalesceOrRedistribute(node, page_id)], [node] being the page
    [page_id] or [nullptr]; [fuel] bounds the recursion on the parent.
    These are the fetches and the page writes of the branch of
    [transaction == nullptr]; the latches it takes on the page, its parent
    and its sibling are left out. *)
Fixpoint CoalesceOrRedistribute (fuel : nat) (t : BPlusTree) (page_id : Z)
  {struct fuel} : option BPlusTree :=
  let '(ok, t) := FetchPage t page_id in
  if negb ok then Some t
  else
    current_node ← page_at t page_id;
    if IsRootPage current_node then Some t
    else
      let parent_id := GetParentPageId current_node in
      let '(ok, t) := FetchPage t parent_id in
      if negb ok then Some t
      else
        parent_node ← internal_at t parent_id;
        match index_of_child (i_items parent_node) page_id 0 with
        | None => Some t
        | Some index_in_parent =>
            sibling ← choose_sibling (i_items parent_node) index_in_parent;
            match sibling with
            | None => Some t
            | Some (sibling_id, is_left_sibling) =>
                if bool_decide (sibling_id = INVALID_PAGE_ID) then Some t
                else
                  let '(ok, t) := FetchPage t sibling_id in
                  if negb ok then Some t
                  else
                    let need_reacquire := bool_decide (sibling_id < page_id) in
                    let '(ok, t) :=
                      if need_reacquire then FetchPage t page_id
                      else (true, t) in
                    if negb ok then Some t
                    else
                      current_node ← page_at t page_id;
                      sibling_node ← page_at t sibling_id;
                      match current_node, sibling_node with
                      | LeafNode leaf_node, LeafNode sibling_leaf =>
                          let li := l_items leaf_node in
                          let si := l_items sibling_leaf in
                          if bool_decide (GetMinSize sibling_node
                                          < GetSize sibling_node) then
                            (* redistribute *)
                            if (is_left_sibling : bool) then
                              moved ← last si;
                              let t :=
                                write_page t page_id
                                  (LeafNode (set_l_items leaf_node
                                               (moved :: li))) in
                              let t :=
                                write_page t sibling_id
                                  (LeafNode (set_l_items sibling_leaf
                                               (removelast si))) in
                              parent_node ← internal_at t parent_id;
                              items ← SetKeyAt (i_items parent_node)
                                        (Z.of_nat index_in_parent) moved.1;
                              Some (write_page t parent_id
                                      (InternalNode
                                         (set_i_items parent_node items)))
                            else
                              moved ← head si;
                              let t :=
                                write_page t page_id
                                  (LeafNode (set_l_items leaf_node
                                               (li ++ [moved]))) in
                              let t :=
                                write_page t sibling_id
                                  (LeafNode (set_l_items sibling_leaf
                                               (tail si))) in
                              first_key ← KeyAt (tail si) 0;
                              parent_node ← internal_at t parent_id;
                              items ← SetKeyAt (i_items parent_node)
                                        (Z.of_nat index_in_parent + 1)
                                        first_key;
                              Some (write_page t parent_id
                                      (InternalNode
                                         (set_i_items parent_node items)))
                          else
                            (* merge *)
                            let t :=
                              if is_left_sibling then
                                write_page t sibling_id
                                  (LeafNode (mkLeaf (l_parent sibling_leaf)
                                               (l_max sibling_leaf)
                                               (l_next leaf_node)
                                               (si ++ li)))
                              else
                                write_page t page_id
                                  (LeafNode (mkLeaf (l_parent leaf_node)
                                               (l_max leaf_node)
                                               (l_next sibling_leaf)
                                               (li ++ si))) in
                            let key_index :=
                              if is_left_sibling then index_in_parent
                              else S index_in_parent in
                            parent_node ← internal_at t parent_id;
                            let parent_node :=
                              set_i_items parent_node
                                (remove_at (i_items parent_node) key_index) in
                            let t :=
                              write_page t parent_id
                                (InternalNode parent_node) in
                            let page_to_delete :=
                              if is_left_sibling then page_id
                              else sibling_id in
                            let t := DeletePage t page_to_delete in
                            let parent_needs_merge :=
                              bool_decide
                                (GetSize (InternalNode parent_node)
                                 < GetMinSize (InternalNode parent_node))
                              && negb (IsRootPage (InternalNode parent_node))
                            in
                            if parent_needs_merge then
                              match fuel with
                              | O => None
                              | S fuel' =>
                                  CoalesceOrRedistribute fuel' t parent_id
                              end
                            else Some t
                      | _, _ =>
                          (* internal pages: released untouched *)
                          Some t
                      end
            end
        end.

(** The inspection of the root that ends [Remove]. *)
Definition adjust_root (t : BPlusTree) : option BPlusTree :=
  if bool_decide (root_page_id_ t ≠ INVALID_PAGE_ID) then
    let '(ok, t) := FetchPage t (root_page_id_ t) in
    if negb ok then Some t
    else
      root_node ← page_at t (root_page_id_ t);
      let old_root_id := root_page_id_ t in
      match root_node with
      | InternalNode n =>
          if bool_decide (GetSize root_node = 0) then
            new_root_id ← ValueAt (i_items n) 0;
            let '(ok, t) := FetchPage t new_root_id in
            t ← (if ok then set_parent_of t new_root_id INVALID_PAGE_ID
                 else Some t);
            t ← UpdateRootPageId (set_root t new_root_id) false;
            Some (DeletePage t old_root_id)
          else Some t
      | LeafNode _ =>
          if bool_decide (GetSize root_node = 0) then
            t ← UpdateRootPageId (set_root t INVALID_PAGE_ID) false;
            Some (DeletePage t old_root_id)
          else Some t
      end
  else Some t.

(** [Remove(key)]. *)
Definition Remove (fuel : nat) (t : BPlusTree) (key : Z) : option BPlusTree :=
  '(page, t) ← FindLeafPage fuel t key false;
  match page with
  | None => Some t
  | Some leaf_page_id =>
      leaf_node ← leaf_at t leaf_page_id;
      match find_delete_pos (l_items leaf_node) key 0 with
      | None => Some t
      | Some delete_pos =>
          let leaf_node :=
            set_l_items leaf_node (remove_at (l_items leaf_node) delete_pos) in
          let t := write_page t leaf_page_id (LeafNode leaf_node) in
          let need_merge :=
            bool_decide (GetSize (LeafNode leaf_node)
                         < GetMinSize (LeafNode leaf_node))
            && negb (IsRootPage (LeafNode leaf_node)) in
          t ← (if need_merge then CoalesceOrRedistribute fuel t leaf_page_id
               else Some t);
          adjust_root t
      end
  end.

(** *** Index iterator *)

(** [IndexIterator]: whether it has a buffer pool, [page_id_], [index_],
    and whether [leaf_page_] (and [page_]) point to the fetched page
    [page_id_]. *)
Record IndexIterator := mkIter {
  has_pool : bool;
  page_id_ : Z;
  index_ : Z;
  leaf_page_ : bool
}.

(** [IndexIterator()]. *)
Definition default_iterator : IndexIterator :=
  mkIter false INVALID_PAGE_ID 0 false.

(** [IndexIterator(buffer_pool_manager, page_id, index)] with a pool. *)
Definition make_iterator (t : BPlusTree) (page_id index : Z)
  : IndexIterator * BPlusTree :=
  if bool_decide (page_id ≠ INVALID_PAGE_ID) then
    let '(ok, t) := FetchPage t page_id in (mkIter true page_id index ok, t)
  else (mkIter true page_id index false, t).

Definition IsEnd (t : BPlusTree) (it : IndexIterator) : option bool :=
  if bool_decide (page_id_ it = INVALID_PAGE_ID) || negb (leaf_page_ it)
  then Some true
  else
    leaf ← leaf_at t (page_id_ it);
    Some (bool_decide (Z.of_nat (length (l_items leaf)) ≤ index_ it)).

(** [operator*]: [assert(!IsEnd())], then the item. *)
Definition deref (t : BPlusTree) (it : IndexIterator) : option (Z * Z) :=
  e ← IsEnd t it;
  if (e : bool) then None
  else leaf ← leaf_at t (page_id_ it); item_at (l_items leaf) (index_ it).

(** [operator++]. *)
Definition advance (t : BPlusTree) (it : IndexIterator)
  : option (IndexIterator * BPlusTree) :=
  e ← IsEnd t it;
  if (e : bool) then Some (it, t)
  else
    leaf ← leaf_at t (page_id_ it);
    let index := index_ it + 1 in
    if bool_decide (Z.of_nat (length (l_items leaf)) ≤ index) then
      let next_page_id := l_next leaf in
      if bool_decide (next_page_id = INVALID_PAGE_ID) then
        Some (mkIter (has_pool it) INVALID_PAGE_ID 0 false, t)
      else
        let '(ok, t) := FetchPage t next_page_id in
        Some (mkIter (has_pool it) next_page_id 0 ok, t)
    else Some (mkIter (has_pool it) (page_id_ it) index (leaf_page_ it), t).

(** [operator==] and [operator!=]. *)
Definition iter_eq (a b : IndexIterator) : bool :=
  bool_decide (page_id_ a = page_id_ b) && bool_decide (index_ a = index_ b).
Definition iter_ne (a b : IndexIterator) : bool := negb (iter_eq a b).

Definition End : IndexIterator := default_iterator.

(** [Begin()]: its own walk to the leftmost leaf, which takes no latch,
    visits the pages and makes the fetches of the loop of [FindLeafPage]
    with [left_most]. *)
Definition Begin (fuel : nat) (t : BPlusTree)
  : option (IndexIterator * BPlusTree) :=
  let root_id := root_page_id_ t in
  if bool_decide (root_id = INVALID_PAGE_ID) then Some (End, t)
  else
    let '(ok, t) := FetchPage t root_id in
    if ok then
      '(leaf, t) ← descend fuel t root_id 0 true;
      match leaf with
      | None => Some (End, t)
      | Some current_page_id => Some (make_iterator t current_page_id 0)
      end
    else Some (End, t).

(** [for (it = ...; it != End(); ++it)] collecting [*it]. *)
Fixpoint iterate (fuel : nat) (t : BPlusTree) (it : IndexIterator)
  : option (list (Z * Z)) :=
  if iter_ne it End then
    match fuel with
    | O => None
    | S fuel' =>
        x ← deref t it;
        '(it', t') ← advance t it;
        rest ← iterate fuel' t' it';
        Some (x :: rest)
    end
  else Some [].

(** All items from [Begin()] to [End()]. *)
Definition scan_all (fuel : nat) (t : BPlusTree) : option (list (Z * Z)) :=
  '(it, t) ← Begin fuel t; iterate fuel t it.

(** *** Sequences of operations *)

(** Inserting [keys] in turn, each with itself as value; the results of
    the calls are collected. *)
Fixpoint insert_all (fuel : nat) (t : BPlusTree) (keys : list Z)
  : option (list bool * BPlusTree) :=
  match keys with
  | [] => Some ([], t)
  | k :: rest =>
      '(r, t) ← Insert fuel t k k;
      '(rs, t) ← insert_all fuel t rest;
      Some (r :: rs, t)
  end.

Fixpoint remove_all (fuel : nat) (t : BPlusTree) (keys : list Z)
  : option BPlusTree :=
  match keys with
  | [] => Some t
  | k :: rest => t ← Remove fuel t k; remove_all fuel t rest
  end.

(** A sequence of calls on the index, run in turn. *)
Inductive Operation : Type :=
| InsertOp (key value : Z)
| RemoveOp (key : Z).

Definition is_insert (op : Operation) : bool :=
  match op with InsertOp _ _ => true | RemoveOp _ => false end.

Fixpoint run_operations (fuel : nat) (t : BPlusTree) (ops : list Operation)
  : option BPlusTree :=
  match ops with
  | [] => Some t
  | InsertOp key value :: rest =>
      '(_, t) ← Insert fuel t key value; run_operations fuel t rest
  | RemoveOp key :: rest =>
      t ← Remove fuel t key; run_operations fuel t rest
  end.

(** *** Observations and scenarios used in the statements *)

(** What a reader of the tree sees: the root id and the pages. *)
Definition content (t : BPlusTree) : Z * gmap Z BPlusTreePage :=
  (root_page_id_ t, pages (buffer_pool_manager_ t)).

(** The pool serves every request. *)
Definition served (t : BPlusTree) : Prop :=
  replies (buffer_pool_manager_ t) = [].

(** The page [page_id] is an internal page, not the root by its parent
    pointer, with fewer items than its minimum size. *)
Definition underfull_internal (t : BPlusTree) (page_id : Z) : Prop :=
  ∃ n, internal_at t page_id = Some n ∧
       i_parent n ≠ INVALID_PAGE_ID ∧
       Z.of_nat (length (i_items n)) < internal_min_size (i_max n).

(** The bounds of the specification on a page that is not the root. *)
Definition within_spec_bounds (p : BPlusTreePage) : Prop :=
  GetMinSize p ≤ GetSize p ∧
  match p with
  | LeafNode _ => GetSize p < GetMaxSize p
  | InternalNode _ => GetSize p ≤ GetMaxSize p
  end.

(** The sizes that inserts keep on a page; [is_root] says whether the page
    is the root, [slack] is 1 for a page that has just received an item and
    has not been split yet, else 0.  A leaf holds at least one item and
    fewer than [leaf_max_size_]; an internal page holds at most
    [internal_max_size_] items and points to valid page ids.  A page that is
    not the root holds at least half of the items that make its kind of
    page split. *)
Definition page_sizes_ok (t : BPlusTree) (is_root : bool) (slack : Z)
  (p : BPlusTreePage) : Prop :=
  match p with
  | LeafNode l =>
      l_max l = leaf_max_size_ t ∧
      1 ≤ Z.of_nat (length (l_items l)) < leaf_max_size_ t + slack ∧
      (is_root = false →
       Z.quot (leaf_max_size_ t) 2 ≤ Z.of_nat (length (l_items l)))
  | InternalNode n =>
      i_max n = internal_max_size_ t ∧
      Z.of_nat (length (i_items n)) ≤ internal_max_size_ t + slack ∧
      (∀ it, it ∈ i_items n → 0 ≤ it.2) ∧
      (is_root = false →
       Z.quot (internal_max_size_ t + 1) 2 ≤ Z.of_nat (length (i_items n)))
  end.

Definition slack_of (big pid : Z) : Z := if decide (pid = big) then 1 else 0.

(** The invariant of the inserts, up to the parent pointer of the page
    [hole] and one item too many on the page [big]: the pool serves every
    request, both maximum sizes are at least 2, page ids lie between 0 and
    the next id to allot, every page has the sizes of [page_sizes_ok], and
    only the root has no parent. *)
Definition tree_inv (t : BPlusTree) (hole big : Z) : Prop :=
  served t ∧
  2 ≤ leaf_max_size_ t ∧ 2 ≤ internal_max_size_ t ∧
  0 ≤ next_page_id (buffer_pool_manager_ t) ∧
  root_page_id_ t < next_page_id (buffer_pool_manager_ t) ∧
  ∀ pid p, page_at t pid = Some p →
    0 ≤ pid < next_page_id (buffer_pool_manager_ t) ∧
    page_sizes_ok t (bool_decide (pid = root_page_id_ t)) (slack_of big pid) p ∧
    (pid ≠ hole → GetParentPageId p = INVALID_PAGE_ID →
     pid = root_page_id_ t).

Definition insert_inv (t : BPlusTree) : Prop :=
  tree_inv t INVALID_PAGE_ID INVALID_PAGE_ID.

(** The state after a served [NewPage]. *)
Definition after_NewPage (t : BPlusTree) : BPlusTree :=
  set_pool t (mkPool (pages (buffer_pool_manager_ t))
                (next_page_id (buffer_pool_manager_ t) + 1) []
                (header_record (buffer_pool_manager_ t))).

(** A page with its parent pointer blanked. *)
Definition strip (p : BPlusTreePage) : BPlusTreePage := SetParentPageId p 0.

(** Fields that no page write changes. *)
Definition same_frame (t t' : BPlusTree) : Prop :=
  root_page_id_ t' = root_page_id_ t ∧
  leaf_max_size_ t' = leaf_max_size_ t ∧
  internal_max_size_ t' = internal_max_size_ t ∧
  next_page_id (buffer_pool_manager_ t')
    = next_page_id (buffer_pool_manager_ t).

(** What [InsertIntoParent] asks of the tree: the invariant up to the parent
    pointer of the new right page, which is not the root, and a left page
    that has the sizes of a page that is not the root. *)
Definition parent_pre (t : BPlusTree) (left_id right_id : Z) : Prop :=
  tree_inv t right_id INVALID_PAGE_ID ∧
  is_Some (page_at t right_id) ∧ right_id ≠ root_page_id_ t ∧
  ∃ lp, page_at t left_id = Some lp ∧ page_sizes_ok t false 0 lp.

(** Scenarios S4 to S6: [leaf_max_size = internal_max_size = 4]; page ids
    are allotted from 1 on, page 0 being the header page. *)
Definition tree44 : BPlusTree := new_tree 4 4 1 [].
Definition s4_keys : list Z := [5; 3; 8; 1; 4; 9; 2; 7; 6].
Definition s5_keys : list Z := s4_keys ++ [10; 11; 12; 13].

(** The tree of scenario S5. *)
Definition s5_tree : BPlusTree :=
  match insert_all 8 tree44 s5_keys with
  | Some (_, t) => t
  | None => tree44
  end.

(** Keys 1 to 4 inserted and removed again. *)
Definition emptied_tree : BPlusTree :=
  match insert_all 8 tree44 [1; 2; 3; 4] with
  | Some (_, t) => default t (remove_all 8 t [1; 2; 3; 4])
  | None => tree44
  end.

(** *** The order of the keys in the tree *)

(** What the tree shape says about a page, kept beside the pages: the
    parent, the height above the leaves, and the keys the page is
    responsible for, from [g_lo] (included; [None] for no lower bound) to
    [g_hi] (excluded; [None] for no upper bound). *)
Record Info : Type := mkInfo {
  g_parent : Z;
  g_height : nat;
  g_lo : option Z;
  g_hi : option Z
}.

Definition above (lo : option Z) (k : Z) : Prop :=
  match lo with Some l => l ≤ k | None => True end.

Definition below (hi : option Z) (k : Z) : Prop :=
  match hi with Some h => k < h | None => True end.

(** A lower bound strictly under an upper bound. *)
Definition apart (lo hi : option Z) : Prop :=
  match lo, hi with Some l, Some h => l < h | _, _ => True end.

(** The upper bound of one leaf is at most the lower bound of the next. *)
Definition meets (hi lo : option Z) : Prop :=
  match hi, lo with Some h, Some l => h ≤ l | _, _ => False end.

Definition next_key (rest : list (Z * Z)) (hi : option Z) : option Z :=
  match rest with [] => hi | (k, _) :: _ => Some k end.

(** The children of an internal page with the keys each is responsible
    for; the key of the first item is not read. *)
Fixpoint expect (lo : option Z) (items : list (Z * Z)) (hi : option Z)
  : list (Z * (option Z * option Z)) :=
  match items with
  | [] => []
  | (_, c) :: rest =>
      (c, (lo, next_key rest hi)) :: expect (next_key rest hi) rest hi
  end.

(** A split in progress: the page [d_left] has handed the keys from
    [d_key] on to the new page [d_right], which no parent lists yet. *)
Record Defect : Type := mkDefect {
  d_left : Z;
  d_key : Z;
  d_right : Z
}.

(** The information on the child [c] of [parent], responsible for the
    keys from [lo] to [hi]; during a split of [c] the two halves share
    them. *)
Definition child_ok (G : Z → Info) (defect : option Defect)
  (c parent : Z) (h : nat) (lo hi : option Z) : Prop :=
  match defect with
  | Some d =>
      if decide (c = d_left d) then
        G c = mkInfo parent h lo (Some (d_key d)) ∧
        G (d_right d) = mkInfo parent h (Some (d_key d)) hi
      else G c = mkInfo parent h lo hi
  | None => G c = mkInfo parent h lo hi
  end.

(** The keys of a leaf ascend and lie within its bounds. *)
Definition leaf_keys_ok (lo : option Z) (keys : list Z) (hi : option Z)
  : Prop :=
  StronglySorted Z.lt keys ∧ Forall (λ k, above lo k ∧ below hi k) keys.

Definition page_ok (G : Z → Info) (t : BPlusTree) (defect : option Defect)
  (pid : Z) (p : BPlusTreePage) : Prop :=
  GetParentPageId p = g_parent (G pid) ∧
  match p with
  | LeafNode l =>
      g_height (G pid) = O ∧ l_max l = leaf_max_size_ t ∧
      leaf_keys_ok (g_lo (G pid)) (l_items l).*1 (g_hi (G pid)) ∧
      (l_next l ≠ INVALID_PAGE_ID →
       is_Some (leaf_at t (l_next l)) ∧
       meets (g_hi (G pid)) (g_lo (G (l_next l))))
  | InternalNode n =>
      ∃ h, g_height (G pid) = S h ∧ i_max n = internal_max_size_ t ∧
           i_items n ≠ [] ∧ NoDup (i_items n).*2 ∧
           ∀ c lo hi,
             (c, (lo, hi)) ∈ expect (g_lo (G pid)) (i_items n) (g_hi (G pid)) →
             apart lo hi ∧ is_Some (page_at t c) ∧
             child_ok G defect c pid h lo hi
  end.

Definition unlisted (defect : option Defect) (pid : Z) : Prop :=
  match defect with Some d => pid = d_right d | None => False end.

(** A page without parent is the root; any other page is listed by its
    parent. *)
Definition linked (G : Z → Info) (t : BPlusTree) (defect : option Defect)
  (pid : Z) : Prop :=
  ¬ unlisted defect pid →
  if decide (g_parent (G pid) = INVALID_PAGE_ID) then pid = root_page_id_ t
  else ∃ n, page_at t (g_parent (G pid)) = Some (InternalNode n) ∧
            pid ∈ (i_items n).*2.

Definition defect_ok (G : Z → Info) (t : BPlusTree)
  (defect : option Defect) : Prop :=
  match defect with
  | None => True
  | Some d =>
      d_left d ≠ d_right d ∧ d_right d ≠ root_page_id_ t ∧
      is_Some (page_at t (d_left d)) ∧ is_Some (page_at t (d_right d)) ∧
      apart (g_lo (G (d_left d))) (Some (d_key d)) ∧
      apart (Some (d_key d)) (g_hi (G (d_right d))) ∧
      ∀ pid n, page_at t pid = Some (InternalNode n) →
               d_right d ∉ (i_items n).*2
  end.

(** The tree is a search tree of height [H] over a pool that serves every
    request, but for the split in progress. *)
Definition ord_inv (G : Z → Info) (t : BPlusTree) (H : nat)
  (defect : option Defect) : Prop :=
  served t ∧ 2 ≤ leaf_max_size_ t ∧ 2 ≤ internal_max_size_ t ∧
  0 ≤ next_page_id (buffer_pool_manager_ t) ∧
  root_page_id_ t < next_page_id (buffer_pool_manager_ t) ∧
  (if decide (root_page_id_ t = INVALID_PAGE_ID)
   then ∀ pid, page_at t pid = None
   else is_Some (page_at t (root_page_id_ t)) ∧
        child_ok G defect (root_page_id_ t) INVALID_PAGE_ID H None None) ∧
  defect_ok G t defect ∧
  ∀ pid p, page_at t pid = Some p →
    0 ≤ pid < next_page_id (buffer_pool_manager_ t) ∧
    (g_height (G pid) ≤ H)%nat ∧
    page_ok G t defect pid p ∧ linked G t defect pid.

(** A search tree of height [H]. *)
Definition well_formed (t : BPlusTree) (H : nat) : Prop :=
  ∃ G, ord_inv G t H None.

(** The items of the leaf [pid]. *)
Definition leaf_items (t : BPlusTree) (pid : Z) : option (list (Z * Z)) :=
  l_items <$> leaf_at t pid.

(** Every child is responsible for some keys. *)
Definition all_apart (E : list (Z * (option Z * option Z))) : Prop :=
  ∀ c l h, (c, (l, h)) ∈ E → apart l h.

(** The information on a page that has got the parent [q]. *)
Definition reparent (i : Info) (q : Z) : Info :=
  mkInfo q (g_height i) (g_lo i) (g_hi i).

(** The information after the page [L] has handed the keys from [mid] on
    to the page [N]. *)
Definition split_info (G : Z → Info) (L mid N : Z) : Z → Info :=
  <[N := mkInfo (g_parent (G L)) (g_height (G L)) (Some mid) (g_hi (G L))]>
    (<[L := mkInfo (g_parent (G L)) (g_height (G L)) (g_lo (G L)) (Some mid)]>
       G).

(** The information after the pages [moved] have got the parent [N]. *)
Definition moved_info (G : Z → Info) (moved : list Z) (N : Z) : Z → Info :=
  λ x, if decide (x ∈ moved) then reparent (G x) N else G x.

(** The pair [(k, v)] is in a leaf. *)
Definition stored (t : BPlusTree) (k v : Z) : Prop :=
  ∃ x items, leaf_items t x = Some items ∧ (k, v) ∈ items.

(** Keys 1 to 10 inserted in order. *)
Definition ascending_ops : list Operation :=
  (λ k, InsertOp k k) <$> [1; 2; 3; 4; 5; 6; 7; 8; 9; 10].

Definition ascending_tree : BPlusTree :=
  default tree44 (run_operations 8 tree44 ascending_ops).

(** Keys 1 to 4 inserted in order, then removed in order. *)
Definition in_and_out_ops : list Operation :=
  ((λ k, InsertOp k k) <$> [1; 2; 3; 4]) ++ (RemoveOp <$> [1; 2; 3; 4]).

(** Keys 1 to 3 in a root leaf, over a pool that serves one more request
    and then has no frame left. *)
Definition exhausted_tree : BPlusTree :=
  let t := default tree44
             (run_operations 8 tree44 ((λ k, InsertOp k k) <$> [1; 2; 3])) in
  let b := buffer_pool_manager_ t in
  set_pool t (mkPool (pages b) (next_page_id b) [true; false]
                (header_record b)).

(** *** The index as a dictionary *)

(** What a call does to the pairs the index holds: [Insert] adds the pair
    unless the key is there, [Remove] drops the key. *)
Definition dictionary_step (m : gmap Z Z) (op : Operation) : gmap Z Z :=
  match op with
  | InsertOp key value =>
      match m !! key with Some _ => m | None => <[key := value]> m end
  | RemoveOp key => delete key m
  end.

(** The pairs held after the calls [ops] on an empty index. *)
Definition dictionary_after (ops : list Operation) : gmap Z Z :=
  foldl dictionary_step ∅ ops.

(** *** The chain of the leaves *)

(** A leaf without its parent pointer: the next leaf and the items. *)
Definition leaf_view (t : BPlusTree) (x : Z) : option (Z * list (Z * Z)) :=
  (λ l, (l_next l, l_items l)) <$> leaf_at t x.

(** Every page id in use is below the next id to allot. *)
Definition ids_below (t : BPlusTree) : Prop :=
  ∀ pid, is_Some (page_at t pid) →
         pid < next_page_id (buffer_pool_manager_ t).

(** What [InsertIntoParent] keeps of the tree [t]: the pool still serves
    every request, page ids are below the next one, and every leaf has its
    items and its next leaf. *)
Definition kept (t t' : BPlusTree) : Prop :=
  served t' ∧ ids_below t' ∧ ∀ x, leaf_view t' x = leaf_view t x.

(** Following [next_page_id_] from the page [x] visits the leaves [ids]
    in turn and then ends. *)
Fixpoint chain (t : BPlusTree) (ids : list Z) (x : Z) : Prop :=
  match ids with
  | [] => x = INVALID_PAGE_ID
  | y :: rest =>
      x = y ∧ ∃ v, leaf_view t y = Some v ∧ chain t rest v.1
  end.

(** [ids] are the leaves of the tree, each once, in the order of the
    chain. *)
Definition chain_ok (t : BPlusTree) (ids : list Z) : Prop :=
  NoDup ids ∧ (∀ x, is_Some (leaf_view t x) ↔ x ∈ ids) ∧
  chain t ids (default INVALID_PAGE_ID (head ids)).

(** The chain of the leaves, none of them empty. *)
Definition chain_inv (t : BPlusTree) (ids : list Z) : Prop :=
  chain_ok t ids ∧ ∀ x v, leaf_view t x = Some v → v.2 ≠ [].

(** The items of the leaves [ids], in turn. *)
Definition chain_items (t : BPlusTree) (ids : list Z) : list (Z * Z) :=
  ids ≫= λ x, default [] (snd <$> leaf_view t x).

(** The leaves [ids] with the new leaf [N] after the leaf [L]. *)
Fixpoint insert_after (L N : Z) (ids : list Z) : list Z :=
  match ids with
  | [] => []
  | y :: rest =>
      if decide (y = L) then y :: N :: rest
      else y :: insert_after L N rest
  end.

(** *** The iterator from a key *)

(** [key_index] after
    [while (key_index < size && comparator_(key, KeyAt(key_index)) > 0)
       key_index++],
    [rest] being the items from [key_index] on. *)
Fixpoint key_scan (rest : list (Z * Z)) (key : Z) (key_index : Z) : Z :=
  match rest with
  | [] => key_index
  | (k, _) :: rest' =>
      if bool_decide (0 < comparator_ key k)
      then key_scan rest' key (key_index + 1)
      else key_index
  end.

(** [Begin(key)]: its own walk down, which takes no latch, visits the
    pages and makes the fetches of the loop of [FindLeafPage]; when the
    leaf has no key from [key] on, the next leaf is looked at, and no
    further. *)
Definition Begin_key (fuel : nat) (t : BPlusTree) (key : Z)
  : option (IndexIterator * BPlusTree) :=
  let root_id := root_page_id_ t in
  if bool_decide (root_id = INVALID_PAGE_ID) then Some (End, t)
  else
    let '(ok, t) := FetchPage t root_id in
    if ok then
      '(leaf, t) ← descend fuel t root_id key false;
      match leaf with
      | None => Some (End, t)
      | Some current_page_id =>
          leaf_node ← leaf_at t current_page_id;
          let key_index := key_scan (l_items leaf_node) key 0 in
          if bool_decide (Z.of_nat (length (l_items leaf_node)) ≤ key_index)
          then
            let next_page_id := l_next leaf_node in
            if bool_decide (next_page_id = INVALID_PAGE_ID) then Some (End, t)
            else
              let '(ok, t) := FetchPage t next_page_id in
              if ok then
                leaf_node ← leaf_at t next_page_id;
                let key_index := key_scan (l_items leaf_node) key 0 in
                if bool_decide
                     (Z.of_nat (length (l_items leaf_node)) ≤ key_index)
                then Some (End, t)
                else Some (make_iterator t next_page_id key_index)
              else Some (End, t)
          else Some (make_iterator t current_page_id key_index)
      end
    else Some (End, t).

(** All items from [Begin(key)] to [End()]. *)
Definition scan_from (fuel : nat) (t : BPlusTree) (key : Z)
  : option (list (Z * Z)) :=
  '(it, t) ← Begin_key fuel t key; iterate fuel t it.

End BPlusTree.

(* ===================================================================== *)
(** ** The B+-tree calls with their page latches *)
(* ===================================================================== *)

(** [GetValue], [Insert], [InsertIntoParent], [FindLeafPage] and [IsSafe]
    of [b_plus_tree.cpp] once more, this time with the page latches the
    calling thread takes and releases and with the page set of the
    [Transaction] it was given.  The page store, the pool and the scans of
    the pages are those of [Module BPlusTree]; pin counts and dirty flags
    are not tracked here either. *)
Module Crabbing.
Import BPlusTree.

Inductive OperationType : Type := SEARCH | INSERT | DELETE.

(** The index as one calling thread has it: the tree with its pages, the
    pages whose read latch and whose write latch the thread holds, and
    [transaction]: [None] for [transaction == nullptr], else the page set
    [transaction->GetPageSet()], a [deque<Page *>], front first. *)
Record Index := mkIndex {
  tree : BPlusTree;
  read_latched : gset Z;
  write_latched : gset Z;
  transaction : option (list Z)
}.

(** A thread that holds no latch, with a transaction whose page set is
    empty, and without a transaction. *)
Definition with_transaction (t : BPlusTree) : Index :=
  mkIndex t ∅ ∅ (Some []).

Definition without_transaction (t : BPlusTree) : Index :=
  mkIndex t ∅ ∅ None.

Definition set_tree (s : Index) (t : BPlusTree) : Index :=
  mkIndex t (read_latched s) (write_latched s) (transaction s).

Definition set_page_set (s : Index) (f : list Z → list Z) : Index :=
  mkIndex (tree s) (read_latched s) (write_latched s) (f <$> transaction s).

(** *** Latches *)

(** Modelled from the spec: every buffered page carries a reader/writer
    latch, a request for it may block, and there are no timeouts.  The
    thread is alone here, so a request waits only for a latch the thread
    itself holds, and then for ever: [None]. *)
Definition RLatch (s : Index) (page_id : Z) : option Index :=
  if decide (page_id ∈ read_latched s ∨ page_id ∈ write_latched s) then None
  else Some (mkIndex (tree s) ({[page_id]} ∪ read_latched s)
               (write_latched s) (transaction s)).

(** Modelled from the spec: the request for the write latch, which waits
    like [RLatch]. *)
Definition WLatch (s : Index) (page_id : Z) : option Index :=
  if decide (page_id ∈ read_latched s ∨ page_id ∈ write_latched s) then None
  else Some (mkIndex (tree s) (read_latched s)
               ({[page_id]} ∪ write_latched s) (transaction s)).

(** Modelled from the spec: the release of the read latch; the release of
    a latch that is not held is not defined: [None]. *)
Definition RUnlatch (s : Index) (page_id : Z) : option Index :=
  if decide (page_id ∈ read_latched s) then
    Some (mkIndex (tree s) (read_latched s ∖ {[page_id]}) (write_latched s)
            (transaction s))
  else None.

(** Modelled from the spec: the release of the write latch, like
    [RUnlatch]. *)
Definition WUnlatch (s : Index) (page_id : Z) : option Index :=
  if decide (page_id ∈ write_latched s) then
    Some (mkIndex (tree s) (read_latched s) (write_latched s ∖ {[page_id]})
            (transaction s))
  else None.

(** [RLatch] for [SEARCH], [WLatch] for the other operations. *)
Definition latch (op : OperationType) (s : Index) (page_id : Z)
  : option Index :=
  match op with SEARCH => RLatch s page_id | _ => WLatch s page_id end.

Definition unlatch (op : OperationType) (s : Index) (page_id : Z)
  : option Index :=
  match op with SEARCH => RUnlatch s page_id | _ => WUnlatch s page_id end.

(** *** The page set *)

(** [transaction->AddIntoPageSet(page)], under [transaction != nullptr]. *)
Definition AddIntoPageSet (s : Index) (page_id : Z) : Index :=
  set_page_set s (λ page_set, page_set ++ [page_id]).

(** [if (!page_set->empty()) page_set->pop_back()]. *)
Definition pop_back (page_set : list Z) : list Z := removelast page_set.

(** [if (!page_set->empty() && page_set->back() == page)
       page_set->pop_back()]. *)
Definition pop_if_back (page_id : Z) (page_set : list Z) : list Z :=
  if decide (last page_set = Some page_id) then removelast page_set
  else page_set.

(** The loop that erases the first page of the set with the id
    [page_id]. *)
Fixpoint erase_page (page_id : Z) (page_set : list Z) : list Z :=
  match page_set with
  | [] => []
  | p :: rest =>
      if decide (p = page_id) then rest else p :: erase_page page_id rest
  end.

(** [pop_back] if the page is at the back, else the loop that erases. *)
Definition pop_or_erase (page_id : Z) (page_set : list Z) : list Z :=
  if decide (last page_set = Some page_id) then removelast page_set
  else erase_page page_id page_set.

(** The loops over the page set that look for a page id; [false] under
    [transaction == nullptr]. *)
Definition in_page_set (s : Index) (page_id : Z) : bool :=
  match transaction s with
  | Some page_set => bool_decide (page_id ∈ page_set)
  | None => false
  end.

(** [locked_page->WUnlatch()] (or [RUnlatch]) on the pages of [backwards]
    in turn. *)
Fixpoint release_each (op : OperationType) (s : Index) (backwards : list Z)
  : option Index :=
  match backwards with
  | [] => Some s
  | page_id :: rest => s ← unlatch op s page_id; release_each op s rest
  end.

(** The loop at the end of a call, under [transaction != nullptr]:
    [while (!page_set->empty())] take the page at the back, pop it and
    release its latch. *)
Definition release_page_set (op : OperationType) (s : Index)
  : option Index :=
  match transaction s with
  | None => Some s
  | Some page_set =>
      release_each op (set_page_set s (λ _, [])) (rev page_set)
  end.

(** *** The way down *)

(** [IsSafe(node, op)]. *)
Definition IsSafe (node : BPlusTreePage) (op : OperationType) : bool :=
  if IsRootPage node then
    match op with
    | SEARCH => true
    | INSERT => bool_decide (GetSize node < GetMaxSize node)
    | DELETE => bool_decide (1 < GetSize node)
    end
  else
    match op with
    | SEARCH => true
    | INSERT => bool_decide (GetSize node < GetMaxSize node)
    | DELETE => bool_decide (GetMinSize node < GetSize node)
    end.

(** The loop of [FindLeafPage] from the page [current_page_id], which is
    latched. *)
Fixpoint descend (op : OperationType) (fuel : nat) (s : Index)
  (current_page_id : Z) (key : Z) (left_most : bool)
  : option (option Z * Index) :=
  node ← page_at (tree s) current_page_id;
  match node with
  | LeafNode _ => Some (Some current_page_id, s)
  | InternalNode n =>
      match fuel with
      | O => None
      | S fuel' =>
          next_page_id ← child_for (i_items n) key left_most;
          let '(ok, t) := FetchPage (tree s) next_page_id in
          let s := set_tree s t in
          if ok then
            s ← latch op s next_page_id;
            child_node ← page_at (tree s) next_page_id;
            let is_safe := IsSafe child_node op in
            s ← (if match op with SEARCH => true | _ => is_safe end then
                   (* release the parent *)
                   let s := set_page_set s (pop_or_erase current_page_id) in
                   s ← unlatch op s current_page_id;
                   Some (AddIntoPageSet s next_page_id)
                 else Some (AddIntoPageSet s next_page_id));
            descend op fuel' s next_page_id key left_most
          else
            s ← unlatch op s current_page_id;
            Some (None, set_page_set s pop_back)
      end
  end.

(** [FindLeafPage(key, left_most, op, transaction)]: the id of the leaf
    page, latched, or [nullptr]. *)
Definition FindLeafPage (op : OperationType) (fuel : nat) (s : Index)
  (key : Z) (left_most : bool) : option (option Z * Index) :=
  let root_id := root_page_id_ (tree s) in
  if bool_decide (root_id = INVALID_PAGE_ID) then Some (None, s)
  else
    let '(ok, t) := FetchPage (tree s) root_id in
    let s := set_tree s t in
    if ok then
      s ← latch op s root_id;
      descend op fuel (AddIntoPageSet s root_id) root_id key left_most
    else Some (None, s).

(** [GetValue(key, result, transaction)]. *)
Definition GetValue (fuel : nat) (s : Index) (key : Z)
  : option (option Z * Index) :=
  '(page, s) ← FindLeafPage SEARCH fuel s key false;
  match page with
  | None => Some (None, s)
  | Some leaf_id =>
      leaf_node ← leaf_at (tree s) leaf_id;
      let found := leaf_lookup (l_items leaf_node) key in
      s ← RUnlatch s leaf_id;
      s ← release_page_set SEARCH (set_page_set s (pop_if_back leaf_id));
      Some (found, s)
  end.

(** *** Insert *)

(** The check on the successor leaf in [Insert]: the successor is
    write-latched while it is looked at, and takes the place of the leaf
    in the page set when the key belongs to it. *)
Definition hand_off (s : Index) (page_id : Z) (leaf_node : LeafPage)
  (key : Z) (insert_pos : nat) (duplicate_found : bool)
  : option (Z * nat * bool * Index) :=
  let items := l_items leaf_node in
  let stay := Some (page_id, insert_pos, duplicate_found, s) in
  if bool_decide (length items ≤ insert_pos)%nat
     && bool_decide (0 < length items)%nat then
    last_key ← KeyAt items (Z.of_nat (length items) - 1);
    if bool_decide (0 < comparator_ key last_key) then
      let next_page_id := l_next leaf_node in
      if bool_decide (next_page_id ≠ INVALID_PAGE_ID) then
        let '(ok, t) := FetchPage (tree s) next_page_id in
        let s := set_tree s t in
        if ok then
          s ← WLatch s next_page_id;
          next_leaf ← leaf_at (tree s) next_page_id;
          let back := (s ← WUnlatch s next_page_id;
                       Some (page_id, insert_pos, duplicate_found, s)) in
          match l_items next_leaf with
          | (k0, _) :: _ =>
              if bool_decide (0 ≤ comparator_ key k0) then
                s ← WUnlatch s page_id;
                let s := set_page_set s (pop_if_back page_id) in
                let s := AddIntoPageSet s next_page_id in
                let '(pos, dup) :=
                  find_insert_pos (l_items next_leaf) key 0 in
                Some (next_page_id, pos, dup, s)
              else back
          | [] => back
          end
        else Some (page_id, insert_pos, duplicate_found, s)
      else stay
    else stay
  else stay.

(** [parent_page->WUnlatch()] and the pop of the parent from the page set,
    under [!parent_locked]. *)
Definition release_parent (parent_locked : bool) (s : Index)
  (parent_id : Z) : option Index :=
  if parent_locked then Some s
  else
    s ← WUnlatch s parent_id;
    Some (set_page_set s (pop_if_back parent_id)).

(** The release of the old root or of its new sibling in
    [InsertIntoParent], under [left_in_set] or [right_in_set]. *)
Definition release_listed (in_set : bool) (s : Index) (page_id : Z)
  : option Index :=
  if in_set then
    s ← WUnlatch s page_id;
    Some (set_page_set s (erase_page page_id))
  else Some s.

(** The body of [InsertIntoParent(parent_id, left_id, key, right_id,
    transaction)], [recur] standing for the recursive call. *)
Definition InsertIntoParent_body
  (recur : Index → Z → Z → Z → Z → option Index) (s : Index)
  (parent_id left_id key right_id : Z) : option Index :=
  if bool_decide (parent_id = INVALID_PAGE_ID) then
    (* a new root *)
    let '(new_root, t) := NewPage (tree s) in
    match new_root with
    | None => Some (set_tree s t)
    | Some new_root_id =>
        let t :=
          write_page t new_root_id
            (InternalNode (mkInternal INVALID_PAGE_ID (internal_max_size_ t)
                             [(0, left_id); (key, right_id)])) in
        let left_in_set := in_page_set s left_id in
        let right_in_set := in_page_set s right_id in
        let '(left_ok, t) :=
          if left_in_set then (true, t) else FetchPage t left_id in
        let '(right_ok, t) :=
          if right_in_set then (true, t) else FetchPage t right_id in
        if left_ok && right_ok then
          t ← set_parent_of t left_id new_root_id;
          t ← set_parent_of t right_id new_root_id;
          t ← UpdateRootPageId (set_root t new_root_id) false;
          s ← release_listed left_in_set (set_tree s t) left_id;
          release_listed right_in_set s right_id
        else
          s ← release_listed (left_ok && left_in_set) (set_tree s t) left_id;
          release_listed (right_ok && right_in_set) s right_id
    end
  else
    let parent_locked := in_page_set s parent_id in
    fetched ←
      (if parent_locked then Some (true, s)
       else
         let '(ok, t) := FetchPage (tree s) parent_id in
         let s := set_tree s t in
         if ok then
           s ← WLatch s parent_id; Some (true, AddIntoPageSet s parent_id)
         else Some (false, s));
    let '(ok, s) := fetched in
    if negb ok then Some s
    else
      let t := tree s in
      parent_node ← internal_at t parent_id;
      let insert_pos :=
        match index_of_child (i_items parent_node) left_id 0 with
        | Some i => S i
        | None => O
        end in
      let t :=
        write_page t parent_id
          (InternalNode
             (set_i_items parent_node
                (insert_at (i_items parent_node) insert_pos
                   (key, right_id)))) in
      let '(right_ok, t) :=
        if in_page_set s right_id then (true, t) else FetchPage t right_id in
      t ← (if right_ok then set_parent_of t right_id parent_id else Some t);
      parent_node ← internal_at t parent_id;
      let items := i_items parent_node in
      let size := Z.of_nat (length items) in
      if bool_decide (i_max parent_node < size) then
        (* split the internal page *)
        let '(new_page, t) := NewPage t in
        match new_page with
        | None => release_parent parent_locked (set_tree s t) parent_id
        | Some new_page_id =>
            let split_index := Z.quot (size + 1) 2 in
            middle_key ← KeyAt items split_index;
            pivot_child ← ValueAt items split_index;
            let new_items :=
              (0, pivot_child) :: drop (S (Z.to_nat split_index)) items in
            let t :=
              write_page t new_page_id
                (InternalNode (mkInternal (i_parent parent_node)
                                 (internal_max_size_ t) new_items)) in
            let t :=
              write_page t parent_id
                (InternalNode
                   (set_i_items parent_node
                      (take (Z.to_nat split_index) items))) in
            '(ok, t) ← adopt_children t (snd <$> new_items) new_page_id;
            s ← release_parent parent_locked (set_tree s t) parent_id;
            if (ok : bool) then
              parent_node ← internal_at (tree s) parent_id;
              recur s (i_parent parent_node) parent_id middle_key new_page_id
            else Some s
        end
      else release_parent parent_locked (set_tree s t) parent_id.

(** [InsertIntoParent]; [fuel] bounds the recursion towards the root. *)
Fixpoint InsertIntoParent (fuel : nat)
  : Index → Z → Z → Z → Z → option Index :=
  InsertIntoParent_body
    match fuel with
    | O => λ _ _ _ _ _, None
    | S fuel' => InsertIntoParent fuel'
    end.

(** [Insert(key, value, transaction)]. *)
Definition Insert (fuel : nat) (s : Index) (key value : Z)
  : option (bool * Index) :=
  if bool_decide (root_page_id_ (tree s) = INVALID_PAGE_ID) then
    let '(new_page, t) := NewPage (tree s) in
    match new_page with
    | None => Some (false, set_tree s t)
    | Some new_page_id =>
        let t :=
          write_page t new_page_id
            (LeafNode (mkLeaf INVALID_PAGE_ID (leaf_max_size_ t)
                         INVALID_PAGE_ID [(key, value)])) in
        t ← UpdateRootPageId (set_root t new_page_id) true;
        Some (true, set_tree s t)
    end
  else
    '(page, s) ← FindLeafPage INSERT fuel s key false;
    match page with
    | None => Some (false, s)
    | Some page_id =>
        leaf_node ← leaf_at (tree s) page_id;
        let '(insert_pos, duplicate_found) :=
          find_insert_pos (l_items leaf_node) key 0 in
        '(page_id, insert_pos, duplicate_found, s) ←
          hand_off s page_id leaf_node key insert_pos duplicate_found;
        if (duplicate_found : bool) then
          let s := set_page_set s (pop_or_erase page_id) in
          s ← WUnlatch s page_id;
          s ← release_page_set INSERT s;
          Some (false, s)
        else
          leaf_node ← leaf_at (tree s) page_id;
          let items := insert_at (l_items leaf_node) insert_pos (key, value) in
          let t :=
            write_page (tree s) page_id
              (LeafNode (set_l_items leaf_node items)) in
          let size := Z.of_nat (length items) in
          if bool_decide (l_max leaf_node ≤ size) then
            (* split the leaf *)
            let '(new_page, t) := NewPage t in
            match new_page with
            | None =>
                s ← WUnlatch (set_tree s t) page_id;
                s ← release_page_set INSERT
                      (set_page_set s (pop_if_back page_id));
                Some (false, s)
            | Some new_page_id =>
                let split_index := Z.to_nat (Z.quot size 2) in
                let new_items := drop split_index items in
                let t :=
                  write_page t new_page_id
                    (LeafNode (mkLeaf (l_parent leaf_node) (leaf_max_size_ t)
                                 (l_next leaf_node) new_items)) in
                let t :=
                  write_page t page_id
                    (LeafNode (mkLeaf (l_parent leaf_node) (l_max leaf_node)
                                 new_page_id (take split_index items))) in
                middle_key ← KeyAt new_items 0;
                let s := set_page_set (set_tree s t) (pop_if_back page_id) in
                s ← WUnlatch s page_id;
                s ← InsertIntoParent fuel s (l_parent leaf_node) page_id
                      middle_key new_page_id;
                s ← release_page_set INSERT s;
                Some (true, s)
            end
          else
            s ← WUnlatch (set_tree s t) page_id;
            s ← release_page_set INSERT
                  (set_page_set s (pop_if_back page_id));
            Some (true, s)
    end.

(** *** What a call holds on its way *)

(** The thread in the middle of a call made with a transaction: the page
    set is [page_set], and the latches held are those of the pages
    [latched], of the kind [op] takes. *)
Definition holding (op : OperationType) (t : BPlusTree) (latched : gset Z)
  (page_set : list Z) : Index :=
  match op with
  | SEARCH => mkIndex t latched ∅ (Some page_set)
  | _ => mkIndex t ∅ latched (Some page_set)
  end.

(** The thread in the middle of a call made without a transaction: the
    latches held are those of the pages [latched], of the kind [op]
    takes. *)
Definition latching (op : OperationType) (t : BPlusTree) (latched : gset Z)
  : Index :=
  match op with
  | SEARCH => mkIndex t latched ∅ None
  | _ => mkIndex t ∅ latched None
  end.

(** The page set fits the tree: the pool serves every request and has
    allotted the id of every page, no page is listed twice, and every page
    listed is in the store. *)
Definition fits (t : BPlusTree) (page_set : list Z) : Prop :=
  served t ∧ ids_below t ∧ NoDup page_set ∧
  ∀ p, p ∈ page_set → p ≠ INVALID_PAGE_ID ∧ is_Some (page_at t p).

(** From [t] to [t'] no page has gone. *)
Definition grown (t t' : BPlusTree) : Prop :=
  served t' ∧ ids_below t' ∧
  ∀ p, is_Some (page_at t p) → is_Some (page_at t' p).

(** Every page but the root has room for one more item: it is safe for
    an insertion. *)
Definition roomy (t : BPlusTree) : Prop :=
  ∀ pid p, page_at t pid = Some p → IsRootPage p = false →
           IsSafe p INSERT = true.

(** *** Sequences of calls *)

(** The calls [Insert(k, v, transaction)] for the pairs of [items] in
    turn. *)
Fixpoint insert_all (fuel : nat) (s : Index) (items : list (Z * Z))
  : option Index :=
  match items with
  | [] => Some s
  | (key, value) :: rest =>
      '(_, s) ← Insert fuel s key value; insert_all fuel s rest
  end.

(** The calls of [insert_all] as operations. *)
Definition inserts (items : list (Z * Z)) : list Operation :=
  (λ kv, InsertOp kv.1 kv.2) <$> items.

(** The pairs [(1, 1)] to [(n, n)] in ascending order. *)
Definition ascending_items (n : nat) : list (Z * Z) :=
  (λ k, (Z.of_nat k, Z.of_nat k)) <$> seq 1 n.

End Crabbing.

(* ===================================================================== *)
(** * Properties *)
(* ===================================================================== *)

(** ** Extendible hash table *)

Section HashFacts.
Context {K V : Type} `{EqDecision K}.
Variable hash : K → Z.
Import ExtendibleHash.

(** The test [hash & split_mask] reads one bit. *)
Lemma on_split_side_testbit (d h : Z) :
  0 ≤ d → on_split_side (Z.shiftl 1 d) h = Z.testbit h d.
Proof.
  intros Hd. unfold on_split_side.
  rewrite Z.shiftl_1_l.
  destruct (Z.testbit h d) eqn:Hb.
  - apply negb_true_iff, Z.eqb_neq. intros H0.
    assert (Hbit : Z.testbit (Z.land h (2 ^ d)) d = false)
      by (rewrite H0; apply Z.bits_0).
    rewrite Z.land_spec, Hb, Z.pow2_bits_true in Hbit by lia. discriminate.
  - apply negb_false_iff, Z.eqb_eq. apply Z.bits_inj'. intros n Hn.
    rewrite Z.land_spec, Z.bits_0, Z.pow2_bits_eqb by lia.
    destruct (Z.eqb_spec d n) as [->|]; [rewrite Hb|];
      auto using andb_false_r.
Qed.

Lemma bucket_Insert_fail (b : Bucket K V) key value b' :
  bucket_Insert b key value = (false, b') →
  b' = b ∧ update_item (list_ b) key value = None ∧ IsFull b = true.
Proof.
  unfold bucket_Insert. destruct (update_item _ _ _); [discriminate|].
  destruct (IsFull b); [|discriminate]. intros [= <-]. auto.
Qed.

Lemma find_update_item (l : list (K * V)) key value l' :
  update_item l key value = Some l' → find_item l' key = Some value.
Proof.
  revert l'. induction l as [|[k v] l IH]; intros l'; simpl; [discriminate|].
  destruct (decide (k = key)) as [->|Hne].
  - intros [= <-]. simpl. by rewrite decide_True.
  - destruct (update_item l key value) eqn:E; [|discriminate].
    intros [= <-]. simpl. rewrite decide_False by done. eauto.
Qed.

Lemma find_item_append (l : list (K * V)) key value :
  update_item l key value = None →
  find_item (l ++ [(key, value)]) key = Some value.
Proof.
  induction l as [|[k v] l IH]; simpl.
  - intros _. by rewrite decide_True.
  - destruct (decide (k = key)); [discriminate|].
    destruct (update_item l key value); [discriminate|]. auto.
Qed.

Lemma bucket_Insert_ok (b : Bucket K V) key value b' :
  bucket_Insert b key value = (true, b') → bucket_Find b' key = Some value.
Proof.
  unfold bucket_Insert, bucket_Find.
  destruct (update_item _ _ _) eqn:E.
  - intros [= <-]. simpl. eauto using find_update_item.
  - destruct (IsFull b); [discriminate|]. intros [= <-]. simpl.
    by apply find_item_append.
Qed.

(** When [Insert] returns, the key is found with the value. *)
Lemma Insert_then_Find fuel : ∀ (t : Table K V) key value t',
  Insert hash fuel t key value = Some t' →
  Find hash t' key = Some (Some value).
Proof.
  induction fuel as [|n IH]; intros t key value t'; simpl; [discriminate|].
  destruct (dir_ t !! IndexOf hash t key) as [a|] eqn:Ha; [|discriminate].
  simpl.
  destruct (heap t !! a) as [b|] eqn:Hb; [|discriminate]. simpl.
  destruct (bucket_Insert b key value) as [[] b'] eqn:Hi.
  - intros [= <-]. unfold Find. simpl.
    change (IndexOf hash (set_heap t (<[a:=b']> (heap t))) key)
      with (IndexOf hash t key).
    rewrite Ha. simpl.
    rewrite list_lookup_insert_eq by (by eapply lookup_lt_Some).
    simpl. f_equal. eauto using bucket_Insert_ok.
  - destruct (split_step hash t a b) as [t1|]; [|discriminate]. simpl.
    apply IH.
Qed.

(** One pass over a full bucket. *)
Lemma split_step_spec (t : Table K V) a b :
  heap t !! a = Some b → 0 ≤ depth_ b →
  ∃ t', split_step hash t a b = Some t' ∧
    global_depth_ t' = (if decide (depth_ b = global_depth_ t)
                        then global_depth_ t + 1 else global_depth_ t) ∧
    num_buckets_ t' = num_buckets_ t + 1 ∧
    (∀ i, dir_ t' !! i = directory_after t a b i) ∧
    heap t' !! a =
      Some (mkBucket (size_ b) (depth_ b + 1) (items_with_bit hash b false)) ∧
    heap t' !! length (heap t) =
      Some (mkBucket (bucket_size_ t) (depth_ b + 1)
              (items_with_bit hash b true)) ∧
    (∀ a', a' ≠ a → (a' < length (heap t))%nat →
           heap t' !! a' = heap t !! a').
Proof.
  intros Hb Hd. unfold split_step, RedistributeBucket.
  set (t1 := if decide (depth_ b = global_depth_ t)
             then grow_directory t else t).
  assert (Hh : heap t1 = heap t) by (unfold t1; case_decide; done).
  assert (Hs : bucket_size_ t1 = bucket_size_ t)
    by (unfold t1; case_decide; done).
  assert (Hn : num_buckets_ t1 = num_buckets_ t)
    by (unfold t1; case_decide; done).
  rewrite Hh, Hb. simpl. eexists; split; [reflexivity|]. simpl.
  replace (depth_ b + 1 - 1) with (depth_ b) by lia.
  pose proof (lookup_lt_Some _ _ _ Hb) as Hlt.
  repeat split.
  - unfold t1; case_decide; done.
  - by rewrite Hn.
  - intros i. unfold directory_after. rewrite list_lookup_imap.
    replace (dir_ t1)
      with (if decide (depth_ b = global_depth_ t) then dir_ t ++ dir_ t
            else dir_ t) by (unfold t1; case_decide; done).
    destruct (_ !! i) as [old|]; simpl; [|done].
    rewrite on_split_side_testbit by done. case_decide; [subst|]; done.
  - rewrite lookup_app_l by (rewrite length_insert; done).
    rewrite list_lookup_insert_eq by done. f_equal.
    unfold set_list, items_with_bit. simpl. f_equal.
    apply list_filter_iff. intros [k v]. simpl.
    by rewrite on_split_side_testbit.
  - rewrite lookup_app_r by (rewrite length_insert; done).
    rewrite length_insert, Nat.sub_diag. simpl. rewrite Hs. f_equal.
    unfold items_with_bit. f_equal.
    apply list_filter_iff. intros [k v]. simpl.
    by rewrite on_split_side_testbit.
  - intros a' Hne Hlt'.
    rewrite lookup_app_l by (rewrite length_insert; done).
    by rewrite list_lookup_insert_ne.
Qed.

End HashFacts.

(** ** LRU-K replacer *)

Section ReplacerFacts.
Import LRUK.
Implicit Types (r : Replacer) (h hc hg : list Z) (st : scan).



Lemma front_oldest h : h ≠ [] → front h = Some (oldest h).
Proof. destruct h; [done|]. reflexivity. Qed.

Lemma distance_of_history r h :
  history_ok r h →
  backward_k_distance r h =
    if is_inf r h then Infinite else Finite (current_timestamp_ r - oldest h).
Proof.
  intros (Hne & Hlen & _). unfold backward_k_distance, kth_most_recent, is_inf.
  case_bool_decide; [done|].
  replace (length h - Z.to_nat (k_ r))%nat with 0%nat by lia.
  destruct h; [done|]. reflexivity.
Qed.

Lemma better_code_better r h hg :
  history_ok r h → history_ok r hg → better r h hg ↔ code_better r h hg.
Proof.
  intros Hh Hg. unfold better, code_better.
  rewrite !distance_of_history by done.
  destruct (is_inf r h), (is_inf r hg); try tauto. lia.
Qed.

Lemma code_better_trans r h1 h2 h3 :
  code_better r h1 h2 → code_better r h2 h3 → code_better r h1 h3.
Proof.
  unfold code_better.
  destruct (is_inf r h1), (is_inf r h2), (is_inf r h3); try tauto; lia.
Qed.

Lemma code_better_refl r h : code_better r h h.
Proof. unfold code_better. destruct (is_inf r h); lia. Qed.


Lemma wrap_small z : 0 ≤ z < 2 ^ 64 → wrap z = z.
Proof. intros. unfold wrap. by apply Z.mod_small. Qed.

Lemma oldest_range r h :
  current_timestamp_ r < 2 ^ 64 → history_ok r h →
  0 ≤ oldest h ∧ oldest h ≤ current_timestamp_ r.
Proof.
  intros Hc (Hne & _ & Hall). destruct h as [|x h]; [done|]. simpl.
  apply Hall. left.
Qed.

Lemma scan_step_inv r seen st f h :
  wf r →
  (∀ g hg, (g, hg) ∈ seen → history_ r !! g = Some hg) →
  history_ r !! f = Some h →
  scan_inv r seen st →
  ∃ st', scan_step r st (f, h) = Some st' ∧ scan_inv r (seen ++ [(f, h)]) st'.
Proof.
  intros (Hts & _ & Hwf) Hseen Hf Hinv.
  destruct (Hwf _ _ Hf) as [Hf1 Hok].
  pose proof (front_oldest h (proj1 Hok)) as Hfront.
  pose proof (oldest_range r h Hts Hok) as Hrange.
  unfold scan_step. simpl.
  destruct (is_evictable r f) eqn:Hev; simpl.
  2:{ eexists; split; [reflexivity|]. unfold scan_inv in *.
      case_decide.
      - destruct Hinv as [? Hn]. split; [done|]. intros g hg [?|Hin%list_elem_of_singleton]%elem_of_app; [eauto|].
        by inversion Hin; subst.
      - destruct Hinv as (hc & ? & ? & ? & ? & ? & Hb). exists hc. repeat split; try done.
        + apply elem_of_app; auto.
        + intros g hg [?|Hin%list_elem_of_singleton]%elem_of_app Hg; [eauto|].
          inversion Hin; subst. congruence. }
  rewrite Hfront. simpl.
  fold (is_inf r h).
  assert (Hnew : ∀ st', candidate_frame st' = f →
            has_inf st' = is_inf r h →
            (has_inf st' = true → earliest_timestamp st' = oldest h) →
            (has_inf st' = false → max_k_distance st' = current_timestamp_ r - oldest h) →
            (∀ g hg, (g, hg) ∈ seen → is_evictable r g = true → code_better r h hg) →
            scan_inv r (seen ++ [(f, h)]) st').
  { intros st' Hc Hi He Hm Hb. unfold scan_inv. rewrite Hc, decide_False by done.
    exists h. repeat split; try done.
    - apply elem_of_app. right. by apply list_elem_of_singleton.
    - intros g hg [?|Hin%list_elem_of_singleton]%elem_of_app Hg; [eauto|].
      inversion Hin; subst. apply code_better_refl. }
  assert (Hkeep : ∀ hc, candidate_frame st ≠ -1 →
            (candidate_frame st, hc) ∈ seen →
            is_evictable r (candidate_frame st) = true →
            has_inf st = is_inf r hc →
            (has_inf st = true → earliest_timestamp st = oldest hc) →
            (has_inf st = false → max_k_distance st = current_timestamp_ r - oldest hc) →
            (∀ g hg, (g, hg) ∈ seen → is_evictable r g = true → code_better r hc hg) →
            code_better r hc h →
            scan_inv r (seen ++ [(f, h)]) st).
  { intros hc Hc Hin He Hi Hea Hm Hb Hbh. unfold scan_inv. rewrite decide_False by done.
    exists hc. repeat split; try done.
    - apply elem_of_app; auto.
    - intros g hg [?|Hin'%list_elem_of_singleton]%elem_of_app Hg; [eauto|].
      by inversion Hin'; subst. }
  unfold scan_inv in Hinv.
  destruct (is_inf r h) eqn:Hinf.
  - (* the frame has fewer than k accesses *)
    destruct (has_inf st) eqn:Hhas; simpl.
    + case_decide as Hc; [destruct Hinv; congruence|].
      destruct Hinv as (hc & Hin & He & Hi & Hea & Hm & Hb).
      specialize (Hea eq_refl).
      case_bool_decide as Hlt; eexists; (split; [reflexivity|]).
      * apply Hnew; simpl; try done.
        intros g hg Hg1 Hg2. eapply code_better_trans; [|by eapply Hb].
        unfold code_better. rewrite Hinf, <- Hi. lia.
      * eapply Hkeep; try done. unfold code_better. rewrite <- Hi, Hinf. lia.
    + eexists; split; [reflexivity|]. apply Hnew; simpl; try done.
      intros g hg Hg1 Hg2. case_decide as Hc.
      * destruct Hinv as [_ Hn]. rewrite (Hn _ _ Hg1) in Hg2. done.
      * destruct Hinv as (hc & Hin & He & Hi & Hea & Hm & Hb).
        eapply code_better_trans; [|by eapply Hb].
        unfold code_better. rewrite Hinf, <- Hi. done.
  - (* the frame has k accesses *)
    rewrite wrap_small by lia.
    destruct (has_inf st) eqn:Hhas; simpl.
    + eexists; split; [reflexivity|].
      case_decide as Hc; [destruct Hinv; congruence|].
      destruct Hinv as (hc & Hin & He & Hi & Hea & Hm & Hb).
      eapply Hkeep; try done. unfold code_better. rewrite <- Hi, Hinf. done.
    + case_decide as Hc.
      * rewrite bool_decide_eq_true_2 by done. simpl.
        eexists; split; [reflexivity|]. apply Hnew; simpl; try done.
        intros g hg Hg1 Hg2. destruct Hinv as [_ Hn]. rewrite (Hn _ _ Hg1) in Hg2. done.
      * destruct Hinv as (hc & Hin & He & Hi & Hea & Hm & Hb).
        specialize (Hm eq_refl).
        rewrite (bool_decide_eq_false_2 (candidate_frame st = -1)) by done. simpl.
        case_bool_decide as Hgt.
        { eexists; split; [reflexivity|]. apply Hnew; simpl; try done.
          intros g hg Hg1 Hg2. eapply code_better_trans; [|by eapply Hb].
          unfold code_better. rewrite Hinf, <- Hi. lia. }
        case_bool_decide as Heq.
        { rewrite (Hseen _ _ Hin). simpl.
          destruct (Hwf _ _ (Hseen _ _ Hin)) as [_ Hokc].
          rewrite (front_oldest hc (proj1 Hokc)). simpl.
          case_bool_decide as Hlt; [lia|].
          eexists; split; [reflexivity|].
          eapply Hkeep; try done. unfold code_better. rewrite <- Hi, Hinf. lia. }
        eexists; split; [reflexivity|].
        eapply Hkeep; try done. unfold code_better. rewrite <- Hi, Hinf. lia.
Qed.

Lemma scan_entries_inv r entries : ∀ seen st,
  wf r →
  (∀ g hg, (g, hg) ∈ seen ++ entries → history_ r !! g = Some hg) →
  scan_inv r seen st →
  ∃ st', scan_entries r st entries = Some st' ∧
         scan_inv r (seen ++ entries) st'.
Proof.
  induction entries as [|[f h] entries IH]; intros seen st Hwf Hall Hinv; simpl.
  - exists st. by rewrite app_nil_r.
  - destruct (scan_step_inv r seen st f h) as (st1 & -> & Hinv1); try done.
    + intros g hg Hin. apply Hall, elem_of_app. auto.
    + apply Hall, elem_of_app. right. left.
    + simpl. destruct (IH (seen ++ [(f, h)]) st1) as (st' & Hs & Hinv'); try done.
      * by rewrite <- app_assoc.
      * exists st'. by rewrite <- app_assoc in Hinv'.
Qed.

(** What [Evict] returns, whatever the order [entries] in which the loop
    visits [history_]. *)
Lemma Evict_in_order_spec r (entries : list (Z * list Z)) :
  wf r → entries ≡ₚ map_to_list (history_ r) → curr_size_ r ≠ 0 →
  ∃ st, Evict_in_order r entries = Some (evict_finish r st) ∧
        scan_inv r entries st.
Proof.
  intros Hwf Hperm Hsz. unfold Evict_in_order.
  rewrite bool_decide_eq_false_2 by done.
  destruct (scan_entries_inv r entries [] scan_init Hwf) as (st & -> & Hinv).
  - intros g hg Hin. simpl in Hin. rewrite Hperm in Hin.
    by apply elem_of_map_to_list in Hin.
  - unfold scan_inv. simpl. split; [done|]. intros g hg Hin. inversion Hin.
  - by exists st.
Qed.

Lemma new_replacer_wf (num_frames k : Z) :
  num_frames < 2 ^ 64 → wf (new_replacer num_frames k).
Proof.
  intros Hn. split; [simpl; lia|]. split; [done|].
  intros f h Hf. simpl in Hf. by rewrite lookup_empty in Hf.
Qed.

Lemma valid_frame_not_sentinel r f :
  replacer_size_ r < 2 ^ 64 → valid_frame r f = true → f ≠ -1.
Proof.
  intros Hs Hv ->. unfold valid_frame in Hv.
  apply bool_decide_eq_true_1 in Hv.
  change (wrap (-1)) with (2 ^ 64 - 1) in Hv. lia.
Qed.

Lemma RecordAccess_wf r f r' :
  wf r → 1 ≤ k_ r → current_timestamp_ r + 1 < 2 ^ 64 →
  0 ≤ current_timestamp_ r →
  RecordAccess r f = Some r' → wf r'.
Proof.
  intros (Hts & Hsz & Hwf) Hk Hnext Hpos. unfold RecordAccess.
  destruct (valid_frame r f) eqn:Hv; simpl; [|discriminate].
  intros [= <-]. split; [|split]; simpl.
  - rewrite wrap_small by lia. lia.
  - done.
  - intros g hg. rewrite wrap_small by lia.
    assert (Hmono : ∀ h0 sz hs ev, history_ok r h0 →
              history_ok (mkReplacer (replacer_size_ r) (k_ r)
                (current_timestamp_ r + 1) sz hs ev) h0).
    { intros h0 sz hs ev (H1 & H2 & H3). split; [done|]. split; [done|]. simpl.
      intros t Ht. specialize (H3 t Ht). lia. }
    destruct (decide (f = g)) as [<-|Hfg];
      [rewrite lookup_insert_eq|rewrite lookup_insert_ne by done].
    + intros [= <-]. split; [by eapply valid_frame_not_sentinel|].
      set (old := history_of r f).
      assert (Hold : Z.of_nat (length old) ≤ k_ r ∧
                     ∀ t, t ∈ old → 0 ≤ t ∧ t ≤ current_timestamp_ r).
      { unfold old, history_of. destruct (history_ r !! f) as [h0|] eqn:Hh0; simpl.
        - destruct (Hwf _ _ Hh0) as [_ (? & ? & ?)]. done.
        - split; [simpl; lia|]. intros t Ht. inversion Ht. }
      destruct Hold as [Hlen Hall].
      assert (Hall' : ∀ t, t ∈ old ++ [current_timestamp_ r] →
                0 ≤ t ∧ t ≤ current_timestamp_ r + 1).
      { intros t [Ht|Ht%list_elem_of_singleton]%elem_of_app.
        - specialize (Hall t Ht). lia.
        - subst. lia. }
      unfold history_ok. simpl. case_bool_decide as Hgt.
      * rewrite length_app in Hgt. simpl in Hgt.
        clearbody old. destruct old as [|x old']; simpl in Hgt |- *; [lia|].
        split; [by destruct old'|]. split.
        -- rewrite length_app. cbn [length] in Hlen |- *. lia.
        -- intros t Ht. apply Hall'. by right.
      * split; [by destruct old|]. split; [lia|done].
    + intros Hg. destruct (Hwf _ _ Hg) as [? Hok]. split; [done|].
      by apply Hmono.
Qed.

Lemma SetEvictable_wf r f b r' :
  wf r → SetEvictable r f b = Some r' → wf r'.
Proof.
  intros Hwf. unfold SetEvictable.
  destruct (valid_frame r f); simpl; [|discriminate].
  destruct (history_ r !! f); [|by intros [= <-]].
  case_bool_decide; intros [= <-]; done.
Qed.

End ReplacerFacts.

Lemma s3_replacer_state : LRUK.s3_replacer = Some LRUK.s3_state.
Proof. vm_compute. reflexivity. Qed.

Lemma s3_state_wf : LRUK.wf LRUK.s3_state.
Proof.
  split; [simpl; lia|]. split; [simpl; lia|].
  intros f h Hf. unfold LRUK.s3_state in Hf. cbn [LRUK.history_] in Hf.
  apply elem_of_list_to_map_2 in Hf.
  unfold LRUK.history_ok. simpl.
  repeat (apply elem_of_cons in Hf as [Hf|Hf]); try (by inversion Hf);
    injection Hf as -> ->; (split; [lia|]); (split; [done|]);
    (split; [simpl; lia|]); intros t Ht;
    repeat (apply elem_of_cons in Ht as [->|Ht]); try lia; by inversion Ht.
Qed.

(** C6.  On a replacer whose histories are as [RecordAccess] leaves them,
    a successful [Evict] returns a tracked, evictable frame whose history
    wins over the history of every tracked, evictable frame: its backward
    k-distance (+inf with fewer than k accesses, else the current timestamp
    minus the timestamp of the k-th most recent access) is larger, or it is
    equal and its oldest recorded timestamp is not larger; this holds in
    whatever order the loop visits the frames.  [Evict] succeeds whenever the
    size is not 0 and some tracked frame is evictable.  In scenario S3
    (k = 2, accesses to frames 0,1,2,0,1, all evictable) it returns
    frame 2. *)
Theorem Evict_selects_largest_backward_k_distance :
  (∀ (r r' : LRUK.Replacer) (entries : list (Z * list Z)) (f : Z),
     LRUK.wf r →
     entries ≡ₚ map_to_list (LRUK.history_ r) →
     LRUK.Evict_in_order r entries = Some (Some f, r') →
     ∃ h, LRUK.history_ r !! f = Some h ∧
          LRUK.is_evictable r f = true ∧
          ∀ g hg, LRUK.history_ r !! g = Some hg →
                  LRUK.is_evictable r g = true → LRUK.better r h hg)
  ∧ (∀ (r : LRUK.Replacer) (entries : list (Z * list Z)) (g : Z) (hg : list Z),
       LRUK.wf r →
       entries ≡ₚ map_to_list (LRUK.history_ r) →
       LRUK.curr_size_ r ≠ 0 →
       LRUK.history_ r !! g = Some hg → LRUK.is_evictable r g = true →
       ∃ f r', LRUK.Evict_in_order r entries = Some (Some f, r'))
  ∧ (∃ r r', LRUK.s3_replacer = Some r ∧ LRUK.Evict r = Some (Some 2, r')).
Proof.
  split; [|split].
  - intros r r' entries f Hwf Hperm Hev.
    destruct (decide (LRUK.curr_size_ r = 0)) as [Hz|Hnz].
    { unfold LRUK.Evict_in_order in Hev.
      rewrite bool_decide_eq_true_2 in Hev by done. discriminate. }
    destruct (Evict_in_order_spec r entries Hwf Hperm Hnz) as (st & Hst & Hinv).
    rewrite Hst in Hev. unfold LRUK.evict_finish in Hev.
    case_bool_decide as Hc; [discriminate|].
    injection Hev as <- _.
    unfold LRUK.scan_inv in Hinv. rewrite decide_False in Hinv by done.
    destruct Hinv as (h & Hin & He & _ & _ & _ & Hb).
    assert (Hmem : ∀ g hg, (g, hg) ∈ entries ↔ LRUK.history_ r !! g = Some hg).
    { intros g hg. rewrite Hperm. apply elem_of_map_to_list. }
    exists h. split; [by apply Hmem|]. split; [done|].
    intros g hg Hg Hge. destruct Hwf as (_ & _ & Hwf).
    apply better_code_better.
    + apply (Hwf (LRUK.candidate_frame st)). by apply Hmem.
    + by apply (Hwf g).
    + apply (Hb g); [by apply Hmem|done].
  - intros r entries g hg Hwf Hperm Hnz Hg Hge.
    destruct (Evict_in_order_spec r entries Hwf Hperm Hnz) as (st & Hst & Hinv).
    rewrite Hst. unfold LRUK.evict_finish.
    case_bool_decide as Hc; [|eauto].
    unfold LRUK.scan_inv in Hinv. rewrite decide_True in Hinv by done.
    destruct Hinv as [_ Hn].
    assert (Hin : (g, hg) ∈ entries)
      by (rewrite Hperm; by apply elem_of_map_to_list).
    rewrite (Hn _ _ Hin) in Hge. discriminate.
  - eexists _, _. split; [exact s3_replacer_state|]. vm_compute. reflexivity.
Qed.

(** The first part of [Evict_selects_largest_backward_k_distance] at the
    replacer of scenario S3: frame 2, seen once at timestamp 2, wins over
    every evictable frame. *)
Lemma Evict_selects_largest_backward_k_distance_witness :
  ∃ h, LRUK.history_ LRUK.s3_state !! 2 = Some h ∧
       LRUK.is_evictable LRUK.s3_state 2 = true ∧
       ∀ g hg, LRUK.history_ LRUK.s3_state !! g = Some hg →
               LRUK.is_evictable LRUK.s3_state g = true →
               LRUK.better LRUK.s3_state h hg.
Proof.
  destruct Evict_selects_largest_backward_k_distance as [Hsel _].
  eapply (Hsel LRUK.s3_state _ (map_to_list (LRUK.history_ LRUK.s3_state)) 2).
  - exact s3_state_wf.
  - reflexivity.
  - vm_compute. reflexivity.
Defined.

(** C8 as stated fails: [Remove] of a frame that is not tracked, hence not
    evictable, returns without an assertion failure. *)
Lemma Remove_untracked_frame_returns :
  ¬ (∀ (r : LRUK.Replacer) (f : Z),
       LRUK.is_evictable r f = false → LRUK.Remove r f = None).
Proof.
  intros Hclaim.
  specialize (Hclaim (LRUK.new_replacer 7 2) 1 eq_refl).
  vm_compute in Hclaim. discriminate.
Qed.

(** C8, amended.  [Remove(f)] fails the assertion when [f] is out of range,
    and when [f] is tracked but not evictable; it returns with the replacer
    unchanged when [f] is not tracked; when [f] is tracked and evictable it
    drops the history and the flag of [f], leaves every other frame as it
    was, and decrements the size by 1. *)
Theorem Remove_frame_spec (r : LRUK.Replacer) (f : Z) :
  (LRUK.valid_frame r f = false → LRUK.Remove r f = None)
  ∧ (LRUK.valid_frame r f = true → LRUK.history_ r !! f = None →
     LRUK.Remove r f = Some r)
  ∧ (LRUK.valid_frame r f = true → is_Some (LRUK.history_ r !! f) →
     LRUK.is_evictable r f = false → LRUK.Remove r f = None)
  ∧ (LRUK.valid_frame r f = true → is_Some (LRUK.history_ r !! f) →
     LRUK.is_evictable r f = true →
     ∃ r', LRUK.Remove r f = Some r' ∧
           LRUK.history_ r' !! f = None ∧
           LRUK.is_evictable r' f = false ∧
           (0 < LRUK.curr_size_ r ≤ LRUK.SIZE_MAX →
            LRUK.Size r' = LRUK.Size r - 1) ∧
           ∀ g, g ≠ f →
                LRUK.history_ r' !! g = LRUK.history_ r !! g ∧
                LRUK.is_evictable r' g = LRUK.is_evictable r g).
Proof.
  unfold LRUK.Remove. repeat split.
  - by intros ->.
  - by intros -> ->.
  - intros -> [h ->] ->. done.
  - intros -> [h ->] ->. simpl. eexists. split; [reflexivity|]. simpl.
    split; [apply lookup_delete_eq|].
    split; [unfold LRUK.is_evictable; simpl; by rewrite lookup_delete_eq|].
    split.
    + intros Hs. unfold LRUK.Size. simpl. unfold LRUK.SIZE_MAX in Hs.
      apply wrap_small. lia.
    + intros g Hg. unfold LRUK.is_evictable. simpl.
      by rewrite !lookup_delete_ne.
Qed.

(** [Remove_frame_spec] on the replacer of scenario S3: frame 1 is tracked
    and evictable, and removing it leaves size 2. *)
Lemma Remove_frame_spec_witness :
  ∃ r', LRUK.Remove LRUK.s3_state 1 = Some r' ∧
        LRUK.history_ r' !! 1 = None ∧
        LRUK.is_evictable r' 1 = false ∧
        LRUK.Size r' = 2.
Proof.
  destruct (Remove_frame_spec LRUK.s3_state 1) as (_ & _ & _ & Hrm).
  destruct Hrm as (r' & Hr & Hh & He & Hs & _);
    [reflexivity|by eexists|reflexivity|].
  exists r'. split; [exact Hr|]. split; [exact Hh|]. split; [exact He|].
  rewrite Hs; [reflexivity|]. unfold LRUK.SIZE_MAX. simpl. lia.
Defined.

(** ** Buffer pool manager *)

Section PoolFacts.
Context {Data : Type}.
Import BufferPool.
Implicit Types (bpm : BufferPoolManagerInstance Data) (page : Page Data).

Lemma frame_at_set_frame_eq bpm f page p :
frame_at bpm f = Some page → frame_at (set_frame bpm f p) f = Some p.
Proof.
unfold frame_at. case_bool_decide; [done|]. simpl. intros Hf.
apply list_lookup_insert_eq. by eapply lookup_lt_Some.
Qed.

Lemma frame_at_set_frame_ne bpm f f' p :
0 ≤ f → f' ≠ f → frame_at (set_frame bpm f p) f' = frame_at bpm f'.
Proof.
intros Hf Hne. unfold frame_at. case_bool_decide; [done|]. simpl.
apply list_lookup_insert_ne. lia.
Qed.

Lemma frame_at_set_replacer bpm r f :
  frame_at (set_replacer bpm r) f = frame_at bpm f.
Proof. reflexivity. Qed.

Lemma frame_at_nonneg bpm f page : frame_at bpm f = Some page → 0 ≤ f.
Proof. unfold frame_at. case_bool_decide; [done|lia]. Qed.

Lemma SetEvictable_true_tracked (r r' : LRUK.Replacer) f :
LRUK.SetEvictable r f true = Some r' →
is_Some (LRUK.history_ r !! f) → LRUK.is_evictable r' f = true.
Proof.
unfold LRUK.SetEvictable. destruct (LRUK.valid_frame r f); [|done]. simpl.
intros Hs [h Hh]. rewrite Hh in Hs.
case_bool_decide as He.
- by injection Hs as <-.
- injection Hs as <-. unfold LRUK.is_evictable. simpl.
  by rewrite lookup_insert_eq.
Qed.

(** The frames and the disk writes after flushing the first [n] frames. *)
Lemma flush_frames_prefix (n : nat) : ∀ bpm,
(n ≤ length (pages_ bpm))%nat →
∃ bpm', flush_frames bpm (seq 0 n) = Some bpm' ∧
  pages_ bpm' = (flushed <$> take n (pages_ bpm)) ++ drop n (pages_ bpm) ∧
  writes (disk_manager_ bpm')
    = writes (disk_manager_ bpm) ++ flush_writes (take n (pages_ bpm)) ∧
  replacer_ bpm' = replacer_ bpm ∧ page_table_ bpm' = page_table_ bpm ∧
  free_list_ bpm' = free_list_ bpm ∧ next_page_id_ bpm' = next_page_id_ bpm ∧
  pool_size_ bpm' = pool_size_ bpm.
Proof.
assert (Happ : ∀ l1 l2 (b : BufferPoolManagerInstance Data),
          flush_frames b (l1 ++ l2)
          = b' ← flush_frames b l1; flush_frames b' l2).
{ induction l1 as [|i l1 IH]; intros l2 b; simpl; [done|].
  destruct (flush_frame b i); simpl; [apply IH|done]. }
induction n as [|n IH]; intros bpm Hn.
- exists bpm. simpl. rewrite take_0, drop_0. simpl.
  unfold flush_writes. simpl. by rewrite app_nil_r.
- destruct (IH bpm) as (b1 & Hb1 & Hp & Hw & Hr & Ht & Hf & Hi & Hs); [lia|].
  rewrite seq_S, Happ, Hb1. simpl.
  destruct (lookup_lt_is_Some_2 (pages_ bpm) n) as [page Hpage]; [lia|].
  assert (Hpage1 : pages_ b1 !! n = Some page).
  { rewrite Hp, lookup_app_r by (rewrite length_fmap, length_take; lia).
    rewrite length_fmap, length_take, lookup_drop.
    replace (n + (n - n `min` length (pages_ bpm)))%nat with n by lia. done. }
  unfold flush_frame. rewrite Hpage1. simpl.
  rewrite (take_S_r _ _ _ Hpage), fmap_app. simpl.
  unfold flush_writes. rewrite filter_app, fmap_app.
  assert (Hins : ∀ p, <[n := p]> (pages_ b1)
            = ((flushed <$> take n (pages_ bpm)) ++ [p])
              ++ drop (S n) (pages_ bpm)).
  { intros p. rewrite Hp.
    rewrite insert_app_r_alt by (rewrite length_fmap, length_take; lia).
    rewrite length_fmap, length_take.
    replace (n - n `min` length (pages_ bpm))%nat with 0%nat by lia.
    rewrite (drop_S _ _ _ Hpage). simpl. by rewrite <- app_assoc. }
  unfold flushed at 2.
  case_bool_decide as Hvalid.
  + eexists. split; [reflexivity|]. simpl.
    rewrite Nat2Z.id, Hins, Hw.
    rewrite filter_cons_True by done. simpl.
    fold (flush_writes (take n (pages_ bpm))).
    split; [done|]. split; [by rewrite <- app_assoc|]. done.
  + eexists. split; [reflexivity|].
    rewrite filter_cons_False by (by intros Hc). simpl.
    fold (flush_writes (take n (pages_ bpm))). rewrite app_nil_r, Hw.
    repeat split; try done.
    rewrite <- Hins. by rewrite list_insert_id.
Qed.

End PoolFacts.

#[local] Arguments BufferPool.frame_at : simpl never.
#[local] Arguments BufferPool.table_find : simpl never.
#[local] Arguments LRUK.valid_frame : simpl never.

(** C7.  [UnpinPgImp(page_id, is_dirty)] returns [false], with the pool as
    it was, when the page is not resident and when the pin count of its
    frame is not positive; these are the only [false] returns, and the pin
    count is then 0 in a pool whose pin counts are never negative.
    Otherwise it returns [true]: the pin count of the frame is one less, the
    dirty bit is [is_dirty] or the old bit, the other frames, the page
    table, the free list and the disk are as before, and the replacer is as
    before unless the pin count reached 0, in which case it is the result
    of [SetEvictable(frame, true)], which marks a tracked frame evictable. *)
Theorem UnpinPgImp_spec {Data : Type}
  (bpm : BufferPool.BufferPoolManagerInstance Data) (page_id : Z)
  (is_dirty : bool) :
  (BufferPool.not_resident bpm page_id →
   BufferPool.UnpinPgImp bpm page_id is_dirty = Some (false, bpm))
  ∧ (∀ f page, BufferPool.resident bpm page_id f page →
       BufferPool.pin_count_ page ≤ 0 →
       BufferPool.UnpinPgImp bpm page_id is_dirty = Some (false, bpm))
  ∧ (∀ f page, BufferPool.resident bpm page_id f page →
       0 < BufferPool.pin_count_ page →
       LRUK.valid_frame (BufferPool.replacer_ bpm) f = true →
       ∃ bpm',
         BufferPool.UnpinPgImp bpm page_id is_dirty = Some (true, bpm') ∧
         BufferPool.frame_at bpm' f
           = Some (BufferPool.mkPage (BufferPool.page_id_ page)
                     (BufferPool.pin_count_ page - 1)
                     (is_dirty || BufferPool.is_dirty_ page)
                     (BufferPool.data_ page)) ∧
         (∀ f', f' ≠ f →
                BufferPool.frame_at bpm' f' = BufferPool.frame_at bpm f') ∧
         BufferPool.page_table_ bpm' = BufferPool.page_table_ bpm ∧
         BufferPool.free_list_ bpm' = BufferPool.free_list_ bpm ∧
         BufferPool.next_page_id_ bpm' = BufferPool.next_page_id_ bpm ∧
         BufferPool.disk_manager_ bpm' = BufferPool.disk_manager_ bpm ∧
         (BufferPool.pin_count_ page ≠ 1 →
          BufferPool.replacer_ bpm' = BufferPool.replacer_ bpm) ∧
         (BufferPool.pin_count_ page = 1 →
          LRUK.SetEvictable (BufferPool.replacer_ bpm) f true
            = Some (BufferPool.replacer_ bpm') ∧
          (is_Some (LRUK.history_ (BufferPool.replacer_ bpm) !! f) →
           LRUK.is_evictable (BufferPool.replacer_ bpm') f = true)))
  ∧ (∀ bpm', BufferPool.UnpinPgImp bpm page_id is_dirty = Some (false, bpm') →
       bpm' = bpm ∧
       (BufferPool.not_resident bpm page_id ∨
        ∃ f page, BufferPool.resident bpm page_id f page ∧
                  BufferPool.pin_count_ page ≤ 0 ∧
                  (BufferPool.pins_nonneg bpm →
                   BufferPool.pin_count_ page = 0))).
Proof.
  unfold BufferPool.not_resident, BufferPool.resident, BufferPool.UnpinPgImp.
  split; [|split; [|split]].
  - by intros ->.
  - intros f page [-> Hfr] Hpin. simpl. rewrite Hfr. simpl.
    by rewrite bool_decide_eq_true_2.
  - intros f page [-> Hfr] Hpin Hvalid. simpl. rewrite Hfr. simpl.
    rewrite bool_decide_eq_false_2 by lia.
    pose proof (frame_at_nonneg _ _ _ Hfr) as Hf0.
    assert (Hdirty : (if is_dirty then true else BufferPool.is_dirty_ page)
                     = is_dirty || BufferPool.is_dirty_ page)
      by (by destruct is_dirty).
    rewrite Hdirty.
    case_bool_decide as Hzero.
    + assert (Hset : ∃ r', LRUK.SetEvictable (BufferPool.replacer_ bpm) f true
                           = Some r').
      { unfold LRUK.SetEvictable. rewrite Hvalid. simpl.
        destruct (LRUK.history_ _ !! f); [|by eexists].
        case_bool_decide; by eexists. }
      destruct Hset as [r' Hset]. simpl. rewrite Hset. simpl.
      eexists. split; [reflexivity|].
      rewrite !frame_at_set_replacer. simpl.
      split; [by eapply frame_at_set_frame_eq|].
      split; [intros f' Hne; rewrite frame_at_set_replacer;
              by apply frame_at_set_frame_ne|].
      repeat (split; [done|]). split; [intros; lia|]. intros _.
      split; [done|]. by eapply SetEvictable_true_tracked.
    + eexists. split; [reflexivity|]. simpl.
      split; [by eapply frame_at_set_frame_eq|].
      split; [intros f' Hne; by apply frame_at_set_frame_ne|].
      repeat (split; [done|]). intros; lia.
  - intros bpm'.
    destruct (BufferPool.table_find bpm page_id) as [[f|]|] eqn:Hfind;
      simpl; [| |done].
    + destruct (BufferPool.frame_at bpm f) as [page|] eqn:Hfr; simpl; [|done].
      case_bool_decide as Hpin.
      * intros [= <-]. split; [done|]. right. exists f, page.
        repeat split; try done. intros Hnn. specialize (Hnn _ _ Hfr). lia.
      * case_bool_decide; [|done].
        destruct (LRUK.SetEvictable _ _ _); done.
    + intros [= <-]. auto.
Qed.

Lemma demo_pool_resident :
  BufferPool.resident BufferPool.demo_pool 0 0 BufferPool.demo_page.
Proof. split; vm_compute; reflexivity. Qed.

(** [UnpinPgImp_spec] on the pool holding page 0 pinned once in frame 0:
    unpinning it dirty leaves pin count 0, the dirty bit set, and frame 0
    evictable. *)
Lemma UnpinPgImp_spec_witness :
  ∃ bpm',
    BufferPool.UnpinPgImp BufferPool.demo_pool 0 true = Some (true, bpm') ∧
    BufferPool.frame_at bpm' 0 = Some (BufferPool.mkPage 0 0 true 0) ∧
    LRUK.is_evictable (BufferPool.replacer_ bpm') 0 = true.
Proof.
  destruct (UnpinPgImp_spec BufferPool.demo_pool 0 true) as (_ & _ & Hok & _).
  destruct (Hok 0 BufferPool.demo_page) as (bpm' & Hr & Hf & _ & _ & _ & _ & _ & _ & He).
  - exact demo_pool_resident.
  - simpl. lia.
  - vm_compute. reflexivity.
  - exists bpm'. split; [exact Hr|]. split; [exact Hf|].
    apply He; [reflexivity|]. vm_compute. eexists. reflexivity.
Defined.

(** C9.  [FlushPgImp(page_id)] returns [false], with the pool as it was,
    when [page_id] is [INVALID_PAGE_ID] and when the page is not resident,
    and in no other case.  Otherwise it returns [true]: the bytes of the
    frame are written to the disk under [page_id] whatever the dirty bit
    was, the frame is clean and keeps its page id, pin count and bytes, and
    the other frames, the page table, the free list and the replacer (hence
    every evictable flag) are as before.  [FlushAllPgsImp] writes, in frame
    order, every frame whose page id is not [INVALID_PAGE_ID], whatever its
    dirty bit, and leaves exactly these frames clean, with pin counts, page
    table, free list and replacer as before. *)
Theorem Flush_spec {Data : Type}
  (bpm : BufferPool.BufferPoolManagerInstance Data) (page_id : Z) :
  (page_id = BufferPool.INVALID_PAGE_ID →
   BufferPool.FlushPgImp bpm page_id = Some (false, bpm))
  ∧ (BufferPool.not_resident bpm page_id →
     BufferPool.FlushPgImp bpm page_id = Some (false, bpm))
  ∧ (∀ f page, page_id ≠ BufferPool.INVALID_PAGE_ID →
       BufferPool.resident bpm page_id f page →
       ∃ bpm',
         BufferPool.FlushPgImp bpm page_id = Some (true, bpm') ∧
         BufferPool.disk_manager_ bpm'
           = BufferPool.WritePage (BufferPool.disk_manager_ bpm) page_id
               (BufferPool.data_ page) ∧
         BufferPool.frame_at bpm' f
           = Some (BufferPool.mkPage (BufferPool.page_id_ page)
                     (BufferPool.pin_count_ page) false
                     (BufferPool.data_ page)) ∧
         (∀ f', f' ≠ f →
                BufferPool.frame_at bpm' f' = BufferPool.frame_at bpm f') ∧
         BufferPool.replacer_ bpm' = BufferPool.replacer_ bpm ∧
         BufferPool.page_table_ bpm' = BufferPool.page_table_ bpm ∧
         BufferPool.free_list_ bpm' = BufferPool.free_list_ bpm)
  ∧ (∀ bpm', BufferPool.FlushPgImp bpm page_id = Some (false, bpm') →
       bpm' = bpm ∧
       (page_id = BufferPool.INVALID_PAGE_ID ∨
        BufferPool.not_resident bpm page_id))
  ∧ (length (BufferPool.pages_ bpm) = BufferPool.pool_size_ bpm →
     ∃ bpm',
       BufferPool.FlushAllPgsImp bpm = Some bpm' ∧
       BufferPool.pages_ bpm'
         = BufferPool.flushed <$> BufferPool.pages_ bpm ∧
       BufferPool.writes (BufferPool.disk_manager_ bpm')
         = BufferPool.writes (BufferPool.disk_manager_ bpm)
           ++ BufferPool.flush_writes (BufferPool.pages_ bpm) ∧
       BufferPool.replacer_ bpm' = BufferPool.replacer_ bpm ∧
       BufferPool.page_table_ bpm' = BufferPool.page_table_ bpm ∧
       BufferPool.free_list_ bpm' = BufferPool.free_list_ bpm).
Proof.
  unfold BufferPool.not_resident, BufferPool.resident, BufferPool.FlushPgImp.
  split; [|split; [|split; [|split]]].
  - intros ->. done.
  - intros ->. simpl. by case_bool_decide.
  - intros f page Hvalid [-> Hfr].
    rewrite bool_decide_eq_false_2 by done. simpl. rewrite Hfr. simpl.
    pose proof (frame_at_nonneg _ _ _ Hfr) as Hf0.
    eexists. split; [reflexivity|]. simpl. split; [done|].
    split; [by eapply (frame_at_set_frame_eq
                         (BufferPool.set_disk bpm _) f page)|].
    split; [|done].
    intros f' Hne.
    by rewrite (frame_at_set_frame_ne (BufferPool.set_disk bpm _)).
  - intros bpm'. case_bool_decide as Hinv; [intros [= <-]; auto|].
    destruct (BufferPool.table_find bpm page_id) as [[f|]|]; simpl; [| |done].
    + destruct (BufferPool.frame_at bpm f); done.
    + intros [= <-]. auto.
  - intros Hlen. unfold BufferPool.FlushAllPgsImp.
    destruct (flush_frames_prefix (BufferPool.pool_size_ bpm) bpm)
      as (bpm' & Hfl & Hp & Hw & Hr & Ht & Hf & _); [lia|].
    exists bpm'. rewrite <- Hlen in Hp, Hw.
    rewrite firstn_all, drop_all, app_nil_r in Hp. rewrite firstn_all in Hw.
    done.
Qed.

(** [Flush_spec] on the pool holding the clean page 0 in frame 0: the flush
    writes the page although it is clean, and pin count and replacer stay. *)
Lemma Flush_spec_witness :
  ∃ bpm',
    BufferPool.FlushPgImp BufferPool.demo_pool 0 = Some (true, bpm') ∧
    BufferPool.writes (BufferPool.disk_manager_ bpm') = [(0, 0)] ∧
    BufferPool.frame_at bpm' 0 = Some (BufferPool.mkPage 0 1 false 0) ∧
    BufferPool.replacer_ bpm' = BufferPool.replacer_ BufferPool.demo_pool.
Proof.
  destruct (Flush_spec BufferPool.demo_pool 0) as (_ & _ & Hok & _).
  destruct (Hok 0 BufferPool.demo_page) as (bpm' & Hr & Hd & Hf & _ & Hrep & _).
  - vm_compute. discriminate.
  - exact demo_pool_resident.
  - exists bpm'. split; [exact Hr|]. split; [by rewrite Hd|].
    split; [exact Hf|exact Hrep].
Defined.

(** ** B+-tree index and iterator *)

Section TreeFacts.
Import BPlusTree.
Implicit Types (t : BPlusTree) (it : IndexIterator).

(** Requests to the pool change neither the root id nor a page. *)
Lemma next_reply_content t ok t' :
next_reply t = (ok, t') →
content t' = content t ∧ leaf_max_size_ t' = leaf_max_size_ t ∧
internal_max_size_ t' = internal_max_size_ t.
Proof.
unfold next_reply. destruct (replies _); intros [= <- <-]; done.
Qed.

Lemma FetchPage_content t page_id ok t' :
FetchPage t page_id = (ok, t') →
content t' = content t ∧ leaf_max_size_ t' = leaf_max_size_ t ∧
internal_max_size_ t' = internal_max_size_ t.
Proof.
unfold FetchPage. case_bool_decide; [by intros [= <- <-]|].
apply next_reply_content.
Qed.

Lemma page_at_content t t' page_id :
content t' = content t → page_at t' page_id = page_at t page_id.
Proof. unfold content, page_at. by intros [= _ ->]. Qed.

Lemma internal_at_content t t' page_id :
content t' = content t → internal_at t' page_id = internal_at t page_id.
Proof. unfold internal_at. intros H. by rewrite (page_at_content _ _ _ H). Qed.

(** [CoalesceOrRedistribute] on an internal page changes nothing a reader
  of the tree sees. *)
Lemma Coalesce_internal_content fuel t page_id n t' :
internal_at t page_id = Some n →
CoalesceOrRedistribute fuel t page_id = Some t' →
content t' = content t.
Proof.
intros Hn. unfold internal_at in Hn.
destruct (page_at t page_id) as [[|n0]|] eqn:Hp; simpl in Hn; try done.
injection Hn as ->.
destruct fuel as [|fuel]; simpl;
  (destruct (FetchPage t page_id) as [ok1 t1] eqn:F1;
   destruct (FetchPage_content _ _ _ _ F1) as (C1 & _);
   destruct ok1; simpl; [|by intros [= <-]];
   rewrite (page_at_content _ _ _ C1), Hp; simpl;
   destruct (IsRootPage (InternalNode n)); [by intros [= <-]|];
   destruct (FetchPage t1 (i_parent n)) as [ok2 t2] eqn:F2;
   destruct (FetchPage_content _ _ _ _ F2) as (C2 & _);
   destruct ok2; simpl; [|intros [= <-]; congruence];
   destruct (internal_at t2 (i_parent n)) as [pn|]; simpl; [|done];
   destruct (index_of_child (i_items pn) page_id 0) as [idx|];
     [|intros [= <-]; congruence];
   destruct (choose_sibling (i_items pn) idx) as [[[sib isl]|]|]; simpl;
     [| intros [= <-]; congruence | done];
   case_bool_decide; [intros [= <-]; congruence|];
   destruct (FetchPage t2 sib) as [ok3 t3] eqn:F3;
   destruct (FetchPage_content _ _ _ _ F3) as (C3 & _);
   destruct ok3; simpl; [|intros [= <-]; congruence];
   destruct (if bool_decide (sib < page_id) then FetchPage t3 page_id
             else (true, t3)) as [ok4 t4] eqn:F4;
   assert (C4 : content t4 = content t3)
     by (case_bool_decide;
         [by destruct (FetchPage_content _ _ _ _ F4)
         |by injection F4 as _ <-]);
   destruct ok4; simpl; [|intros [= <-]; congruence];
   rewrite (page_at_content t t4 page_id) by congruence;
   rewrite Hp; simpl;
   destruct (page_at t4 sib) as [sn|]; simpl; [|done];
   intros [= <-]; congruence).
Qed.

End TreeFacts.

(** C1, on the code.  With [leaf_max_size = internal_max_size = 4], the
    thirteen inserts of scenarios S4 and S5 all return [true] and the
    iteration from [Begin()] to [End()] yields the keys 1 to 13 in ascending
    order.  Removing all of 1 to 13 afterwards does not empty the tree:
    [IsEmpty()] is [false] and the root id is still that of the internal
    root.  The same happens for the keys 1 to 4: the root stays an internal
    page with one child, an empty leaf. *)
Theorem remove_all_keys_keeps_root :
  (∃ t, BPlusTree.insert_all 8 BPlusTree.tree44 BPlusTree.s5_keys
          = Some (replicate 13 true, t) ∧
        BPlusTree.scan_all 16 t
          = Some ((λ k, (k, k)) <$> [1; 2; 3; 4; 5; 6; 7; 8; 9; 10; 11; 12; 13]) ∧
        ∃ t', BPlusTree.remove_all 8 t [1; 2; 3; 4; 5; 6; 7; 8; 9; 10; 11; 12; 13]
                = Some t' ∧
              BPlusTree.IsEmpty t' = false ∧
              BPlusTree.GetRootPageId t' = 8)
  ∧ (∃ t, BPlusTree.insert_all 8 BPlusTree.tree44 [1; 2; 3; 4]
            = Some (replicate 4 true, t) ∧
          BPlusTree.scan_all 8 t = Some [(1, 1); (2, 2); (3, 3); (4, 4)] ∧
          ∃ t', BPlusTree.remove_all 8 t [1; 2; 3; 4] = Some t' ∧
                BPlusTree.IsEmpty t' = false ∧
                BPlusTree.GetRootPageId t' = 3 ∧
                BPlusTree.page_at t' 3
                  = Some (BPlusTree.InternalNode
                            (BPlusTree.mkInternal (-1) 4 [(0, 1)])) ∧
                BPlusTree.page_at t' 1
                  = Some (BPlusTree.LeafNode
                            (BPlusTree.mkLeaf 3 4 (-1) []))).
Proof.
  split.
  - eexists. split; [vm_compute; reflexivity|].
    split; [vm_compute; reflexivity|].
    eexists. split; [vm_compute; reflexivity|].
    split; vm_compute; reflexivity.
  - eexists. split; [vm_compute; reflexivity|].
    split; [vm_compute; reflexivity|].
    eexists. split; [vm_compute; reflexivity|].
    repeat split; vm_compute; reflexivity.
Qed.

(** C2 as stated fails.  If every [Remove] that leaves an internal page
    below its minimum size rebalanced that page, no [Remove] would end with
    an internal page below its minimum size that was not below it before.
    In the tree of scenario S5 the internal page 3 has three children, its
    minimum; [Remove(1)] merges two of its leaves and ends with page 3 at
    two children. *)
Lemma Remove_leaves_internal_underfull :
  ¬ (∀ (fuel : nat) (t t' : BPlusTree.BPlusTree) (key page_id : Z),
       BPlusTree.Remove fuel t key = Some t' →
       ¬ BPlusTree.underfull_internal t page_id →
       ¬ BPlusTree.underfull_internal t' page_id).
Proof.
  intros Hclaim.
  assert (Hrun : ∃ t', BPlusTree.Remove 8 BPlusTree.s5_tree 1 = Some t' ∧
                       BPlusTree.internal_at t' 3
                         = Some (BPlusTree.mkInternal 8 4 [(0, 1); (5, 2)])).
  { eexists. split; vm_compute; reflexivity. }
  destruct Hrun as (t' & Hrm & Hpage).
  apply (Hclaim 8%nat BPlusTree.s5_tree t' 1 3 Hrm).
  - intros (n & Hn & _ & Hlt). vm_compute in Hn. injection Hn as <-.
    vm_compute in Hlt. discriminate.
  - exists (BPlusTree.mkInternal 8 4 [(0, 1); (5, 2)]).
    split; [exact Hpage|]. split; vm_compute; [discriminate|reflexivity].
Qed.

(** C2, amended.  [CoalesceOrRedistribute] applied to an internal page
    returns with the root id and every page as they were, whatever the sizes
    of the page and of its sibling: internal pages are neither
    redistributed nor merged. *)
Theorem CoalesceOrRedistribute_internal_untouched
  (fuel : nat) (t t' : BPlusTree.BPlusTree) (page_id : Z)
  (n : BPlusTree.InternalPage) :
  BPlusTree.internal_at t page_id = Some n →
  BPlusTree.CoalesceOrRedistribute fuel t page_id = Some t' →
  BPlusTree.root_page_id_ t' = BPlusTree.root_page_id_ t ∧
  ∀ p, BPlusTree.page_at t' p = BPlusTree.page_at t p.
Proof.
  intros Hn Hc.
  pose proof (Coalesce_internal_content fuel t page_id n t' Hn Hc) as Hcontent.
  split; [by injection Hcontent|].
  intros p. by apply page_at_content.
Qed.

(** [CoalesceOrRedistribute_internal_untouched] on the tree of scenario S5
    after the keys 1 and 2 have gone from the leaves: page 3 has two
    children, below its minimum 3, its sibling page 7 has three, and the
    call for page 3 returns with page 3 as it was. *)
Lemma CoalesceOrRedistribute_internal_untouched_witness :
  ∃ t t',
    BPlusTree.Remove 8 BPlusTree.s5_tree 1 = Some t ∧
    BPlusTree.CoalesceOrRedistribute 8 t 3 = Some t' ∧
    BPlusTree.root_page_id_ t' = BPlusTree.root_page_id_ t ∧
    BPlusTree.page_at t' 3 = BPlusTree.page_at t 3.
Proof.
  assert (Hrun : ∃ t t',
            BPlusTree.Remove 8 BPlusTree.s5_tree 1 = Some t ∧
            BPlusTree.internal_at t 3
              = Some (BPlusTree.mkInternal 8 4 [(0, 1); (5, 2)]) ∧
            BPlusTree.CoalesceOrRedistribute 8 t 3 = Some t').
  { eexists _, _. split; [vm_compute; reflexivity|].
    split; vm_compute; reflexivity. }
  destruct Hrun as (t & t' & Hrm & Hpage & Hco).
  exists t, t'. split; [exact Hrm|]. split; [exact Hco|].
  destruct (CoalesceOrRedistribute_internal_untouched 8 t t' 3 _ Hpage Hco)
    as [Hroot Hpages].
  split; [exact Hroot|exact (Hpages 3)].
Defined.

(** C10 as stated fails.  In the tree left by inserting and removing the
    keys 1 to 4, [Begin()] returns an iterator on the empty leaf 1 at slot
    0: it is at End, [operator++] leaves it as it is, and it does not
    compare equal to [End()]. *)
Lemma end_iterator_differs_from_End :
  ¬ (∀ (t : BPlusTree.BPlusTree) (it : BPlusTree.IndexIterator),
       BPlusTree.IsEnd t it = Some true →
       BPlusTree.advance t it = Some (it, t) ∧
       BPlusTree.IsEnd t it = Some true ∧
       BPlusTree.iter_eq it BPlusTree.End = true).
Proof.
  intros Hclaim.
  assert (Hrun : ∃ it t, BPlusTree.Begin 8 BPlusTree.emptied_tree = Some (it, t) ∧
                         BPlusTree.IsEnd t it = Some true ∧
                         BPlusTree.iter_eq it BPlusTree.End = false).
  { eexists _, _. split; [vm_compute; reflexivity|].
    split; vm_compute; reflexivity. }
  destruct Hrun as (it & t & _ & Hend & Hne).
  destruct (Hclaim t it Hend) as (_ & _ & Heq). congruence.
Qed.

(** C10, amended.  An iterator that is at End is left as it is by
    [operator++], pool included, and so is still at End; it compares equal
    to [End()] exactly when its page id is [INVALID_PAGE_ID] and its slot
    index is 0, equality looking at the pair (page id, index) only. *)
Theorem advance_at_end_is_noop (t : BPlusTree.BPlusTree)
  (it : BPlusTree.IndexIterator) :
  BPlusTree.IsEnd t it = Some true →
  BPlusTree.advance t it = Some (it, t) ∧
  (BPlusTree.iter_eq it BPlusTree.End = true ↔
   BPlusTree.page_id_ it = BPlusTree.INVALID_PAGE_ID ∧
   BPlusTree.index_ it = 0) ∧
  ∀ a b, BPlusTree.iter_eq a b = true ↔
         BPlusTree.page_id_ a = BPlusTree.page_id_ b ∧
         BPlusTree.index_ a = BPlusTree.index_ b.
Proof.
  intros Hend. split; [|split].
  - unfold BPlusTree.advance. by rewrite Hend.
  - unfold BPlusTree.iter_eq. simpl.
    rewrite andb_true_iff, !bool_decide_eq_true. done.
  - intros a b. unfold BPlusTree.iter_eq.
    rewrite andb_true_iff, !bool_decide_eq_true. done.
Qed.

(** [advance_at_end_is_noop] at the iterator [End()] over the tree of
    scenario S5. *)
Lemma advance_at_end_is_noop_witness :
  BPlusTree.advance BPlusTree.s5_tree BPlusTree.End
    = Some (BPlusTree.End, BPlusTree.s5_tree) ∧
  BPlusTree.iter_eq BPlusTree.End BPlusTree.End = true.
Proof.
  destruct (advance_at_end_is_noop BPlusTree.s5_tree BPlusTree.End)
    as (Hadv & Heq & _); [reflexivity|].
  split; [exact Hadv|]. apply Heq. split; reflexivity.
Defined.
Ltac Zify.zify_post_hook ::= Z.to_euclidean_division_equations.

(** ** Sizes of the pages under [Insert] *)

Section InsertInv.
Import BPlusTree.
Implicit Types (t : BPlusTree) (p : BPlusTreePage).

Lemma served_next_reply t : served t → next_reply t = (true, t).
Proof. unfold served, next_reply. by intros ->. Qed.

Lemma served_FetchPage t page_id :
  served t → FetchPage t page_id = (bool_decide (page_id ≠ INVALID_PAGE_ID), t).
Proof.
  intros Hs. unfold FetchPage. case_bool_decide as H.
  - by rewrite bool_decide_eq_false_2 by (by intros ?).
  - rewrite bool_decide_eq_true_2 by done. by apply served_next_reply.
Qed.

Lemma served_NewPage t :
  served t →
  NewPage t =
    (Some (next_page_id (buffer_pool_manager_ t)),
     set_pool t (mkPool (pages (buffer_pool_manager_ t))
                   (next_page_id (buffer_pool_manager_ t) + 1) []
                   (header_record (buffer_pool_manager_ t)))).
Proof.
  intros Hs. unfold NewPage. rewrite (served_next_reply t Hs).
  unfold served in Hs. by rewrite Hs.
Qed.

Lemma served_descend fuel : ∀ t page_id key left_most r t',
  served t → descend fuel t page_id key left_most = Some (r, t') → t' = t.
Proof.
  induction fuel as [|fuel IH]; intros t page_id key lm r t' Hs; simpl.
  - destruct (page_at t page_id) as [[l|n]|]; simpl; try done. by intros [= _ <-].
  - destruct (page_at t page_id) as [[l|n]|]; simpl; try done; [by intros [= _ <-]|].
    destruct (child_for (i_items n) key lm) as [c|]; simpl; [|done].
    rewrite (served_FetchPage t c Hs). case_bool_decide.
    + by apply IH.
    + by intros [= _ <-].
Qed.

Lemma served_FindLeafPage fuel t key left_most r t' :
  served t → FindLeafPage fuel t key left_most = Some (r, t') → t' = t.
Proof.
  intros Hs. unfold FindLeafPage. case_bool_decide; [by intros [= _ <-]|].
  rewrite (served_FetchPage t _ Hs). rewrite bool_decide_eq_true_2 by done.
  by apply served_descend.
Qed.

Lemma served_hand_off t page_id leaf key pos dup page_id' pos' dup' t' :
  served t →
  hand_off t page_id leaf key pos dup = Some (page_id', pos', dup', t') → t' = t.
Proof.
  intros Hs. unfold hand_off.
  destruct (_ && _); [|by intros [= _ _ _ <-]].
  destruct (KeyAt _ _); simpl; [|done].
  case_bool_decide; [|by intros [= _ _ _ <-]].
  case_bool_decide; [|by intros [= _ _ _ <-]].
  rewrite (served_FetchPage t _ Hs). rewrite bool_decide_eq_true_2 by done.
  destruct (leaf_at t (l_next leaf)) as [nl|]; simpl; [|done].
  destruct (l_items nl) as [|[k0 v0] rest]; [by intros [= _ _ _ <-]|].
  case_bool_decide; [|by intros [= _ _ _ <-]].
  destruct (find_insert_pos _ _ _). by intros [= _ _ _ <-].
Qed.



Lemma page_at_write_page t pid p q :
  page_at (write_page t pid p) q = if decide (pid = q) then Some p else page_at t q.
Proof. unfold page_at, write_page. simpl. apply lookup_insert. Qed.

Lemma set_parent_of_Some t c q t' :
  set_parent_of t c q = Some t' →
  ∃ p, page_at t c = Some p ∧ t' = write_page t c (SetParentPageId p q).
Proof.
  unfold set_parent_of. destruct (page_at t c) as [p|]; simpl; [|done].
  intros [= <-]. eauto.
Qed.

Lemma sizes_SetParent t f s p q :
  page_sizes_ok t f s (SetParentPageId p q) ↔ page_sizes_ok t f s p.
Proof. by destruct p. Qed.

Lemma parent_SetParent p q : GetParentPageId (SetParentPageId p q) = q.
Proof. by destruct p. Qed.

(** The sizes of a page that is not the root and has no slack are good for
    any place. *)
Lemma sizes_weaken t f s p :
  0 ≤ s → page_sizes_ok t false 0 p → page_sizes_ok t f s p.
Proof.
  intros Hs. destruct p as [l|n]; simpl.
  - intros (? & ? & Hl). repeat split; try done; try lia; intros _; by apply Hl.
  - intros (? & ? & ? & Hl). repeat split; try done; try lia; intros _; by apply Hl.
Qed.

Lemma sizes_slack t f s s' p :
  s ≤ s' → page_sizes_ok t f s p → page_sizes_ok t f s' p.
Proof.
  intros Hs. destruct p as [l|n]; simpl.
  - intros (? & ? & Hl). repeat split; try done; lia.
  - intros (? & ? & ? & Hl). repeat split; try done; lia.
Qed.

Lemma slack_of_range big pid : 0 ≤ slack_of big pid ≤ 1.
Proof. unfold slack_of. case_decide; lia. Qed.

Lemma inv_page t hole big pid p :
  tree_inv t hole big → page_at t pid = Some p →
  0 ≤ pid < next_page_id (buffer_pool_manager_ t) ∧
  page_sizes_ok t (bool_decide (pid = root_page_id_ t)) (slack_of big pid) p ∧
  (pid ≠ hole → GetParentPageId p = INVALID_PAGE_ID → pid = root_page_id_ t).
Proof. intros (_ & _ & _ & _ & _ & H). apply H. Qed.

(** Storing a page that has the sizes of its place keeps the invariant; the
    page stored may be the one that had no parent or one item too many. *)
Lemma inv_write t hole big hole' big' pid p :
  tree_inv t hole big →
  0 ≤ pid < next_page_id (buffer_pool_manager_ t) →
  page_sizes_ok t (bool_decide (pid = root_page_id_ t)) (slack_of big' pid) p →
  (pid ≠ hole' → GetParentPageId p = INVALID_PAGE_ID → pid = root_page_id_ t) →
  (∀ x, 0 ≤ x → x ≠ pid → x ≠ hole' → x ≠ hole) →
  (∀ x, 0 ≤ x → x ≠ pid → x = big → x = big') →
  tree_inv (write_page t pid p) hole' big'.
Proof.
  intros (Hs & Hl & Hi & Hn & Hr & Hall) Hpid Hsz Hptr Hholes Hbigs.
  split; [done|]. split; [done|]. split; [done|]. split; [done|].
  split; [done|].
  intros x px. rewrite page_at_write_page.
  destruct (decide (pid = x)) as [<-|Hx].
  - intros Heq. injection Heq as <-. done.
  - intros Hpx. destruct (Hall _ _ Hpx) as (Hrange & Hsx & Hpt).
    split; [done|]. split.
    + eapply sizes_slack; [|exact Hsx]. unfold slack_of.
      destruct (decide (x = big)) as [Hb|Hb];
        destruct (decide (x = big')) as [Hb'|Hb']; try lia.
      exfalso. apply Hb'. apply Hbigs; [lia|congruence|done].
    + intros Hne. apply Hpt. apply Hholes; [lia|congruence|done].
Qed.

(** Setting a parent pointer keeps the invariant, and gives the page of the
    hole a parent. *)
Lemma inv_set_parent t hole hole' big c q t' :
  tree_inv t hole big → q ≠ INVALID_PAGE_ID →
  set_parent_of t c q = Some t' →
  (∀ x, 0 ≤ x → x ≠ c → x ≠ hole' → x ≠ hole) →
  tree_inv t' hole' big.
Proof.
  intros Hinv Hq Hset Hholes.
  destruct (set_parent_of_Some _ _ _ _ Hset) as (p & Hp & ->).
  destruct (inv_page _ _ _ _ _ Hinv Hp) as (Hrange & Hsz & Hptr).
  eapply inv_write; try done.
  - by apply sizes_SetParent.
  - intros _. by rewrite parent_SetParent.
Qed.

Lemma inv_NewPage t hole big :
  tree_inv t hole big → tree_inv (after_NewPage t) hole big.
Proof.
  intros (Hs & Hl & Hi & Hn & Hr & Hall).
  split; [done|]. split; [done|]. split; [done|].
  split; [simpl; lia|]. split; [simpl; lia|].
  intros pid p Hp. change (page_at (after_NewPage t) pid) with (page_at t pid) in Hp.
  destruct (Hall _ _ Hp) as (? & ? & ?). split; [simpl; lia|]. done.
Qed.

(** A page within its maximum size has no item too many. *)
Lemma inv_fits t hole big :
  tree_inv t hole big →
  (∀ p, page_at t big = Some p →
        page_sizes_ok t (bool_decide (big = root_page_id_ t)) 0 p) →
  tree_inv t hole INVALID_PAGE_ID.
Proof.
  intros (Hs & Hl & Hi & Hn & Hr & Hall) Hbig.
  split; [done|]. split; [done|]. split; [done|]. split; [done|].
  split; [done|].
  intros pid p Hp. destruct (Hall _ _ Hp) as (Hrange & Hsz & Hptr).
  split; [done|]. split; [|done].
  unfold slack_of in *. rewrite decide_False by (unfold INVALID_PAGE_ID; lia).
  case_decide; [subst; by apply Hbig|done].
Qed.

Lemma strip_SetParent p q : strip (SetParentPageId p q) = strip p.
Proof. by destruct p. Qed.

Lemma sizes_strip t f s p p' :
  strip p' = strip p → page_sizes_ok t f s p → page_sizes_ok t f s p'.
Proof.
  destruct p as [[]|[]], p' as [[]|[]]; unfold strip; simpl; intros [=]; subst; done.
Qed.

Lemma adopt_children_spec children : ∀ t q hole big r t',
  tree_inv t hole big → q ≠ INVALID_PAGE_ID →
  (∀ c, c ∈ children → 0 ≤ c) →
  adopt_children t children q = Some (r, t') →
  r = true ∧ tree_inv t' hole big ∧ same_frame t t' ∧
  ∀ pid, strip <$> page_at t' pid = strip <$> page_at t pid.
Proof.
  induction children as [|c children IH]; intros t q hole big r t' Hinv Hq Hc; simpl.
  - intros [= <- <-]. split; [done|]. split; [done|]. split; [by repeat split|done].
  - rewrite (served_FetchPage t c) by apply Hinv.
    rewrite bool_decide_eq_true_2
      by (assert (0 ≤ c) by (apply Hc; left); unfold INVALID_PAGE_ID; lia).
    destruct (set_parent_of t c q) as [t1|] eqn:Hset; simpl; [|done].
    intros Hrest.
    assert (Hinv1 : tree_inv t1 hole big)
      by (eapply inv_set_parent; eauto).
    destruct (IH t1 q hole big r t' Hinv1 Hq) as (Hr & Hinv' & Hfr & Hpages); try done.
    { intros c' Hc'. apply Hc. by right. }
    destruct (set_parent_of_Some _ _ _ _ Hset) as (p & Hp & ->).
    split; [done|]. split; [done|]. split.
    + destruct Hfr as (? & ? & ? & ?). by repeat split.
    + intros pid. rewrite Hpages, page_at_write_page. case_decide; [|done].
      subst. rewrite Hp. simpl. by rewrite strip_SetParent.
Qed.



Lemma served_UpdateRootPageId t b :
  served t →
  ∃ t', UpdateRootPageId t b = Some t' ∧ same_frame t t' ∧ served t' ∧
        ∀ pid, page_at t' pid = page_at t pid.
Proof.
  intros Hs. unfold UpdateRootPageId. rewrite (served_next_reply t Hs).
  eexists. split; [reflexivity|]. split; [by repeat split|].
  split; [exact Hs|done].
Qed.

Lemma length_insert_at (items : list (Z * Z)) pos it :
  length (insert_at items pos it) = S (length items).
Proof.
  unfold insert_at. rewrite length_app. simpl.
  rewrite length_take, length_drop. lia.
Qed.

Lemma elem_of_insert_at (items : list (Z * Z)) pos it x :
  x ∈ insert_at items pos it → x = it ∨ x ∈ items.
Proof.
  unfold insert_at. rewrite elem_of_app, elem_of_cons.
  intros [Hx|[->|Hx]]; auto; right.
  - by eapply subseteq_take.
  - by eapply subseteq_drop.
Qed.

Lemma quot2 z : 0 ≤ z → Z.quot z 2 = z / 2.
Proof. intros. apply Z.quot_div_nonneg; lia. Qed.


Lemma page_at_internal t pid n :
  internal_at t pid = Some n ↔ page_at t pid = Some (InternalNode n).
Proof.
  unfold internal_at. destruct (page_at t pid) as [[l|m]|]; simpl; split;
    intros H; by simplify_eq.
Qed.

Lemma page_at_leaf t pid l :
  leaf_at t pid = Some l ↔ page_at t pid = Some (LeafNode l).
Proof.
  unfold leaf_at. destruct (page_at t pid) as [[m|n]|]; simpl; split;
    intros H; by simplify_eq.
Qed.

Lemma write_page_served t pid p : served t → served (write_page t pid p).
Proof. done. Qed.

(** The case of a new root. *)
Lemma InsertIntoParent_new_root recur t left_id key right_id t' :
  parent_pre t left_id right_id → left_id = root_page_id_ t →
  InsertIntoParent_body recur t INVALID_PAGE_ID left_id key right_id = Some t' →
  insert_inv t'.
Proof.
  intros (Hinv & (rp & Hrp) & Hrroot & lp & Hlp & Hlsz) Hleft.
  pose proof Hinv as (Hs & Hlm & Him & Hn & Hr & Hall).
  destruct (inv_page _ _ _ _ _ Hinv Hlp) as (Hlrange & _ & _).
  destruct (inv_page _ _ _ _ _ Hinv Hrp) as (Hrrange & Hrsz & _).
  rewrite bool_decide_eq_false_2 in Hrsz by done.
  unfold slack_of in Hrsz.
  rewrite decide_False in Hrsz by (unfold INVALID_PAGE_ID; lia).
  unfold InsertIntoParent_body. rewrite bool_decide_eq_true_2 by done.
  rewrite (served_NewPage t Hs). fold (after_NewPage t).
  set (new_root_id := next_page_id (buffer_pool_manager_ t)) in *.
  set (nr := InternalNode (mkInternal INVALID_PAGE_ID
                (internal_max_size_ (after_NewPage t))
                [(0, left_id); (key, right_id)])).
  set (t2 := write_page (after_NewPage t) new_root_id nr).
  assert (Hs2 : served t2) by done.
  rewrite (served_FetchPage t2 left_id Hs2).
  rewrite (served_FetchPage t2 right_id Hs2).
  rewrite !bool_decide_eq_true_2 by (unfold INVALID_PAGE_ID; lia).
  cbn [andb].
  destruct (set_parent_of t2 left_id new_root_id) as [t3|] eqn:Hset3;
    cbn [mbind option_bind]; [|done].
  destruct (set_parent_of t3 right_id new_root_id) as [t4|] eqn:Hset4;
    cbn [mbind option_bind]; [|done].
  destruct (set_parent_of_Some _ _ _ _ Hset3) as (lp' & Hlp' & ->).
  destruct (set_parent_of_Some _ _ _ _ Hset4) as (rp' & Hrp' & ->).
  set (t4 := write_page _ right_id _).
  destruct (served_UpdateRootPageId (set_root t4 new_root_id) false)
    as (t5 & -> & (Hf1 & Hf2 & Hf3 & Hf4) & Hs5 & Hpages); [done|].
  intros [= <-].
  assert (Hlp2 : lp' = lp).
  { unfold t2 in Hlp'. rewrite page_at_write_page in Hlp'.
    rewrite decide_False in Hlp' by lia.
    change (page_at (after_NewPage t) left_id) with (page_at t left_id) in Hlp'.
    congruence. }
  subst lp'.
  assert (Hrp2 : page_sizes_ok t false 0 rp').
  { rewrite page_at_write_page in Hrp'. case_decide as Hlr.
    - injection Hrp' as <-. by apply sizes_SetParent.
    - unfold t2 in Hrp'. rewrite page_at_write_page in Hrp'.
      rewrite decide_False in Hrp' by lia.
      change (page_at (after_NewPage t) right_id) with (page_at t right_id) in Hrp'.
      congruence. }
  split; [done|]. split; [by rewrite Hf2|]. split; [by rewrite Hf3|].
  rewrite Hf1, Hf4. cbn [root_page_id_ set_root].
  split; [simpl; lia|]. split; [simpl; lia|].
  intros pid p. rewrite Hpages.
  change (page_at (set_root t4 new_root_id) pid) with (page_at t4 pid).
  assert (Hslack : ∀ f q, page_sizes_ok t f 0 q →
            page_sizes_ok t5 f (slack_of INVALID_PAGE_ID pid) q).
  { intros f q Hq. eapply sizes_slack; [apply slack_of_range|].
    destruct q; simpl in *; rewrite ?Hf2, ?Hf3; exact Hq. }
  unfold t4. rewrite page_at_write_page.
  destruct (decide (right_id = pid)) as [<-|Hnr].
  { intros [= <-]. split; [simpl; lia|].
    rewrite bool_decide_eq_false_2 by lia.
    split; [by apply sizes_SetParent, Hslack|].
    intros _. rewrite parent_SetParent. unfold INVALID_PAGE_ID. lia. }
  rewrite page_at_write_page.
  destruct (decide (left_id = pid)) as [<-|Hnl].
  { intros [= <-]. split; [simpl; lia|].
    rewrite bool_decide_eq_false_2 by lia.
    split; [by apply sizes_SetParent, Hslack|].
    intros _. rewrite parent_SetParent. unfold INVALID_PAGE_ID. lia. }
  unfold t2. rewrite page_at_write_page.
  destruct (decide (new_root_id = pid)) as [<-|Hnn].
  { intros [= <-]. split; [simpl; lia|].
    rewrite bool_decide_eq_true_2 by done.
    split; [|done]. apply Hslack. unfold nr. simpl.
    split; [done|]. split; [lia|]. split; [|done].
    intros it [->|[->|Hin%elem_of_nil]%elem_of_cons]%elem_of_cons; simpl; lia. }
  change (page_at (after_NewPage t) pid) with (page_at t pid).
  intros Hp. destruct (Hall _ _ Hp) as (Hrange & Hsz & Hptr).
  split; [simpl; lia|].
  rewrite bool_decide_eq_false_2 by lia.
  split.
  - apply Hslack.
    rewrite bool_decide_eq_false_2 in Hsz by congruence.
    unfold slack_of in Hsz.
    rewrite decide_False in Hsz by (unfold INVALID_PAGE_ID; lia). done.
  - intros _ Hpinv. exfalso. apply Hnl. rewrite Hleft. symmetry. by apply Hptr.
Qed.



(** The case of an existing parent. *)
Lemma InsertIntoParent_body_inv recur :
  (∀ t parent_id left_id key right_id t',
     parent_pre t left_id right_id →
     (parent_id = INVALID_PAGE_ID → left_id = root_page_id_ t) →
     recur t parent_id left_id key right_id = Some t' → insert_inv t') →
  ∀ t parent_id left_id key right_id t',
    parent_pre t left_id right_id →
    (parent_id = INVALID_PAGE_ID → left_id = root_page_id_ t) →
    InsertIntoParent_body recur t parent_id left_id key right_id = Some t' →
    insert_inv t'.
Proof.
  intros Hrec t parent_id left_id key right_id t' Hpre Hpar.
  destruct (decide (parent_id = INVALID_PAGE_ID)) as [->|Hroot].
  { apply InsertIntoParent_new_root; auto. }
  destruct Hpre as (Hinv & (rp & Hrp) & Hrroot & lp & Hlp & Hlsz).
  pose proof Hinv as (Hs & Hlm & Him & Hn & Hr & Hall).
  destruct (inv_page _ _ _ _ _ Hinv Hrp) as (Hrrange & _ & _).
  unfold InsertIntoParent_body. rewrite bool_decide_eq_false_2 by done.
  rewrite (served_FetchPage t parent_id Hs), bool_decide_eq_true_2 by done.
  cbn [negb].
  destruct (internal_at t parent_id) as [pn|] eqn:Hpn;
    cbn [mbind option_bind]; [|done].
  apply page_at_internal in Hpn.
  destruct (inv_page _ _ _ _ _ Hinv Hpn) as (Hprange & Hpsz & Hpptr).
  set (pos := match index_of_child (i_items pn) left_id 0 with
              | Some i => S i | None => 0%nat end).
  set (items1 := insert_at (i_items pn) pos (key, right_id)).
  set (t1 := write_page t parent_id (InternalNode (set_i_items pn items1))).
  assert (Hinv1 : tree_inv t1 right_id parent_id).
  { apply (inv_write t right_id INVALID_PAGE_ID); try done.
    - unfold slack_of. rewrite decide_True by done.
      unfold slack_of in Hpsz.
      rewrite decide_False in Hpsz by (unfold INVALID_PAGE_ID; lia).
      simpl in *. destruct Hpsz as (Hmax & Hlen & Hch & Hlow).
      unfold items1. rewrite length_insert_at.
      split; [done|]. split; [lia|]. split.
      + intros it [->|Hit]%elem_of_insert_at; [simpl; lia|by apply Hch].
      + intros Hf. specialize (Hlow Hf). lia.
    - intros x Hx _ ->. unfold INVALID_PAGE_ID in Hx. lia. }
  rewrite (served_FetchPage t1 right_id) by done.
  rewrite bool_decide_eq_true_2 by (unfold INVALID_PAGE_ID; lia).
  destruct (set_parent_of t1 right_id parent_id) as [t2|] eqn:Hset2;
    cbn [mbind option_bind]; [|done].
  assert (Hinv2 : tree_inv t2 INVALID_PAGE_ID parent_id).
  { eapply inv_set_parent; done. }
  destruct (internal_at t2 parent_id) as [pn2|] eqn:Hpn2;
    cbn [mbind option_bind]; [|done].
  apply page_at_internal in Hpn2.
  destruct (inv_page _ _ _ _ _ Hinv2 Hpn2) as (Hp2range & Hp2sz & Hp2ptr).
  unfold slack_of in Hp2sz. rewrite decide_True in Hp2sz by done.
  pose proof Hp2sz as (Hmax2 & Hlen2 & Hch2 & Hlow2). cbn [i_items] in *.
  pose proof Hinv2 as (Hs2 & _ & Him2 & Hn2 & Hr2 & Hall2).
  destruct (decide (i_max pn2 < Z.of_nat (length (i_items pn2)))) as [Hover|Hover];
    [rewrite bool_decide_eq_true_2 by done
    |rewrite bool_decide_eq_false_2 by done].
  2:{ (* no split *)
      intros Heq. simplify_eq. eapply inv_fits; [exact Hinv2|].
      intros p Hp. rewrite Hpn2 in Hp. injection Hp as <-. simpl.
      split; [done|]. split; [lia|]. done. }
  rewrite (served_NewPage t2 Hs2). fold (after_NewPage t2).
  set (new_page_id := next_page_id (buffer_pool_manager_ t2)) in *.
  set (items := i_items pn2) in *.
  set (size := Z.of_nat (length items)) in *.
  assert (Hsize : size = internal_max_size_ t2 + 1) by lia.
  set (split_index := Z.quot (size + 1) 2).
  assert (Hsplit : split_index = (size + 1) / 2)
    by (apply quot2; lia).
  destruct (KeyAt items split_index) as [middle_key|];
    cbn [mbind option_bind]; [|done].
  destruct (ValueAt items split_index) as [pivot_child|] eqn:Hpivot;
    cbn [mbind option_bind]; [|done].
  set (new_items := (0, pivot_child) :: drop (S (Z.to_nat split_index)) items).
  set (t4 := write_page (after_NewPage t2) new_page_id _).
  set (t5 := write_page t4 parent_id _).
  assert (Hsplit_lt : 0 ≤ split_index < size).
  { unfold ValueAt, item_at in Hpivot. case_bool_decide; [done|].
    destruct (items !! Z.to_nat split_index) eqn:Hl; [|done].
    apply lookup_lt_Some in Hl. unfold size. lia. }
  assert (Hpc : 0 ≤ pivot_child).
  { unfold ValueAt, item_at in Hpivot. case_bool_decide; [done|].
    destruct (items !! Z.to_nat split_index) as [[k c]|] eqn:Hl; [|done].
    injection Hpivot as <-. apply (Hch2 (k, c)). by eapply list_elem_of_lookup_2. }
  assert (Hnew_len : Z.of_nat (length new_items) = size - split_index).
  { unfold new_items. simpl. rewrite length_drop. unfold size. lia. }
  assert (Hnew_ch : ∀ it, it ∈ new_items → 0 ≤ it.2).
  { intros it [->|Hit]%elem_of_cons; [done|].
    apply Hch2. by eapply subseteq_drop. }
  clearbody new_items.
  assert (Hinv4 : tree_inv t4 new_page_id parent_id).
  { apply (inv_write (after_NewPage t2) INVALID_PAGE_ID parent_id).
    - by apply inv_NewPage.
    - simpl. lia.
    - rewrite bool_decide_eq_false_2 by (simpl; lia).
      unfold slack_of. rewrite decide_False by lia.
      simpl. split; [done|]. split; [lia|]. split; [done|].
      intros _. rewrite quot2 by lia. lia.
    - done.
    - intros x Hx _ _. unfold INVALID_PAGE_ID. lia.
    - done. }
  assert (Hleft_sz : ∀ f, page_sizes_ok t4 f 0
            (InternalNode (set_i_items pn2 (take (Z.to_nat split_index) items)))).
  { intros f. simpl. rewrite length_take. fold items.
    split; [done|]. split; [unfold size in *; lia|]. split.
    - intros it Hit. apply Hch2. by eapply subseteq_take.
    - intros _. rewrite quot2 by lia. unfold size in *. lia. }
  assert (Hinv5 : tree_inv t5 new_page_id INVALID_PAGE_ID).
  { apply (inv_write t4 new_page_id parent_id).
    - done.
    - simpl. lia.
    - eapply sizes_slack; [apply slack_of_range|]. apply Hleft_sz.
    - intros _. apply Hp2ptr. done.
    - done.
    - intros x _ Hx ->. done. }
  destruct (adopt_children t5 new_items.*2 new_page_id) as [[ok t6]|] eqn:Hadopt;
    cbn [mbind option_bind]; [|done].
  assert (Hnn : new_page_id ≠ INVALID_PAGE_ID) by (unfold INVALID_PAGE_ID; lia).
  assert (Hcs : ∀ c, c ∈ new_items.*2 → 0 ≤ c).
  { intros c (it & -> & Hit)%list_elem_of_fmap. by apply Hnew_ch. }
  destruct (adopt_children_spec _ _ _ _ _ _ _ Hinv5 Hnn Hcs Hadopt)
    as (-> & Hinv6 & (Hg1 & Hg2 & Hg3 & Hg4) & Hstrip).
  assert (Hp6 : ∃ p6, page_at t6 parent_id = Some p6 ∧
            strip p6 = strip (InternalNode
              (set_i_items pn2 (take (Z.to_nat split_index) items)))).
  { specialize (Hstrip parent_id). unfold t5 in Hstrip at 1.
    rewrite page_at_write_page, decide_True in Hstrip by done.
    destruct (page_at t6 parent_id) as [p6|]; [|done].
    exists p6. split; [done|]. by injection Hstrip. }
  destruct Hp6 as (p6 & Hp6 & Hstrip6).
  destruct (internal_at t6 parent_id) as [pn6|] eqn:Hpn6;
    cbn [mbind option_bind]; [|done].
  apply page_at_internal in Hpn6.
  assert (p6 = InternalNode pn6) by congruence. subst p6.
  apply Hrec.
  - split; [done|]. split.
    + specialize (Hstrip new_page_id). unfold t5 in Hstrip at 1.
      rewrite page_at_write_page, decide_False in Hstrip by lia.
      unfold t4 in Hstrip at 1.
      rewrite page_at_write_page, decide_True in Hstrip by done.
      destruct (page_at t6 new_page_id); [by eexists|done].
    + split; [rewrite Hg1; simpl; lia|].
      exists (InternalNode pn6). split; [done|].
      eapply sizes_strip; [exact Hstrip6|].
      pose proof (Hleft_sz false) as Hl.
      destruct Hl as (? & ? & ? & ?). simpl. rewrite Hg3. done.
  - intros Hpar6.
    destruct (inv_page _ _ _ _ _ Hinv6 Hpn6) as (_ & _ & Hptr6).
    apply Hptr6; [lia|done].
Qed.

(** [InsertIntoParent] restores the invariant. *)
Lemma InsertIntoParent_inv fuel : ∀ t parent_id left_id key right_id t',
  parent_pre t left_id right_id →
  (parent_id = INVALID_PAGE_ID → left_id = root_page_id_ t) →
  InsertIntoParent fuel t parent_id left_id key right_id = Some t' →
  insert_inv t'.
Proof.
  induction fuel as [|fuel IH]; simpl; apply InsertIntoParent_body_inv.
  - intros; discriminate.
  - exact IH.
Qed.



(** The first insertion. *)
Lemma Insert_empty_inv fuel t key value r t' :
  insert_inv t → root_page_id_ t = INVALID_PAGE_ID →
  Insert fuel t key value = Some (r, t') → insert_inv t'.
Proof.
  intros Hinv Hroot. pose proof Hinv as (Hs & Hlm & Him & Hn & Hr & Hall).
  unfold Insert. rewrite bool_decide_eq_true_2 by done.
  rewrite (served_NewPage t Hs). fold (after_NewPage t).
  set (new_page_id := next_page_id (buffer_pool_manager_ t)) in *.
  set (t2 := write_page (after_NewPage t) new_page_id _).
  destruct (served_UpdateRootPageId (set_root t2 new_page_id) true)
    as (t3 & -> & (Hf1 & Hf2 & Hf3 & Hf4) & Hs3 & Hpages); [done|].
  cbn [mbind option_bind]. intros [= <- <-].
  split; [done|]. split; [by rewrite Hf2|]. split; [by rewrite Hf3|].
  rewrite Hf1, Hf4. cbn [root_page_id_ set_root].
  split; [simpl; lia|]. split; [simpl; lia|].
  intros pid p. rewrite Hpages.
  change (page_at (set_root t2 new_page_id) pid) with (page_at t2 pid).
  unfold t2. rewrite page_at_write_page.
  destruct (decide (new_page_id = pid)) as [<-|Hne].
  - intros [= <-]. split; [simpl; lia|].
    rewrite bool_decide_eq_true_2 by done. split; [|done].
    simpl. rewrite Hf2. split; [done|].
    split; [unfold slack_of; case_decide; simpl; lia|done].
  - change (page_at (after_NewPage t) pid) with (page_at t pid).
    intros Hp. destruct (Hall _ _ Hp) as (Hrange & Hsz & Hptr).
    split; [simpl; lia|].
    rewrite bool_decide_eq_false_2 by done.
    rewrite bool_decide_eq_false_2 in Hsz by (unfold INVALID_PAGE_ID in *; lia).
    split.
    + destruct p; simpl in *; rewrite ?Hf2, ?Hf3; exact Hsz.
    + intros Hpid Hpar. exfalso.
      specialize (Hptr Hpid Hpar). unfold INVALID_PAGE_ID in *. lia.
Qed.

(** [Insert] keeps the invariant. *)
Lemma Insert_inv fuel t key value r t' :
  insert_inv t → Insert fuel t key value = Some (r, t') → insert_inv t'.
Proof.
  intros Hinv.
  destruct (decide (root_page_id_ t = INVALID_PAGE_ID)) as [Hroot|Hroot].
  { by apply Insert_empty_inv. }
  pose proof Hinv as (Hs & Hlm & Him & Hn & Hr & Hall).
  unfold Insert. rewrite bool_decide_eq_false_2 by done.
  destruct (FindLeafPage fuel t key false) as [[page t0]|] eqn:Hfind;
    cbn [mbind option_bind]; [|done].
  apply served_FindLeafPage in Hfind as ->; [|done].
  destruct page as [page_id0|]; [|by intros [= <- <-]].
  destruct (leaf_at t page_id0) as [leaf0|]; cbn [mbind option_bind]; [|done].
  destruct (find_insert_pos (l_items leaf0) key 0) as [pos0 dup0].
  destruct (hand_off t page_id0 leaf0 key pos0 dup0)
    as [[[[page_id insert_pos] dup] t0]|] eqn:Hhand;
    cbn [mbind option_bind]; [|done].
  apply served_hand_off in Hhand as ->; [|done].
  destruct dup; [by intros [= <- <-]|].
  destruct (leaf_at t page_id) as [leaf|] eqn:Hleaf;
    cbn [mbind option_bind]; [|done].
  apply page_at_leaf in Hleaf.
  destruct (inv_page _ _ _ _ _ Hinv Hleaf) as (Hrange & Hsz & Hptr).
  unfold slack_of in Hsz.
  rewrite decide_False in Hsz by (unfold INVALID_PAGE_ID; lia).
  destruct Hsz as (Hmax & Hlen & Hlow). cbn [l_items] in *.
  set (items := insert_at (l_items leaf) insert_pos (key, value)).
  assert (Hitems : length items = S (length (l_items leaf)))
    by apply length_insert_at.
  set (t1 := write_page t page_id (LeafNode (set_l_items leaf items))).
  destruct (decide (l_max leaf ≤ Z.of_nat (length items))) as [Hfull|Hroom];
    [rewrite bool_decide_eq_true_2 by done
    |rewrite bool_decide_eq_false_2 by done].
  2:{ intros [= <- <-]. apply (inv_write t INVALID_PAGE_ID INVALID_PAGE_ID);
        try done.
      unfold slack_of. rewrite decide_False by (unfold INVALID_PAGE_ID; lia).
      simpl. split; [done|]. split; [lia|]. intros Hf. specialize (Hlow Hf). lia. }
  assert (Hinv1 : tree_inv t1 INVALID_PAGE_ID page_id).
  { apply (inv_write t INVALID_PAGE_ID INVALID_PAGE_ID); try done.
    - unfold slack_of. rewrite decide_True by done.
      simpl. split; [done|]. split; [lia|]. intros Hf. specialize (Hlow Hf). lia.
    - intros x Hx _ ->. unfold INVALID_PAGE_ID in Hx. lia. }
  rewrite (served_NewPage t1) by done. fold (after_NewPage t1).
  set (new_page_id := next_page_id (buffer_pool_manager_ t1)).
  set (size := Z.of_nat (length items)) in *.
  assert (Hsize : size = leaf_max_size_ t) by lia.
  set (split_index := Z.to_nat (Z.quot size 2)).
  assert (Hsplit : Z.of_nat split_index = size / 2)
    by (unfold split_index; rewrite quot2 by lia; lia).
  set (new_items := drop split_index items).
  assert (Hnew_len : Z.of_nat (length new_items) = size - size / 2)
    by (unfold new_items; rewrite length_drop; unfold size in *; lia).
  assert (Hold_len : Z.of_nat (length (take split_index items)) = size / 2)
    by (rewrite length_take; unfold size in *; lia).
  clearbody new_items.
  set (t3 := write_page (after_NewPage t1) new_page_id _).
  set (t4 := write_page t3 page_id _).
  destruct (KeyAt new_items 0) as [middle_key|]; cbn [mbind option_bind]; [|done].
  destruct (InsertIntoParent fuel t4 (l_parent leaf) page_id middle_key new_page_id)
    as [t5|] eqn:Hiip; cbn [mbind option_bind]; [|done].
  intros [= <- <-].
  assert (Hnp : new_page_id = next_page_id (buffer_pool_manager_ t)) by done.
  assert (Hnp1 : next_page_id (buffer_pool_manager_ (after_NewPage t1))
                 = new_page_id + 1) by done.
  assert (Hrt1 : root_page_id_ (after_NewPage t1) = root_page_id_ t) by done.
  assert (Hlm1 : leaf_max_size_ (after_NewPage t1) = leaf_max_size_ t) by done.
  assert (Hnp3 : next_page_id (buffer_pool_manager_ t3) = new_page_id + 1) by done.
  assert (Hrt3 : root_page_id_ t3 = root_page_id_ t) by done.
  assert (Hrt4 : root_page_id_ t4 = root_page_id_ t) by done.
  assert (Hlm3 : leaf_max_size_ t3 = leaf_max_size_ t) by done.
  clearbody new_page_id.
  assert (Hinv3 : tree_inv t3 new_page_id page_id).
  { apply (inv_write (after_NewPage t1) INVALID_PAGE_ID page_id).
    - by apply inv_NewPage.
    - rewrite Hnp1. lia.
    - rewrite Hrt1, bool_decide_eq_false_2 by lia.
      unfold slack_of. rewrite decide_False by lia.
      simpl. split; [done|]. split; [lia|]. intros _. rewrite quot2 by lia. lia.
    - done.
    - intros x Hx _ _. unfold INVALID_PAGE_ID. lia.
    - done. }
  assert (Hleft_sz : ∀ f, page_sizes_ok t3 f 0
            (LeafNode (mkLeaf (l_parent leaf) (l_max leaf) new_page_id
                         (take split_index items)))).
  { intros f. simpl. split; [done|]. split; [lia|].
    intros _. rewrite quot2 by lia. lia. }
  assert (Hinv4 : tree_inv t4 new_page_id INVALID_PAGE_ID).
  { apply (inv_write t3 new_page_id page_id).
    - done.
    - rewrite Hnp3. lia.
    - eapply sizes_slack; [apply slack_of_range|]. apply Hleft_sz.
    - intros _. rewrite Hrt3. apply Hptr. unfold INVALID_PAGE_ID. lia.
    - done.
    - intros x _ Hx ->. done. }
  eapply InsertIntoParent_inv; [| |exact Hiip].
  2:{ rewrite Hrt4. apply Hptr. unfold INVALID_PAGE_ID. lia. }
  split; [done|]. split.
  - unfold t4, t3. rewrite page_at_write_page, decide_False by lia.
    rewrite page_at_write_page, decide_True by done. done.
  - split; [rewrite Hrt4; lia|].
    eexists. split.
    + unfold t4. by rewrite page_at_write_page, decide_True.
    + apply (Hleft_sz false).
Qed.



Lemma new_tree_inv lm im first :
  2 ≤ lm → 2 ≤ im → 0 ≤ first → insert_inv (new_tree lm im first []).
Proof.
  intros Hlm Him Hfirst. split; [done|]. split; [done|]. split; [done|].
  split; [done|]. split; [simpl; unfold INVALID_PAGE_ID; lia|].
  intros pid p Hp. unfold page_at in Hp. simpl in Hp.
  by rewrite lookup_empty in Hp.
Qed.

Lemma insert_all_inv fuel keys : ∀ t rs t',
  insert_inv t → insert_all fuel t keys = Some (rs, t') → insert_inv t'.
Proof.
  induction keys as [|k keys IH]; intros t rs t' Hinv; simpl.
  - by intros [= <- <-].
  - destruct (Insert fuel t k k) as [[r t1]|] eqn:Hins;
      cbn [mbind option_bind]; [|done].
    destruct (insert_all fuel t1 keys) as [[rs1 t2]|] eqn:Hall;
      cbn [mbind option_bind]; [|done].
    intros [= <- <-]. eapply IH; [|exact Hall].
    eapply Insert_inv; [exact Hinv|exact Hins].
Qed.



Lemma run_operations_inv fuel ops : ∀ t t',
  insert_inv t → forallb is_insert ops = true →
  run_operations fuel t ops = Some t' → insert_inv t'.
Proof.
  induction ops as [|[key value|key] ops IH]; intros t t' Hinv Hops; simpl.
  - by intros [= <-].
  - destruct (Insert fuel t key value) as [[r t1]|] eqn:Hins;
      cbn [mbind option_bind]; [|done].
    intros Hrun. eapply IH; [|exact Hops|exact Hrun].
    eapply Insert_inv; [exact Hinv|exact Hins].
  - done.
Qed.

End InsertInv.

(** C4 as stated fails, for the sizes that the splits of [Insert] leave and
    for the pages that [Remove] leaves.  With both maximum sizes 4, the keys
    1 to 10 inserted in order leave the internal page 7, a child of the root
    8, with two children, under the minimum 3 of the specification.  The keys
    1 to 4 inserted and then removed leave the leaf 1, a child of the root 3,
    with no item. *)
Lemma pages_below_min_size :
  (∃ t p, BPlusTree.run_operations 8 BPlusTree.tree44 BPlusTree.ascending_ops
            = Some t ∧
          BPlusTree.page_at t 7 = Some p ∧ 7 ≠ BPlusTree.root_page_id_ t ∧
          BPlusTree.GetParentPageId p = BPlusTree.root_page_id_ t ∧
          BPlusTree.GetSize p = 2 ∧ BPlusTree.GetMinSize p = 3 ∧
          ¬ BPlusTree.within_spec_bounds p) ∧
  (∃ t p, BPlusTree.run_operations 8 BPlusTree.tree44 BPlusTree.in_and_out_ops
            = Some t ∧
          BPlusTree.page_at t 1 = Some p ∧ 1 ≠ BPlusTree.root_page_id_ t ∧
          BPlusTree.GetParentPageId p = BPlusTree.root_page_id_ t ∧
          BPlusTree.GetSize p = 0 ∧ BPlusTree.GetMinSize p = 2 ∧
          ¬ BPlusTree.within_spec_bounds p).
Proof.
  split.
  - eexists _, _. split; [vm_compute; reflexivity|].
    split; [vm_compute; reflexivity|].
    split; [vm_compute; discriminate|].
    split; [vm_compute; reflexivity|].
    split; [vm_compute; reflexivity|].
    split; [vm_compute; reflexivity|].
    intros [Hmin _]. vm_compute in Hmin. by apply Hmin.
  - eexists _, _. split; [vm_compute; reflexivity|].
    split; [vm_compute; reflexivity|].
    split; [vm_compute; discriminate|].
    split; [vm_compute; reflexivity|].
    split; [vm_compute; reflexivity|].
    split; [vm_compute; reflexivity|].
    intros [Hmin _]. vm_compute in Hmin. by apply Hmin.
Qed.

(** C4, amended.  On a tree that starts empty, with both maximum sizes at
    least 2 and a pool that serves every request, after any sequence of
    [Insert] calls every page that is not the root has a parent, a leaf
    holds at least [max_size / 2] (rounded down) and fewer than [max_size]
    items, and an internal page holds at least [(max_size + 1) / 2] (rounded
    down) and at most [max_size] children.  These are the bounds of the
    specification when the maximum size of a leaf is even, and when that of
    an internal page is odd. *)
Theorem insert_only_keeps_page_bounds
  (fuel : nat) (leaf_max_size internal_max_size first_page_id : Z)
  (ops : list BPlusTree.Operation) (t : BPlusTree.BPlusTree)
  (page_id : Z) (p : BPlusTree.BPlusTreePage) :
  2 ≤ leaf_max_size → 2 ≤ internal_max_size → 0 ≤ first_page_id →
  forallb BPlusTree.is_insert ops = true →
  BPlusTree.run_operations fuel
    (BPlusTree.new_tree leaf_max_size internal_max_size first_page_id [])
    ops = Some t →
  BPlusTree.page_at t page_id = Some p →
  page_id ≠ BPlusTree.root_page_id_ t →
  BPlusTree.GetParentPageId p ≠ BPlusTree.INVALID_PAGE_ID ∧
  match p with
  | BPlusTree.LeafNode _ =>
      Z.quot (BPlusTree.GetMaxSize p) 2 ≤ BPlusTree.GetSize p
        < BPlusTree.GetMaxSize p ∧
      (Z.even (BPlusTree.GetMaxSize p) = true →
       BPlusTree.within_spec_bounds p)
  | BPlusTree.InternalNode _ =>
      Z.quot (BPlusTree.GetMaxSize p + 1) 2 ≤ BPlusTree.GetSize p
        ≤ BPlusTree.GetMaxSize p ∧
      (Z.odd (BPlusTree.GetMaxSize p) = true →
       BPlusTree.within_spec_bounds p)
  end.
Proof.
  intros Hlm Him Hfirst Hops Hrun Hp Hroot.
  assert (Hinv : BPlusTree.insert_inv t).
  { eapply run_operations_inv; [|exact Hops|exact Hrun].
    by apply new_tree_inv. }
  destruct Hinv as (_ & Hl & Hi & _ & _ & Hall).
  destruct (Hall _ _ Hp) as (Hrange & Hsz & Hptr).
  rewrite bool_decide_eq_false_2 in Hsz by done.
  unfold BPlusTree.slack_of in Hsz.
  rewrite decide_False in Hsz by (unfold BPlusTree.INVALID_PAGE_ID; lia).
  split.
  { intros Hpar. apply Hroot, Hptr; [|done].
    unfold BPlusTree.INVALID_PAGE_ID. lia. }
  destruct p as [l|n]; simpl in Hsz.
  - destruct Hsz as (Hmax & Hlen & Hlow). specialize (Hlow eq_refl).
    unfold BPlusTree.within_spec_bounds, BPlusTree.GetMinSize,
      BPlusTree.leaf_min_size, BPlusTree.GetSize, BPlusTree.GetMaxSize.
    rewrite Hmax. split; [lia|].
    intros [m Hm]%Z.even_spec. split; [|lia].
    rewrite Hm in *. rewrite !Z.quot_div_nonneg in * by lia. lia.
  - destruct Hsz as (Hmax & Hlen & _ & Hlow). specialize (Hlow eq_refl).
    unfold BPlusTree.within_spec_bounds, BPlusTree.GetMinSize,
      BPlusTree.internal_min_size, BPlusTree.GetSize, BPlusTree.GetMaxSize.
    rewrite Hmax. split; [lia|].
    intros [m Hm]%Z.odd_spec. split; [|lia].
    rewrite Hm in *. rewrite !Z.quot_div_nonneg in * by lia. lia.
Qed.

Lemma insert_only_keeps_page_bounds_witness :
  BPlusTree.GetParentPageId
    (BPlusTree.InternalNode (BPlusTree.mkInternal 8 4 [(0, 5); (9, 6)]))
    ≠ BPlusTree.INVALID_PAGE_ID ∧
  Z.quot 5 2 ≤ 2 ≤ 4.
Proof.
  destruct (insert_only_keeps_page_bounds 8 4 4 1 BPlusTree.ascending_ops
              BPlusTree.ascending_tree 7
              (BPlusTree.InternalNode
                 (BPlusTree.mkInternal 8 4 [(0, 5); (9, 6)])))
    as (Hpar & Hsz & _);
    [lia|lia|lia|reflexivity|vm_compute; reflexivity|vm_compute; reflexivity
    |vm_compute; discriminate|].
  split; [exact Hpar|exact Hsz].
Defined.

(** ** The B+-tree as a search tree under [Insert] *)

Section OrderFacts.
Import BPlusTree.
Implicit Types (items rest : list (Z * Z)) (lo hi : option Z) (key : Z).

Lemma comparator_ge a b : 0 ≤ comparator_ a b ↔ b ≤ a.
Proof. unfold comparator_. destruct (Z.compare_spec a b); lia. Qed.

Lemma comparator_eq a b : comparator_ a b = 0 ↔ a = b.
Proof. unfold comparator_. destruct (Z.compare_spec a b); lia. Qed.

Lemma comparator_lt a b : comparator_ a b < 0 ↔ a < b.
Proof. unfold comparator_. destruct (Z.compare_spec a b); lia. Qed.

Lemma comparator_gt a b : 0 < comparator_ a b ↔ b < a.
Proof. unfold comparator_. destruct (Z.compare_spec a b); lia. Qed.

(** **** Scans of a leaf *)

Lemma find_insert_pos_shift items key : ∀ p,
  find_insert_pos items key p
  = ((p + (find_insert_pos items key 0).1)%nat, (find_insert_pos items key 0).2).
Proof.
  induction items as [|[k v] items IH]; intros p; simpl.
  - f_equal. lia.
  - case_bool_decide; [simpl; f_equal; lia|].
    case_bool_decide; [simpl; f_equal; lia|].
    rewrite (IH (S p)), (IH 1%nat). simpl. f_equal. lia.
Qed.

(** On ascending keys the scan of [Insert] meets the key if and only if
    the leaf holds it. *)
Lemma find_insert_pos_dup items key :
  StronglySorted Z.lt items.*1 →
  (find_insert_pos items key 0).2 = true ↔ key ∈ items.*1.
Proof.
  induction items as [|[k v] items IH]; simpl; intros Hs.
  - split; [done|]. by intros ?%elem_of_nil.
  - apply StronglySorted_cons in Hs as [Hall Hs].
    rewrite elem_of_cons. case_bool_decide as Heq.
    { apply (proj1 (comparator_eq _ _)) in Heq as ->. simpl. split; auto. }
    case_bool_decide as Hlt.
    { apply (proj1 (comparator_lt _ _)) in Hlt. simpl. split; [done|].
      intros [->|Hin]; [by rewrite comparator_eq in Heq|].
      rewrite list.Forall_forall in Hall. specialize (Hall _ Hin). lia. }
    rewrite find_insert_pos_shift. simpl. rewrite (IH Hs).
    rewrite comparator_eq in Heq. split; [auto|]. by intros [->|?].
Qed.

(** The position found keeps the keys ascending. *)
Lemma find_insert_pos_sorted items key value pos :
  StronglySorted Z.lt items.*1 →
  find_insert_pos items key 0 = (pos, false) →
  StronglySorted Z.lt (insert_at items pos (key, value)).*1.
Proof.
  revert pos. induction items as [|[k v] items IH]; simpl; intros pos Hs.
  - intros [= <-]. unfold insert_at. simpl. repeat constructor.
  - apply StronglySorted_cons in Hs as [Hall Hs].
    case_bool_decide as Heq; [done|].
    case_bool_decide as Hlt.
    + apply (proj1 (comparator_lt _ _)) in Hlt. intros [= <-]. unfold insert_at. simpl.
      apply StronglySorted_cons. split.
      * constructor; [done|]. eapply Forall_impl; [exact Hall|].
        simpl. intros; lia.
      * apply StronglySorted_cons. done.
    + rewrite find_insert_pos_shift.
      destruct (find_insert_pos items key 0) as [p d] eqn:Hp. simpl.
      intros [= <- ->]. specialize (IH p Hs eq_refl).
      unfold insert_at in *. simpl.
      apply StronglySorted_cons. split; [|done].
      rewrite fmap_app, fmap_cons, Forall_app, Forall_cons. simpl.
      rewrite comparator_eq in Heq. rewrite comparator_lt in Hlt.
      split; [|split; [lia|]].
      * eapply Forall_impl; [|done].
        rewrite list.Forall_forall in Hall. apply list.Forall_forall.
        intros x Hx. apply Hall.
        apply list_elem_of_fmap in Hx as (y & -> & Hy).
        apply list_elem_of_fmap. exists y. split; [done|].
        by eapply subseteq_take.
      * rewrite list.Forall_forall in Hall. apply list.Forall_forall.
        intros x Hx. apply Hall.
        apply list_elem_of_fmap in Hx as (y & -> & Hy).
        apply list_elem_of_fmap. exists y. split; [done|].
        by eapply subseteq_drop.
Qed.

(** On ascending keys the scan of [GetValue] finds the value stored with
    the key. *)
Lemma leaf_lookup_sorted items key value :
  StronglySorted Z.lt items.*1 →
  leaf_lookup items key = Some value ↔ (key, value) ∈ items.
Proof.
  induction items as [|[k v] items IH]; simpl; intros Hs.
  - split; [done|]. by intros ?%elem_of_nil.
  - apply StronglySorted_cons in Hs as [Hall Hs].
    rewrite elem_of_cons. rewrite list.Forall_forall in Hall.
    case_bool_decide as Heq.
    { apply (proj1 (comparator_eq _ _)) in Heq as ->. split.
      - intros [= ->]. by left.
      - intros [[= ->]|Hin]; [done|].
        assert (k < k); [|lia]. apply Hall.
        apply list_elem_of_fmap. by exists (k, value). }
    rewrite comparator_eq in Heq.
    case_bool_decide as Hlt.
    { apply (proj1 (comparator_lt _ _)) in Hlt. split; [done|].
      intros [[= -> ->]|Hin]; [done|].
      assert (k < key); [|lia]. apply Hall.
      apply list_elem_of_fmap. by exists (key, value). }
    rewrite (IH Hs). split; [auto|]. intros [[= -> ->]|?]; done.
Qed.

Lemma leaf_lookup_dup items key :
  is_Some (leaf_lookup items key) ↔ (find_insert_pos items key 0).2 = true.
Proof.
  induction items as [|[k v] items IH]; simpl.
  - split; [by intros [? ?]|done].
  - case_bool_decide; [simpl; split; eauto|].
    case_bool_decide; [simpl; split; [by intros [? ?]|done]|].
    by rewrite find_insert_pos_shift.
Qed.

Lemma elem_of_insert_at_iff items pos (it x : Z * Z) :
  x ∈ insert_at items pos it ↔ x = it ∨ x ∈ items.
Proof.
  unfold insert_at. rewrite elem_of_app, elem_of_cons.
  rewrite <- (take_drop pos items) at 3. rewrite elem_of_app. tauto.
Qed.

(** **** The children of an internal page *)

Lemma child_scan_shift rest key : ∀ index,
  child_scan rest key index = index + child_scan rest key 0.
Proof.
  induction rest as [|[k c] rest IH]; intros index; simpl; [lia|].
  case_bool_decide; [|lia]. rewrite (IH (index + 1)), (IH (0 + 1)). lia.
Qed.

Lemma expect_fst lo items hi : (expect lo items hi).*1 = items.*2.
Proof.
  revert lo. induction items as [|[k c] items IH]; intros lo; simpl; [done|].
  by rewrite IH.
Qed.

Lemma expect_child lo items hi c b :
  (c, b) ∈ expect lo items hi → c ∈ items.*2.
Proof.
  intros Hin. rewrite <- (expect_fst lo items hi).
  apply list_elem_of_fmap. by exists (c, b).
Qed.

Lemma expect_lookup lo items hi i k c :
  items !! i = Some (k, c) →
  ∃ l h, expect lo items hi !! i = Some (c, (l, h)).
Proof.
  revert lo i. induction items as [|[k0 c0] items IH]; intros lo i; [done|].
  destruct i as [|i]; simpl.
  - intros [= -> ->]. eauto.
  - apply IH.
Qed.

(** The search goes to a child that is responsible for the key. *)
Lemma child_for_route items key : ∀ lo hi,
  items ≠ [] → above lo key → below hi key →
  ∃ c l h, child_for items key false = Some c ∧
           (c, (l, h)) ∈ expect lo items hi ∧ above l key ∧ below h key.
Proof.
  intros lo hi Hne Hlo Hhi.
  assert (∃ (i : nat) k c l h,
            child_scan (tail items) key 0 = Z.of_nat i ∧
            items !! i = Some (k, c) ∧
            (c, (l, h)) ∈ expect lo items hi ∧ above l key ∧ below h key)
    as (i & k & c & l & h & Hscan & Hi & Hin & Hl & Hh).
  { destruct items as [|[k c] rest]; [done|]. clear Hne. simpl tail.
    revert k c lo Hlo.
    induction rest as [|[k1 c1] rest IH]; intros k c lo Hlo.
    - exists 0%nat, k, c, lo, hi. simpl. split; [done|]. split; [done|].
      split; [left|done].
    - simpl. case_bool_decide as Hge.
      + apply (proj1 (comparator_ge _ _)) in Hge.
        destruct (IH k1 c1 (Some k1) Hge)
          as (i & k' & c' & l & h & Hscan & Hi & Hin & Hl & Hh).
        exists (S i), k', c', l, h. rewrite child_scan_shift, Hscan.
        split; [lia|]. split; [done|]. split; [by right|done].
      + rewrite comparator_ge in Hge.
        exists 0%nat, k, c, lo, (Some k1). split; [done|]. split; [done|].
        split; [left|]. split; [done|simpl; lia]. }
  exists c, l, h. split; [|done].
  unfold child_for, ValueAt, item_at.
  rewrite child_scan_shift, Hscan.
  rewrite bool_decide_eq_false_2 by lia.
  replace (Z.to_nat (1 + Z.of_nat i - 1)) with i by lia.
  by rewrite Hi.
Qed.


Lemma all_apart_cons e E : all_apart (e :: E) → all_apart E.
Proof. intros H c l h Hin. apply (H c). by right. Qed.

(** The keys of the items ascend up to the upper bound. *)
Lemma expect_first_below k c rest : ∀ hi,
  all_apart (expect (Some k) ((k, c) :: rest) hi) → below hi k.
Proof.
  revert k c. induction rest as [|[k1 c1] rest IH]; intros k c hi Hap.
  - specialize (Hap c (Some k) hi). simpl in Hap.
    destruct hi; simpl in *; [|done]. apply Hap. left.
  - assert (k < k1) by (apply (Hap c (Some k) (Some k1)); left).
    assert (below hi k1) by (apply (IH k1 c1), (all_apart_cons _ _ Hap)).
    destruct hi; simpl in *; [lia|done].
Qed.

Lemma expect_within items key : ∀ lo hi c l h,
  all_apart (expect lo items hi) → (c, (l, h)) ∈ expect lo items hi →
  (above l key → above lo key) ∧ (below h key → below hi key).
Proof.
  induction items as [|[k0 c0] rest IH]; intros lo hi c l h Hap Hin.
  { by apply elem_of_nil in Hin. }
  simpl in Hin. apply elem_of_cons in Hin as [Heq|Hin].
  - injection Heq as -> -> ->. split; [done|].
    destruct rest as [|[k1 c1] rest]; [done|]. simpl.
    intros Hlt.
    assert (below hi k1)
      by (apply (expect_first_below k1 c1 rest), (all_apart_cons _ _ Hap)).
    destruct hi; simpl in *; [lia|done].
  - destruct rest as [|[k1 c1] rest]; [by apply elem_of_nil in Hin|].
    destruct (IH (Some k1) hi c l h (all_apart_cons _ _ Hap) Hin) as [Hl Hh].
    split; [|done]. intros Ha. specialize (Hl Ha). simpl in Hl.
    assert (apart lo (Some k1)) by (apply (Hap c0); left).
    destruct lo; simpl in *; [lia|done].
Qed.

(** One child only is responsible for a key. *)
Lemma expect_unique items key : ∀ lo hi c l h c' l' h',
  all_apart (expect lo items hi) →
  (c, (l, h)) ∈ expect lo items hi → (c', (l', h')) ∈ expect lo items hi →
  above l key → below h key → above l' key → below h' key → c = c'.
Proof.
  induction items as [|[k0 c0] rest IH];
    intros lo hi c l h c' l' h' Hap Hin Hin' Hl Hh Hl' Hh'.
  { by apply elem_of_nil in Hin. }
  simpl in Hin, Hin'.
  apply elem_of_cons in Hin as [Heq|Hin];
    apply elem_of_cons in Hin' as [Heq'|Hin'].
  - by simplify_eq.
  - injection Heq as -> -> ->.
    destruct rest as [|[k1 c1] rest]; [by apply elem_of_nil in Hin'|].
    assert (Hap' : all_apart (expect (Some k1) ((k1, c1) :: rest) hi))
      by exact (all_apart_cons _ _ Hap).
    destruct (expect_within _ key _ _ _ _ _ Hap' Hin') as [Hw _].
    specialize (Hw Hl'). simpl in *. lia.
  - injection Heq' as -> -> ->.
    destruct rest as [|[k1 c1] rest]; [by apply elem_of_nil in Hin|].
    assert (Hap' : all_apart (expect (Some k1) ((k1, c1) :: rest) hi))
      by exact (all_apart_cons _ _ Hap).
    destruct (expect_within _ key _ _ _ _ _ Hap' Hin) as [Hw _].
    specialize (Hw Hl). simpl in *. lia.
  - eapply (IH _ _ c l h c' l' h'); [|done..].
    exact (all_apart_cons _ _ Hap).
Qed.

(** The children after an item has been put behind the child [left]. *)
Lemma expect_insert items mid right : ∀ lo hi i k left,
  items !! i = Some (k, left) →
  ∃ l h, expect lo items hi !! i = Some (left, (l, h)) ∧
    expect lo (insert_at items (S i) (mid, right)) hi
    = take i (expect lo items hi)
      ++ (left, (l, Some mid)) :: (right, (Some mid, h))
      :: drop (S i) (expect lo items hi).
Proof.
  induction items as [|[k0 c0] rest IH]; intros lo hi i k left Hi; [done|].
  destruct i as [|i].
  - injection Hi as -> ->. exists lo, (next_key rest hi).
    split; [done|]. unfold insert_at. simpl. by rewrite drop_0.
  - simpl in Hi.
    destruct (IH (next_key rest hi) hi i k left Hi) as (l & h & HE & Heq).
    exists l, h. split; [done|].
    change (insert_at ((k0, c0) :: rest) (S (S i)) (mid, right))
      with ((k0, c0) :: insert_at rest (S i) (mid, right)).
    assert (Hnk : next_key (insert_at rest (S i) (mid, right)) hi
                  = next_key rest hi)
      by (by destruct rest as [|[k1 c1] rest]).
    cbn [expect]. rewrite Hnk, Heq. done.
Qed.

(** The children of the two halves of a split internal page. *)
Lemma expect_split items : ∀ lo hi s k c,
  (0 < s)%nat → items !! s = Some (k, c) →
  expect lo (take s items) (Some k) = take s (expect lo items hi) ∧
  expect (Some k) ((0, c) :: drop (S s) items) hi
  = drop s (expect lo items hi).
Proof.
  induction items as [|[k0 c0] rest IH]; intros lo hi s k c Hs Hi; [done|].
  destruct s as [|s]; [lia|]. simpl in Hi.
  destruct s as [|s].
  - destruct rest as [|[k1 c1] rest]; [done|]. injection Hi as -> ->.
    simpl. by rewrite drop_0.
  - destruct (IH (next_key rest hi) hi (S s) k c ltac:(lia) Hi) as [Ht Hd].
    split.
    + rewrite firstn_cons. cbn [expect]. rewrite firstn_cons. f_equal.
      * destruct rest as [|[k1 c1] rest]; [done|].
        destruct rest as [|[k2 c2] rest]; done.
      * rewrite <- Ht.
        destruct rest as [|[k1 c1] rest]; [done|].
        destruct rest as [|[k2 c2] rest]; done.
    + rewrite skipn_cons. cbn [expect]. rewrite skipn_cons. exact Hd.
Qed.

End OrderFacts.

Section SearchTree.
Import BPlusTree.
Implicit Types (t : BPlusTree) (p : BPlusTreePage) (G : Z → Info)
  (d : Defect) (defect : option Defect).

Lemma leaf_at_write_page t pid p x :
  leaf_at (write_page t pid p) x
  = if decide (pid = x)
    then match p with LeafNode l => Some l | InternalNode _ => None end
    else leaf_at t x.
Proof. unfold leaf_at. rewrite page_at_write_page. by case_decide. Qed.

Lemma is_Some_page_at_write t pid p x :
  is_Some (page_at t x) → is_Some (page_at (write_page t pid p) x).
Proof. rewrite page_at_write_page. by case_decide. Qed.

(** A page keeps being in order when what it refers to is kept. *)
Lemma page_ok_transfer G G' t t' defect defect' pid p :
  page_ok G t defect pid p →
  G' pid = G pid →
  leaf_max_size_ t' = leaf_max_size_ t →
  internal_max_size_ t' = internal_max_size_ t →
  (∀ x, is_Some (page_at t x) → is_Some (page_at t' x)) →
  (∀ x, is_Some (leaf_at t x) →
        is_Some (leaf_at t' x) ∧ g_lo (G' x) = g_lo (G x)) →
  (∀ c h lo hi, is_Some (page_at t c) → child_ok G defect c pid h lo hi →
                child_ok G' defect' c pid h lo hi) →
  page_ok G' t' defect' pid p.
Proof.
  intros [Hpar Hp] HG Hlm Him Hpages Hleaves Hchild.
  split; [by rewrite HG|]. destruct p as [l|n].
  - rewrite HG, Hlm. destruct Hp as (Hh & Hmax & Hkeys & Hnext).
    split; [done|]. split; [done|]. split; [done|].
    intros Hne. destruct (Hnext Hne) as [Hl Hm].
    destruct (Hleaves _ Hl) as [Hl' Hlo]. split; [done|]. by rewrite Hlo.
  - rewrite HG, Him. destruct Hp as (h & Hh & Hmax & Hne & Hnd & Hall).
    exists h. split; [done|]. split; [done|]. split; [done|]. split; [done|].
    intros c lo hi Hin. destruct (Hall c lo hi Hin) as (Hap & Hc & Hok).
    split; [done|]. split; [by apply Hpages|]. by apply Hchild.
Qed.

Lemma ord_inv_root_page G t H defect pid p :
  ord_inv G t H defect → page_at t pid = Some p →
  root_page_id_ t ≠ INVALID_PAGE_ID.
Proof.
  intros (_ & _ & _ & _ & _ & Hroot & _) Hp Heq.
  rewrite decide_True in Hroot by done. by rewrite Hroot in Hp.
Qed.

(** **** A key put into a leaf *)

Lemma leaf_insert_inv G t H L l key value pos :
  ord_inv G t H None → page_at t L = Some (LeafNode l) →
  above (g_lo (G L)) key → below (g_hi (G L)) key →
  find_insert_pos (l_items l) key 0 = (pos, false) →
  ord_inv G
    (write_page t L
       (LeafNode (set_l_items l (insert_at (l_items l) pos (key, value)))))
    H None.
Proof.
  intros Hinv HL Hlo Hhi Hpos.
  pose proof (ord_inv_root_page _ _ _ _ _ _ Hinv HL) as Hrt.
  destruct Hinv as (Hs & Hlm & Him & Hn & Hr & Hroot & _ & Hall).
  split; [exact Hs|]. split; [exact Hlm|]. split; [exact Him|].
  split; [exact Hn|]. split; [exact Hr|].
  rewrite decide_False in Hroot by done.
  split.
  { change (root_page_id_ (write_page _ _ _)) with (root_page_id_ t).
    rewrite decide_False by done. destruct Hroot as [Hrp Hrc].
    split; [by apply is_Some_page_at_write|done]. }
  split; [done|].
  intros pid p. rewrite page_at_write_page.
  destruct (decide (L = pid)) as [<-|Hne].
  - intros [= <-]. destruct (Hall _ _ HL) as (Hrange & Hh & Hok & Hlink).
    split; [exact Hrange|]. split; [done|]. split.
    + destruct Hok as (Hpar & Hh0 & Hmax & [Hsorted Hbounds] & Hnext).
      split; [done|]. split; [done|]. split; [done|]. split.
      * split; [by eapply find_insert_pos_sorted|].
        apply list.Forall_forall. intros k Hk.
        apply list_elem_of_fmap in Hk as ([k' v'] & -> & Hk).
        apply elem_of_insert_at_iff in Hk as [[= -> ->]|Hk]; [done|].
        rewrite list.Forall_forall in Hbounds. apply Hbounds.
        apply list_elem_of_fmap. by exists (k', v').
      * intros Hnx. destruct (Hnext Hnx) as [Hl Hm]. split; [|done].
        simpl. rewrite leaf_at_write_page. by case_decide.
    + intros Hun. specialize (Hlink Hun). case_decide; [done|].
      destruct Hlink as (n & Hn' & Hin). exists n. split; [|done].
      rewrite page_at_write_page. case_decide as Heq; [|done].
      rewrite <- Heq, HL in Hn'. done.
  - intros Hp. destruct (Hall _ _ Hp) as (Hrange & Hh & Hok & Hlink).
    split; [exact Hrange|]. split; [done|]. split.
    + eapply page_ok_transfer; [exact Hok|done|done|done| | |done].
      * intros x. apply is_Some_page_at_write.
      * intros x Hx. split; [|done]. rewrite leaf_at_write_page.
        by case_decide.
    + intros Hun. specialize (Hlink Hun). case_decide; [done|].
      destruct Hlink as (n & Hn' & Hin). exists n. split; [|done].
      rewrite page_at_write_page. case_decide as Heq; [|done].
      rewrite <- Heq, HL in Hn'. done.
Qed.

(** **** The way down *)

Lemma descend_internal fuel t pid n key left_most :
  page_at t pid = Some (InternalNode n) →
  descend (S fuel) t pid key left_most
  = (next_page_id ← child_for (i_items n) key left_most;
     let '(ok, t) := FetchPage t next_page_id in
     if ok then descend fuel t next_page_id key left_most
     else Some (None, t)).
Proof. intros Hp. simpl. by rewrite Hp. Qed.

Lemma descend_spec G t H key : ∀ fuel pid p,
  ord_inv G t H None → page_at t pid = Some p →
  (g_height (G pid) ≤ fuel)%nat →
  above (g_lo (G pid)) key → below (g_hi (G pid)) key →
  ∃ L l, descend fuel t pid key false = Some (Some L, t) ∧
         page_at t L = Some (LeafNode l) ∧
         above (g_lo (G L)) key ∧ below (g_hi (G L)) key.
Proof.
  intros fuel pid p Hinv. revert pid p.
  pose proof Hinv as (Hs & _ & _ & _ & _ & _ & _ & Hall).
  assert (Hgen : ∀ h fuel pid p, g_height (G pid) = h →
            page_at t pid = Some p → (h ≤ fuel)%nat →
            above (g_lo (G pid)) key → below (g_hi (G pid)) key →
            ∃ L l, descend fuel t pid key false = Some (Some L, t) ∧
                   page_at t L = Some (LeafNode l) ∧
                   above (g_lo (G L)) key ∧ below (g_hi (G L)) key).
  { clear fuel. induction h as [|h IH]; intros fuel pid p Hh Hp Hfuel Hlo Hhi.
    - destruct (Hall _ _ Hp) as (_ & _ & [_ Hok] & _).
      destruct p as [l|n].
      + exists pid, l. split; [|done].
        destruct fuel; simpl; by rewrite Hp.
      + destruct Hok as (h' & Hh' & _). congruence.
    - destruct (Hall _ _ Hp) as (_ & _ & [_ Hok] & _).
      destruct p as [l|n]; [destruct Hok as (Hh0 & _); congruence|].
      destruct Hok as (h' & Hh' & _ & Hne & _ & Hch).
      assert (h' = h) as -> by congruence.
      destruct fuel as [|fuel]; [lia|]. rewrite (descend_internal _ _ _ _ _ _ Hp).
      destruct (child_for_route (i_items n) key _ _ Hne Hlo Hhi)
        as (c & lo' & hi' & Hroute & Hin & Hlo' & Hhi').
      rewrite Hroute. simpl.
      destruct (Hch _ _ _ Hin) as (_ & [pc Hpc] & Hok). simpl in Hok.
      destruct (Hall _ _ Hpc) as (Hrange & _).
      rewrite (served_FetchPage t c Hs).
      rewrite bool_decide_eq_true_2 by (unfold INVALID_PAGE_ID; lia).
      apply (IH fuel c pc); [by rewrite Hok|done|lia|by rewrite Hok..]. }
  intros pid p Hp Hfuel. by eapply Hgen.
Qed.

Lemma FindLeafPage_spec G t H fuel key :
  ord_inv G t H None → root_page_id_ t ≠ INVALID_PAGE_ID → (H ≤ fuel)%nat →
  ∃ L l, FindLeafPage fuel t key false = Some (Some L, t) ∧
         page_at t L = Some (LeafNode l) ∧
         above (g_lo (G L)) key ∧ below (g_hi (G L)) key.
Proof.
  intros Hinv Hrt Hfuel.
  pose proof Hinv as (Hs & _ & _ & _ & _ & Hroot & _ & Hall).
  rewrite decide_False in Hroot by done.
  destruct Hroot as [[p Hp] Hrc]. simpl in Hrc.
  unfold FindLeafPage. rewrite bool_decide_eq_false_2 by done.
  rewrite (served_FetchPage t _ Hs), bool_decide_eq_true_2 by done.
  eapply descend_spec; [done..|by rewrite Hrc|by rewrite Hrc|by rewrite Hrc].
Qed.

End SearchTree.

Section SearchTree2.
Import BPlusTree.
Implicit Types (t : BPlusTree) (p : BPlusTreePage) (G : Z → Info)
  (d : Defect) (defect : option Defect).

Lemma fresh_page G t H defect :
  ord_inv G t H defect →
  page_at t (next_page_id (buffer_pool_manager_ t)) = None.
Proof.
  intros (_ & _ & _ & _ & _ & _ & _ & Hall).
  destruct (page_at t _) as [p|] eqn:Hp; [|done].
  destruct (Hall _ _ Hp) as (Hrange & _). lia.
Qed.

Lemma page_in_range G t H defect pid :
  ord_inv G t H defect → is_Some (page_at t pid) →
  0 ≤ pid < next_page_id (buffer_pool_manager_ t).
Proof.
  intros (_ & _ & _ & _ & _ & _ & _ & Hall) [p Hp].
  by destruct (Hall _ _ Hp) as (Hrange & _).
Qed.

Lemma children_in_store G t H defect pid n c :
  ord_inv G t H defect → page_at t pid = Some (InternalNode n) →
  c ∈ (i_items n).*2 → is_Some (page_at t c).
Proof.
  intros (_ & _ & _ & _ & _ & _ & _ & Hall) Hp Hc.
  destruct (Hall _ _ Hp) as (_ & _ & [_ Hok] & _).
  destruct Hok as (h & _ & _ & _ & _ & Hch).
  rewrite <- (expect_fst (g_lo (G pid)) _ (g_hi (G pid))) in Hc.
  apply list_elem_of_fmap in Hc as ([c' [lo hi]] & -> & Hin).
  by destruct (Hch _ _ _ Hin) as (_ & Hc & _).
Qed.

Lemma split_info_left G L mid N :
  L ≠ N →
  split_info G L mid N L
  = mkInfo (g_parent (G L)) (g_height (G L)) (g_lo (G L)) (Some mid).
Proof.
  intros. unfold split_info.
  by rewrite fn_lookup_insert_ne, fn_lookup_insert by done.
Qed.

Lemma split_info_right G L mid N :
  split_info G L mid N N
  = mkInfo (g_parent (G L)) (g_height (G L)) (Some mid) (g_hi (G L)).
Proof. unfold split_info. by rewrite fn_lookup_insert. Qed.

Lemma split_info_other G L mid N x :
  x ≠ L → x ≠ N → split_info G L mid N x = G x.
Proof.
  intros. unfold split_info. by rewrite !fn_lookup_insert_ne by done.
Qed.

Lemma split_info_lo G L mid N x :
  x ≠ N → g_lo (split_info G L mid N x) = g_lo (G x).
Proof.
  intros. destruct (decide (x = L)) as [->|].
  - by rewrite split_info_left.
  - by rewrite split_info_other.
Qed.

Lemma split_info_parent G L mid N x :
  x ≠ N → g_parent (split_info G L mid N x) = g_parent (G x).
Proof.
  intros. destruct (decide (x = L)) as [->|].
  - by rewrite split_info_left.
  - by rewrite split_info_other.
Qed.

Lemma split_info_height G L mid N x :
  x ≠ N → g_height (split_info G L mid N x) = g_height (G x).
Proof.
  intros. destruct (decide (x = L)) as [->|].
  - by rewrite split_info_left.
  - by rewrite split_info_other.
Qed.

Lemma child_ok_split G L mid N c parent h lo hi :
  c ≠ N → L ≠ N → child_ok G None c parent h lo hi →
  child_ok (split_info G L mid N) (Some (mkDefect L mid N)) c parent h lo hi.
Proof.
  unfold child_ok. simpl. intros Hc HL HG. case_decide as Heq.
  - subst c. rewrite split_info_left, split_info_right by done.
    by rewrite !HG.
  - by rewrite split_info_other.
Qed.

(** **** A leaf split *)

Lemma leaf_split_inv G t H L l s mid v :
  ord_inv G t H None → page_at t L = Some (LeafNode l) →
  (0 < s)%nat → l_items l !! s = Some (mid, v) →
  let N := next_page_id (buffer_pool_manager_ t) in
  ord_inv (split_info G L mid N)
    (write_page
       (write_page (after_NewPage t) N
          (LeafNode (mkLeaf (l_parent l) (leaf_max_size_ t) (l_next l)
                       (drop s (l_items l)))))
       L (LeafNode (mkLeaf (l_parent l) (l_max l) N (take s (l_items l)))))
    H (Some (mkDefect L mid N)).
Proof.
  intros Hinv HL Hs Hmid N.
  pose proof (ord_inv_root_page _ _ _ _ _ _ Hinv HL) as Hrt.
  pose proof (fresh_page _ _ _ _ Hinv) as Hfresh. fold N in Hfresh.
  assert (Hstore : ∀ x, is_Some (page_at t x) → x ≠ N).
  { intros x [p Hp] ->. by rewrite Hfresh in Hp. }
  pose proof Hinv as (Hsv & Hlm & Him & Hn & Hr & Hroot & _ & Hall).
  rewrite decide_False in Hroot by done. destruct Hroot as [Hrp Hrc].
  destruct (Hall _ _ HL) as (HLrange & HLh & HLok & HLlink).
  destruct HLok as (HLpar & HLh0 & HLmax & [Hsorted Hbounds] & HLnext).
  simpl in HLpar.
  assert (HLN : L ≠ N) by (apply Hstore; eauto).
  (* the keys of the two halves *)
  assert (Hdrop : drop s (l_items l) = (mid, v) :: drop (S s) (l_items l))
    by (by apply drop_S).
  rewrite <- (take_drop s (l_items l)), fmap_app in Hsorted.
  apply StronglySorted_app in Hsorted as (Hcross & Hsl & Hsr).
  assert (Hmid_in : mid ∈ (drop s (l_items l)).*1)
    by (rewrite Hdrop; simpl; left).
  rewrite list.Forall_forall in Hbounds.
  assert (Hleft : ∀ k, k ∈ (take s (l_items l)).*1 →
            above (g_lo (G L)) k ∧ k < mid).
  { intros k Hk. split; [|by apply Hcross].
    apply Hbounds. rewrite <- (take_drop s (l_items l)), fmap_app.
    apply elem_of_app. by left. }
  assert (Hright : ∀ k, k ∈ (drop s (l_items l)).*1 →
            mid ≤ k ∧ below (g_hi (G L)) k).
  { intros k Hk. split.
    - rewrite Hdrop in Hk, Hsr. simpl in Hk, Hsr.
      apply StronglySorted_cons in Hsr as [Hlt _].
      rewrite list.Forall_forall in Hlt.
      apply elem_of_cons in Hk as [->|Hk]; [lia|].
      specialize (Hlt _ Hk). lia.
    - apply Hbounds. rewrite <- (take_drop s (l_items l)), fmap_app.
      apply elem_of_app. by right. }
  assert (Hfirst : ∃ k0, k0 ∈ (take s (l_items l)).*1).
  { destruct (l_items l) as [|[k0 v0] rest] eqn:Hit; [done|].
    destruct s; [lia|]. exists k0. simpl. left. }
  set (t' := write_page _ L _).
  assert (Hpage' : ∀ x, page_at t' x =
            if decide (L = x)
            then Some (LeafNode (mkLeaf (l_parent l) (l_max l) N
                                   (take s (l_items l))))
            else if decide (N = x)
            then Some (LeafNode (mkLeaf (l_parent l) (leaf_max_size_ t)
                                   (l_next l) (drop s (l_items l))))
            else page_at t x).
  { intros x. unfold t'. rewrite !page_at_write_page. done. }
  assert (Hmono : ∀ x, is_Some (page_at t x) → is_Some (page_at t' x)).
  { intros x Hx. rewrite Hpage'. by repeat case_decide. }
  assert (Hleafmono : ∀ x, is_Some (leaf_at t x) → is_Some (leaf_at t' x)).
  { intros x Hx. unfold leaf_at in *. rewrite Hpage'.
    by repeat case_decide. }
  assert (Hinternal : ∀ x n, page_at t x = Some (InternalNode n) →
            page_at t' x = Some (InternalNode n)).
  { intros x n Hx. rewrite Hpage'.
    case_decide as H1; [subst x; rewrite HL in Hx; done|].
    case_decide as H2; [subst x; rewrite Hfresh in Hx; done|done]. }
  split; [reflexivity|]. split; [exact Hlm|]. split; [exact Him|].
  split; [simpl; lia|]. split; [simpl; fold N; lia|].
  split.
  { change (root_page_id_ t') with (root_page_id_ t).
    rewrite decide_False by done. split; [by apply Hmono|].
    apply child_ok_split; [by apply Hstore|done|done]. }
  split.
  { simpl. split; [done|].
    split; [change (root_page_id_ t') with (root_page_id_ t); lia|].
    split; [rewrite Hpage', decide_True by done; eauto|].
    split; [rewrite Hpage', decide_False, decide_True by done; eauto|].
    rewrite split_info_left, split_info_right by done. simpl.
    split.
    { destruct Hfirst as [k0 Hk0]. destruct (Hleft _ Hk0) as [Ha Hlt].
      destruct (g_lo (G L)); simpl in *; [lia|done]. }
    split.
    { destruct (Hright _ Hmid_in) as [_ Hb].
      destruct (g_hi (G L)); simpl in *; [lia|done]. }
    intros pid n. rewrite Hpage'.
    case_decide; [done|]. case_decide; [done|].
    intros Hp Hin.
    apply (Hstore N); [|done].
    by eapply children_in_store. }
  intros pid p. rewrite Hpage'.
  destruct (decide (L = pid)) as [<-|HneL].
  { intros [= <-]. split; [simpl; lia|].
    split; [by rewrite split_info_height|]. split.
    - split; [simpl; by rewrite split_info_parent|].
      rewrite split_info_left by done. simpl.
      split; [done|]. split; [done|]. split; [split; [done|]|].
      + apply list.Forall_forall. intros k Hk.
        destruct (Hleft _ Hk). done.
      + intros _. split.
        * unfold leaf_at. rewrite Hpage', decide_False, decide_True by done.
          simpl. eauto.
        * rewrite split_info_right. simpl. lia.
    - intros _. rewrite split_info_parent by done.
      assert (Hnot : ¬ unlisted None L) by (by intros ?).
      specialize (HLlink Hnot). case_decide; [done|].
      destruct HLlink as (n & Hn' & Hin). exists n. split; [|done].
      by apply Hinternal. }
  destruct (decide (N = pid)) as [<-|HneN].
  { intros [= <-]. split; [simpl; fold N; lia|].
    split; [rewrite split_info_right; simpl; lia|]. split.
    - split; [simpl; by rewrite split_info_right|].
      rewrite split_info_right. simpl.
      split; [done|]. split; [done|]. split; [split; [done|]|].
      + apply list.Forall_forall. intros k Hk.
        destruct (Hright _ Hk). done.
      + intros Hnx. destruct (HLnext Hnx) as [Hl Hm].
        split; [by apply Hleafmono|].
        rewrite split_info_lo; [done|].
        apply Hstore. unfold leaf_at in Hl.
        destruct (page_at t (l_next l)); [eauto|by destruct Hl].
    - intros Hun. exfalso. apply Hun. done. }
  intros Hp. destruct (Hall _ _ Hp) as (Hrange & Hh & Hok & Hlink).
  split; [simpl; fold N; lia|].
  split; [by rewrite split_info_other|]. split.
  - eapply page_ok_transfer; [exact Hok| | | | | |].
    + by rewrite split_info_other.
    + done.
    + done.
    + exact Hmono.
    + intros x Hx. split; [by apply Hleafmono|].
      apply split_info_lo, Hstore. unfold leaf_at in Hx.
      destruct (page_at t x); [eauto|by destruct Hx].
    + intros c h lo hi Hc Hok'. apply child_ok_split; [by apply Hstore|done..].
  - intros _. rewrite split_info_other by done.
    assert (Hnot : ¬ unlisted None pid) by (by intros ?).
    specialize (Hlink Hnot). case_decide; [done|].
    destruct Hlink as (n & Hn' & Hin). exists n. split; [|done].
    by apply Hinternal.
Qed.

End SearchTree2.

Section SearchTree3.
Import BPlusTree.
Implicit Types (t : BPlusTree) (p : BPlusTreePage) (G : Z → Info)
  (d : Defect) (defect : option Defect).

Lemma index_of_child_shift items c : ∀ j,
  index_of_child items c (S j) = S <$> index_of_child items c j.
Proof.
  induction items as [|[k v] items IH]; intros j; simpl; [done|].
  case_bool_decide; [done|]. apply IH.
Qed.

Lemma index_of_child_spec items c :
  c ∈ items.*2 →
  ∃ i k, index_of_child items c 0 = Some i ∧ items !! i = Some (k, c).
Proof.
  induction items as [|[k v] items IH]; simpl.
  - by intros ?%elem_of_nil.
  - intros Hin. case_bool_decide as Heq.
    + subst v. by exists 0%nat, k.
    + apply elem_of_cons in Hin as [->|Hin]; [done|].
      destruct (IH Hin) as (i & k' & Hi & Hk).
      exists (S i), k'. rewrite index_of_child_shift, Hi. done.
Qed.

Lemma insert_at_perm (items : list (Z * Z)) pos it :
  insert_at items pos it ≡ₚ it :: items.
Proof.
  unfold insert_at. rewrite <- Permutation_middle.
  by rewrite take_drop.
Qed.

Lemma NoDup_insert_at (items : list (Z * Z)) pos k c :
  NoDup items.*2 → c ∉ items.*2 → NoDup (insert_at items pos (k, c)).*2.
Proof.
  intros Hnd Hc. rewrite insert_at_perm. simpl. by apply list.NoDup_cons.
Qed.

Lemma NoDup_fst_elsewhere {A B} (l : list (A * B)) i a b a' b' :
  NoDup l.*1 → l !! i = Some (a, b) →
  (a', b') ∈ take i l ++ drop (S i) l → a' ≠ a.
Proof.
  intros Hnd Hi Hin ->.
  rewrite <- (take_drop_middle l i (a, b) Hi) in Hnd.
  rewrite fmap_app, fmap_cons in Hnd. simpl in Hnd.
  apply list.NoDup_app in Hnd as (_ & Hdisj & Hnd).
  apply list.NoDup_cons in Hnd as [Hnot _].
  apply elem_of_app in Hin as [Hin|Hin].
  - apply (Hdisj a); [|left].
    apply list_elem_of_fmap. by exists (a, b').
  - apply Hnot. apply list_elem_of_fmap. by exists (a, b').
Qed.

Lemma SetParentPageId_same p q :
  GetParentPageId p = q → SetParentPageId p q = p.
Proof. intros <-. by destruct p as [[] | []]. Qed.

Lemma write_page_same t pid p :
  page_at t pid = Some p → write_page t pid p = t.
Proof.
  destruct t as [r lm im [pg nx rp hd]]. unfold page_at, write_page, set_pool.
  simpl. intros Hp. by rewrite insert_id.
Qed.

(** **** The new page put into the parent *)

Lemma parent_insert_inv G t H d :
  ord_inv G t H (Some d) →
  g_parent (G (d_left d)) ≠ INVALID_PAGE_ID →
  ∃ n i,
    page_at t (g_parent (G (d_left d))) = Some (InternalNode n) ∧
    index_of_child (i_items n) (d_left d) 0 = Some i ∧
    g_parent (G (d_right d)) = g_parent (G (d_left d)) ∧
    d_right d ≠ g_parent (G (d_left d)) ∧
    g_height (G (g_parent (G (d_left d)))) = S (g_height (G (d_left d))) ∧
    ord_inv G
      (write_page t (g_parent (G (d_left d)))
         (InternalNode
            (set_i_items n
               (insert_at (i_items n) (S i) (d_key d, d_right d)))))
      H None.
Proof.
  intros Hinv HP. destruct d as [L mid N]. simpl in *.
  remember (g_parent (G L)) as P eqn:HPdef.
  destruct Hinv as (Hsv & Hlm & Him & Hn & Hr & Hroot & Hdef & Hall).
  destruct Hdef as (HLN & HNroot & [pL HpL] & [pN HpN] & HapL & HapN & Hunl).
  simpl in *.
  destruct (Hall _ _ HpL) as (_ & _ & _ & HLlink).
  assert (HnotL : ¬ unlisted (Some (mkDefect L mid N)) L) by (simpl; done).
  specialize (HLlink HnotL). rewrite <- HPdef in HLlink.
  rewrite decide_False in HLlink by done.
  destruct HLlink as (n & HPn & HLin).
  destruct (index_of_child_spec _ _ HLin) as (i & k & Hidx & Hi).
  destruct (Hall _ _ HPn) as (HPrange & HPh & [HPpar HPok] & HPlink).
  destruct HPok as (h & HPheight & HPmax & HPne & HPnd & HPch).
  destruct (expect_insert (i_items n) mid N (g_lo (G P)) (g_hi (G P)) i k L Hi)
    as (lo & hi & HEi & HEeq).
  assert (HLentry : (L, (lo, hi)) ∈ expect (g_lo (G P)) (i_items n) (g_hi (G P)))
    by (by eapply list_elem_of_lookup_2).
  destruct (HPch _ _ _ HLentry) as (_ & _ & HLok).
  unfold child_ok in HLok. simpl in HLok.
  rewrite decide_True in HLok by done. destruct HLok as [HGL HGN].
  assert (HPN : P ≠ N).
  { intros Heq. rewrite Heq, HGN in HPheight. simpl in HPheight. lia. }
  exists n, i. split; [done|]. split; [done|].
  split; [by rewrite HGN|]. split; [done|].
  split; [by rewrite HPheight, HGL|].
  set (n' := set_i_items n _).
  set (t' := write_page t P (InternalNode n')).
  assert (Hmono : ∀ x, is_Some (page_at t x) → is_Some (page_at t' x)).
  { intros x. apply is_Some_page_at_write. }
  assert (Hlisted : ∀ x Q m, page_at t Q = Some (InternalNode m) →
            x ∈ (i_items m).*2 →
            ∃ m', page_at t' Q = Some (InternalNode m') ∧ x ∈ (i_items m').*2).
  { intros x Q m HQ Hx. unfold t'. rewrite page_at_write_page.
    destruct (decide (P = Q)) as [Heq|Heq].
    - rewrite <- Heq, HPn in HQ. injection HQ as <-.
      exists n'. split; [done|]. simpl. rewrite insert_at_perm. simpl.
      by right.
    - by exists m. }
  assert (Hrt : root_page_id_ t ≠ INVALID_PAGE_ID).
  { intros Heq. rewrite decide_True in Hroot by done.
    by rewrite Hroot in HPn. }
  rewrite decide_False in Hroot by done. destruct Hroot as [Hrp Hrc].
  split; [exact Hsv|]. split; [exact Hlm|]. split; [exact Him|].
  split; [exact Hn|]. split; [exact Hr|].
  split.
  { change (root_page_id_ t') with (root_page_id_ t).
    rewrite decide_False by done. split; [by apply Hmono|].
    unfold child_ok in *. simpl in Hrc.
    destruct (decide (root_page_id_ t = L)) as [Heq|Heq]; [|done].
    destruct Hrc as [HG _]. rewrite Heq, HGL in HG.
    injection HG as HG _. done. }
  split; [done|].
  intros pid p. unfold t'. rewrite page_at_write_page. fold t'.
  destruct (decide (P = pid)) as [<-|Hne].
  - intros [= <-]. split; [exact HPrange|]. split; [done|]. split.
    + split; [done|]. exists h. split; [done|]. split; [done|].
      split.
      { simpl. unfold insert_at. by destruct (take (S i) (i_items n)). }
      split.
      { simpl. apply NoDup_insert_at; [done|]. by eapply Hunl. }
      intros c lo' hi'. simpl. rewrite HEeq.
      rewrite elem_of_app, !elem_of_cons. intros Hin.
      assert (Hold : (c, (lo', hi')) ∈
                take i (expect (g_lo (G P)) (i_items n) (g_hi (G P)))
                ++ drop (S i) (expect (g_lo (G P)) (i_items n) (g_hi (G P)))
              → apart lo' hi' ∧ is_Some (page_at t' c) ∧
                child_ok G None c P h lo' hi').
      { intros Hin'.
        assert (c ≠ L).
        { eapply NoDup_fst_elsewhere; [|exact HEi|exact Hin'].
          by rewrite expect_fst. }
        assert (Hin'' : (c, (lo', hi')) ∈
                  expect (g_lo (G P)) (i_items n) (g_hi (G P))).
        { apply elem_of_app in Hin' as [Hin'|Hin'].
          - by eapply subseteq_take.
          - by eapply subseteq_drop. }
        destruct (HPch _ _ _ Hin'') as (Hap & Hc & Hok).
        split; [done|]. split; [by apply Hmono|].
        unfold child_ok in *. simpl in Hok.
        by rewrite decide_False in Hok by done. }
      destruct Hin as [Hin|[Heq|[Heq|Hin]]].
      * apply Hold, elem_of_app. by left.
      * injection Heq as -> -> ->.
        split; [by rewrite HGL in HapL|].
        split; [apply Hmono; eauto|]. exact HGL.
      * injection Heq as -> -> ->.
        split; [by rewrite HGN in HapN|].
        split; [apply Hmono; eauto|]. exact HGN.
      * apply Hold, elem_of_app. by right.
    + intros _.
      assert (Hnot : ¬ unlisted (Some (mkDefect L mid N)) P) by (simpl; done).
      specialize (HPlink Hnot). case_decide; [done|].
      destruct HPlink as (m & Hm & Hin). by eapply Hlisted.
  - intros Hp. destruct (Hall _ _ Hp) as (Hrange & Hh & Hok & Hlink).
    split; [exact Hrange|]. split; [done|]. split.
    + eapply page_ok_transfer; [exact Hok|done|done|done|exact Hmono| |].
      * intros x Hx. split; [|done]. unfold t'.
        rewrite leaf_at_write_page.
        destruct (decide (P = x)) as [Heq|Heq]; [|done].
        subst x. unfold leaf_at in Hx. rewrite HPn in Hx. by destruct Hx.
      * intros c h' lo' hi' _. unfold child_ok. simpl.
        destruct (decide (c = L)) as [Heq|Heq]; [|done]. intros [HG _]. exfalso.
        apply Hne. subst c. by rewrite HPdef, HG.
    + intros _. destruct (decide (pid = N)) as [->|HneN].
      * rewrite HGN. simpl. rewrite decide_False by done.
        exists n'. split; [unfold t'; by rewrite page_at_write_page, decide_True|].
        simpl. rewrite insert_at_perm. simpl. left.
      * assert (Hnot : ¬ unlisted (Some (mkDefect L mid N)) pid)
          by (simpl; done).
        specialize (Hlink Hnot). case_decide; [done|].
        destruct Hlink as (m & Hm & Hin). by eapply Hlisted.
Qed.

End SearchTree3.

Section SearchTree4.
Import BPlusTree.
Implicit Types (t : BPlusTree) (p : BPlusTreePage) (G : Z → Info)
  (d : Defect) (defect : option Defect).

Lemma page_ok_reparent G G' t t' defect defect' pid p q :
  page_ok G t defect pid p →
  G' pid = reparent (G pid) q →
  leaf_max_size_ t' = leaf_max_size_ t →
  internal_max_size_ t' = internal_max_size_ t →
  (∀ x, is_Some (page_at t x) → is_Some (page_at t' x)) →
  (∀ x, is_Some (leaf_at t x) →
        is_Some (leaf_at t' x) ∧ g_lo (G' x) = g_lo (G x)) →
  (∀ c h lo hi, is_Some (page_at t c) → child_ok G defect c pid h lo hi →
                child_ok G' defect' c pid h lo hi) →
  page_ok G' t' defect' pid (SetParentPageId p q).
Proof.
  intros [Hpar Hp] HG Hlm Him Hpages Hleaves Hchild.
  split; [rewrite HG; by destruct p|]. destruct p as [l|n]; simpl.
  - rewrite HG, Hlm. simpl. destruct Hp as (Hh & Hmax & Hkeys & Hnext).
    split; [done|]. split; [done|]. split; [done|].
    intros Hne. destruct (Hnext Hne) as [Hl Hm].
    destruct (Hleaves _ Hl) as [Hl' Hlo]. split; [done|]. by rewrite Hlo.
  - rewrite HG, Him. simpl. destruct Hp as (h & Hh & Hmax & Hne & Hnd & Hall).
    exists h. split; [done|]. split; [done|]. split; [done|]. split; [done|].
    intros c lo hi Hin. destruct (Hall c lo hi Hin) as (Hap & Hc & Hok).
    split; [done|]. split; [by apply Hpages|]. by apply Hchild.
Qed.

Lemma SetParentPageId_leaf p q :
  is_Some (match p with LeafNode l => Some l | InternalNode _ => None end) →
  is_Some (match SetParentPageId p q with
           | LeafNode l => Some l | InternalNode _ => None end).
Proof. destruct p; simpl; [eauto|done]. Qed.

(** **** A new root *)

Lemma new_root_inv G t t' H d :
  ord_inv G t H (Some d) →
  g_parent (G (d_left d)) = INVALID_PAGE_ID →
  let R := next_page_id (buffer_pool_manager_ t) in
  served t' → leaf_max_size_ t' = leaf_max_size_ t →
  internal_max_size_ t' = internal_max_size_ t →
  next_page_id (buffer_pool_manager_ t') = R + 1 →
  root_page_id_ t' = R →
  (∀ x, page_at t' x =
     if decide (x = R)
     then Some (InternalNode
                  (mkInternal INVALID_PAGE_ID (internal_max_size_ t)
                     [(0, d_left d); (d_key d, d_right d)]))
     else if decide (x = d_left d ∨ x = d_right d)
     then (λ p, SetParentPageId p R) <$> page_at t x
     else page_at t x) →
  ord_inv
    (<[R := mkInfo INVALID_PAGE_ID (S H) None None]>
       (<[d_right d := reparent (G (d_right d)) R]>
          (<[d_left d := reparent (G (d_left d)) R]> G)))
    t' (S H) None.
Proof.
  intros Hinv HLpar R Hsv' Hlm' Him' Hnext' Hroot' Hpages'.
  destruct d as [L mid N]. simpl in *.
  pose proof (fresh_page _ _ _ _ Hinv) as Hfresh. fold R in Hfresh.
  assert (Hstore : ∀ x, is_Some (page_at t x) → x ≠ R).
  { intros x [p Hp] ->. by rewrite Hfresh in Hp. }
  destruct Hinv as (Hsv & Hlm & Him & Hn & Hr & Hroot & Hdef & Hall).
  destruct Hdef as (HLN & HNroot & [pL HpL] & [pN HpN] & HapL & HapN & Hunl).
  simpl in *.
  assert (Hrt : root_page_id_ t ≠ INVALID_PAGE_ID).
  { intros Heq. rewrite decide_True in Hroot by done.
    by rewrite Hroot in HpL. }
  rewrite decide_False in Hroot by done. destruct Hroot as [Hrp Hrc].
  destruct (Hall _ _ HpL) as (HLrange & _ & _ & HLlink).
  assert (HnotL : ¬ unlisted (Some (mkDefect L mid N)) L) by (simpl; done).
  specialize (HLlink HnotL). rewrite decide_True in HLlink by done.
  rewrite <- HLlink in Hrc. unfold child_ok in Hrc. simpl in Hrc.
  rewrite decide_True in Hrc by done. destruct Hrc as [HGL HGN].
  destruct (Hall _ _ HpN) as (HNrange & _ & _ & _).
  assert (HLR : L ≠ R) by (apply Hstore; eauto).
  assert (HNR : N ≠ R) by (apply Hstore; eauto).
  set (G' := <[R := _]> _).
  assert (HG'R : G' R = mkInfo INVALID_PAGE_ID (S H) None None)
    by (unfold G'; by rewrite fn_lookup_insert).
  assert (HG'L : G' L = mkInfo R H None (Some mid)).
  { unfold G'. rewrite fn_lookup_insert_ne by done.
    rewrite fn_lookup_insert_ne by done. rewrite fn_lookup_insert.
    by rewrite HGL. }
  assert (HG'N : G' N = mkInfo R H (Some mid) None).
  { unfold G'. rewrite fn_lookup_insert_ne by done.
    rewrite fn_lookup_insert. by rewrite HGN. }
  assert (HG' : ∀ x, x ≠ R → x ≠ L → x ≠ N → G' x = G x).
  { intros x ? ? ?. unfold G'. by rewrite !fn_lookup_insert_ne by done. }
  assert (HG'lo : ∀ x, x ≠ R → g_lo (G' x) = g_lo (G x)).
  { intros x ?. destruct (decide (x = L)) as [->|];
      [by rewrite HG'L, HGL|].
    destruct (decide (x = N)) as [->|]; [by rewrite HG'N, HGN|].
    by rewrite HG'. }
  assert (Hmono : ∀ x, is_Some (page_at t x) → is_Some (page_at t' x)).
  { intros x Hx. rewrite Hpages'. rewrite decide_False by (by apply Hstore).
    case_decide; [|done]. by apply fmap_is_Some. }
  assert (Hleafmono : ∀ x, is_Some (leaf_at t x) →
            is_Some (leaf_at t' x) ∧ g_lo (G' x) = g_lo (G x)).
  { intros x Hx.
    assert (x ≠ R).
    { apply Hstore. unfold leaf_at in Hx.
      destruct (page_at t x); [eauto|by destruct Hx]. }
    split; [|by apply HG'lo].
    unfold leaf_at in *. rewrite Hpages', decide_False by done.
    case_decide; [|done].
    destruct (page_at t x) as [[l|m]|]; simpl in *; [eauto|done|done]. }
  assert (Hinternal : ∀ Q m, page_at t Q = Some (InternalNode m) →
            ∃ m', page_at t' Q = Some (InternalNode m') ∧
                  i_items m' = i_items m).
  { intros Q m HQ. rewrite Hpages'.
    rewrite decide_False by (apply Hstore; eauto).
    case_decide; rewrite HQ; simpl; eauto. }
  assert (Hchild : ∀ c x h lo hi, x ≠ INVALID_PAGE_ID → c ≠ R →
            child_ok G (Some (mkDefect L mid N)) c x h lo hi →
            child_ok G' None c x h lo hi).
  { intros c x h lo hi Hx HcR. unfold child_ok. simpl.
    destruct (decide (c = L)) as [->|HcL].
    { intros [HG _]. rewrite HGL in HG. by injection HG. }
    intros HG. rewrite HG'; [done..|].
    intros ->. rewrite HGN in HG. by injection HG. }
  split; [exact Hsv'|]. split; [by rewrite Hlm'|]. split; [by rewrite Him'|].
  split; [lia|]. split; [lia|].
  split.
  { rewrite Hroot'. rewrite decide_False by (unfold INVALID_PAGE_ID; lia).
    split; [rewrite Hpages', decide_True by done; eauto|]. exact HG'R. }
  split; [done|].
  intros pid p. rewrite Hpages'.
  destruct (decide (pid = R)) as [->|HneR].
  { intros [= <-]. split; [lia|]. split; [rewrite HG'R; simpl; lia|]. split.
    - split; [by rewrite HG'R|]. exists H. rewrite HG'R. simpl.
      split; [done|]. split; [done|]. split; [done|].
      split.
      { apply list.NoDup_cons. split; [|apply NoDup_singleton].
        by intros ?%list_elem_of_singleton. }
      intros c lo hi. rewrite !elem_of_cons.
      intros [Heq|[Heq|Hin]]; [| |by apply elem_of_nil in Hin].
      + injection Heq as -> -> ->. split; [done|].
        split; [apply Hmono; eauto|]. exact HG'L.
      + injection Heq as -> -> ->. split; [done|].
        split; [apply Hmono; eauto|]. exact HG'N.
    - intros _. rewrite HG'R. cbn [g_parent].
      rewrite decide_True by done. by rewrite Hroot'. }
  destruct (decide (pid = L ∨ pid = N)) as [Hor|Hnor].
  { destruct (page_at t pid) as [p0|] eqn:Hp0; simpl; [|done].
    intros [= <-].
    destruct (Hall _ _ Hp0) as (Hrange & Hh & Hok & Hlink).
    assert (HGpid : G' pid = reparent (G pid) R).
    { destruct Hor as [->| ->]; [by rewrite HG'L, HGL|by rewrite HG'N, HGN]. }
    split; [lia|].
    split; [rewrite HGpid; simpl; lia|]. split.
    - eapply page_ok_reparent; [exact Hok|done|done|done|exact Hmono
                                |exact Hleafmono|].
      intros c h lo hi Hc. apply Hchild; [|by apply Hstore].
      unfold INVALID_PAGE_ID; lia.
    - intros _. rewrite HGpid. cbn [g_parent reparent].
      rewrite decide_False by (unfold INVALID_PAGE_ID; lia).
      eexists. split; [by rewrite Hpages', decide_True|].
      simpl. destruct Hor as [->| ->]; [left|right; left]. }
  intros Hp. destruct (Hall _ _ Hp) as (Hrange & Hh & Hok & Hlink).
  assert (pid ≠ L ∧ pid ≠ N) as [HneL HneN] by tauto.
  split; [lia|]. split; [rewrite HG' by done; lia|]. split.
  - eapply page_ok_transfer; [exact Hok|by apply HG'|done|done|exact Hmono
                              |exact Hleafmono|].
    intros c h lo hi Hc. apply Hchild; [|by apply Hstore].
    unfold INVALID_PAGE_ID; lia.
  - intros _. rewrite HG' by done.
    assert (Hnot : ¬ unlisted (Some (mkDefect L mid N)) pid) by (simpl; done).
    specialize (Hlink Hnot).
    destruct (decide (g_parent (G pid) = INVALID_PAGE_ID)) as [Heq|Hneq].
    { congruence. }
    destruct Hlink as (m & Hm & Hin).
    destruct (Hinternal _ _ Hm) as (m' & Hm' & Hitems).
    exists m'. split; [done|]. by rewrite Hitems.
Qed.

End SearchTree4.

Section SearchTree5.
Import BPlusTree.
Implicit Types (t : BPlusTree) (p : BPlusTreePage) (G : Z → Info)
  (d : Defect) (defect : option Defect).

Lemma expect_last items : ∀ lo hi,
  items ≠ [] → ∃ c l, (c, (l, hi)) ∈ expect lo items hi.
Proof.
  induction items as [|[k c] rest IH]; intros lo hi Hne; [done|].
  destruct rest as [|[k1 c1] rest].
  - exists c, lo. simpl. left.
  - destruct (IH (Some k1) hi ltac:(done)) as (c' & l & Hin).
    exists c', l. simpl. right. exact Hin.
Qed.

Lemma expect_apart_lo items lo hi c l m :
  all_apart (expect lo items hi) → (c, (l, Some m)) ∈ expect lo items hi →
  apart lo (Some m).
Proof.
  intros Hap Hin. destruct lo as [lv|]; [|done]. simpl.
  pose proof (Hap _ _ _ Hin) as Hlm.
  destruct l as [l'|].
  - destruct (expect_within _ l' _ _ _ _ _ Hap Hin) as [Hw _].
    simpl in *. specialize (Hw ltac:(lia)). lia.
  - destruct (expect_within _ (lv - 1) _ _ _ _ _ Hap Hin) as [Hw _].
    simpl in *. specialize (Hw I). lia.
Qed.

Lemma expect_apart_hi items lo hi c h m :
  all_apart (expect lo items hi) → (c, (Some m, h)) ∈ expect lo items hi →
  apart (Some m) hi.
Proof.
  intros Hap Hin. destruct hi as [hv|]; [|done]. simpl.
  pose proof (Hap _ _ _ Hin) as Hmh.
  destruct h as [h'|].
  - destruct (expect_within _ (h' - 1) _ _ _ _ _ Hap Hin) as [_ Hw].
    simpl in *. specialize (Hw ltac:(lia)). lia.
  - destruct (expect_within _ hv _ _ _ _ _ Hap Hin) as [_ Hw].
    simpl in *. specialize (Hw I). lia.
Qed.

(** **** An internal page split *)

Lemma internal_split_inv G t t' H P n s mid cs :
  ord_inv G t H None → page_at t P = Some (InternalNode n) →
  (0 < s)%nat → i_items n !! s = Some (mid, cs) →
  let N := next_page_id (buffer_pool_manager_ t) in
  let moved := (drop s (i_items n)).*2 in
  served t' → leaf_max_size_ t' = leaf_max_size_ t →
  internal_max_size_ t' = internal_max_size_ t →
  next_page_id (buffer_pool_manager_ t') = N + 1 →
  root_page_id_ t' = root_page_id_ t →
  (∀ x, page_at t' x =
     if decide (x = N)
     then Some (InternalNode
                  (mkInternal (i_parent n) (internal_max_size_ t)
                     ((0, cs) :: drop (S s) (i_items n))))
     else if decide (x = P)
     then Some (InternalNode (set_i_items n (take s (i_items n))))
     else if decide (x ∈ moved)
     then (λ p, SetParentPageId p N) <$> page_at t x
     else page_at t x) →
  ord_inv (split_info (moved_info G moved N) P mid N) t' H
    (Some (mkDefect P mid N)).
Proof.
  intros Hinv HP Hs Hmid N moved Hsv' Hlm' Him' Hnext' Hroot' Hpages'.
  pose proof (ord_inv_root_page _ _ _ _ _ _ Hinv HP) as Hrt.
  pose proof (fresh_page _ _ _ _ Hinv) as Hfresh. fold N in Hfresh.
  assert (Hstore : ∀ x, is_Some (page_at t x) → x ≠ N).
  { intros x [p Hp] ->. by rewrite Hfresh in Hp. }
  pose proof Hinv as (Hsv & Hlm & Him & Hn & Hr & Hroot & _ & Hall).
  rewrite decide_False in Hroot by done. destruct Hroot as [Hrp Hrc].
  destruct (Hall _ _ HP) as (HPrange & HPh & [HPpar HPok] & HPlink).
  destruct HPok as (h & HPheight & HPmax & HPne & HPnd & HPch).
  simpl in HPpar.
  set (E := expect (g_lo (G P)) (i_items n) (g_hi (G P))) in *.
  destruct (expect_split (i_items n) (g_lo (G P)) (g_hi (G P)) s mid cs Hs Hmid)
    as [Htake Hdrop]. fold E in Htake, Hdrop.
  assert (HE1 : E.*1 = (i_items n).*2) by apply expect_fst.
  assert (Hmoved : moved = (drop s E).*1).
  { unfold moved. by rewrite !fmap_drop, HE1. }
  assert (Hap : all_apart E).
  { intros c lo hi Hin. by destruct (HPch _ _ _ Hin). }
  assert (Hchildren : ∀ c lo hi, (c, (lo, hi)) ∈ E →
            is_Some (page_at t c) ∧ G c = mkInfo P h lo hi ∧
            c ≠ P ∧ c ≠ N).
  { intros c lo hi Hin. destruct (HPch _ _ _ Hin) as (_ & Hc & Hok).
    unfold child_ok in Hok. split; [done|]. split; [done|].
    split; [|by apply Hstore].
    intros ->. rewrite Hok in HPheight. simpl in HPheight. lia. }
  assert (HPN : P ≠ N) by (apply Hstore; eauto).
  assert (Hmoved_in : ∀ x, x ∈ moved →
            ∃ lo hi, (x, (lo, hi)) ∈ drop s E).
  { intros x Hx. rewrite Hmoved in Hx.
    apply list_elem_of_fmap in Hx as ([c [lo hi]] & -> & Hin). eauto. }
  assert (Hmoved_E : ∀ x, x ∈ moved → ∃ lo hi, (x, (lo, hi)) ∈ E).
  { intros x Hx. destruct (Hmoved_in x Hx) as (lo & hi & Hin).
    exists lo, hi. by eapply subseteq_drop. }
  assert (HEnd : NoDup (take s E).*1 ∧ NoDup (drop s E).*1 ∧
            ∀ x, x ∈ (take s E).*1 → x ∉ (drop s E).*1).
  { rewrite <- HE1, <- (take_drop s E), fmap_app in HPnd.
    apply list.NoDup_app in HPnd as (H1 & H2 & H3). done. }
  destruct HEnd as (Hnd_take & Hnd_drop & Hdisj).
  assert (Hkept : ∀ c lo hi, (c, (lo, hi)) ∈ take s E → c ∉ moved).
  { intros c lo hi Hin. rewrite Hmoved. apply Hdisj.
    apply list_elem_of_fmap. by exists (c, (lo, hi)). }
  assert (HPmoved : P ∉ moved).
  { intros Hin. destruct (Hmoved_E _ Hin) as (lo & hi & HinE).
    by destruct (Hchildren _ _ _ HinE) as (_ & _ & ? & _). }
  set (G1 := moved_info G moved N).
  set (G' := split_info G1 P mid N).
  assert (HG1P : G1 P = G P).
  { unfold G1, moved_info. by rewrite decide_False. }
  assert (HG'N : G' N = mkInfo (g_parent (G P)) (S h) (Some mid) (g_hi (G P))).
  { unfold G'. rewrite split_info_right, HG1P. by rewrite HPheight. }
  assert (HG'P : G' P = mkInfo (g_parent (G P)) (S h) (g_lo (G P)) (Some mid)).
  { unfold G'. rewrite split_info_left, HG1P by done. by rewrite HPheight. }
  assert (HG'moved : ∀ x, x ∈ moved → G' x = reparent (G x) N).
  { intros x Hx. destruct (Hmoved_E _ Hx) as (lo & hi & HinE).
    destruct (Hchildren _ _ _ HinE) as (_ & _ & ? & ?).
    unfold G'. rewrite split_info_other by done.
    unfold G1, moved_info. by rewrite decide_True. }
  assert (HG'other : ∀ x, x ≠ N → x ≠ P → x ∉ moved → G' x = G x).
  { intros x ? ? ?. unfold G'. rewrite split_info_other by done.
    unfold G1, moved_info. by rewrite decide_False. }
  assert (HG'lo : ∀ x, x ≠ N → g_lo (G' x) = g_lo (G x)).
  { intros x ?. unfold G'. rewrite split_info_lo by done.
    unfold G1, moved_info. by case_decide. }
  assert (HG'height : ∀ x, x ≠ N → g_height (G' x) = g_height (G x)).
  { intros x ?. unfold G'. rewrite split_info_height by done.
    unfold G1, moved_info. by case_decide. }
  assert (Hmono : ∀ x, is_Some (page_at t x) → is_Some (page_at t' x)).
  { intros x Hx. rewrite Hpages'. rewrite decide_False by (by apply Hstore).
    case_decide; [done|]. case_decide; [|done]. by apply fmap_is_Some. }
  assert (Hleafmono : ∀ x, is_Some (leaf_at t x) →
            is_Some (leaf_at t' x) ∧ g_lo (G' x) = g_lo (G x)).
  { intros x Hx.
    assert (x ≠ N).
    { apply Hstore. unfold leaf_at in Hx.
      destruct (page_at t x); [eauto|by destruct Hx]. }
    split; [|by apply HG'lo].
    unfold leaf_at in *. rewrite Hpages', decide_False by done.
    destruct (decide (x = P)) as [->|].
    { rewrite HP in Hx. by destruct Hx. }
    case_decide; [|done].
    destruct (page_at t x) as [[l|m]|]; simpl in *; [eauto|done|done]. }
  assert (Hinternal : ∀ Q m, page_at t Q = Some (InternalNode m) → Q ≠ P →
            ∃ m', page_at t' Q = Some (InternalNode m') ∧
                  i_items m' = i_items m).
  { intros Q m HQ HQP. rewrite Hpages'.
    rewrite decide_False by (apply Hstore; eauto).
    rewrite decide_False by done.
    case_decide; rewrite HQ; simpl; eauto. }
  assert (Hchild : ∀ c x h' lo hi, x ≠ P → is_Some (page_at t c) →
            child_ok G None c x h' lo hi →
            child_ok G' (Some (mkDefect P mid N)) c x h' lo hi).
  { intros c x h' lo hi HxP Hc HG. unfold child_ok in HG.
    apply child_ok_split; [by apply Hstore|done|].
    unfold child_ok, G1, moved_info. rewrite decide_False; [done|].
    intros Hin. destruct (Hmoved_E _ Hin) as (lo' & hi' & HinE).
    destruct (Hchildren _ _ _ HinE) as (_ & HGc & _).
    rewrite HGc in HG. by injection HG. }
  assert (Hlast : ∃ c l, (c, (l, Some mid)) ∈ take s E).
  { rewrite <- Htake. apply expect_last.
    destruct (i_items n); [done|]. destruct s; [lia|done]. }
  assert (Hhead : ∃ hi, (cs, (Some mid, hi)) ∈ drop s E).
  { rewrite <- Hdrop. simpl. eexists. left. }
  split; [exact Hsv'|]. split; [by rewrite Hlm'|]. split; [by rewrite Him'|].
  split; [lia|]. split; [lia|].
  split.
  { rewrite Hroot'. rewrite decide_False by done.
    split; [by apply Hmono|].
    apply Hchild; [unfold INVALID_PAGE_ID; lia|done|done]. }
  assert (Hnew_children :
            ((0, cs) :: drop (S s) (i_items n)).*2 = moved).
  { unfold moved. by rewrite (drop_S _ _ _ Hmid). }
  split.
  { simpl. split; [done|]. split; [rewrite Hroot'; lia|].
    split; [rewrite Hpages', decide_False, decide_True by done; eauto|].
    split; [rewrite Hpages', decide_True by done; eauto|].
    rewrite HG'P, HG'N. simpl.
    split.
    { destruct Hlast as (c & l & Hin).
      eapply (expect_apart_lo (i_items n)); [exact Hap|].
      by eapply subseteq_take. }
    split.
    { destruct Hhead as (hi & Hin).
      eapply (expect_apart_hi (i_items n)); [exact Hap|].
      by eapply subseteq_drop. }
    intros pid m. rewrite Hpages'.
    destruct (decide (pid = N)) as [->|HneN].
    { intros [= <-]. cbn [i_items]. rewrite Hnew_children.
      intros Hin. destruct (Hmoved_E _ Hin) as (lo & hi & HinE).
      by destruct (Hchildren _ _ _ HinE) as (_ & _ & _ & ?). }
    destruct (decide (pid = P)) as [->|HneP].
    { intros [= <-]. simpl. intros Hin.
      assert (HinP : N ∈ (i_items n).*2).
      { apply list_elem_of_fmap in Hin as (y & -> & Hy).
        apply list_elem_of_fmap. exists y. split; [done|].
        by eapply subseteq_take. }
      apply (Hstore N); [|done]. by eapply children_in_store. }
    intros Hpm Hin.
    assert (∃ m0, page_at t pid = Some (InternalNode m0) ∧
                  i_items m0 = i_items m) as (m0 & Hm0 & Hitems).
    { case_decide.
      - destruct (page_at t pid) as [[l0|m0]|]; simpl in Hpm; [done| |done].
        injection Hpm as <-. by exists m0.
      - by exists m. }
    apply (Hstore N); [|done].
    eapply children_in_store; [done|exact Hm0|]. by rewrite Hitems. }
  intros pid p. rewrite Hpages'.
  destruct (decide (pid = N)) as [->|HneN].
  { intros [= <-]. split; [lia|]. split; [rewrite HG'N; simpl; lia|]. split.
    - split; [by rewrite HG'N|]. exists h. rewrite HG'N.
      cbn [g_height g_lo g_hi i_max i_items].
      split; [done|]. split; [done|]. split; [done|].
      split; [by rewrite Hnew_children, Hmoved|].
      rewrite Hdrop. intros c lo hi Hin.
      assert (HinE : (c, (lo, hi)) ∈ E) by (by eapply subseteq_drop).
      destruct (Hchildren _ _ _ HinE) as (Hc & HGc & HcP & HcN).
      split; [by eapply Hap|]. split; [by apply Hmono|].
      unfold child_ok. simpl. rewrite decide_False by done.
      rewrite HG'moved.
      + by rewrite HGc.
      + rewrite Hmoved. apply list_elem_of_fmap. by exists (c, (lo, hi)).
    - intros Hun. exfalso. apply Hun. done. }
  destruct (decide (pid = P)) as [->|HneP].
  { intros [= <-]. split; [lia|]. split; [rewrite HG'P; simpl; lia|]. split.
    - split; [by rewrite HG'P|]. exists h. rewrite HG'P.
      cbn [g_height g_lo g_hi i_max i_items set_i_items].
      split; [done|]. split; [congruence|].
      split.
      { destruct (i_items n); [done|]. destruct s; [lia|done]. }
      split.
      { rewrite fmap_take, <- HE1, <- fmap_take. done. }
      rewrite Htake. intros c lo hi Hin.
      assert (HinE : (c, (lo, hi)) ∈ E) by (by eapply subseteq_take).
      destruct (Hchildren _ _ _ HinE) as (Hc & HGc & HcP & HcN).
      split; [by eapply Hap|]. split; [by apply Hmono|].
      unfold child_ok. simpl. rewrite decide_False by done.
      rewrite HG'other; [done..|]. by eapply Hkept.
    - intros _. rewrite HG'P. cbn [g_parent].
      assert (Hnot : ¬ unlisted None P) by (by intros ?).
      specialize (HPlink Hnot).
      destruct (decide (g_parent (G P) = INVALID_PAGE_ID)); [congruence|].
      destruct HPlink as (m & Hm & Hin).
      destruct (decide (g_parent (G P) = P)) as [Heq|Hneq].
      { exfalso. rewrite Heq, HP in Hm. injection Hm as <-.
        rewrite <- HE1 in Hin.
        apply list_elem_of_fmap in Hin as ([c [lo hi]] & Hc & HinE).
        simpl in Hc. subst c.
        by destruct (Hchildren _ _ _ HinE) as (_ & _ & ? & _). }
      destruct (Hinternal _ _ Hm Hneq) as (m' & Hm' & Hitems).
      exists m'. split; [done|]. by rewrite Hitems. }
  destruct (decide (pid ∈ moved)) as [Hmv|Hnmv].
  { destruct (page_at t pid) as [p0|] eqn:Hp0; simpl; [|done].
    intros [= <-].
    destruct (Hall _ _ Hp0) as (Hrange & Hh & Hok & Hlink).
    split; [lia|]. split; [rewrite HG'height by done; lia|]. split.
    - eapply page_ok_reparent; [exact Hok|by apply HG'moved|done|done
                                |exact Hmono|exact Hleafmono|].
      intros c h' lo hi Hc. by apply Hchild.
    - intros _. rewrite HG'moved by done. cbn [g_parent reparent].
      rewrite decide_False by (unfold INVALID_PAGE_ID; lia).
      eexists. split; [by rewrite Hpages', decide_True|].
      cbn [i_items]. by rewrite Hnew_children. }
  intros Hp. destruct (Hall _ _ Hp) as (Hrange & Hh & Hok & Hlink).
  split; [lia|]. split; [rewrite HG'other by done; lia|]. split.
  - eapply page_ok_transfer; [exact Hok|by apply HG'other|done|done
                              |exact Hmono|exact Hleafmono|].
    intros c h' lo hi Hc. by apply Hchild.
  - intros _. rewrite HG'other by done.
    assert (Hnot : ¬ unlisted None pid) by (by intros ?).
    specialize (Hlink Hnot).
    destruct (decide (g_parent (G pid) = INVALID_PAGE_ID)); [congruence|].
    destruct Hlink as (m & Hm & Hin).
    destruct (decide (g_parent (G pid) = P)) as [Heq|Hneq].
    + rewrite Heq, HP in Hm. injection Hm as <-.
      exists (set_i_items n (take s (i_items n))).
      split; [by rewrite Heq, Hpages', decide_False, decide_True|].
      simpl. rewrite <- (take_drop s (i_items n)), fmap_app in Hin.
      apply elem_of_app in Hin as [Hin|Hin]; [done|]. done.
    + destruct (Hinternal _ _ Hm Hneq) as (m' & Hm' & Hitems).
      exists m'. split; [done|]. by rewrite Hitems.
Qed.

End SearchTree5.

Section SearchTree6.
Import BPlusTree.
Implicit Types (t : BPlusTree) (p : BPlusTreePage) (G : Z → Info)
  (d : Defect) (defect : option Defect).

Lemma leaf_items_Some t x items :
  leaf_items t x = Some items ↔
  ∃ l, page_at t x = Some (LeafNode l) ∧ l_items l = items.
Proof.
  unfold leaf_items, leaf_at.
  destruct (page_at t x) as [[l|n]|]; simpl; split.
  - intros [= <-]. eauto.
  - intros (l' & [= <-] & <-). done.
  - done.
  - by intros (l' & [=] & _).
  - done.
  - by intros (l' & [=] & _).
Qed.

(** **** One page only is responsible for a key at each height *)

Lemma responsible_unique G t H key :
  ord_inv G t H None →
  ∀ n A B pA pB,
    page_at t A = Some pA → page_at t B = Some pB →
    (H ≤ n + g_height (G A))%nat →
    g_height (G A) = g_height (G B) →
    above (g_lo (G A)) key → below (g_hi (G A)) key →
    above (g_lo (G B)) key → below (g_hi (G B)) key →
    A = B.
Proof.
  intros Hinv.
  pose proof Hinv as (_ & _ & _ & _ & _ & Hroot & _ & Hall).
  assert (Hparent : ∀ A pA, page_at t A = Some pA →
            g_parent (G A) ≠ INVALID_PAGE_ID →
            ∃ m lo hi, page_at t (g_parent (G A)) = Some (InternalNode m) ∧
              g_height (G (g_parent (G A))) = S (g_height (G A)) ∧
              (g_lo (G A), g_hi (G A)) = (lo, hi) ∧
              (A, (lo, hi)) ∈ expect (g_lo (G (g_parent (G A)))) (i_items m)
                               (g_hi (G (g_parent (G A)))) ∧
              all_apart (expect (g_lo (G (g_parent (G A)))) (i_items m)
                           (g_hi (G (g_parent (G A))))) ∧
              ∀ c l h, (c, (l, h)) ∈ expect (g_lo (G (g_parent (G A))))
                                      (i_items m) (g_hi (G (g_parent (G A)))) →
                       g_lo (G c) = l ∧ g_hi (G c) = h).
  { intros A pA HA Hpar.
    destruct (Hall _ _ HA) as (_ & _ & _ & Hlink).
    assert (Hnot : ¬ unlisted None A) by (by intros ?).
    specialize (Hlink Hnot). rewrite decide_False in Hlink by done.
    destruct Hlink as (m & Hm & Hin).
    destruct (Hall _ _ Hm) as (_ & _ & [_ Hok] & _).
    destruct Hok as (h & Hh & _ & _ & _ & Hch).
    rewrite <- (expect_fst (g_lo (G (g_parent (G A)))) _
                  (g_hi (G (g_parent (G A))))) in Hin.
    apply list_elem_of_fmap in Hin as ([c [lo hi]] & Hc & Hin).
    simpl in Hc. subst c.
    destruct (Hch _ _ _ Hin) as (_ & _ & HGA). unfold child_ok in HGA.
    exists m, lo, hi. split; [done|]. split; [by rewrite Hh, HGA|].
    split; [by rewrite HGA|]. split; [done|]. split.
    - intros c l h' Hc. by destruct (Hch _ _ _ Hc).
    - intros c l h' Hc. destruct (Hch _ _ _ Hc) as (_ & _ & HGc).
      unfold child_ok in HGc. by rewrite HGc. }
  induction n as [|n IH]; intros A B pA pB HA HB Hn Hh HloA HhiA HloB HhiB.
  - destruct (Hall _ _ HA) as (_ & HhA & _ & HlinkA).
    destruct (Hall _ _ HB) as (_ & HhB & _ & HlinkB).
    assert (Hnot : ∀ x, ¬ unlisted None x) by (by intros ? ?).
    specialize (HlinkA (Hnot A)). specialize (HlinkB (Hnot B)).
    destruct (decide (g_parent (G A) = INVALID_PAGE_ID)) as [HpA|HpA].
    + destruct (decide (g_parent (G B) = INVALID_PAGE_ID)) as [HpB|HpB];
        [congruence|].
      destruct (Hparent _ _ HB HpB) as (m & lo & hi & Hm & Hhm & _).
      destruct (Hall _ _ Hm) as (_ & Hbound & _). lia.
    + destruct (Hparent _ _ HA HpA) as (m & lo & hi & Hm & Hhm & _).
      destruct (Hall _ _ Hm) as (_ & Hbound & _). lia.
  - destruct (decide (g_parent (G A) = INVALID_PAGE_ID)) as [HpA|HpA];
      destruct (decide (g_parent (G B) = INVALID_PAGE_ID)) as [HpB|HpB].
    + destruct (Hall _ _ HA) as (_ & _ & _ & HlinkA).
      destruct (Hall _ _ HB) as (_ & _ & _ & HlinkB).
      assert (Hnot : ∀ x, ¬ unlisted None x) by (by intros ? ?).
      specialize (HlinkA (Hnot A)). specialize (HlinkB (Hnot B)).
      rewrite decide_True in HlinkA by done.
      rewrite decide_True in HlinkB by done. congruence.
    + exfalso.
      destruct (Hall _ _ HA) as (_ & _ & _ & HlinkA).
      assert (Hnot : ¬ unlisted None A) by (by intros ?).
      specialize (HlinkA Hnot). rewrite decide_True in HlinkA by done.
      rewrite decide_False in Hroot
        by (intros Heq; rewrite decide_True in Hroot by done;
            by rewrite Hroot in HA).
      destruct Hroot as [_ Hrc]. unfold child_ok in Hrc.
      rewrite <- HlinkA in Hrc.
      destruct (Hparent _ _ HB HpB) as (m & lo & hi & Hm & Hhm & _).
      destruct (Hall _ _ Hm) as (_ & Hbound & _).
      rewrite Hrc in Hh. simpl in Hh. lia.
    + exfalso.
      destruct (Hall _ _ HB) as (_ & _ & _ & HlinkB).
      assert (Hnot : ¬ unlisted None B) by (by intros ?).
      specialize (HlinkB Hnot). rewrite decide_True in HlinkB by done.
      rewrite decide_False in Hroot
        by (intros Heq; rewrite decide_True in Hroot by done;
            by rewrite Hroot in HA).
      destruct Hroot as [_ Hrc]. unfold child_ok in Hrc.
      rewrite <- HlinkB in Hrc.
      destruct (Hparent _ _ HA HpA) as (m & lo & hi & Hm & Hhm & _).
      destruct (Hall _ _ Hm) as (_ & Hbound & _).
      rewrite Hrc in Hh. simpl in Hh. lia.
    + destruct (Hparent _ _ HA HpA)
        as (mA & loA & hiA & HmA & HhmA & HbA & HinA & HapA & _).
      destruct (Hparent _ _ HB HpB)
        as (mB & loB & hiB & HmB & HhmB & HbB & HinB & HapB & _).
      injection HbA as HloA' HhiA'. injection HbB as HloB' HhiB'.
      rewrite HloA' in HloA. rewrite HhiA' in HhiA.
      rewrite HloB' in HloB. rewrite HhiB' in HhiB.
      destruct (expect_within _ key _ _ _ _ _ HapA HinA) as [HwA1 HwA2].
      destruct (expect_within _ key _ _ _ _ _ HapB HinB) as [HwB1 HwB2].
      assert (Heq : g_parent (G A) = g_parent (G B)).
      { eapply (IH _ _ _ _ HmA HmB); [lia|lia|auto..]. }
      rewrite <- Heq in HinB, HmB, HapB. rewrite HmA in HmB.
      injection HmB as <-.
      eapply (expect_unique _ key _ _ _ _ _ _ _ _ HapA HinA HinB); done.
Qed.

(** **** [GetValue] *)

Lemma GetValue_spec G t H fuel key :
  ord_inv G t H None → (H ≤ fuel)%nat →
  ∃ r, GetValue fuel t key = Some (r, t) ∧ ∀ v, r = Some v ↔ stored t key v.
Proof.
  intros Hinv Hfuel.
  pose proof Hinv as (Hs & _ & _ & _ & _ & Hroot & _ & Hall).
  destruct (decide (root_page_id_ t = INVALID_PAGE_ID)) as [Hrt|Hrt].
  { exists None. split.
    - unfold GetValue, FindLeafPage. by rewrite bool_decide_eq_true_2.
    - intros v. split; [done|].
      intros (x & items & Hx & _). apply leaf_items_Some in Hx as (l & Hl & _).
      by rewrite Hroot in Hl. }
  destruct (FindLeafPage_spec _ _ _ fuel key Hinv Hrt Hfuel)
    as (L & l & Hfind & HL & Hlo & Hhi).
  exists (leaf_lookup (l_items l) key). split.
  { unfold GetValue. rewrite Hfind. simpl.
    unfold leaf_at. rewrite HL. done. }
  destruct (Hall _ _ HL) as (_ & _ & [_ HLok] & _).
  destruct HLok as (Hh0 & _ & [Hsorted Hbounds] & _).
  intros v. rewrite (leaf_lookup_sorted _ _ _ Hsorted). split.
  - intros Hin. exists L, (l_items l). split; [|done].
    apply leaf_items_Some. eauto.
  - intros (x & items & Hx & Hin).
    apply leaf_items_Some in Hx as (l' & Hl' & <-).
    destruct (Hall _ _ Hl') as (_ & _ & [_ Hok'] & _).
    destruct Hok' as (Hh0' & _ & [_ Hbounds'] & _).
    rewrite list.Forall_forall in Hbounds'.
    destruct (Hbounds' key) as [Hlo' Hhi'].
    { apply list_elem_of_fmap. by exists (key, v). }
    assert (x = L) as ->.
    { eapply (responsible_unique _ _ _ key Hinv H _ _ _ _ Hl' HL);
        [lia|congruence|done..]. }
    rewrite HL in Hl'. by injection Hl' as <-.
Qed.

(** **** The check on the next leaf changes nothing *)

Lemma hand_off_stay G t H L l key pos dup :
  ord_inv G t H None → page_at t L = Some (LeafNode l) →
  below (g_hi (G L)) key →
  hand_off t L l key pos dup = Some (L, pos, dup, t).
Proof.
  intros Hinv HL Hhi.
  pose proof Hinv as (Hs & _ & _ & _ & _ & _ & _ & Hall).
  destruct (Hall _ _ HL) as (_ & _ & [_ HLok] & _).
  destruct HLok as (_ & _ & _ & Hnext).
  unfold hand_off. destruct (_ && _) eqn:Hcond; [|done].
  apply andb_prop in Hcond as [_ Hpos%bool_decide_eq_true].
  destruct (KeyAt _ _) as [last_key|] eqn:Hlast; simpl.
  2:{ exfalso. unfold KeyAt, item_at in Hlast.
      rewrite bool_decide_eq_false_2 in Hlast by lia.
      destruct (lookup_lt_is_Some_2 (l_items l)
                  (Z.to_nat (Z.of_nat (length (l_items l)) - 1)))
        as [it Hit]; [lia|].
      by rewrite Hit in Hlast. }
  case_bool_decide; [|done].
  case_bool_decide as Hnx; [|done].
  destruct (Hnext Hnx) as [[l' Hl'] Hmeets].
  rewrite (served_FetchPage t _ Hs), bool_decide_eq_true_2 by done.
  rewrite Hl'. simpl.
  destruct (l_items l') as [|[k0 v0] rest] eqn:Hitems; [done|].
  rewrite bool_decide_eq_false_2; [done|].
  rewrite comparator_ge.
  apply page_at_leaf in Hl'.
  destruct (Hall _ _ Hl') as (_ & _ & [_ Hok'] & _).
  destruct Hok' as (_ & _ & [_ Hbounds'] & _).
  rewrite Hitems in Hbounds'. simpl in Hbounds'.
  apply list.Forall_cons in Hbounds' as [[Hlo' _] _].
  destruct (g_hi (G L)), (g_lo (G (l_next l))); simpl in *; try done. lia.
Qed.

End SearchTree6.

Section SearchTree7.
Import BPlusTree.
Implicit Types (t : BPlusTree) (p : BPlusTreePage) (G : Z → Info)
  (d : Defect) (defect : option Defect).

Lemma SetParentPageId_twice p q :
  SetParentPageId (SetParentPageId p q) q = SetParentPageId p q.
Proof. by destruct p. Qed.

Lemma adopt_children_pages children : ∀ t q,
  served t →
  (∀ c, c ∈ children → is_Some (page_at t c) ∧ c ≠ INVALID_PAGE_ID) →
  ∃ t', adopt_children t children q = Some (true, t') ∧ served t' ∧
        same_frame t t' ∧
        ∀ x, page_at t' x =
             if decide (x ∈ children)
             then (λ p, SetParentPageId p q) <$> page_at t x
             else page_at t x.
Proof.
  induction children as [|c children IH]; intros t q Hs Hc;
    cbn [adopt_children].
  - exists t. split; [done|]. split; [done|]. split; [by repeat split|].
    intros x. destruct (decide (x ∈ [])) as [Hx%elem_of_nil|]; done.
  - destruct (Hc c ltac:(left)) as [[p Hp] Hne].
    rewrite (served_FetchPage t c Hs), bool_decide_eq_true_2 by done.
    unfold set_parent_of. rewrite Hp. simpl.
    set (t1 := write_page t c (SetParentPageId p q)).
    destruct (IH t1 q) as (t' & Hrun & Hs' & Hframe & Hpages); [done| |].
    { intros c' Hc'. destruct (Hc c' ltac:(by right)) as [Hsome ?].
      split; [|done]. by apply is_Some_page_at_write. }
    exists t'. split; [done|]. split; [done|]. split; [exact Hframe|].
    intros x. rewrite Hpages. unfold t1. rewrite page_at_write_page.
    destruct (decide (c = x)) as [<-|Hne'].
    + rewrite (decide_True (P := c ∈ c :: children)) by left.
      rewrite Hp. simpl. case_decide; [|done].
      by rewrite SetParentPageId_twice.
    + destruct (decide (x ∈ children)) as [Hin|Hnin].
      * rewrite decide_True by (by right). done.
      * rewrite decide_False; [done|].
        intros [?|?]%elem_of_cons; done.
Qed.

Lemma leaf_items_SetParent t t' x q :
  page_at t' x = (λ p, SetParentPageId p q) <$> page_at t x →
  leaf_items t' x = leaf_items t x.
Proof.
  unfold leaf_items, leaf_at. intros ->.
  by destruct (page_at t x) as [[l|n]|].
Qed.

Lemma leaf_items_eq t t' x :
  page_at t' x = page_at t x → leaf_items t' x = leaf_items t x.
Proof. unfold leaf_items, leaf_at. by intros ->. Qed.

Lemma leaf_items_internal t t' x n' :
  page_at t' x = Some (InternalNode n') → leaf_items t x = None →
  leaf_items t' x = leaf_items t x.
Proof.
  intros Hp ->. unfold leaf_items, leaf_at. by rewrite Hp.
Qed.

Lemma set_parent_of_eq t c q p :
  page_at t c = Some p →
  set_parent_of t c q = Some (write_page t c (SetParentPageId p q)).
Proof. intros Hp. unfold set_parent_of. by rewrite Hp. Qed.

(** **** [InsertIntoParent] *)

Lemma InsertIntoParent_new_root_ord recur G t H d :
  ord_inv G t H (Some d) →
  g_parent (G (d_left d)) = INVALID_PAGE_ID →
  ∃ t' G' H',
    InsertIntoParent_body recur t INVALID_PAGE_ID (d_left d) (d_key d)
      (d_right d) = Some t' ∧
    ord_inv G' t' H' None ∧ (H' ≤ S H)%nat ∧
    ∀ x, leaf_items t' x = leaf_items t x.
Proof.
  intros Hinv Hpar.
  pose proof (new_root_inv G t) as Hnew.
  pose proof (fresh_page _ _ _ _ Hinv) as Hfresh.
  pose proof Hinv as (Hs & _ & _ & _ & _ & _ & Hdef & Hall).
  destruct d as [L mid N]. simpl in *.
  destruct Hdef as (HLN & HNroot & [pL HpL] & [pN HpN] & _).
  destruct (Hall _ _ HpL) as (HLrange & _).
  destruct (Hall _ _ HpN) as (HNrange & _).
  unfold InsertIntoParent_body. rewrite bool_decide_eq_true_2 by done.
  rewrite (served_NewPage t Hs). fold (after_NewPage t).
  set (R := next_page_id (buffer_pool_manager_ t)) in *.
  set (nr := InternalNode (mkInternal INVALID_PAGE_ID
                (internal_max_size_ (after_NewPage t)) [(0, L); (mid, N)])).
  set (t2 := write_page (after_NewPage t) R nr).
  assert (Hs2 : served t2) by done.
  rewrite (served_FetchPage t2 L Hs2).
  rewrite (served_FetchPage t2 N Hs2).
  rewrite !bool_decide_eq_true_2 by (unfold INVALID_PAGE_ID; lia).
  cbn [andb].
  assert (HpL2 : page_at t2 L = Some pL).
  { unfold t2. rewrite page_at_write_page, decide_False by lia. done. }
  rewrite (set_parent_of_eq t2 L R pL HpL2). cbn [mbind option_bind].
  set (t3 := write_page t2 L (SetParentPageId pL R)).
  assert (HpN3 : page_at t3 N = Some pN).
  { unfold t3, t2. rewrite !page_at_write_page.
    rewrite decide_False by done. rewrite decide_False by lia. done. }
  rewrite (set_parent_of_eq t3 N R pN HpN3). cbn [mbind option_bind].
  set (t4 := write_page t3 N (SetParentPageId pN R)).
  destruct (served_UpdateRootPageId (set_root t4 R) false)
    as (t5 & -> & (Hf1 & Hf2 & Hf3 & Hf4) & Hs5 & Hpages); [done|].
  assert (Hpages5 : ∀ x, page_at t5 x =
            if decide (x = R) then Some nr
            else if decide (x = L ∨ x = N)
            then (λ p, SetParentPageId p R) <$> page_at t x
            else page_at t x).
  { intros x. rewrite Hpages.
    change (page_at (set_root t4 R) x) with (page_at t4 x).
    unfold t4, t3, t2. rewrite !page_at_write_page.
    change (page_at (after_NewPage t) x) with (page_at t x).
    destruct (decide (x = R)) as [->|HxR].
    { rewrite decide_False by lia. rewrite decide_False by lia.
      by rewrite decide_True. }
    destruct (decide (N = x)) as [<-|HxN].
    { rewrite decide_True by (by right). by rewrite HpN. }
    destruct (decide (L = x)) as [<-|HxL].
    { rewrite decide_True by (by left). by rewrite HpL. }
    rewrite decide_False by done.
    rewrite decide_False by (intros [?|?]; done). done. }
  eexists t5, _, (S H). split; [done|]. split.
  { by apply (Hnew t5 H (mkDefect L mid N) Hinv Hpar). }
  split; [lia|].
  intros x. specialize (Hpages5 x).
  destruct (decide (x = R)) as [->|HxR].
  { eapply leaf_items_internal; [exact Hpages5|].
    unfold leaf_items, leaf_at. by rewrite Hfresh. }
  destruct (decide (x = L ∨ x = N)).
  - by eapply leaf_items_SetParent.
  - by apply leaf_items_eq.
Qed.

End SearchTree7.

Section SearchTree8.
Import BPlusTree.
Implicit Types (t : BPlusTree) (p : BPlusTreePage) (G : Z → Info)
  (d : Defect) (defect : option Defect).

Lemma child_not_self G t H P n :
  ord_inv G t H None → page_at t P = Some (InternalNode n) →
  P ∉ (i_items n).*2.
Proof.
  intros (_ & _ & _ & _ & _ & _ & _ & Hall) HP Hin.
  destruct (Hall _ _ HP) as (_ & _ & [_ Hok] & _).
  destruct Hok as (h & Hh & _ & _ & _ & Hch).
  rewrite <- (expect_fst (g_lo (G P)) _ (g_hi (G P))) in Hin.
  apply list_elem_of_fmap in Hin as ([c [lo hi]] & Hc & Hin).
  simpl in Hc. subst c.
  destruct (Hch _ _ _ Hin) as (_ & _ & HG). unfold child_ok in HG.
  rewrite HG in Hh. simpl in Hh. lia.
Qed.

Lemma item_at_lookup (items : list (Z * Z)) (i : Z) k c :
  0 ≤ i → items !! Z.to_nat i = Some (k, c) →
  KeyAt items i = Some k ∧ ValueAt items i = Some c.
Proof.
  intros Hi Hl. unfold KeyAt, ValueAt, item_at.
  rewrite bool_decide_eq_false_2 by lia. by rewrite Hl.
Qed.

Lemma InsertIntoParent_body_ord recur G t H d :
  ord_inv G t H (Some d) →
  (∀ t1 G1 d1,
     ord_inv G1 t1 H (Some d1) →
     g_height (G1 (d_left d1)) = S (g_height (G (d_left d))) →
     ∃ t' G' H',
       recur t1 (g_parent (G1 (d_left d1))) (d_left d1) (d_key d1)
         (d_right d1) = Some t' ∧
       ord_inv G' t' H' None ∧ (H' ≤ S H)%nat ∧
       ∀ x, leaf_items t' x = leaf_items t1 x) →
  ∃ t' G' H',
    InsertIntoParent_body recur t (g_parent (G (d_left d))) (d_left d)
      (d_key d) (d_right d) = Some t' ∧
    ord_inv G' t' H' None ∧ (H' ≤ S H)%nat ∧
    ∀ x, leaf_items t' x = leaf_items t x.
Proof.
  intros Hinv Hrec.
  destruct (decide (g_parent (G (d_left d)) = INVALID_PAGE_ID)) as [Hpar|Hpar].
  { rewrite Hpar. by apply (InsertIntoParent_new_root_ord recur G t H d). }
  destruct (parent_insert_inv G t H d Hinv Hpar)
    as (n & i & HPn & Hidx & HparN & HNP & HPheight & Hinv1).
  pose proof Hinv as (Hs & _ & Him & _ & _ & _ & Hdef & Hall).
  destruct d as [L mid N]. simpl in *.
  remember (g_parent (G L)) as P eqn:HPdef.
  destruct Hdef as (HLN & HNroot & [pL HpL] & [pN HpN] & _).
  destruct (Hall _ _ HpN) as (HNrange & _ & [HNpar _] & _).
  destruct (Hall _ _ HPn) as (HPrange & _ & [HPpar HPok] & _).
  destruct HPok as (h & _ & HPmax & _). simpl in HPpar.
  unfold InsertIntoParent_body. rewrite bool_decide_eq_false_2 by done.
  rewrite (served_FetchPage t P Hs), bool_decide_eq_true_2 by done.
  cbn [negb].
  rewrite (proj2 (page_at_internal t P n) HPn). cbn [mbind option_bind].
  rewrite Hidx.
  set (items1 := insert_at (i_items n) (S i) (mid, N)) in *.
  set (n1 := set_i_items n items1) in *.
  set (t1 := write_page t P (InternalNode n1)) in *.
  assert (Hs1 : served t1) by done.
  rewrite (served_FetchPage t1 N Hs1).
  rewrite bool_decide_eq_true_2 by (unfold INVALID_PAGE_ID; lia).
  assert (HpN1 : page_at t1 N = Some pN).
  { unfold t1. rewrite page_at_write_page, decide_False by done. done. }
  rewrite (set_parent_of_eq t1 N P pN HpN1).
  rewrite SetParentPageId_same by congruence.
  rewrite (write_page_same t1 N pN HpN1). cbn [mbind option_bind].
  assert (HP1 : page_at t1 P = Some (InternalNode n1)).
  { unfold t1. by rewrite page_at_write_page, decide_True. }
  rewrite (proj2 (page_at_internal t1 P n1) HP1). cbn [mbind option_bind].
  assert (Hleaf1 : ∀ x, leaf_items t1 x = leaf_items t x).
  { intros x. destruct (decide (x = P)) as [->|Hne].
    - unfold leaf_items, leaf_at. by rewrite HP1, HPn.
    - apply leaf_items_eq. unfold t1.
      by rewrite page_at_write_page, decide_False. }
  change (i_items n1) with items1. change (i_max n1) with (i_max n).
  destruct (decide (i_max n < Z.of_nat (length items1))) as [Hbig|Hfit];
    [rewrite bool_decide_eq_true_2 by done
    |rewrite bool_decide_eq_false_2 by done].
  2:{ exists t1, G, H. split; [done|]. split; [done|]. split; [lia|done]. }
  rewrite (served_NewPage t1 Hs1). fold (after_NewPage t1).
  set (N2 := next_page_id (buffer_pool_manager_ t1)) in *.
  assert (HN2 : N2 = next_page_id (buffer_pool_manager_ t)) by done.
  set (sz := Z.quot (Z.of_nat (length items1) + 1) 2).
  assert (Hsz : 0 < sz < Z.of_nat (length items1)).
  { unfold sz. rewrite Z.quot_div_nonneg by lia. lia. }
  destruct (lookup_lt_is_Some_2 items1 (Z.to_nat sz)) as [[mid2 cs] Hmid2];
    [lia|].
  destruct (item_at_lookup items1 sz mid2 cs ltac:(lia) Hmid2) as [HK HV].
  rewrite HK, HV. cbn [mbind option_bind].
  set (new_items := (0, cs) :: drop (S (Z.to_nat sz)) items1).
  set (t3 := write_page (after_NewPage t1) N2 _).
  set (t4 := write_page t3 P _).
  assert (Hmoved : new_items.*2 = (drop (Z.to_nat sz) items1).*2).
  { unfold new_items. by rewrite (drop_S _ _ _ Hmid2). }
  assert (Hmoved_store : ∀ c, c ∈ new_items.*2 →
            is_Some (page_at t1 c) ∧ c ≠ P).
  { intros c Hc. rewrite Hmoved in Hc.
    assert (Hc1 : c ∈ (i_items n1).*2).
    { apply list_elem_of_fmap in Hc as (y & -> & Hy).
      apply list_elem_of_fmap. exists y. split; [done|].
      by eapply subseteq_drop. }
    split; [by eapply children_in_store|].
    intros ->. by eapply child_not_self. }
  pose proof (fresh_page _ _ _ _ Hinv1) as Hfresh1. fold N2 in Hfresh1.
  assert (Hs4 : served t4) by done.
  destruct (adopt_children_pages new_items.*2 t4 N2 Hs4)
    as (t5 & Hrun & Hs5 & (Hf1 & Hf2 & Hf3 & Hf4) & Hpages5).
  { intros c Hc. destruct (Hmoved_store c Hc) as [[pc Hpc] HcP].
    destruct (page_in_range _ _ _ _ c Hinv1 ltac:(eauto)) as [Hc0 _].
    split; [|unfold INVALID_PAGE_ID; lia].
    unfold t4, t3. rewrite !page_at_write_page.
    repeat case_decide; eauto. }
  rewrite Hrun. cbn [mbind option_bind].
  assert (HP5 : page_at t5 P
            = Some (InternalNode
                      (set_i_items n1 (take (Z.to_nat sz) items1)))).
  { rewrite Hpages5. rewrite decide_False.
    - unfold t4. by rewrite page_at_write_page, decide_True.
    - intros Hin. by destruct (Hmoved_store _ Hin). }
  rewrite (proj2 (page_at_internal t5 P _) HP5). cbn [mbind option_bind].
  assert (Hinv5 : ord_inv
            (split_info (moved_info G (drop (Z.to_nat sz) (i_items n1)).*2 N2)
               P mid2 N2)
            t5 H (Some (mkDefect P mid2 N2))).
  { apply (internal_split_inv G t1 t5 H P n1 (Z.to_nat sz) mid2 cs);
      try done; [lia|].
    intros x. fold N2. change (i_items n1) with items1.
    rewrite Hpages5, Hmoved. unfold t4, t3.
      rewrite !page_at_write_page.
      change (page_at (after_NewPage t1) x) with (page_at t1 x).
      destruct (decide (x = N2)) as [->|HxN].
      { rewrite decide_False.
        - rewrite decide_False by lia. by rewrite decide_True.
        - intros Hin. rewrite <- Hmoved in Hin.
          destruct (Hmoved_store _ Hin) as [[pc Hpc] _].
          by rewrite Hfresh1 in Hpc. }
      destruct (decide (x = P)) as [->|HxP].
      { rewrite decide_False.
        - by rewrite decide_True.
        - intros Hin. rewrite <- Hmoved in Hin.
          by destruct (Hmoved_store _ Hin). }
      rewrite (decide_False (P := P = x)) by done.
      rewrite (decide_False (P := N2 = x)) by done. done. }
  destruct (Hrec t5 _ _ Hinv5) as (t' & G' & H' & Hrun' & Hinv' & HH' & Hleaf').
  { simpl. rewrite split_info_height by lia.
    unfold moved_info. case_decide; simpl; congruence. }
  simpl in Hrun'. rewrite split_info_parent in Hrun' by lia.
  assert (HPnotmoved : P ∉ (drop (Z.to_nat sz) (i_items n1)).*2).
  { change (i_items n1) with items1. rewrite <- Hmoved.
    intros Hin. by destruct (Hmoved_store _ Hin). }
  unfold moved_info in Hrun'. rewrite decide_False in Hrun' by exact HPnotmoved.
  rewrite <- HPpar in Hrun'.
  exists t', G', H'. split; [exact Hrun'|]. split; [done|]. split; [done|].
  intros x. rewrite Hleaf', <- Hleaf1.
  specialize (Hpages5 x).
  destruct (decide (x ∈ new_items.*2)) as [Hin|Hnin].
  - rewrite (leaf_items_SetParent _ _ _ _ Hpages5).
    destruct (Hmoved_store _ Hin) as [[pc Hpc] HcP].
    apply leaf_items_eq. unfold t4, t3. rewrite !page_at_write_page.
    rewrite decide_False by done.
    rewrite decide_False; [done|]. intros <-. by rewrite Hfresh1 in Hpc.
  - rewrite (leaf_items_eq _ _ _ Hpages5).
    unfold leaf_items, leaf_at, t4, t3. rewrite !page_at_write_page.
    destruct (decide (P = x)) as [<-|HxP]; [by rewrite HP1|].
    destruct (decide (N2 = x)) as [<-|HxN]; [by rewrite Hfresh1|]. done.
Qed.

(** [InsertIntoParent] links the new page, with fuel for the levels
    above. *)
Lemma InsertIntoParent_ord fuel : ∀ G t H d,
  ord_inv G t H (Some d) →
  (H ≤ fuel + g_height (G (d_left d)))%nat →
  ∃ t' G' H',
    InsertIntoParent fuel t (g_parent (G (d_left d))) (d_left d)
      (d_key d) (d_right d) = Some t' ∧
    ord_inv G' t' H' None ∧ (H' ≤ S H)%nat ∧
    ∀ x, leaf_items t' x = leaf_items t x.
Proof.
  induction fuel as [|fuel IH]; intros G t H d Hinv Hfuel; simpl;
    apply InsertIntoParent_body_ord; try done.
  - intros t1 G1 d1 Hinv1 Hh. exfalso.
    destruct Hinv1 as (_ & _ & _ & _ & _ & _ & Hdef & Hall).
    destruct Hdef as (_ & _ & [pL HpL] & _).
    destruct (Hall _ _ HpL) as (_ & Hbound & _). lia.
  - intros t1 G1 d1 Hinv1 Hh. apply IH; [done|lia].
Qed.

End SearchTree8.

Section SearchTree9.
Import BPlusTree.
Implicit Types (t : BPlusTree) (p : BPlusTreePage) (G : Z → Info)
  (d : Defect) (defect : option Defect).

(** A pair is stored if and only if the leaf responsible for its key
    holds it. *)
Lemma stored_at_responsible G t H L l key v :
  ord_inv G t H None → page_at t L = Some (LeafNode l) →
  above (g_lo (G L)) key → below (g_hi (G L)) key →
  stored t key v ↔ (key, v) ∈ l_items l.
Proof.
  intros Hinv HL Hlo Hhi.
  pose proof Hinv as (_ & _ & _ & _ & _ & _ & _ & Hall).
  destruct (Hall _ _ HL) as (_ & _ & [_ HLok] & _).
  destruct HLok as (Hh0 & _). split.
  - intros (x & items & Hx & Hin).
    apply leaf_items_Some in Hx as (l' & Hl' & <-).
    destruct (Hall _ _ Hl') as (_ & _ & [_ Hok'] & _).
    destruct Hok' as (Hh0' & _ & [_ Hbounds'] & _).
    rewrite list.Forall_forall in Hbounds'.
    destruct (Hbounds' key) as [Hlo' Hhi'].
    { apply list_elem_of_fmap. by exists (key, v). }
    assert (x = L) as ->.
    { eapply (responsible_unique _ _ _ key Hinv H _ _ _ _ Hl' HL);
        [lia|congruence|done..]. }
    rewrite HL in Hl'. by injection Hl' as <-.
  - intros Hin. exists L, (l_items l). split; [|done].
    apply leaf_items_Some. eauto.
Qed.

Lemma Insert_first_ord G t H fuel key value :
  ord_inv G t H None → root_page_id_ t = INVALID_PAGE_ID →
  ∃ t' G',
    Insert fuel t key value = Some (true, t') ∧ ord_inv G' t' 0 None ∧
    ∀ k v, stored t' k v ↔ (k = key ∧ v = value) ∨ stored t k v.
Proof.
  intros Hinv Hrt.
  pose proof Hinv as (Hs & Hlm & Him & Hn & Hr & Hroot & _ & Hall).
  rewrite decide_True in Hroot by done.
  unfold Insert. rewrite bool_decide_eq_true_2 by done.
  rewrite (served_NewPage t Hs). fold (after_NewPage t).
  set (R := next_page_id (buffer_pool_manager_ t)) in *.
  set (leaf := LeafNode (mkLeaf INVALID_PAGE_ID
                 (leaf_max_size_ (after_NewPage t)) INVALID_PAGE_ID
                 [(key, value)])).
  set (t2 := write_page (after_NewPage t) R leaf).
  destruct (served_UpdateRootPageId (set_root t2 R) true)
    as (t3 & -> & (Hf1 & Hf2 & Hf3 & Hf4) & Hs3 & Hpages); [done|].
  cbn [mbind option_bind].
  assert (Hpages3 : ∀ x, page_at t3 x = if decide (R = x) then Some leaf else None).
  { intros x. rewrite Hpages.
    change (page_at (set_root t2 R) x) with (page_at t2 x).
    unfold t2. rewrite page_at_write_page.
    change (page_at (after_NewPage t) x) with (page_at t x).
    by rewrite Hroot. }
  exists t3, (λ _, mkInfo INVALID_PAGE_ID 0 None None).
  split; [done|]. split.
  - split; [done|]. split; [by rewrite Hf2|]. split; [by rewrite Hf3|].
    rewrite Hf4, Hf1. cbn [root_page_id_ set_root].
    split; [simpl; lia|]. split; [simpl; lia|].
    split.
    { rewrite decide_False by (unfold INVALID_PAGE_ID; lia).
      split; [|done]. rewrite Hpages3, decide_True by done. eauto. }
    split; [done|].
    intros pid p. rewrite Hpages3. case_decide as Heq; [|done].
    intros [= <-]. subst pid. split; [simpl; lia|]. split; [done|]. split.
    + split; [done|]. simpl. split; [done|]. split; [by rewrite Hf2|].
      split; [|done]. split; [repeat constructor|by repeat constructor].
    + intros _. simpl. rewrite Hf1. done.
  - intros k v. split.
    + intros (x & items & Hx & Hin).
      apply leaf_items_Some in Hx as (l & Hl & <-).
      rewrite Hpages3 in Hl. case_decide; [|done]. injection Hl as <-.
      simpl in Hin. apply list_elem_of_singleton in Hin as [= -> ->]. by left.
    + intros [[-> ->]|(x & items & Hx & _)].
      * exists R, [(key, value)]. split; [|left].
        apply leaf_items_Some. eexists.
        split; [by rewrite Hpages3, decide_True|done].
      * apply leaf_items_Some in Hx as (l & Hl & _). by rewrite Hroot in Hl.
Qed.

(** [Insert] on a search tree, with fuel for its height. *)
Lemma Insert_ord G t H fuel key value :
  ord_inv G t H None → (H ≤ fuel)%nat →
  ((∃ v, stored t key v) ∧ Insert fuel t key value = Some (false, t)) ∨
  ((∀ v, ¬ stored t key v) ∧
   ∃ t' G' H',
     Insert fuel t key value = Some (true, t') ∧ ord_inv G' t' H' None ∧
     (H' ≤ S H)%nat ∧
     ∀ k v, stored t' k v ↔ (k = key ∧ v = value) ∨ stored t k v).
Proof.
  intros Hinv Hfuel.
  destruct (decide (root_page_id_ t = INVALID_PAGE_ID)) as [Hrt|Hrt].
  { right. split.
    - intros v (x & items & Hx & _).
      apply leaf_items_Some in Hx as (l & Hl & _).
      destruct Hinv as (_ & _ & _ & _ & _ & Hroot & _).
      rewrite decide_True in Hroot by done. by rewrite Hroot in Hl.
    - destruct (Insert_first_ord G t H fuel key value Hinv Hrt)
        as (t' & G' & Hrun & Hinv' & Hst).
      exists t', G', 0%nat. split; [done|]. split; [done|]. split; [lia|done]. }
  destruct (FindLeafPage_spec _ _ _ fuel key Hinv Hrt Hfuel)
    as (L & l & Hfind & HL & Hlo & Hhi).
  pose proof Hinv as (Hs & Hlm & Him & Hn & Hr & _ & _ & Hall).
  destruct (Hall _ _ HL) as (HLrange & _ & [HLpar HLok] & _).
  destruct HLok as (HLh0 & HLmax & [Hsorted Hbounds] & _). simpl in HLpar.
  assert (Hstored : ∀ v, stored t key v ↔ (key, v) ∈ l_items l)
    by (intros v; by eapply stored_at_responsible).
  unfold Insert. rewrite bool_decide_eq_false_2 by done.
  rewrite Hfind. cbn [mbind option_bind].
  rewrite (proj2 (page_at_leaf t L l) HL). cbn [mbind option_bind].
  destruct (find_insert_pos (l_items l) key 0) as [pos dup] eqn:Hpos.
  rewrite (hand_off_stay _ _ _ _ _ key pos dup Hinv HL Hhi).
  cbn [mbind option_bind].
  pose proof (find_insert_pos_dup (l_items l) key Hsorted) as Hdup.
  rewrite Hpos in Hdup. simpl in Hdup.
  destruct dup.
  { left. split; [|done].
    destruct Hdup as [Hdup _]. specialize (Hdup eq_refl).
    apply list_elem_of_fmap in Hdup as ([k v] & Hk & Hin). simpl in Hk.
    subst k. exists v. by apply Hstored. }
  right. split.
  { intros v Hst. apply Hstored in Hst.
    assert (key ∈ (l_items l).*1)
      by (apply list_elem_of_fmap; by exists (key, v)).
    destruct Hdup as [_ Hdup]. by specialize (Hdup ltac:(done)). }
  rewrite (proj2 (page_at_leaf t L l) HL). cbn [mbind option_bind].
  set (items := insert_at (l_items l) pos (key, value)).
  assert (Hlen : length items = S (length (l_items l)))
    by apply length_insert_at.
  set (l1 := set_l_items l items).
  set (t1 := write_page t L (LeafNode l1)).
  pose proof (leaf_insert_inv G t H L l key value pos Hinv HL Hlo Hhi Hpos)
    as Hinv1. fold items l1 t1 in Hinv1.
  assert (HL1 : page_at t1 L = Some (LeafNode l1)).
  { unfold t1. by rewrite page_at_write_page, decide_True. }
  assert (Hleaf1 : ∀ x, leaf_items t1 x =
            if decide (x = L) then Some items else leaf_items t x).
  { intros x. unfold leaf_items, leaf_at, t1. rewrite page_at_write_page.
    destruct (decide (L = x)) as [<-|Hne].
    - by rewrite decide_True.
    - by rewrite decide_False. }
  assert (Hst_old : ∀ k v, stored t k v ↔
            (k, v) ∈ l_items l ∨
            ∃ x its, x ≠ L ∧ leaf_items t x = Some its ∧ (k, v) ∈ its).
  { intros k v. split.
    - intros (x & its & Hx & Hin). destruct (decide (x = L)) as [->|Hne].
      + left. apply leaf_items_Some in Hx as (l' & Hl' & <-).
        rewrite HL in Hl'. by injection Hl' as <-.
      + right. eauto.
    - intros [Hin|(x & its & _ & Hx & Hin)].
      + exists L, (l_items l). split; [|done].
        apply leaf_items_Some. eauto.
      + by exists x, its. }
  destruct (decide (l_max l ≤ Z.of_nat (length items))) as [Hfull|Hroom];
    [rewrite bool_decide_eq_true_2 by done
    |rewrite bool_decide_eq_false_2 by done].
  2:{ exists t1, G, H. split; [done|]. split; [done|]. split; [lia|].
      intros k v. rewrite Hst_old. split.
      - intros (x & its & Hx & Hin). rewrite Hleaf1 in Hx.
        destruct (decide (x = L)) as [->|Hne].
        + injection Hx as <-.
          apply elem_of_insert_at_iff in Hin as [[= -> ->]|Hin]; auto.
        + right. right. eauto.
      - intros [[-> ->]|[Hin|(x & its & Hne & Hx & Hin)]].
        + exists L, items. rewrite Hleaf1, decide_True by done.
          split; [done|]. apply elem_of_insert_at_iff. by left.
        + exists L, items. rewrite Hleaf1, decide_True by done.
          split; [done|]. apply elem_of_insert_at_iff. by right.
        + exists x, its. rewrite Hleaf1, decide_False by done. done. }
  pose proof (served_NewPage t1) as HNew. rewrite HNew by done. clear HNew.
  fold (after_NewPage t1).
  set (N := next_page_id (buffer_pool_manager_ t1)) in *.
  assert (HN : N = next_page_id (buffer_pool_manager_ t)) by done.
  set (s := Z.to_nat (Z.quot (Z.of_nat (length items)) 2)).
  assert (Hs_range : (0 < s < length items)%nat).
  { unfold s. rewrite Z.quot_div_nonneg by lia. lia. }
  destruct (lookup_lt_is_Some_2 items s) as [[mid v'] Hmid]; [lia|].
  assert (Hdrop : drop s items = (mid, v') :: drop (S s) items)
    by (by apply drop_S).
  assert (HK : KeyAt (drop s items) 0 = Some mid) by (by rewrite Hdrop).
  fold s. rewrite HK. cbn [mbind option_bind].
  set (t3 := write_page (write_page (after_NewPage t1) N _) L _).
  pose proof (leaf_split_inv G t1 H L l1 s mid v' Hinv1 HL1 ltac:(lia) Hmid)
    as Hinv3. cbv zeta in Hinv3. fold N in Hinv3.
  change (l_items l1) with items in Hinv3.
  change (l_parent l1) with (l_parent l) in Hinv3.
  change (l_next l1) with (l_next l) in Hinv3.
  change (l_max l1) with (l_max l) in Hinv3.
  fold t3 in Hinv3.
  destruct (InsertIntoParent_ord fuel _ _ _ _ Hinv3)
    as (t' & G' & H' & Hrun & Hinv' & HH' & Hleaf').
  { cbn [d_left]. rewrite split_info_height by lia. lia. }
  cbn [d_left d_key d_right] in Hrun.
  rewrite split_info_parent in Hrun by lia.
  rewrite <- HLpar in Hrun.
  change (InsertIntoParent fuel t3 (l_parent l) L mid N = Some t') in Hrun.
  rewrite Hrun. cbn [mbind option_bind].
  exists t', G', H'. split; [done|]. split; [done|]. split; [done|].
  assert (Hfresh : leaf_items t N = None).
  { unfold leaf_items, leaf_at.
    by rewrite HN, (fresh_page _ _ _ _ Hinv). }
  change (∀ x, leaf_items t' x = leaf_items t3 x) in Hleaf'.
  assert (Hleaf3 : ∀ x, leaf_items t3 x =
            if decide (x = L) then Some (take s items)
            else if decide (x = N) then Some (drop s items)
            else leaf_items t x).
  { intros x. unfold leaf_items, leaf_at, t3.
    rewrite page_at_write_page, page_at_write_page.
    change (page_at (after_NewPage t1) x) with (page_at t1 x).
    destruct (decide (L = x)) as [<-|HneL]; [by rewrite decide_True|].
    rewrite (decide_False (P := x = L)) by done.
    destruct (decide (N = x)) as [<-|HneN]; [by rewrite decide_True|].
    rewrite (decide_False (P := x = N)) by done.
    unfold t1. rewrite page_at_write_page. by rewrite decide_False. }
  intros k v. rewrite Hst_old. split.
  - intros (x & its & Hx & Hin). rewrite Hleaf', Hleaf3 in Hx.
    destruct (decide (x = L)) as [->|HneL].
    { injection Hx as <-. apply subseteq_take in Hin.
      apply elem_of_insert_at_iff in Hin as [[= -> ->]|Hin]; auto. }
    destruct (decide (x = N)) as [->|HneN].
    { injection Hx as <-. apply subseteq_drop in Hin.
      apply elem_of_insert_at_iff in Hin as [[= -> ->]|Hin]; auto. }
    right. right. eauto.
  - assert (Hitems : ∀ it, it ∈ items → stored t' it.1 it.2).
    { intros [k0 v0] Hin. rewrite <- (take_drop s items) in Hin.
      apply elem_of_app in Hin as [Hin|Hin].
      - exists L, (take s items). rewrite Hleaf', Hleaf3.
        by rewrite decide_True.
      - exists N, (drop s items). rewrite Hleaf', Hleaf3.
        rewrite decide_False by lia. by rewrite decide_True. }
    intros [[-> ->]|[Hin|(x & its & Hne & Hx & Hin)]].
    + apply (Hitems (key, value)). apply elem_of_insert_at_iff. by left.
    + apply (Hitems (k, v)). apply elem_of_insert_at_iff. by right.
    + exists x, its. rewrite Hleaf', Hleaf3.
      rewrite decide_False by done.
      rewrite decide_False; [done|].
      intros ->. by rewrite Hfresh in Hx.
Qed.

End SearchTree9.

Section SearchTree10.
Import BPlusTree.
Implicit Types (t : BPlusTree) (p : BPlusTreePage) (G : Z → Info).

Lemma new_tree_well_formed lm im first :
  2 ≤ lm → 2 ≤ im → 0 ≤ first → well_formed (new_tree lm im first []) 0.
Proof.
  intros Hlm Him Hfirst. exists (λ _, mkInfo INVALID_PAGE_ID 0 None None).
  split; [done|]. split; [done|]. split; [done|]. split; [done|].
  split; [simpl; unfold INVALID_PAGE_ID; lia|].
  split; [simpl; intros pid; apply lookup_empty|]. split; [done|].
  intros pid p Hp. unfold page_at in Hp. simpl in Hp.
  by rewrite lookup_empty in Hp.
Qed.

(** Inserts keep the search tree, with fuel for the height it may
    reach. *)
Lemma run_operations_well_formed fuel ops : ∀ t H,
  well_formed t H → forallb is_insert ops = true →
  (H + length ops ≤ fuel)%nat →
  ∃ t' H', run_operations fuel t ops = Some t' ∧ well_formed t' H' ∧
           (H' ≤ H + length ops)%nat.
Proof.
  induction ops as [|[key value|key] ops IH]; intros t H Hwf Hops Hfuel.
  - exists t, H. split; [done|]. split; [done|]. simpl. lia.
  - simpl in *. destruct Hwf as [G Hinv].
    destruct (Insert_ord G t H fuel key value Hinv ltac:(lia))
      as [[_ Hrun]|[_ (t1 & G1 & H1 & Hrun & Hinv1 & HH1 & _)]].
    + rewrite Hrun. cbn [mbind option_bind].
      destruct (IH t H) as (t' & H' & Hrun' & Hwf' & HH');
        [by exists G|done|lia|].
      exists t', H'. split; [done|]. split; [done|]. lia.
    + rewrite Hrun. cbn [mbind option_bind].
      destruct (IH t1 H1) as (t' & H' & Hrun' & Hwf' & HH');
        [by exists G1|done|lia|].
      exists t', H'. split; [done|]. split; [done|]. lia.
  - done.
Qed.

End SearchTree10.
(* ===================================================================== *)
(** ** The calls with their latches, made with a transaction *)
(* ===================================================================== *)

Section CrabbingFacts.
Import BPlusTree Crabbing.
Implicit Types (t : BPlusTree) (s : Index) (l : list Z) (L : gset Z)
  (op : OperationType) (G : Z → Info).

Lemma holding_idle op t : holding op t ∅ [] = with_transaction t.
Proof. by destruct op. Qed.

Lemma tree_holding op t L l : tree (holding op t L l) = t.
Proof. by destruct op. Qed.

Lemma set_tree_holding op t L l t' :
  set_tree (holding op t L l) t' = holding op t' L l.
Proof. by destruct op. Qed.

Lemma set_page_set_holding op t L l f :
  set_page_set (holding op t L l) f = holding op t L (f l).
Proof. by destruct op. Qed.

Lemma AddIntoPageSet_holding op t L l p :
  AddIntoPageSet (holding op t L l) p = holding op t L (l ++ [p]).
Proof. by destruct op. Qed.

Lemma in_page_set_holding op t L l p :
  in_page_set (holding op t L l) p = bool_decide (p ∈ l).
Proof. by destruct op. Qed.

Lemma latch_holding op t L l p :
  p ∉ L → latch op (holding op t L l) p = Some (holding op t ({[p]} ∪ L) l).
Proof.
  intros Hp. destruct op; simpl; unfold RLatch, WLatch; simpl;
    rewrite decide_False; try done; intros [Hin|Hin]; try done;
    by apply elem_of_empty in Hin.
Qed.

Lemma list_to_set_snoc (l : list Z) x :
  list_to_set (C := gset Z) (l ++ [x]) = {[x]} ∪ list_to_set l.
Proof.
  apply set_eq. intros y.
  rewrite elem_of_union, !elem_of_list_to_set, elem_of_app,
    list_elem_of_singleton, elem_of_singleton. tauto.
Qed.

Lemma list_to_set_snoc_diff (l : list Z) x :
  x ∉ l → list_to_set (C := gset Z) (l ++ [x]) ∖ {[x]} = list_to_set l.
Proof.
  intros Hx. apply set_eq. intros y.
  rewrite elem_of_difference, !elem_of_list_to_set, elem_of_app,
    list_elem_of_singleton, elem_of_singleton.
  split; [tauto|]. intros Hy. split; [tauto|]. intros Heq. by subst y.
Qed.

Lemma NoDup_snoc (l : list Z) x : NoDup (l ++ [x]) ↔ NoDup l ∧ x ∉ l.
Proof.
  rewrite NoDup_app. split.
  - intros (Hnd & Hx & _). split; [done|]. intros Hin.
    apply (Hx x Hin). by apply list_elem_of_singleton.
  - intros [Hnd Hx]. split; [done|]. split; [|apply NoDup_singleton].
    intros y Hy Heq%list_elem_of_singleton. by subst y.
Qed.

Lemma unlatch_holding op t L l p :
  p ∈ L → unlatch op (holding op t L l) p = Some (holding op t (L ∖ {[p]}) l).
Proof.
  intros Hp. destruct op; simpl; unfold RUnlatch, WUnlatch; simpl;
    by rewrite decide_True.
Qed.

Lemma pop_if_back_snoc p l : pop_if_back p (l ++ [p]) = l.
Proof.
  unfold pop_if_back. rewrite last_snoc, decide_True by done.
  apply removelast_last.
Qed.

Lemma pop_or_erase_snoc p l : pop_or_erase p (l ++ [p]) = l.
Proof.
  unfold pop_or_erase. rewrite last_snoc, decide_True by done.
  apply removelast_last.
Qed.

Lemma erase_page_spec p l :
  NoDup l → p ∈ l →
  NoDup (erase_page p l) ∧ erase_page p l ⊆ l ∧
  list_to_set (C := gset Z) (erase_page p l) = list_to_set l ∖ {[p]}.
Proof.
  induction l as [|x l IH]; intros Hnd Hin; [by apply elem_of_nil in Hin|].
  apply list.NoDup_cons in Hnd as [Hx Hnd]. simpl. case_decide as Heq.
  - subst x. split; [done|]. split; [by apply list_subseteq_cons|].
    apply set_eq. intros y. rewrite elem_of_difference, elem_of_list_to_set.
    simpl. rewrite elem_of_union, elem_of_singleton, elem_of_list_to_set.
    split; [|tauto]. intros Hy. split; [tauto|]. by intros ->.
  - apply elem_of_cons in Hin as [->|Hin]; [done|].
    destruct (IH Hnd Hin) as (Hnd' & Hsub & Hset). split; [|split].
    + apply list.NoDup_cons. split; [|done]. intros Hx'. by apply Hx, Hsub.
    + intros y [->|Hy]%elem_of_cons; [left|right; by apply Hsub].
    + simpl. rewrite Hset. apply set_eq. intros y.
      rewrite !elem_of_union, !elem_of_difference, !elem_of_union,
        !elem_of_singleton. split; [|tauto].
      intros [->|[? ?]]; [|tauto]. split; [tauto|done].
Qed.

(** The loop at the end of a call releases what the page set lists. *)
Lemma release_page_set_holding op t l :
  NoDup l →
  release_page_set op (holding op t (list_to_set l) l)
  = Some (with_transaction t).
Proof.
  intros Hnd. unfold release_page_set.
  replace (transaction (holding op t (list_to_set l) l)) with (Some l)
    by (by destruct op).
  rewrite set_page_set_holding.
  induction l as [|x l IH] using rev_ind.
  { simpl. by rewrite holding_idle. }
  apply NoDup_snoc in Hnd as [Hnd Hx].
  rewrite rev_unit. simpl.
  rewrite unlatch_holding
    by (rewrite elem_of_list_to_set, elem_of_app, list_elem_of_singleton;
        tauto).
  simpl. rewrite list_to_set_snoc_diff by done. by apply IH.
Qed.

(** **** The way down *)

Lemma ValueAt_elem (items : list (Z * Z)) i c :
  ValueAt items i = Some c → c ∈ items.*2.
Proof.
  unfold ValueAt, item_at. case_bool_decide; [done|].
  destruct (items !! Z.to_nat i) as [[k c']|] eqn:Hl; simpl; [|done].
  intros [= <-]. apply list_elem_of_fmap. exists (k, c'). split; [done|].
  by eapply list_elem_of_lookup_2.
Qed.

Lemma child_for_elem (items : list (Z * Z)) key left_most c :
  child_for items key left_most = Some c → c ∈ items.*2.
Proof. unfold child_for. destruct left_most; apply ValueAt_elem. Qed.

Lemma child_height G t H cur n c :
  ord_inv G t H None → page_at t cur = Some (InternalNode n) →
  c ∈ (i_items n).*2 →
  S (g_height (G c)) = g_height (G cur) ∧ is_Some (page_at t c) ∧
  c ≠ INVALID_PAGE_ID.
Proof.
  intros Hinv Hp Hc.
  pose proof Hinv as (_ & _ & _ & _ & _ & _ & _ & Hall).
  destruct (Hall _ _ Hp) as (_ & _ & [_ Hok] & _).
  destruct Hok as (h & Hh & _ & _ & _ & Hch).
  rewrite <- (expect_fst (g_lo (G cur)) _ (g_hi (G cur))) in Hc.
  apply list_elem_of_fmap in Hc as ([c' [lo hi]] & -> & Hin).
  destruct (Hch _ _ _ Hin) as (_ & Hsome & HG). simpl in *.
  rewrite HG, Hh. split; [done|]. split; [done|].
  pose proof (page_in_range G t H None c' Hinv Hsome).
  unfold INVALID_PAGE_ID. lia.
Qed.

Lemma descend_holding G t H op key left_most : ∀ fuel cur l leaf,
  ord_inv G t H None →
  BPlusTree.descend fuel t cur key left_most = Some (Some leaf, t) →
  NoDup (l ++ [cur]) →
  (∀ p, p ∈ l → (g_height (G cur) < g_height (G p))%nat ∧
                is_Some (internal_at t p)) →
  ∃ l',
    Crabbing.descend op fuel
      (holding op t (list_to_set (l ++ [cur])) (l ++ [cur])) cur key left_most
    = Some (Some leaf,
            holding op t (list_to_set (l' ++ [leaf])) (l' ++ [leaf])) ∧
    NoDup (l' ++ [leaf]) ∧ (∀ p, p ∈ l' → is_Some (internal_at t p)) ∧
    is_Some (leaf_at t leaf).
Proof.
  intros fuel cur l leaf Hinv. revert cur l.
  pose proof Hinv as (Hs & _).
  induction fuel as [|fuel IH]; intros cur l Hrun Hnd Hl.
  - simpl in Hrun. simpl. rewrite tree_holding.
    destruct (page_at t cur) as [[lf|n]|] eqn:Hp; simpl in *; try done.
    injection Hrun as <-. exists l. split; [done|]. split; [done|].
    split; [intros p Hp'; by apply Hl|]. unfold leaf_at. rewrite Hp. by eexists.
  - simpl in Hrun. simpl. rewrite tree_holding.
    destruct (page_at t cur) as [[lf|n]|] eqn:Hp; simpl in *; try done.
    { injection Hrun as <-. exists l. split; [done|]. split; [done|].
      split; [intros p Hp'; by apply Hl|].
      unfold leaf_at. rewrite Hp. by eexists. }
    destruct (child_for (i_items n) key left_most) as [c|] eqn:Hc;
      simpl in *; [|done].
    destruct (child_height G t H cur n c Hinv Hp (child_for_elem _ _ _ _ Hc))
      as (Hh & [pc Hpc] & Hcv).
    rewrite (served_FetchPage t c Hs) in Hrun |- *.
    rewrite bool_decide_eq_true_2 in Hrun |- * by done.
    rewrite set_tree_holding.
    assert (Hcl : c ∉ l ++ [cur]).
    { rewrite elem_of_app, list_elem_of_singleton. intros [Hin| ->]; [|lia].
      destruct (Hl _ Hin) as [Hlt _]. lia. }
    rewrite latch_holding by (by rewrite elem_of_list_to_set).
    simpl. rewrite tree_holding, Hpc. simpl.
    apply NoDup_snoc in Hnd as [Hndl Hcur'].
    destruct (match op with SEARCH => true | _ => IsSafe pc op end).
    + rewrite set_page_set_holding, pop_or_erase_snoc.
      rewrite unlatch_holding
        by (rewrite elem_of_union, elem_of_list_to_set, elem_of_app,
              list_elem_of_singleton; tauto).
      simpl. rewrite AddIntoPageSet_holding.
      rewrite elem_of_app, list_elem_of_singleton in Hcl.
      replace (({[c]} ∪ list_to_set (l ++ [cur])) ∖ {[cur]})
        with (list_to_set (C := gset Z) (l ++ [c])).
      2:{ apply set_eq. intros y.
          rewrite elem_of_difference, elem_of_union, !elem_of_list_to_set,
            !elem_of_app, !list_elem_of_singleton, !elem_of_singleton.
          split; [|tauto].
          intros [Hy|Hy]; (split; [tauto|]); intros Heq; subst y; tauto. }
      apply (IH c l Hrun).
      * apply NoDup_snoc. tauto.
      * intros p Hp'. destruct (Hl _ Hp') as [Hlt Hint]. split; [lia|done].
    + simpl. rewrite AddIntoPageSet_holding.
      rewrite <- list_to_set_snoc.
      apply (IH c (l ++ [cur]) Hrun).
      * apply NoDup_snoc. split; [|done]. by apply NoDup_snoc.
      * intros p [Hp'| ->%list_elem_of_singleton]%elem_of_app.
        -- destruct (Hl _ Hp') as [Hlt Hint]. split; [lia|done].
        -- split; [lia|]. unfold internal_at. rewrite Hp. by eexists.
Qed.

Lemma FindLeafPage_holding G t H op fuel key left_most leaf :
  ord_inv G t H None →
  BPlusTree.FindLeafPage fuel t key left_most = Some (Some leaf, t) →
  ∃ l',
    Crabbing.FindLeafPage op fuel (with_transaction t) key left_most
    = Some (Some leaf,
            holding op t (list_to_set (l' ++ [leaf])) (l' ++ [leaf])) ∧
    NoDup (l' ++ [leaf]) ∧ (∀ p, p ∈ l' → is_Some (internal_at t p)) ∧
    is_Some (leaf_at t leaf).
Proof.
  intros Hinv. pose proof Hinv as (Hs & _).
  unfold BPlusTree.FindLeafPage, Crabbing.FindLeafPage.
  rewrite <- (holding_idle op), tree_holding.
  case_bool_decide as Hroot; [done|].
  rewrite (served_FetchPage t _ Hs), bool_decide_eq_true_2 by done.
  intros Hrun. rewrite set_tree_holding.
  rewrite latch_holding by apply not_elem_of_empty. simpl.
  rewrite AddIntoPageSet_holding.
  change (∅ : gset Z) with (list_to_set (C := gset Z) []) at 1.
  rewrite <- list_to_set_snoc.
  apply (descend_holding G t H op key left_most fuel _ [] leaf Hinv Hrun).
  - simpl. apply NoDup_singleton.
  - intros p Hp. by apply elem_of_nil in Hp.
Qed.

Lemma GetValue_with_transaction G t H fuel key r :
  ord_inv G t H None → (H ≤ fuel)%nat →
  BPlusTree.GetValue fuel t key = Some (r, t) →
  Crabbing.GetValue fuel (with_transaction t) key
  = Some (r, with_transaction t).
Proof.
  intros Hinv Hfuel. pose proof Hinv as (Hs & _).
  unfold BPlusTree.GetValue, Crabbing.GetValue.
  destruct (BPlusTree.FindLeafPage fuel t key false) as [[page t1]|] eqn:Hfind;
    simpl; [|done].
  pose proof (served_FindLeafPage fuel t key false _ _ Hs Hfind) as ->.
  destruct page as [leaf|].
  - destruct (FindLeafPage_holding G t H SEARCH fuel key false leaf Hinv Hfind)
      as (l' & Hrun & Hnd & _ & _).
    rewrite Hrun. simpl.
    destruct (leaf_at t leaf) as [lf|]; simpl; [|done].
    intros [= <-]. unfold RUnlatch. simpl.
    rewrite decide_True
      by (rewrite elem_of_list_to_set, elem_of_app, list_elem_of_singleton;
          tauto).
    simpl.
    change (mkIndex t (list_to_set (l' ++ [leaf]) ∖ {[leaf]}) ∅
              (Some (l' ++ [leaf])))
      with (holding SEARCH t (list_to_set (l' ++ [leaf]) ∖ {[leaf]})
              (l' ++ [leaf])).
    rewrite set_page_set_holding, pop_if_back_snoc.
    apply NoDup_snoc in Hnd as [Hnd Hleaf].
    rewrite list_to_set_snoc_diff by done.
    by rewrite release_page_set_holding.
  - intros [= <-].
    destruct (decide (root_page_id_ t = INVALID_PAGE_ID)) as [Hroot|Hroot].
    + unfold Crabbing.FindLeafPage. simpl.
      by rewrite bool_decide_eq_true_2.
    + destruct (FindLeafPage_spec G t H fuel key Hinv Hroot Hfuel)
        as (L & lf & Hfind' & _). congruence.
Qed.

End CrabbingFacts.

(** *** Insert with a transaction *)

Section CrabbingInsert.
Import BPlusTree Crabbing.
Implicit Types (t : BPlusTree) (s : Index) (l : list Z)
  (op : OperationType) (G : Z → Info).

Lemma grown_refl t : served t → ids_below t → grown t t.
Proof. done. Qed.

Lemma grown_trans t1 t2 t3 : grown t1 t2 → grown t2 t3 → grown t1 t3.
Proof.
  intros (_ & _ & H12) (Hs & Hb & H23). split; [done|]. split; [done|].
  intros p Hp. by apply H23, H12.
Qed.

Lemma grown_write t pid p :
  served t → ids_below t → pid < next_page_id (buffer_pool_manager_ t) →
  grown t (write_page t pid p).
Proof.
  intros Hs Hb Hpid. split; [done|]. split.
  - intros x. rewrite page_at_write_page.
    destruct (decide (pid = x)) as [<-|Hne]; [done|]. apply Hb.
  - intros x Hx. rewrite page_at_write_page. case_decide; [by eexists|done].
Qed.

Lemma grown_set_parent t c q t' :
  served t → ids_below t → set_parent_of t c q = Some t' → grown t t'.
Proof.
  intros Hs Hb Hset. apply set_parent_of_Some in Hset as (p & Hp & ->).
  apply grown_write; [done..|]. apply Hb. by eexists.
Qed.

Lemma grown_NewPage t :
  served t → ids_below t → grown t (after_NewPage t).
Proof.
  intros Hs Hb. split; [done|]. split; [|done].
  intros x Hx. pose proof (Hb x Hx). simpl. lia.
Qed.

Lemma grown_UpdateRootPageId t root b t' :
  served t → ids_below t →
  UpdateRootPageId (set_root t root) b = Some t' → grown t t'.
Proof.
  intros Hs Hb Hrun.
  destruct (served_UpdateRootPageId (set_root t root) b)
    as (t2 & Hrun2 & (_ & _ & _ & Hnext) & Hs2 & Hpages); [done|].
  assert (t2 = t') as -> by congruence.
  split; [done|]. split.
  - intros x Hx. rewrite Hpages in Hx. rewrite Hnext. by apply Hb.
  - intros x. by rewrite Hpages.
Qed.

Lemma grown_adopt_children children : ∀ t q r t',
  served t → ids_below t →
  adopt_children t children q = Some (r, t') → grown t t'.
Proof.
  induction children as [|c rest IH]; intros t q r t' Hs Hb Hrun.
  { simpl in Hrun. injection Hrun as <- <-. by apply grown_refl. }
  simpl in Hrun. rewrite (served_FetchPage t c Hs) in Hrun.
  case_bool_decide; [|injection Hrun as <- <-; by apply grown_refl].
  destruct (set_parent_of t c q) as [t1|] eqn:Hset; [|done].
  cbn [mbind option_bind] in Hrun.
  pose proof (grown_set_parent t c q t1 Hs Hb Hset) as Hk1.
  destruct Hk1 as (Hs1 & Hb1 & Hv1).
  apply (grown_trans t t1 t'); [done|]. by eapply IH.
Qed.

Lemma fits_grown t t' l : fits t l → grown t t' → fits t' l.
Proof.
  intros (Hs & Hb & Hnd & Hl) (Hs' & Hb' & Hp).
  split; [done|]. split; [done|]. split; [done|].
  intros p Hin. destruct (Hl p Hin) as [Hv Hsome]. split; [done|]. by apply Hp.
Qed.

Lemma fits_sub t l l' : fits t l → NoDup l' → l' ⊆ l → fits t l'.
Proof.
  intros (Hs & Hb & Hnd & Hl) Hnd' Hsub.
  split; [done|]. split; [done|]. split; [done|].
  intros p Hp. by apply Hl, Hsub.
Qed.

Lemma fits_valid t l p : fits t l → p ∈ l → p ≠ INVALID_PAGE_ID.
Proof. intros (_ & _ & _ & Hl) Hp. by destruct (Hl p Hp). Qed.

Lemma fits_fresh t l :
  fits t l → next_page_id (buffer_pool_manager_ t) ∉ l.
Proof.
  intros (_ & Hb & _ & Hl) Hin. destruct (Hl _ Hin) as [_ Hsome].
  pose proof (Hb _ Hsome). lia.
Qed.

Lemma fits_snoc t l p :
  fits t l → p ∉ l → p ≠ INVALID_PAGE_ID → is_Some (page_at t p) →
  fits t (l ++ [p]).
Proof.
  intros (Hs & Hb & Hnd & Hl) Hp Hv Hsome.
  split; [done|]. split; [done|]. split; [by apply NoDup_snoc|].
  intros x [Hx|Hx%list_elem_of_singleton]%elem_of_app; [by apply Hl|].
  by subst x.
Qed.

(** A page of the page set is not fetched again; the fetch would be
    served. *)
Lemma fetch_or_listed t t0 l p :
  served t → fits t0 l →
  (if bool_decide (p ∈ l) then (true, t) else FetchPage t p) = FetchPage t p.
Proof.
  intros Hs Hl. rewrite (served_FetchPage t p Hs).
  case_bool_decide as Hin; [|done].
  by rewrite bool_decide_eq_true_2 by (by eapply fits_valid).
Qed.

Lemma WLatch_holding t L l p :
  p ∉ L →
  WLatch (mkIndex t ∅ L (Some l)) p = Some (mkIndex t ∅ ({[p]} ∪ L) (Some l)).
Proof. apply (latch_holding INSERT). Qed.

Lemma WUnlatch_holding t L l p :
  p ∈ L →
  WUnlatch (mkIndex t ∅ L (Some l)) p
  = Some (mkIndex t ∅ (L ∖ {[p]}) (Some l)).
Proof. apply (unlatch_holding INSERT). Qed.

Local Abbreviation hold t l :=
  (mkIndex t ∅ (list_to_set l%list) (Some l%list)).

Local Ltac norm :=
  unfold set_tree, set_page_set, AddIntoPageSet, in_page_set;
  cbn [holding tree read_latched write_latched transaction fmap option_fmap
       option_map mbind option_bind].

Lemma release_listed_holding t l p :
  NoDup l →
  ∃ l', release_listed (bool_decide (p ∈ l))
          (hold t l) p
        = Some (hold t l') ∧
        NoDup l' ∧ l' ⊆ l.
Proof.
  intros Hnd. unfold release_listed. case_bool_decide as Hin.
  - destruct (erase_page_spec p l Hnd Hin) as (Hnd' & Hsub & Hset).
    exists (erase_page p l). split; [|done]. simpl.
    rewrite WUnlatch_holding by (by rewrite elem_of_list_to_set). simpl.
    unfold set_page_set. simpl. by rewrite Hset.
  - exists l. done.
Qed.

Lemma release_parent_holding t l p :
  NoDup l → p ∉ l →
  release_parent false (hold t (l ++ [p])) p
  = Some (hold t l).
Proof.
  intros Hnd Hp. unfold release_parent. simpl.
  rewrite WUnlatch_holding
    by (rewrite elem_of_list_to_set, elem_of_app, list_elem_of_singleton;
        tauto).
  simpl. unfold set_page_set. simpl.
  by rewrite pop_if_back_snoc, list_to_set_snoc_diff.
Qed.

Lemma release_all_holding t l :
  NoDup l → release_page_set INSERT (hold t l) = Some (with_transaction t).
Proof. apply (release_page_set_holding INSERT). Qed.

Lemma release_parent_cases t l l2 p (parent_locked : bool) :
  NoDup l →
  (parent_locked = true ∧ l2 = l) ∨
  (parent_locked = false ∧ l2 = l ++ [p] ∧ p ∉ l) →
  release_parent parent_locked (hold t l2) p = Some (hold t l).
Proof.
  intros Hnd [[-> ->]|(-> & -> & Hp)]; [done|].
  by apply release_parent_holding.
Qed.

Lemma InsertIntoParent_body_holding recur recur' :
  (∀ t l a b c d t', fits t l → d ∉ l →
     recur t a b c d = Some t' →
     ∃ l', recur' (hold t l) a b c d = Some (hold t' l') ∧ fits t' l') →
  ∀ t l parent_id left_id key right_id t', fits t l → right_id ∉ l →
    BPlusTree.InsertIntoParent_body recur t parent_id left_id key right_id
    = Some t' →
    ∃ l', Crabbing.InsertIntoParent_body recur'
            (hold t l) parent_id left_id key right_id
          = Some (hold t' l') ∧
          fits t' l'.
Proof.
  intros Hrec t l parent_id left_id key right_id t' Hfit Hright.
  pose proof Hfit as (Hs & Hb & Hnd & Hl).
  unfold BPlusTree.InsertIntoParent_body, Crabbing.InsertIntoParent_body.
  norm.
  case_bool_decide as Hparent.
  - (* a new root *)
    rewrite (served_NewPage t Hs).
    fold (after_NewPage t).
    set (n := next_page_id (buffer_pool_manager_ t)).
    set (t1 := write_page _ n _).
    assert (Hg1 : grown t t1).
    { apply (grown_trans _ (after_NewPage t)); [by apply grown_NewPage|].
      destruct (grown_NewPage t Hs Hb) as (Hs0 & Hb0 & _).
      apply grown_write; [done..|]. simpl. lia. }
    pose proof Hg1 as (Hs1 & Hb1 & _).
    rewrite (bool_decide_eq_false_2 (right_id ∈ l)) by done.
    rewrite (fetch_or_listed t1 t l left_id Hs1 Hfit).
    rewrite (served_FetchPage t1 left_id Hs1).
    rewrite (served_FetchPage t1 right_id Hs1).
    destruct (bool_decide (left_id ≠ INVALID_PAGE_ID)
              && bool_decide (right_id ≠ INVALID_PAGE_ID)) eqn:Hok.
    + destruct (set_parent_of t1 left_id n) as [t2|] eqn:H2; norm; [|done].
      destruct (set_parent_of t2 right_id n) as [t3|] eqn:H3; norm; [|done].
      pose proof (grown_set_parent _ _ _ _ Hs1 Hb1 H2) as Hg2.
      pose proof Hg2 as (Hs2 & Hb2 & _).
      pose proof (grown_set_parent _ _ _ _ Hs2 Hb2 H3) as Hg3.
      pose proof Hg3 as (Hs3 & Hb3 & _).
      destruct (UpdateRootPageId (set_root t3 n) false) as [t5|] eqn:Hup;
        norm; [|done].
      pose proof (grown_UpdateRootPageId _ _ _ _ Hs3 Hb3 Hup) as Hg5.
      intros [= <-].
      destruct (release_listed_holding t5 l left_id Hnd)
        as (l1 & Hrel & Hnd1 & Hsub1).
      rewrite Hrel. norm. cbn [release_listed].
      exists l1. split; [done|].
      apply (fits_sub _ l); [|done..].
      apply (fits_grown t); [done|].
      apply (grown_trans _ t1); [done|]. apply (grown_trans _ t2); [done|].
      by apply (grown_trans _ t3).
    + intros [= <-].
      destruct (release_listed_holding t1 l left_id Hnd)
        as (l1 & Hrel & Hnd1 & Hsub1).
      assert (Hfit1 : fits t1 l1).
      { apply (fits_sub _ l); [|done..]. by apply (fits_grown t). }
      destruct (bool_decide (left_id ≠ INVALID_PAGE_ID)) eqn:Hleft.
      * norm. cbn [andb]. rewrite Hrel. norm.
        rewrite andb_false_r. by exists l1.
      * norm. rewrite andb_false_r. cbn [andb release_listed]. norm.
        exists l. split; [done|]. by apply (fits_grown t).
  - (* an existing parent *)
    rewrite (served_FetchPage t parent_id Hs).
    rewrite bool_decide_eq_true_2 by done. cbn [negb].
    destruct (internal_at t parent_id) as [pn|] eqn:Hpn; norm; [|done].
    match goal with
    | |- context [(if bool_decide (parent_id ∈ l) then ?a else ?b) ≫= _] =>
        assert (Hfetched : ∃ l2 (locked : bool),
          (if bool_decide (parent_id ∈ l) then a else b)
          = Some (true, hold t l2) ∧ fits t l2 ∧
          locked = bool_decide (parent_id ∈ l) ∧
          ((locked = true ∧ l2 = l) ∨
           (locked = false ∧ l2 = l ++ [parent_id] ∧ parent_id ∉ l)))
    end.
    { case_bool_decide as Hin.
      - exists l, true. split; [done|]. split; [done|]. split; [done|].
        by left.
      - exists (l ++ [parent_id]), false.
        rewrite WLatch_holding by (by rewrite elem_of_list_to_set). norm.
        rewrite <- list_to_set_snoc. split; [done|]. split.
        + apply fits_snoc; [done..|]. apply page_at_internal in Hpn.
          by eexists.
        + split; [done|]. right. done. }
    destruct Hfetched as (l2 & locked & -> & Hfit2 & <- & Hcases).
    norm. cbn [negb]. rewrite Hpn. norm.
    set (t1 := write_page t parent_id _).
    assert (Hg1 : grown t t1).
    { apply grown_write; [done..|]. apply Hb. apply page_at_internal in Hpn.
      by eexists. }
    pose proof Hg1 as (Hs1 & Hb1 & _).
    rewrite (fetch_or_listed t1 t l2 right_id Hs1 Hfit2).
    rewrite (served_FetchPage t1 right_id Hs1).
    destruct (if bool_decide (right_id ≠ INVALID_PAGE_ID)
              then set_parent_of t1 right_id parent_id else Some t1)
      as [t2|] eqn:H2; norm; [|done].
    assert (Hg2 : grown t1 t2).
    { destruct (bool_decide (right_id ≠ INVALID_PAGE_ID)).
      - by eapply grown_set_parent.
      - injection H2 as <-. by apply grown_refl. }
    pose proof Hg2 as (Hs2 & Hb2 & _).
    destruct (internal_at t2 parent_id) as [pn2|] eqn:Hpn2; norm; [|done].
    assert (Hg02 : grown t t2) by (by apply (grown_trans _ t1)).
    destruct (bool_decide (i_max pn2 < Z.of_nat (length (i_items pn2))))
      eqn:Hsplit.
    + rewrite (served_NewPage t2 Hs2). fold (after_NewPage t2).
      set (n := next_page_id (buffer_pool_manager_ t2)).
      destruct (KeyAt _ _) as [middle_key|]; norm; [|done].
      destruct (ValueAt _ _) as [pivot_child|]; norm; [|done].
      set (t4 := write_page (write_page _ n _) parent_id _).
      assert (Hg4 : grown t2 t4).
      { apply (grown_trans _ (after_NewPage t2)); [by apply grown_NewPage|].
        destruct (grown_NewPage t2 Hs2 Hb2) as (Hs0 & Hb0 & _).
        unfold t4. eapply grown_trans; cycle 1.
        { apply grown_write.
          - done.
          - refine (proj1 (proj2 (grown_write _ _ _ Hs0 Hb0 _))).
            unfold n. simpl. lia.
          - simpl. apply page_at_internal in Hpn2.
            pose proof (Hb2 parent_id ltac:(by eexists)). lia. }
        apply grown_write; [done..|]. unfold n. simpl. lia. }
      pose proof Hg4 as (Hs4 & Hb4 & _).
      destruct (adopt_children t4 _ n) as [[ok t5]|] eqn:Hadopt; norm; [|done].
      pose proof (grown_adopt_children _ _ _ _ _ Hs4 Hb4 Hadopt) as Hg5.
      assert (Hg05 : grown t t5).
      { apply (grown_trans _ t2); [done|]. by apply (grown_trans _ t4). }
      rewrite (release_parent_cases t5 l l2 parent_id _ Hnd Hcases). norm.
      destruct ok.
      * destruct (internal_at t5 parent_id) as [pn5|] eqn:Hpn5; norm; [|done].
        intros Hrun.
        apply (Hrec t5 l _ _ _ n t'); [by apply (fits_grown t)| |done].
        intros Hin. destruct (Hl _ Hin) as [_ Hsome].
        destruct Hg02 as (_ & _ & Hp02). specialize (Hp02 _ Hsome).
        pose proof (Hb2 _ Hp02). lia.
      * intros [= <-]. exists l. split; [done|]. by apply (fits_grown t).
    + intros [= <-].
      rewrite (release_parent_cases t2 l l2 parent_id _ Hnd Hcases).
      exists l. split; [done|]. by apply (fits_grown t).
Qed.

Lemma InsertIntoParent_holding fuel : ∀ t l a b c d t',
  fits t l → d ∉ l →
  BPlusTree.InsertIntoParent fuel t a b c d = Some t' →
  ∃ l', Crabbing.InsertIntoParent fuel (hold t l) a b c d
        = Some (hold t' l') ∧ fits t' l'.
Proof.
  induction fuel as [|fuel IH]; intros t l a b c d t' Hfit Hd Hrun.
  - simpl in *.
    eapply (InsertIntoParent_body_holding _ _); [|done|done|exact Hrun].
    intros. done.
  - simpl in *.
    eapply (InsertIntoParent_body_holding _ _); [|done|done|exact Hrun].
    intros. by eapply IH.
Qed.

(** A leaf is not its own successor. *)
Lemma next_not_self G t H x lf :
  ord_inv G t H None → page_at t x = Some (LeafNode lf) → l_next lf ≠ x.
Proof.
  intros Hinv Hx Heq.
  pose proof Hinv as (_ & _ & _ & _ & _ & Hroot & _ & Hall).
  destruct (Hall _ _ Hx) as (Hrange & _ & [_ Hok] & Hlink).
  destruct Hok as (_ & _ & _ & Hnext).
  destruct Hnext as [_ Hmeets];
    [rewrite Heq; unfold INVALID_PAGE_ID; lia|].
  rewrite Heq in Hmeets.
  specialize (Hlink (λ F : False, F)). simpl in Hlink.
  destruct (decide (g_parent (G x) = INVALID_PAGE_ID)) as [Hpar|Hpar].
  - destruct (decide (root_page_id_ t = INVALID_PAGE_ID)) as [Hr|Hr].
    + by rewrite Hroot in Hx.
    + destruct Hroot as [_ Hrc]. simpl in Hrc. rewrite <- Hlink in Hrc.
      rewrite Hrc in Hmeets. done.
  - destruct Hlink as (n & Hn & Hin).
    destruct (Hall _ _ Hn) as (_ & _ & [_ Hok] & _).
    destruct Hok as (h & _ & _ & _ & _ & Hch).
    rewrite <- (expect_fst (g_lo (G (g_parent (G x)))) _
                  (g_hi (G (g_parent (G x))))) in Hin.
    apply list_elem_of_fmap in Hin as ([c [lo hi]] & -> & Hin).
    destruct (Hch _ _ _ Hin) as (Hap & _ & HG). simpl in *.
    rewrite HG in Hmeets. simpl in Hmeets.
    destruct lo, hi; simpl in *; try done. lia.
Qed.

Lemma hand_off_holding G t H L lf l' key pos dup :
  ord_inv G t H None → page_at t L = Some (LeafNode lf) →
  below (g_hi (G L)) key →
  NoDup (l' ++ [L]) → (∀ p, p ∈ l' → is_Some (internal_at t p)) →
  Crabbing.hand_off (hold t (l' ++ [L])) L lf key pos dup
  = Some (L, pos, dup, hold t (l' ++ [L])).
Proof.
  intros Hinv HL Hhi Hnd Hint.
  pose proof Hinv as (Hs & _ & _ & _ & _ & _ & _ & Hall).
  destruct (Hall _ _ HL) as (_ & _ & [_ HLok] & _).
  destruct HLok as (_ & _ & _ & Hnext).
  unfold Crabbing.hand_off. destruct (_ && _) eqn:Hcond; [|done].
  apply andb_prop in Hcond as [_ Hpos%bool_decide_eq_true].
  destruct (KeyAt _ _) as [last_key|] eqn:Hlast; norm.
  2:{ exfalso. unfold KeyAt, item_at in Hlast.
      rewrite bool_decide_eq_false_2 in Hlast by lia.
      destruct (lookup_lt_is_Some_2 (l_items lf)
                  (Z.to_nat (Z.of_nat (length (l_items lf)) - 1)))
        as [it Hit]; [lia|].
      by rewrite Hit in Hlast. }
  case_bool_decide; [|done].
  case_bool_decide as Hnx; [|done].
  destruct (Hnext Hnx) as [[nl Hnl] Hmeets].
  rewrite (served_FetchPage t _ Hs), bool_decide_eq_true_2 by done.
  assert (Hfree : l_next lf ∉ l' ++ [L]).
  { rewrite elem_of_app, list_elem_of_singleton. intros [Hin|Heq].
    - destruct (Hint _ Hin) as [n Hn]. unfold internal_at, leaf_at in *.
      destruct (page_at t (l_next lf)) as [[?|?]|]; done.
    - by apply (next_not_self G t H L lf Hinv HL). }
  rewrite WLatch_holding by (by rewrite elem_of_list_to_set). norm.
  rewrite Hnl. norm.
  assert (Hback :
    WUnlatch
      (mkIndex t ∅ ({[l_next lf]} ∪ list_to_set (l' ++ [L]))
         (Some (l' ++ [L]))) (l_next lf)
    = Some (hold t (l' ++ [L]))).
  { rewrite WUnlatch_holding
      by (rewrite elem_of_union, elem_of_singleton; tauto).
    do 2 f_equal. apply set_eq. intros y.
    rewrite elem_of_difference, elem_of_union, elem_of_singleton,
      elem_of_list_to_set.
    split; [tauto|]. intros Hy. split; [tauto|]. intros Heq. by subst y. }
  destruct (l_items nl) as [|[k0 v0] rest] eqn:Hitems.
  { by rewrite Hback. }
  rewrite bool_decide_eq_false_2; [by rewrite Hback|].
  rewrite comparator_ge.
  apply page_at_leaf in Hnl.
  destruct (Hall _ _ Hnl) as (_ & _ & [_ Hok'] & _).
  destruct Hok' as (_ & _ & [_ Hbounds'] & _).
  rewrite Hitems in Hbounds'. simpl in Hbounds'.
  apply list.Forall_cons in Hbounds' as [[Hlo' _] _].
  destruct (g_hi (G L)), (g_lo (G (l_next lf))); simpl in *; try done. lia.
Qed.

Lemma Insert_with_transaction G t H fuel key value b t' :
  ord_inv G t H None → (H ≤ fuel)%nat →
  BPlusTree.Insert fuel t key value = Some (b, t') →
  Crabbing.Insert fuel (with_transaction t) key value
  = Some (b, with_transaction t').
Proof.
  intros Hinv Hfuel.
  pose proof Hinv as (Hs & _ & _ & _ & _ & _ & _ & Hall).
  unfold BPlusTree.Insert, Crabbing.Insert.
  change (tree (with_transaction t)) with t.
  case_bool_decide as Hroot.
  { destruct (NewPage t) as [[n|] t1]; [|by intros [= <- <-]].
    destruct (UpdateRootPageId _ _) as [t2|]; norm; [|done].
    by intros [= <- <-]. }
  destruct (FindLeafPage_spec G t H fuel key Hinv Hroot Hfuel)
    as (L & lf & Hfind & HL & Hlo & Hhi).
  destruct (FindLeafPage_holding G t H INSERT fuel key false L Hinv Hfind)
    as (l' & Hfind' & Hnd & Hint & _).
  rewrite Hfind, Hfind'. norm.
  rewrite (proj2 (page_at_leaf t L lf) HL). norm.
  destruct (find_insert_pos (l_items lf) key 0) as [pos dup] eqn:Hpos.
  rewrite (hand_off_stay _ _ _ _ _ key pos dup Hinv HL Hhi).
  rewrite (hand_off_holding G t H L lf l' key pos dup Hinv HL Hhi Hnd Hint).
  norm.
  pose proof Hnd as [Hnd' HLl']%NoDup_snoc.
  assert (Hin : L ∈ (list_to_set (l' ++ [L]) : gset Z)).
  { rewrite elem_of_list_to_set, elem_of_app, list_elem_of_singleton. tauto. }
  assert (Hfit : fits t l').
  { split; [done|]. split; [intros pid Hp; by apply (page_in_range G t H None)|].
    split; [done|]. intros p Hp. destruct (Hint p Hp) as [n Hn].
    apply page_at_internal in Hn.
    pose proof (page_in_range G t H None p Hinv ltac:(by eexists)).
    split; [unfold INVALID_PAGE_ID; lia|by eexists]. }
  pose proof Hfit as (_ & Hb & _).
  destruct dup.
  { intros [= <- <-]. rewrite pop_or_erase_snoc.
    rewrite WUnlatch_holding by done. norm.
    rewrite list_to_set_snoc_diff by done.
    by rewrite (release_all_holding t l' Hnd'). }
  rewrite (proj2 (page_at_leaf t L lf) HL). norm.
  set (items := insert_at (l_items lf) pos (key, value)).
  set (t1 := write_page t L _).
  assert (HLlt : L < next_page_id (buffer_pool_manager_ t)).
  { apply Hb. by eexists. }
  assert (Hg1 : grown t t1) by (by apply grown_write).
  pose proof Hg1 as (Hs1 & Hb1 & _).
  destruct (bool_decide (l_max lf ≤ Z.of_nat (length items))) eqn:Hfull.
  - rewrite (served_NewPage t1 Hs1). fold (after_NewPage t1).
    set (N := next_page_id (buffer_pool_manager_ t1)).
    destruct (KeyAt _ _) as [middle_key|]; norm; [|done].
    rewrite pop_if_back_snoc.
    rewrite WUnlatch_holding by done. norm.
    rewrite list_to_set_snoc_diff by done.
    set (t3 := write_page (write_page _ N _) L _).
    assert (Hg3 : grown t1 t3).
    { apply (grown_trans _ (after_NewPage t1)); [by apply grown_NewPage|].
      destruct (grown_NewPage t1 Hs1 Hb1) as (Hs0 & Hb0 & _).
      unfold t3. eapply grown_trans; cycle 1.
      { apply grown_write.
        - done.
        - refine (proj1 (proj2 (grown_write _ _ _ Hs0 Hb0 _))).
          unfold N. simpl. lia.
        - simpl. unfold t1. simpl. lia. }
      apply grown_write; [done..|]. unfold N. simpl. lia. }
    destruct (BPlusTree.InsertIntoParent fuel t3 (l_parent lf) L middle_key N)
      as [t4|] eqn:Hrun; norm; [|done].
    intros [= <- <-].
    assert (Hfit3 : fits t3 l').
    { apply (fits_grown t); [done|]. by apply (grown_trans _ t1). }
    assert (HN : N ∉ l').
    { intros HN. destruct Hfit as (_ & _ & _ & Hl').
      destruct (Hl' _ HN) as [_ Hsome]. pose proof (Hb _ Hsome) as Hlt.
      unfold N, t1 in Hlt. simpl in Hlt. lia. }
    destruct (InsertIntoParent_holding fuel t3 l' _ _ _ _ _ Hfit3 HN Hrun)
      as (l4 & Hrun' & (_ & _ & Hnd4 & _)).
    rewrite Hrun'. norm.
    by rewrite (release_all_holding _ l4 Hnd4).
  - intros [= <- <-].
    rewrite WUnlatch_holding by done. norm.
    rewrite pop_if_back_snoc, list_to_set_snoc_diff by done.
    by rewrite (release_all_holding _ l' Hnd').
Qed.

End CrabbingInsert.

Section CrabbingRuns.
Import BPlusTree Crabbing.

Lemma inserts_are_inserts items : forallb is_insert (inserts items) = true.
Proof. induction items as [|[k v] items IH]; [done|]. done. Qed.

Lemma length_inserts items : length (inserts items) = length items.
Proof. unfold inserts. by rewrite length_fmap. Qed.

Lemma insert_all_with_transaction fuel items : ∀ G t H t',
  ord_inv G t H None → (H + length items ≤ fuel)%nat →
  run_operations fuel t (inserts items) = Some t' →
  Crabbing.insert_all fuel (with_transaction t) items
  = Some (with_transaction t').
Proof.
  induction items as [|[key value] items IH]; intros G t H t' Hinv Hfuel.
  { simpl. by intros [= <-]. }
  simpl in Hfuel. cbn [inserts fmap list_fmap run_operations Crabbing.insert_all fst snd].
  fold (inserts items).
  destruct (Insert_ord G t H fuel key value Hinv ltac:(lia))
    as [[_ Hrun]|[_ (t1 & G1 & H1 & Hrun & Hinv1 & HH1 & _)]].
  - rewrite Hrun.
    rewrite (Insert_with_transaction G t H fuel key value _ _ Hinv
               ltac:(lia) Hrun).
    cbn [mbind option_bind]. apply (IH G t H); [done|lia].
  - rewrite Hrun.
    rewrite (Insert_with_transaction G t H fuel key value _ _ Hinv
               ltac:(lia) Hrun).
    cbn [mbind option_bind]. apply (IH G1 t1 H1); [done|lia].
Qed.

End CrabbingRuns.

(** When the buffer pool has no frame for the new page of a split, the
    call returns [false] although the key is not in the tree, and leaves
    the key behind.  The root leaf holds the keys 1 to 3 and
    [leaf_max_size] is 4; the pool serves the fetch of the root and then
    refuses the new page.  [Insert(4, 40)], made with a transaction,
    returns [false] with its latches released, and the key 4 is found
    afterwards. *)
Lemma Insert_false_without_duplicate :
  ∃ t0 t',
    Crabbing.GetValue 8 (Crabbing.with_transaction BPlusTree.exhausted_tree) 4
      = Some (None, Crabbing.with_transaction t0) ∧
    Crabbing.Insert 8 (Crabbing.with_transaction BPlusTree.exhausted_tree)
      4 40
      = Some (false, Crabbing.with_transaction t') ∧
    Crabbing.GetValue 8 (Crabbing.with_transaction t') 4
      = Some (Some 40, Crabbing.with_transaction t').
Proof.
  eexists _, _. split; [vm_compute; reflexivity|].
  split; vm_compute; reflexivity.
Qed.




(* ===================================================================== *)
(** ** The extendible hash table: what it keeps *)
(* ===================================================================== *)

Section HashInvariant.
Context {K V : Type} `{EqDecision K}.
Variable hash : K → Z.
Import ExtendibleHash.
Implicit Types (t : Table K V) (b : Bucket K V) (l : list (K * V)).

Lemma agree_refl d x : agree d x x.
Proof. by intros n Hn. Qed.

Lemma agree_sym d x y : agree d x y → agree d y x.
Proof. intros Hxy n Hn. symmetry. by apply Hxy. Qed.

Lemma agree_trans d x y z : agree d x y → agree d y z → agree d x z.
Proof. intros Hxy Hyz n Hn. by rewrite Hxy, Hyz. Qed.

Lemma agree_weaken d d' x y : d' ≤ d → agree d x y → agree d' x y.
Proof. intros Hd Hxy n Hn. apply Hxy. lia. Qed.

Lemma agree_succ d x y :
  0 ≤ d → agree (d + 1) x y ↔ agree d x y ∧ Z.testbit x d = Z.testbit y d.
Proof.
  intros Hd. split.
  - intros Hxy. split; [by eapply agree_weaken; [|done]; lia|]. apply Hxy. lia.
  - intros [Hxy Hbit] n Hn. destruct (decide (n = d)) as [->|]; [done|].
    apply Hxy. lia.
Qed.

Lemma agree_mod d x : 0 ≤ d → agree d (x mod 2 ^ d) x.
Proof. intros Hd n Hn. apply Z.mod_pow2_bits_low. lia. Qed.

(** Two indices under [2 ^ d] with the same [d] low bits are equal. *)
Lemma agree_eq d x y :
  0 ≤ d → 0 ≤ x < 2 ^ d → 0 ≤ y < 2 ^ d → agree d x y → x = y.
Proof.
  intros Hd Hx Hy Hxy. apply Z.bits_inj'. intros n Hn.
  destruct (decide (n < d)) as [Hlt|Hge]; [apply Hxy; lia|].
  rewrite <- (Z.mod_small x (2 ^ d)), <- (Z.mod_small y (2 ^ d)) by lia.
  rewrite !Z.mod_pow2_bits_high by lia. done.
Qed.

Lemma IndexOf_mod t key :
  0 ≤ global_depth_ t →
  Z.of_nat (IndexOf hash t key) = hash key mod 2 ^ global_depth_ t.
Proof.
  intros Hg. unfold IndexOf. rewrite Z.shiftl_1_l.
  replace (2 ^ global_depth_ t - 1) with (Z.ones (global_depth_ t))
    by (rewrite Z.ones_equiv; lia).
  rewrite Z.land_ones by done.
  pose proof (Z.mod_pos_bound (hash key) (2 ^ global_depth_ t)
                ltac:(apply Z.pow_pos_nonneg; lia)).
  lia.
Qed.

Lemma IndexOf_agree t key :
  0 ≤ global_depth_ t →
  agree (global_depth_ t) (Z.of_nat (IndexOf hash t key)) (hash key).
Proof. intros Hg. rewrite IndexOf_mod by done. by apply agree_mod. Qed.

Lemma IndexOf_lt t key :
  table_ok hash t → (IndexOf hash t key < length (dir_ t))%nat.
Proof.
  intros (Hg & Hlen & _). rewrite Hlen.
  pose proof (IndexOf_mod t key Hg) as Hi.
  pose proof (Z.mod_pos_bound (hash key) (2 ^ global_depth_ t)
                ltac:(apply Z.pow_pos_nonneg; lia)).
  lia.
Qed.

(** The slot of a key always leads to a bucket. *)
Lemma slot_of_key t key :
  table_ok hash t →
  ∃ a b, dir_ t !! IndexOf hash t key = Some a ∧ heap t !! a = Some b ∧
         bucket_ok hash t (IndexOf hash t key) a b.
Proof.
  intros Hok. destruct (lookup_lt_is_Some_2 _ _ (IndexOf_lt t key Hok)) as [a Ha].
  destruct Hok as (_ & _ & Hall). destruct (Hall _ _ Ha) as (b & Hb & Hbok).
  eauto.
Qed.

(** A key is held only by the bucket its slot points to. *)
Lemma key_at_home t j a b k v :
  table_ok hash t → dir_ t !! j = Some a → heap t !! a = Some b →
  (k, v) ∈ list_ b → dir_ t !! IndexOf hash t k = Some a.
Proof.
  intros Hok Hj Hb Hin.
  destruct (slot_of_key t k Hok) as (a' & b' & Ha' & _ & _).
  destruct Hok as (Hg & _ & Hall).
  destruct (Hall _ _ Hj) as (b0 & Hb0 & Hd & _ & _ & _ & Hitems & Hdir).
  rewrite Hb in Hb0. injection Hb0 as <-.
  rewrite Ha'. f_equal. apply (Hdir _ _ Ha').
  eapply agree_trans; [|by eapply Hitems].
  eapply agree_weaken; [|by apply IndexOf_agree]. lia.
Qed.

(** **** Items of a bucket *)

Lemma find_item_None l key : find_item l key = None ↔ key ∉ l.*1.
Proof.
  induction l as [|[k v] l IH]; simpl.
  - split; [intros _ ?%elem_of_nil|]; done.
  - rewrite not_elem_of_cons. case_decide as Heq.
    + split; [done|]. by intros [? _].
    + rewrite IH. split; [by intros ?; split|by intros [_ ?]].
Qed.

Lemma find_item_elem l key v : find_item l key = Some v → (key, v) ∈ l.
Proof.
  induction l as [|[k v'] l IH]; simpl; [done|].
  case_decide as Heq.
  - intros [= ->]. subst. left.
  - intros ?. right. auto.
Qed.

Lemma update_item_None l key value :
  update_item l key value = None ↔ find_item l key = None.
Proof.
  induction l as [|[k v] l IH]; simpl; [done|].
  case_decide; [done|].
  destruct (update_item l key value); simpl; split; try done.
  - intros Hf. by apply IH in Hf.
  - intros _. by apply IH.
Qed.

Lemma update_item_spec l key value l' :
  update_item l key value = Some l' →
  l'.*1 = l.*1 ∧ ∀ k', k' ≠ key → find_item l' k' = find_item l k'.
Proof.
  revert l'. induction l as [|[k v] l IH]; intros l'; simpl; [done|].
  case_decide as Heq.
  - intros [= <-]. split; [done|]. intros k' Hk'. simpl.
    subst. by rewrite !decide_False by done.
  - destruct (update_item l key value) as [r|]; simpl; [|done].
    intros [= <-]. destruct (IH r eq_refl) as [Hk Hf].
    split; [rewrite !fmap_cons; by f_equal|]. intros k' Hk'. simpl.
    case_decide; [done|]. by apply Hf.
Qed.

Lemma find_item_app_other l key value k' :
  k' ≠ key → find_item (l ++ [(key, value)]) k' = find_item l k'.
Proof.
  intros Hne. induction l as [|[k v] l IH]; simpl.
  - by rewrite decide_False.
  - case_decide; [done|]. apply IH.
Qed.

Lemma remove_item_None l key :
  remove_item l key = None ↔ find_item l key = None.
Proof.
  induction l as [|[k v] l IH]; simpl; [done|].
  case_decide; [done|].
  destruct (remove_item l key); simpl; split; try done.
  - intros Hf. by apply IH in Hf.
  - intros _. by apply IH.
Qed.

Lemma remove_item_spec l key l' :
  NoDup l.*1 → remove_item l key = Some l' →
  l' ⊆ l ∧ (length l' ≤ length l)%nat ∧ NoDup l'.*1 ∧
  find_item l' key = None ∧
  ∀ k', k' ≠ key → find_item l' k' = find_item l k'.
Proof.
  revert l'. induction l as [|[k v] l IH]; intros l' Hnd; simpl; [done|].
  simpl in Hnd. apply list.NoDup_cons in Hnd as [Hk Hnd].
  case_decide as Heq.
  - intros [= <-]. subst k. split; [by apply list_subseteq_cons|].
    split; [lia|]. split; [done|]. split; [by apply find_item_None|].
    intros k' Hk'. by rewrite decide_False.
  - destruct (remove_item l key) as [r|]; simpl; [|done].
    intros [= <-]. destruct (IH r Hnd eq_refl) as (Hsub & Hlen & Hnd' & Hf & Hother).
    split; [by apply list_subseteq_skip|]. split; [simpl; lia|].
    split.
    { simpl. apply list.NoDup_cons. split; [|done]. intros Hin. apply Hk.
      apply list_elem_of_fmap in Hin as (y & -> & Hy).
      apply list_elem_of_fmap. exists y. split; [done|]. by apply Hsub. }
    split; [simpl; by rewrite decide_False|].
    intros k' Hk'. simpl. case_decide; [done|]. by apply Hother.
Qed.

(** A filter that looks at the key only keeps the items of a key it
    accepts. *)
Lemma find_item_filter (f : K → bool) (bit : bool) l key :
  f key = bit →
  find_item (filter (λ it, f it.1 = bit) l) key = find_item l key.
Proof.
  intros HP. induction l as [|[k v] l IH]; simpl; [done|].
  rewrite filter_cons. simpl. case_decide as Hk.
  - simpl. case_decide; [done|]. apply IH.
  - rewrite decide_False by (by intros ->). apply IH.
Qed.

Lemma NoDup_filter_keys (P : K * V → Prop) `{∀ x, Decision (P x)} l :
  NoDup l.*1 → NoDup (filter P l).*1.
Proof.
  induction l as [|[k v] l IH]; simpl; [done|].
  intros [Hk Hnd]%list.NoDup_cons. rewrite filter_cons.
  case_decide; [|by apply IH]. simpl. apply list.NoDup_cons.
  split; [|by apply IH]. intros Hin. apply Hk.
  apply list_elem_of_fmap in Hin as (y & -> & Hy).
  apply list_elem_of_fmap. exists y. split; [done|].
  by apply list_elem_of_filter in Hy as [_ ?].
Qed.

End HashInvariant.

Section HashInvariant2.
Context {K V : Type} `{EqDecision K}.
Variable hash : K → Z.
Import ExtendibleHash.
Implicit Types (t : Table K V) (b : Bucket K V) (l : list (K * V)).

Lemma new_table_ok (bucket_size : nat) :
  table_ok hash (new_table (K := K) (V := V) bucket_size).
Proof.
  split; [done|]. split; [done|].
  intros i a Hi. destruct i as [|i]; [|done]. injection Hi as <-.
  eexists. split; [done|]. split; [done|]. split; [done|].
  split; [simpl; lia|]. split; [constructor|].
  split; [by intros k v ?%elem_of_nil|].
  intros j a' Hj. destruct j as [|j]; [|done]. injection Hj as <-.
  split; [intros _; apply agree_refl|done].
Qed.

(** The bucket at [a] replaced by one of the same depth and capacity. *)
Lemma table_ok_set_bucket t a b b' :
  table_ok hash t → heap t !! a = Some b →
  depth_ b' = depth_ b → size_ b' = size_ b →
  (length (list_ b') ≤ size_ b')%nat → NoDup (list_ b').*1 →
  (∀ k v i, (k, v) ∈ list_ b' → dir_ t !! i = Some a →
            agree (depth_ b) (hash k) (Z.of_nat i)) →
  table_ok hash (set_heap t (<[a := b']> (heap t))).
Proof.
  intros (Hg & Hlen & Hall) Hb Hd Hs Hcap Hnd Hitems.
  split; [done|]. split; [done|].
  intros i a0 Hi. simpl in Hi. destruct (Hall _ _ Hi) as (b0 & Hb0 & Hok).
  destruct (decide (a0 = a)) as [->|Hne].
  - exists b'. simpl. split.
    { rewrite list_lookup_insert_eq; [done|]. by eapply lookup_lt_Some. }
    rewrite Hb in Hb0. injection Hb0 as <-.
    destruct Hok as (Hdep & Hsz & _ & _ & _ & Hdir).
    split; [by rewrite Hd|]. split; [by rewrite Hs|]. split; [done|].
    split; [done|]. rewrite Hd. split; [|done].
    intros k v Hin. by eapply Hitems.
  - exists b0. simpl. split; [by rewrite list_lookup_insert_ne|]. done.
Qed.

Lemma split_step_frame t a b t' :
  split_step hash t a b = Some t' →
  bucket_size_ t' = bucket_size_ t ∧
  length (dir_ t')
  = length (if decide (depth_ b = global_depth_ t) then dir_ t ++ dir_ t
            else dir_ t).
Proof.
  unfold split_step, RedistributeBucket.
  destruct (heap _ !! a) as [b0|]; simpl; [|done]. intros [= <-]. simpl.
  rewrite length_imap. case_decide; done.
Qed.

Lemma doubled_lookup t (grow : bool) j old :
  table_ok hash t →
  (if grow then dir_ t ++ dir_ t else dir_ t) !! j = Some old →
  ∃ j0, dir_ t !! j0 = Some old ∧
        agree (global_depth_ t) (Z.of_nat j) (Z.of_nat j0).
Proof.
  intros (Hg & Hlen & _) Hj. destruct grow.
  - apply lookup_app_Some in Hj as [Hj|[Hge Hj]].
    + exists j. split; [done|apply agree_refl].
    + exists (j - length (dir_ t))%nat. split; [done|].
      assert (H2 : 0 < 2 ^ global_depth_ t) by (apply Z.pow_pos_nonneg; lia).
      replace (Z.of_nat j)
        with (Z.of_nat (j - length (dir_ t)) + 1 * 2 ^ global_depth_ t)
        by (rewrite Hlen in *; lia).
      intros n Hn.
      rewrite <- (Z.mod_pow2_bits_low _ (global_depth_ t) n) by lia.
      rewrite Z_mod_plus_full.
      apply Z.mod_pow2_bits_low. lia.
  - exists j. split; [done|apply agree_refl].
Qed.

(** One split keeps the table in order and every key where a search finds
    it. *)
Lemma split_step_ok t i a b :
  table_ok hash t → dir_ t !! i = Some a → heap t !! a = Some b →
  ∃ t', split_step hash t a b = Some t' ∧ table_ok hash t' ∧
        (∀ k, Find hash t' k = Find hash t k) ∧
        ∀ key, dir_ t !! IndexOf hash t key = Some a →
               ∃ a1, dir_ t' !! IndexOf hash t' key = Some a1 ∧
                     heap t' !! a1
                     = Some (mkBucket
                               (if Z.testbit (hash key) (depth_ b)
                                then bucket_size_ t else size_ b)
                               (depth_ b + 1)
                               (items_with_bit hash b
                                  (Z.testbit (hash key) (depth_ b)))).
Proof.
  intros Hok Hi Hb.
  pose proof Hok as (Hg & Hlen & Hall).
  destruct (Hall _ _ Hi) as (b0 & Hb0 & Hbok).
  rewrite Hb in Hb0. injection Hb0 as <-.
  destruct Hbok as (Hdep & Hsz & Hcap & Hnd & Hitems & Hdir).
  destruct (split_step_spec hash t a b Hb ltac:(lia))
    as (t' & Hstep & Hg' & _ & Hdir' & Ha' & Hnew' & Hother').
  destruct (split_step_frame _ _ _ _ Hstep) as [Hbs' Hlen'].
  set (d := depth_ b) in *. set (g := global_depth_ t) in *.
  assert (Hdg' : d < global_depth_ t' ∧ g ≤ global_depth_ t').
  { rewrite Hg'. case_decide; lia. }
  pose proof (lookup_lt_Some _ _ _ Hb) as Halt.
  (* a slot of the new directory *)
  assert (Hslot : ∀ j a2, dir_ t' !! j = Some a2 →
            ∃ j0 old, dir_ t !! j0 = Some old ∧
              agree g (Z.of_nat j) (Z.of_nat j0) ∧
              a2 = if decide (old = a)
                   then if Z.testbit (Z.of_nat j) d then length (heap t) else a
                   else old).
  { intros j a2 Hj. rewrite Hdir' in Hj. unfold directory_after in Hj.
    fold d g in Hj.
    destruct (_ !! j) as [old|] eqn:Hold; simpl in Hj; [|done].
    injection Hj as <-.
    destruct (doubled_lookup t (bool_decide (d = g)) j old Hok)
      as (j0 & Hj0 & Hag).
    { case_bool_decide; case_decide; done. }
    exists j0, old. done. }
  assert (Hslot_back : ∀ j0 old, dir_ t !! j0 = Some old →
            ∀ j, (j < length (dir_ t'))%nat →
                 agree g (Z.of_nat j) (Z.of_nat j0) →
                 dir_ t' !! j
                 = Some (if decide (old = a)
                         then if Z.testbit (Z.of_nat j) d
                              then length (heap t) else a
                         else old)).
  { intros j0 old Hj0 j Hj Hag.
    destruct (lookup_lt_is_Some_2 _ _ Hj) as [a2 Ha2].
    destruct (Hslot _ _ Ha2) as (j1 & old1 & Hj1 & Hag1 & ->).
    assert (j1 = j0) as ->.
    { apply Nat2Z.inj. apply (agree_eq g); [done| | |].
      - apply lookup_lt_Some in Hj1. rewrite Hlen in Hj1.
        pose proof (Z.pow_pos_nonneg 2 g). lia.
      - apply lookup_lt_Some in Hj0. rewrite Hlen in Hj0.
        pose proof (Z.pow_pos_nonneg 2 g). lia.
      - eapply agree_trans; [by apply agree_sym|done]. }
    rewrite Hj0 in Hj1. injection Hj1 as <-. done. }
  assert (Hlen_t' : length (dir_ t') = Z.to_nat (2 ^ global_depth_ t')).
  { rewrite Hlen', Hg'. fold d g. case_decide.
    - rewrite length_app, Hlen. fold g.
      rewrite Z.pow_add_r by lia. pose proof (Z.pow_pos_nonneg 2 g). lia.
    - done. }
  assert (Hok' : table_ok hash t').
  { split; [lia|]. split; [done|].
    intros j a2 Hj.
    destruct (Hslot _ _ Hj) as (j0 & old & Hj0 & Hag & ->).
    destruct (Hall _ _ Hj0) as (bo & Hbo & Hbok).
    destruct (decide (old = a)) as [->|Hne].
    - rewrite Hb in Hbo. injection Hbo as <-.
      assert (Hagd : ∀ x, agree d x (Z.of_nat j0) ↔ agree d x (Z.of_nat j)).
      { intros x. split; intros Hx.
        - eapply agree_trans; [done|].
          eapply agree_weaken; [|by apply agree_sym]. lia.
        - eapply agree_trans; [done|]. eapply agree_weaken; [|done]. lia. }
      destruct Hbok as (_ & _ & _ & _ & Hitems0 & Hdir0).
      assert (Hbucket : ∀ bit : bool, Z.testbit (Z.of_nat j) d = bit →
                bucket_ok hash t' j (if bit then length (heap t) else a)
                  (mkBucket (if bit then bucket_size_ t else size_ b) (d + 1)
                     (items_with_bit hash b bit))).
      { intros bit Hbit. split; [simpl; lia|].
        split; [simpl; rewrite Hbs'; by destruct bit|].
        split.
        { simpl. unfold items_with_bit.
          pose proof (length_filter
                        (λ it : K * V, Z.testbit (hash it.1) (depth_ b) = bit)
                        (list_ b)).
          destruct bit; lia. }
        split; [by apply NoDup_filter_keys|].
        split.
        { intros k v Hin. simpl.
          apply list_elem_of_filter in Hin as [Hkbit Hin]. simpl in Hkbit.
          apply agree_succ; [lia|]. split; [|fold d in Hkbit; congruence].
          apply Hagd. by eapply Hitems0. }
        intros j2 a3 Hj2. simpl.
        destruct (Hslot _ _ Hj2) as (j3 & old3 & Hj3 & Hag3 & ->).
        rewrite agree_succ by lia.
        assert (Hj3a : old3 = a ↔ agree d (Z.of_nat j2) (Z.of_nat j)).
        { rewrite (Hdir0 _ _ Hj3). rewrite <- Hagd. split; intros Hx.
          - eapply agree_trans; [|done]. eapply agree_weaken; [|done]. lia.
          - eapply agree_trans; [|done].
            eapply agree_weaken; [|by apply agree_sym]. lia. }
        destruct (decide (old3 = a)) as [->|Hne3].
        - destruct (Z.testbit (Z.of_nat j2) d) eqn:Hb2, bit; split;
            try (intros ?; lia); try (intros [_ ?]; congruence);
            try (intros _; split; [by apply Hj3a|congruence]).
        - split.
          + intros Heq. exfalso.
            destruct (Hall _ _ Hj3) as (b3 & Hb3 & _).
            apply lookup_lt_Some in Hb3. destruct bit; [lia|done].
          + intros [Hx _]. by apply Hj3a in Hx. }
      destruct (Z.testbit (Z.of_nat j) d) eqn:Hbit.
      + eexists. split; [exact Hnew'|]. by apply (Hbucket true).
      + eexists. split; [exact Ha'|]. by apply (Hbucket false).
    - pose proof (lookup_lt_Some _ _ _ Hbo) as Holt.
      exists bo. split; [by rewrite Hother'|].
      destruct Hbok as (Hdepo & Hszo & Hcapo & Hndo & Hitemso & Hdiro).
      assert (Hagd : ∀ x, agree (depth_ bo) x (Z.of_nat j0)
                        ↔ agree (depth_ bo) x (Z.of_nat j)).
      { intros x. split; intros Hx.
        - eapply agree_trans; [done|].
          eapply agree_weaken; [|by apply agree_sym]. lia.
        - eapply agree_trans; [done|]. eapply agree_weaken; [|done]. lia. }
      split; [lia|]. split; [by rewrite Hbs'|]. split; [done|].
      split; [done|]. split.
      { intros k v Hin. apply Hagd. by eapply Hitemso. }
      intros j2 a3 Hj2.
      destruct (Hslot _ _ Hj2) as (j3 & old3 & Hj3 & Hag3 & ->).
      rewrite <- Hagd.
      assert (Hj3o : old3 = old ↔ agree (depth_ bo) (Z.of_nat j2) (Z.of_nat j0)).
      { rewrite (Hdiro _ _ Hj3). split; intros Hx.
        - eapply agree_trans; [|done]. eapply agree_weaken; [|done]. lia.
        - eapply agree_trans; [|done].
          eapply agree_weaken; [|by apply agree_sym]. lia. }
      destruct (decide (old3 = a)) as [->|Hne3]; [|done].
      split.
      + intros Hx. exfalso. destruct (Z.testbit _ _); lia.
      + intros Hx. apply Hj3o in Hx. congruence. }
  (* where a key is after the split *)
  assert (Hkey : ∀ key, ∃ old,
            dir_ t !! IndexOf hash t key = Some old ∧
            dir_ t' !! IndexOf hash t' key
            = Some (if decide (old = a)
                    then if Z.testbit (hash key) d then length (heap t) else a
                    else old)).
  { intros key. destruct (slot_of_key hash t key Hok) as (old & bo & Hold & _).
    exists old. split; [done|].
    replace (Z.testbit (hash key) d)
      with (Z.testbit (Z.of_nat (IndexOf hash t' key)) d)
      by (apply (IndexOf_agree hash t' key); lia).
    eapply Hslot_back; [done|by apply IndexOf_lt|].
    eapply agree_trans.
    - eapply agree_weaken; [|apply (IndexOf_agree hash t' key); lia]. lia.
    - apply agree_sym. by apply IndexOf_agree. }
  exists t'. split; [done|]. split; [done|]. split.
  - intros k. destruct (Hkey k) as (old & Hold & Hnew).
    unfold Find. rewrite Hold, Hnew. simpl.
    destruct (decide (old = a)) as [->|Hne].
    + rewrite Hb. simpl.
      destruct (Z.testbit (hash k) d) eqn:Hbit.
      * rewrite Hnew'. simpl. f_equal. unfold bucket_Find, items_with_bit.
        simpl.
        apply (find_item_filter (λ k0, Z.testbit (hash k0) (depth_ b)) true).
        done.
      * rewrite Ha'. simpl. f_equal. unfold bucket_Find, items_with_bit.
        simpl.
        apply (find_item_filter (λ k0, Z.testbit (hash k0) (depth_ b)) false).
        done.
    + destruct (Hall _ _ Hold) as (bo & Hbo & _).
      rewrite Hother'; [done|done|by eapply lookup_lt_Some].
  - intros key Hkeya. destruct (Hkey key) as (old & Hold & Hnew).
    rewrite Hkeya in Hold. injection Hold as <-.
    rewrite decide_True in Hnew by done. eexists. split; [exact Hnew|].
    fold d. destruct (Z.testbit (hash key) d); done.
Qed.

End HashInvariant2.

Section HashInvariant3.
Context {K V : Type} `{EqDecision K}.
Variable hash : K → Z.
Import ExtendibleHash.
Implicit Types (t : Table K V) (b : Bucket K V) (l : list (K * V)).

Lemma Find_set_bucket t a b b' k :
  heap t !! a = Some b →
  bucket_Find b' k = bucket_Find b k →
  Find hash (set_heap t (<[a := b']> (heap t))) k = Find hash t k.
Proof.
  intros Hb Hf. unfold Find.
  change (IndexOf hash (set_heap t _) k) with (IndexOf hash t k).
  change (dir_ (set_heap t (<[a := b']> (heap t)))) with (dir_ t).
  destruct (dir_ t !! IndexOf hash t k) as [a0|]; simpl; [|done].
  destruct (decide (a0 = a)) as [->|Hne].
  - rewrite list_lookup_insert_eq by (by eapply lookup_lt_Some).
    rewrite Hb. simpl. by rewrite Hf.
  - by rewrite list_lookup_insert_ne.
Qed.

Lemma bucket_Insert_spec t i a b key value b' :
  table_ok hash t → dir_ t !! i = Some a → heap t !! a = Some b →
  i = IndexOf hash t key →
  bucket_Insert b key value = (true, b') →
  table_ok hash (set_heap t (<[a := b']> (heap t))) ∧
  ∀ k', k' ≠ key → bucket_Find b' k' = bucket_Find b k'.
Proof.
  intros Hok Hi Hb -> Hins.
  pose proof Hok as (Hg & _ & Hall).
  destruct (Hall _ _ Hi) as (b0 & Hb0 & Hbok).
  rewrite Hb in Hb0. injection Hb0 as <-.
  destruct Hbok as (Hdep & Hsz & Hcap & Hnd & Hitems & Hdir).
  assert (Hhome : ∀ j, dir_ t !! j = Some a →
            agree (depth_ b) (hash key) (Z.of_nat j)).
  { intros j Hj. apply agree_sym.
    eapply agree_trans; [by apply (Hdir _ _ Hj)|].
    eapply agree_weaken; [|by apply IndexOf_agree]. lia. }
  assert (Hold : ∀ k v j, (k, v) ∈ list_ b → dir_ t !! j = Some a →
            agree (depth_ b) (hash k) (Z.of_nat j)).
  { intros k v j Hin Hj. eapply agree_trans; [by eapply Hitems|].
    apply agree_sym. by apply (Hdir _ _ Hj). }
  unfold bucket_Insert in Hins.
  destruct (update_item (list_ b) key value) as [l'|] eqn:Hupd.
  - injection Hins as <-.
    destruct (update_item_spec _ _ _ _ Hupd) as [Hkeys Hfind].
    split; [|done].
    eapply table_ok_set_bucket; [done..| | |]; simpl.
    + pose proof (f_equal length Hkeys) as Hl. rewrite !length_fmap in Hl. lia.
    + by rewrite Hkeys.
    + intros k v j Hin Hj.
      assert (k ∈ (list_ b).*1) as ([k0 v0] & -> & Hin0)%list_elem_of_fmap.
      { rewrite <- Hkeys. apply list_elem_of_fmap. by exists (k, v). }
      by eapply Hold.
  - destruct (IsFull b) eqn:Hfull; [done|]. injection Hins as <-.
    apply update_item_None in Hupd. split.
    + eapply table_ok_set_bucket; [done..| | |]; simpl.
      * unfold IsFull in Hfull. apply bool_decide_eq_false in Hfull.
        rewrite length_app. simpl. lia.
      * rewrite fmap_app. simpl. apply NoDup_app. split; [done|].
        split; [|apply NoDup_singleton].
        intros k Hk ->%list_elem_of_singleton. by apply find_item_None in Hupd.
      * intros k v j [Hin|[= -> ->]%list_elem_of_singleton]%elem_of_app Hj.
        -- by eapply Hold.
        -- by apply Hhome.
    + intros k' Hk'. unfold bucket_Find. simpl. by apply find_item_app_other.
Qed.

(** [Insert] keeps the table in order and leaves every other key as a
    search finds it. *)
Lemma Insert_ok fuel key value : ∀ t t',
  table_ok hash t → Insert hash fuel t key value = Some t' →
  table_ok hash t' ∧ ∀ k', k' ≠ key → Find hash t' k' = Find hash t k'.
Proof.
  induction fuel as [|fuel IH]; intros t t' Hok; simpl; [done|].
  destruct (slot_of_key hash t key Hok) as (a & b & Ha & Hb & _).
  rewrite Ha. simpl. rewrite Hb. simpl.
  destruct (bucket_Insert b key value) as [[] b'] eqn:Hins.
  - intros [= <-].
    destruct (bucket_Insert_spec t _ a b key value b' Hok Ha Hb eq_refl Hins)
      as [Hok' Hfind].
    split; [done|]. intros k' Hk'. apply (Find_set_bucket t a b); auto.
  - destruct (split_step_ok hash t _ a b Hok Ha Hb)
      as (t1 & Hstep & Hok1 & Hfind1 & _).
    rewrite Hstep. simpl. intros Hrun.
    destruct (IH t1 t' Hok1 Hrun) as [Hok' Hfind'].
    split; [done|]. intros k' Hk'. by rewrite Hfind', Hfind1.
Qed.

Lemma Remove_ok t key :
  table_ok hash t →
  ∃ r t', Remove hash t key = Some (r, t') ∧ table_ok hash t' ∧
    (r = true ↔ ∃ v, Find hash t key = Some (Some v)) ∧
    Find hash t' key = Some None ∧
    (∀ k', k' ≠ key → Find hash t' k' = Find hash t k') ∧
    dir_ t' = dir_ t ∧ global_depth_ t' = global_depth_ t ∧
    num_buckets_ t' = num_buckets_ t.
Proof.
  intros Hok.
  destruct (slot_of_key hash t key Hok) as (a & b & Ha & Hb & Hbok).
  destruct Hbok as (Hdep & Hsz & Hcap & Hnd & Hitems & Hdir).
  unfold Remove. rewrite Ha. simpl. rewrite Hb. simpl.
  assert (Hfind : Find hash t key = Some (bucket_Find b key)).
  { unfold Find. rewrite Ha. simpl. by rewrite Hb. }
  unfold bucket_Remove.
  destruct (remove_item (list_ b) key) as [l'|] eqn:Hrem.
  - destruct (remove_item_spec hash _ _ _ Hnd Hrem)
      as (Hsub & Hlen & Hnd' & Hnone & Hother).
    eexists true, _. split; [done|]. split.
    { eapply table_ok_set_bucket; [done..| | |]; simpl; [lia|done|].
      intros k v j Hin Hj. eapply agree_trans; [eapply Hitems, Hsub, Hin|].
      apply agree_sym. by apply (Hdir _ _ Hj). }
    split.
    { split; [intros _|done]. rewrite Hfind. unfold bucket_Find.
      destruct (find_item (list_ b) key) as [v|] eqn:Hf; [eauto|].
      apply remove_item_None in Hf. congruence. }
    split.
    { unfold Find.
      change (IndexOf hash (set_heap t _) key) with (IndexOf hash t key).
      simpl. rewrite Ha. simpl.
      rewrite list_lookup_insert_eq by (by eapply lookup_lt_Some).
      simpl. unfold bucket_Find. simpl. by rewrite Hnone. }
    split; [|done].
    intros k' Hk'. apply (Find_set_bucket t a b); [done|].
    unfold bucket_Find. simpl. by apply Hother.
  - exists false, (set_heap t (<[a := b]> (heap t))).
    rewrite list_insert_id by done.
    assert (Hsame : set_heap t (heap t) = t) by (by destruct t).
    rewrite Hsame. split; [done|]. split; [done|].
    apply remove_item_None in Hrem.
    split.
    { split; [done|]. intros [v Hv]. rewrite Hfind in Hv.
      unfold bucket_Find in Hv. congruence. }
    split; [rewrite Hfind; unfold bucket_Find; by rewrite Hrem|]. done.
Qed.

(** [Insert] of a key that is there overwrites its value where it is. *)
Lemma Insert_present fuel t key value v0 :
  Find hash t key = Some (Some v0) →
  ∃ t', Insert hash (S fuel) t key value = Some t' ∧
        dir_ t' = dir_ t ∧ global_depth_ t' = global_depth_ t ∧
        num_buckets_ t' = num_buckets_ t ∧
        length (heap t') = length (heap t).
Proof.
  unfold Find. simpl.
  destruct (dir_ t !! IndexOf hash t key) as [a|]; simpl; [|done].
  destruct (heap t !! a) as [b|]; simpl; [|done].
  intros [= Hf]. unfold bucket_Insert.
  destruct (update_item (list_ b) key value) as [l'|] eqn:Hupd.
  - eexists. split; [done|]. simpl. by rewrite length_insert.
  - apply update_item_None in Hupd. unfold bucket_Find in Hf. congruence.
Qed.

(** A full bucket whose keys all have the hash of a new key is split
    without end: the table never comes back. *)
Lemma Insert_diverges fuel key value : ∀ t a b,
  table_ok hash t → dir_ t !! IndexOf hash t key = Some a →
  heap t !! a = Some b → length (list_ b) = size_ b →
  (∀ k v, (k, v) ∈ list_ b → hash k = hash key ∧ k ≠ key) →
  Insert hash fuel t key value = None.
Proof.
  induction fuel as [|fuel IH]; intros t a b Hok Ha Hb Hfull Hcoll; [done|].
  simpl. rewrite Ha. simpl. rewrite Hb. simpl.
  assert (Hupd : update_item (list_ b) key value = None).
  { apply update_item_None, find_item_None.
    intros ([k v] & -> & Hin)%list_elem_of_fmap.
    by destruct (Hcoll _ _ Hin). }
  unfold bucket_Insert. rewrite Hupd. unfold IsFull.
  rewrite bool_decide_eq_true_2 by done.
  destruct (split_step_ok hash t _ a b Hok Ha Hb)
    as (t1 & Hstep & Hok1 & _ & Hkey).
  rewrite Hstep. simpl.
  destruct (Hkey key Ha) as (a1 & Ha1 & Hb1).
  assert (Hall_items : items_with_bit hash b (Z.testbit (hash key) (depth_ b))
                       = list_ b).
  { unfold items_with_bit.
    assert (Hsub : ∀ l, l ⊆ list_ b →
              filter (λ it : K * V,
                        Z.testbit (hash it.1) (depth_ b)
                        = Z.testbit (hash key) (depth_ b)) l = l).
    { induction l as [|[k v] l IHl]; intros Hl; [done|].
      rewrite filter_cons_True.
      - f_equal. apply IHl. intros x Hx. apply Hl. by right.
      - simpl. destruct (Hcoll k v) as [-> _]; [apply Hl; left|done]. }
    by apply Hsub. }
  rewrite Hall_items in Hb1.
  eapply (IH t1 a1); [done|done|exact Hb1| |done].
  simpl. destruct Hok as (_ & _ & Hall).
  destruct (Hall _ _ Ha) as (b0 & Hb0 & _ & Hsz & _).
  rewrite Hb in Hb0. injection Hb0 as <-.
  destruct (Z.testbit _ _); congruence.
Qed.

End HashInvariant3.

(** X1.  The extendible hash table stays in order: a new table is in
    order, and [Insert] and [Remove] keep it so.  In order means: the
    directory has [2 ^ global_depth] slots; every slot points to a bucket
    whose local depth is between 0 and the global depth, which holds at
    most [bucket_size] items and no key twice; every key of the bucket has
    a hash with the low local-depth bits of the slot's index; and the slots
    pointing to the bucket are exactly those whose index has these bits. *)
Theorem hash_table_kept_in_order (K V : Type) (EqK : EqDecision K)
  (hash : K → Z) :
  (∀ bucket_size : nat,
     ExtendibleHash.table_ok hash
       (ExtendibleHash.new_table (K := K) (V := V) bucket_size)) ∧
  (∀ fuel (t t' : ExtendibleHash.Table K V) key value,
     ExtendibleHash.table_ok hash t →
     ExtendibleHash.Insert hash fuel t key value = Some t' →
     ExtendibleHash.table_ok hash t') ∧
  (∀ (t t' : ExtendibleHash.Table K V) key r,
     ExtendibleHash.table_ok hash t →
     ExtendibleHash.Remove hash t key = Some (r, t') →
     ExtendibleHash.table_ok hash t').
Proof.
  split; [apply new_table_ok|]. split.
  - intros fuel t t' key value Hok Hrun.
    by destruct (Insert_ok hash fuel key value t t' Hok Hrun).
  - intros t t' key r Hok Hrun.
    destruct (Remove_ok hash t key Hok) as (r0 & t0 & Hrun0 & Hok0 & _).
    congruence.
Qed.

Lemma hash_table_kept_in_order_witness :
  ∃ t, ExtendibleHash.s1_after 2 = Some t ∧
       ExtendibleHash.table_ok ExtendibleHash.s1_hash t.
Proof.
  destruct (hash_table_kept_in_order Z string _ ExtendibleHash.s1_hash)
    as (Hnew & Hins & _).
  pose proof (Hnew 2%nat) as H0.
  pose proof (Hins 2%nat _ _ 1 "a"%string H0 eq_refl) as H1.
  pose proof (Hins 2%nat _ _ 2 "b"%string H1 eq_refl) as H2.
  pose proof (Hins 2%nat _ _ 3 "c"%string H2 eq_refl) as H3.
  eexists. split; [|exact H3]. vm_compute. reflexivity.
Defined.

(** X2.  On a table in order, an [Insert] that returns, whatever splits
    it made, leaves every other key as [Find] saw it: found with the same
    value, or not found. *)
Theorem hash_insert_keeps_other_keys (K V : Type) (EqK : EqDecision K)
  (hash : K → Z) (fuel : nat) (t t' : ExtendibleHash.Table K V)
  (key other : K) (value : V) :
  ExtendibleHash.table_ok hash t →
  ExtendibleHash.Insert hash fuel t key value = Some t' →
  other ≠ key →
  ExtendibleHash.Find hash t' other = ExtendibleHash.Find hash t other.
Proof.
  intros Hok Hrun Hne.
  destruct (Insert_ok hash fuel key value t t' Hok Hrun) as [_ Hfind].
  by apply Hfind.
Qed.

Lemma hash_insert_keeps_other_keys_witness :
  ∃ t t', ExtendibleHash.s1_before 1 = Some t ∧
          ExtendibleHash.Insert ExtendibleHash.s1_hash 2 t 3 "c"%string
            = Some t' ∧
          ExtendibleHash.Find ExtendibleHash.s1_hash t' 2
            = ExtendibleHash.Find ExtendibleHash.s1_hash t 2.
Proof.
  pose proof (new_table_ok (V := string) ExtendibleHash.s1_hash 2) as H0.
  pose proof (Insert_ok ExtendibleHash.s1_hash 1 1 "a"%string _ _ H0 eq_refl)
    as [H1 _].
  pose proof (Insert_ok ExtendibleHash.s1_hash 1 2 "b"%string _ _ H1 eq_refl)
    as [H2 _].
  pose proof (hash_insert_keeps_other_keys Z string _ ExtendibleHash.s1_hash
                2 _ _ 3 2 "c"%string H2 eq_refl ltac:(done)) as H3.
  eexists _, _. split; [vm_compute; reflexivity|].
  split; [vm_compute; reflexivity|]. exact H3.
Defined.

(** X3.  On a table in order [Remove] always returns; it returns true
    exactly when [Find] found the key; afterwards [Find] does not find the
    key, every other key is found as before, and the directory, the
    global depth and the number of buckets are unchanged: removing never
    merges buckets or shrinks the directory. *)
Theorem hash_remove_spec (K V : Type) (EqK : EqDecision K) (hash : K → Z)
  (t : ExtendibleHash.Table K V) (key : K) :
  ExtendibleHash.table_ok hash t →
  ∃ r t', ExtendibleHash.Remove hash t key = Some (r, t') ∧
    (r = true ↔ ∃ v, ExtendibleHash.Find hash t key = Some (Some v)) ∧
    ExtendibleHash.Find hash t' key = Some None ∧
    (∀ other, other ≠ key →
       ExtendibleHash.Find hash t' other = ExtendibleHash.Find hash t other) ∧
    ExtendibleHash.dir_ t' = ExtendibleHash.dir_ t ∧
    ExtendibleHash.global_depth_ t' = ExtendibleHash.global_depth_ t ∧
    ExtendibleHash.num_buckets_ t' = ExtendibleHash.num_buckets_ t.
Proof.
  intros Hok.
  destruct (Remove_ok hash t key Hok)
    as (r & t' & Hrun & _ & Hr & Hgone & Hother & Hdir & Hgd & Hnb).
  by exists r, t'.
Qed.

Lemma hash_remove_spec_witness :
  ∃ t, ExtendibleHash.s1_after 2 = Some t ∧
  ∃ r t', ExtendibleHash.Remove ExtendibleHash.s1_hash t 2 = Some (r, t') ∧
    (r = true ↔
     ∃ v, ExtendibleHash.Find ExtendibleHash.s1_hash t 2 = Some (Some v)) ∧
    ExtendibleHash.Find ExtendibleHash.s1_hash t' 2 = Some None ∧
    (∀ other, other ≠ 2 →
       ExtendibleHash.Find ExtendibleHash.s1_hash t' other
       = ExtendibleHash.Find ExtendibleHash.s1_hash t other) ∧
    ExtendibleHash.dir_ t' = ExtendibleHash.dir_ t ∧
    ExtendibleHash.global_depth_ t' = ExtendibleHash.global_depth_ t ∧
    ExtendibleHash.num_buckets_ t' = ExtendibleHash.num_buckets_ t.
Proof.
  pose proof (new_table_ok (V := string) ExtendibleHash.s1_hash 2) as H0.
  pose proof (Insert_ok ExtendibleHash.s1_hash 2 1 "a"%string _ _ H0 eq_refl)
    as [H1 _].
  pose proof (Insert_ok ExtendibleHash.s1_hash 2 2 "b"%string _ _ H1 eq_refl)
    as [H2 _].
  pose proof (Insert_ok ExtendibleHash.s1_hash 2 3 "c"%string _ _ H2 eq_refl)
    as [H3 _].
  eexists. split; [vm_compute; reflexivity|].
  exact (hash_remove_spec Z string _ ExtendibleHash.s1_hash _ 2 H3).
Defined.

(** X4.  [Insert] of a key that [Find] finds returns with one step of
    fuel, and [Find] then gives the new value; the directory, the global
    depth, the number of buckets and the number of buckets allocated are
    unchanged: a key already present is overwritten in its bucket, and no
    bucket is split even when that bucket is full. *)
Theorem hash_insert_present_key_in_place (K V : Type) (EqK : EqDecision K)
  (hash : K → Z) (fuel : nat) (t : ExtendibleHash.Table K V)
  (key : K) (value old : V) :
  ExtendibleHash.Find hash t key = Some (Some old) →
  ∃ t', ExtendibleHash.Insert hash (S fuel) t key value = Some t' ∧
    ExtendibleHash.Find hash t' key = Some (Some value) ∧
    ExtendibleHash.dir_ t' = ExtendibleHash.dir_ t ∧
    ExtendibleHash.global_depth_ t' = ExtendibleHash.global_depth_ t ∧
    ExtendibleHash.num_buckets_ t' = ExtendibleHash.num_buckets_ t ∧
    length (ExtendibleHash.heap t') = length (ExtendibleHash.heap t).
Proof.
  intros Hfind.
  destruct (Insert_present hash fuel t key value old Hfind)
    as (t' & Hrun & Hdir & Hgd & Hnb & Hlen).
  exists t'. split; [done|]. split; [|done].
  by apply (Insert_then_Find hash (S fuel) t key value t').
Qed.

Lemma hash_insert_present_key_in_place_witness :
  ∃ t, ExtendibleHash.s1_before 1 = Some t ∧
  ∃ t', ExtendibleHash.Insert ExtendibleHash.s1_hash 1 t 1 "z"%string
          = Some t' ∧
    ExtendibleHash.Find ExtendibleHash.s1_hash t' 1 = Some (Some "z"%string) ∧
    ExtendibleHash.dir_ t' = ExtendibleHash.dir_ t ∧
    ExtendibleHash.global_depth_ t' = ExtendibleHash.global_depth_ t ∧
    ExtendibleHash.num_buckets_ t' = ExtendibleHash.num_buckets_ t ∧
    length (ExtendibleHash.heap t') = length (ExtendibleHash.heap t).
Proof.
  eexists. split; [vm_compute; reflexivity|].
  apply (hash_insert_present_key_in_place Z string _ ExtendibleHash.s1_hash
           0 _ 1 "z"%string "a"%string).
  vm_compute. reflexivity.
Defined.

(** X5.  When the bucket of the key is full, does not hold the key, and
    every key in it has the very hash of the new key, [Insert] does not
    return, whatever the fuel: each split moves all the items to the same
    side again, so the loop of the source doubles the directory for
    ever. *)
Theorem hash_insert_same_hash_never_returns (K V : Type)
  (EqK : EqDecision K) (hash : K → Z) (fuel : nat)
  (t : ExtendibleHash.Table K V) (key : K) (value : V) (a : nat)
  (b : ExtendibleHash.Bucket K V) :
  ExtendibleHash.table_ok hash t →
  ExtendibleHash.dir_ t !! ExtendibleHash.IndexOf hash t key = Some a →
  ExtendibleHash.heap t !! a = Some b →
  length (ExtendibleHash.list_ b) = ExtendibleHash.size_ b →
  (∀ k v, (k, v) ∈ ExtendibleHash.list_ b → hash k = hash key ∧ k ≠ key) →
  ExtendibleHash.Insert hash fuel t key value = None.
Proof.
  intros Hok Hdir Hheap Hfull Hsame.
  by apply (Insert_diverges hash fuel key value t a b).
Qed.

Lemma hash_insert_same_hash_never_returns_witness :
  ∃ t, ExtendibleHash.Insert (λ _ : Z, 0) 1 (ExtendibleHash.new_table 1)
         1 "a"%string = Some t ∧
       ExtendibleHash.Insert (λ _ : Z, 0) 40 t 2 "b"%string = None.
Proof.
  pose proof (new_table_ok (V := string) (λ _ : Z, 0) 1) as H0.
  pose proof (Insert_ok (λ _ : Z, 0) 1 1 "a"%string _ _ H0 eq_refl)
    as [H1 _].
  eexists. split; [vm_compute; reflexivity|].
  eapply (hash_insert_same_hash_never_returns Z string _ (λ _ : Z, 0) 40
            _ 2 "b"%string 0%nat); [exact H1|reflexivity|reflexivity
                                   |reflexivity|].
  intros k v Hin. apply list_elem_of_singleton in Hin.
  split; [done|]. by injection Hin as -> _.
Defined.

Section HashTermination.
Context {K V : Type} `{EqDecision K}.
Variable hash : K → Z.
Import ExtendibleHash.
Implicit Types (t : Table K V) (b : Bucket K V) (l : list (K * V)).

Lemma item_found t j a b k v :
  table_ok hash t → dir_ t !! j = Some a → heap t !! a = Some b →
  (k, v) ∈ list_ b → ∃ v', Find hash t k = Some (Some v').
Proof.
  intros Hok Hj Ha Hin.
  pose proof (key_at_home hash t j a b k v Hok Hj Ha Hin) as Hhome.
  unfold Find. rewrite Hhome. simpl. rewrite Ha. simpl.
  unfold bucket_Find.
  destruct (find_item (list_ b) k) as [v'|] eqn:Hf; [by eexists|].
  exfalso. apply (find_item_None) in Hf. apply Hf.
  apply list_elem_of_fmap. by exists (k, v).
Qed.

Lemma Insert_terminates (W : Z) key value : ∀ n t a b,
  table_ok hash t → (1 ≤ bucket_size_ t)%nat →
  0 ≤ hash key < 2 ^ W →
  (∀ k v, Find hash t k = Some (Some v) →
          0 ≤ hash k < 2 ^ W ∧ (hash k = hash key → k = key)) →
  dir_ t !! IndexOf hash t key = Some a → heap t !! a = Some b →
  W - depth_ b ≤ Z.of_nat n →
  ∃ t', Insert hash (S n) t key value = Some t'.
Proof.
  assert (HW : 0 ≤ hash key < 2 ^ W → 0 ≤ W).
  { intros Hkey. destruct (decide (0 ≤ W)) as [|Hneg]; [done|].
    rewrite Z.pow_neg_r in Hkey by lia. lia. }
  assert (Hpass : ∀ n t a b,
    table_ok hash t → (1 ≤ bucket_size_ t)%nat →
    0 ≤ hash key < 2 ^ W →
    (∀ k v, Find hash t k = Some (Some v) →
            0 ≤ hash k < 2 ^ W ∧ (hash k = hash key → k = key)) →
    dir_ t !! IndexOf hash t key = Some a → heap t !! a = Some b →
    (∃ t', Insert hash (S n) t key value = Some t') ∨
    depth_ b < W ∧
    ∃ t' a1 b1, Insert hash (S n) t key value = Insert hash n t' key value ∧
      table_ok hash t' ∧ bucket_size_ t' = bucket_size_ t ∧
      (∀ k, Find hash t' k = Find hash t k) ∧
      dir_ t' !! IndexOf hash t' key = Some a1 ∧ heap t' !! a1 = Some b1 ∧
      depth_ b1 = depth_ b + 1).
  { intros n t a b Hok Hsize Hkey Hinj Ha Hb.
    pose proof (HW Hkey) as HW0.
    pose proof Hok as (Hgd & Hlen & Hdir).
    destruct (Hdir _ _ Ha) as (b0 & Hb0 & Hbok).
    assert (b0 = b) as -> by congruence.
    pose proof Hbok as (Hd & Hsz & Hfit & Hnd & Hitems & Hslots).
    assert (Hdeep : W ≤ depth_ b → ∀ k v, (k, v) ∈ list_ b → k = key).
    { intros Hge k v Hin.
      destruct (item_found t _ a b k v Hok Ha Hb Hin) as [v' Hfound].
      destruct (Hinj k v' Hfound) as [Hrange Heq]. apply Heq.
      apply (agree_eq W); [done|done|done|].
      apply (agree_weaken (depth_ b)); [done|].
      apply (agree_trans _ _ (Z.of_nat (IndexOf hash t key)));
        [by eapply Hitems|].
      apply (agree_weaken (global_depth_ t)); [lia|].
      by apply IndexOf_agree. }
    cbn [Insert]. rewrite Ha. simpl. rewrite Hb. simpl.
    destruct (bucket_Insert b key value) as [ok b'] eqn:Hins.
    destruct ok; [left; by eexists|]. right.
    unfold bucket_Insert in Hins.
    destruct (update_item (list_ b) key value) eqn:Hup; [discriminate|].
    destruct (IsFull b) eqn:Hfull; [|discriminate].
    apply bool_decide_eq_true in Hfull.
    apply update_item_None, find_item_None in Hup.
    assert (Hshallow : depth_ b < W).
    { destruct (decide (depth_ b < W)) as [|Hge]; [done|]. exfalso.
      destruct (list_ b) as [|[k v] rest] eqn:Hl.
      - simpl in Hfull. lia.
      - apply Hup. rewrite <- (Hdeep ltac:(lia) k v) by left.
        simpl. left. }
    split; [done|].
    destruct (split_step_ok hash t _ a b Hok Ha Hb)
      as (t' & Hsplit & Hok' & Hfind & Hnew).
    rewrite Hsplit. simpl.
    destruct (Hnew key Ha) as (a1 & Ha1 & Hb1).
    destruct (split_step_frame hash t a b t' Hsplit) as [Hbs _].
    exists t', a1. eexists. split; [done|]. split; [done|].
    split; [done|]. split; [done|]. split; [done|]. split; [exact Hb1|done]. }
  induction n as [|m IH]; intros t a b Hok Hsize Hkey Hinj Ha Hb Hfuel.
  - destruct (Hpass 0%nat t a b Hok Hsize Hkey Hinj Ha Hb)
      as [Hdone|[Hlt _]]; [done|lia].
  - destruct (Hpass (S m) t a b Hok Hsize Hkey Hinj Ha Hb)
      as [Hdone|(Hlt & t' & a1 & b1 & Heq & Hok' & Hbs & Hfind & Ha1 & Hb1
                 & Hdepth)]; [done|].
    rewrite Heq. apply (IH t' a1 b1); [done|lia|done| |done|done|lia].
    intros k v Hk. rewrite Hfind in Hk. by eapply Hinj.
Qed.

End HashTermination.






Section HashFrame.
Context {K V : Type} `{EqDecision K}.
Variable hash : K → Z.
Import ExtendibleHash.
Implicit Types (t : Table K V) (b : Bucket K V) (l : list (K * V)).

Lemma Remove_bucket_size t key r t' :
  Remove hash t key = Some (r, t') → bucket_size_ t' = bucket_size_ t.
Proof.
  unfold Remove. destruct (dir_ t !! IndexOf hash t key); [|done]. simpl.
  destruct (heap t !! _); [|done]. simpl.
  destruct (bucket_Remove _ key). by intros [= <- <-].
Qed.

Lemma Insert_bucket_size fuel key value : ∀ t t',
  Insert hash fuel t key value = Some t' → bucket_size_ t' = bucket_size_ t.
Proof.
  induction fuel as [|n IH]; intros t t'; simpl; [done|].
  destruct (dir_ t !! IndexOf hash t key) as [a|]; [|done]. simpl.
  destruct (heap t !! a) as [b|]; [|done]. simpl.
  destruct (bucket_Insert b key value) as [ok b'].
  destruct ok; [by intros [= <-]|].
  destruct (split_step hash t a b) as [t1|] eqn:Hsplit; [|done]. simpl.
  intros Hrun. rewrite (IH _ _ Hrun).
  by destruct (split_step_frame hash t a b t1 Hsplit).
Qed.

End HashFrame.

(* ===================================================================== *)
(** ** The LRU-K replacer: what [Size] counts *)
(* ===================================================================== *)

Section ReplacerCount.
Import LRUK.
Implicit Types (r : Replacer) (h : list Z) (f : Z).

Lemma elem_of_evictable_frames r f :
  f ∈ evictable_frames r ↔
  is_Some (history_ r !! f) ∧ is_evictable r f = true.
Proof.
  unfold evictable_frames. rewrite elem_of_filter, elem_of_dom. tauto.
Qed.

Lemma tracked_bound r :
  0 ≤ replacer_size_ r →
  (∀ f, is_Some (history_ r !! f) → 0 ≤ f < replacer_size_ r) →
  Z.of_nat (size (dom (history_ r))) ≤ replacer_size_ r.
Proof.
  intros Hn Hdom.
  assert (Hsub : dom (history_ r) ⊆
                 (list_to_set (seqZ 0 (replacer_size_ r)) : gset Z)).
  { intros f Hf. apply elem_of_dom in Hf. apply Hdom in Hf.
    apply elem_of_list_to_set, elem_of_seqZ. lia. }
  apply subseteq_size in Hsub.
  rewrite size_list_to_set in Hsub by apply NoDup_seqZ.
  rewrite length_seqZ in Hsub. lia.
Qed.

Lemma evictable_bound r :
  counted r → 0 ≤ curr_size_ r ≤ replacer_size_ r.
Proof.
  intros (_ & _ & _ & [Hn _] & Hdom & _ & ->).
  pose proof (tracked_bound r Hn Hdom) as Hb.
  assert (Hsub : evictable_frames r ⊆ dom (history_ r)).
  { intros f Hf. apply elem_of_evictable_frames in Hf as [Hf _].
    by apply elem_of_dom. }
  apply subseteq_size in Hsub. lia.
Qed.

Lemma valid_frame_range r f :
  0 ≤ replacer_size_ r ≤ 2 ^ 64 - 2 ^ 31 → frame_id_range f →
  valid_frame r f = true → 0 ≤ f < replacer_size_ r.
Proof.
  intros Hn Hf Hv. unfold valid_frame in Hv. apply bool_decide_eq_true in Hv.
  unfold frame_id_range in Hf. unfold wrap in Hv.
  destruct (decide (0 ≤ f)) as [Hpos|Hneg].
  - rewrite Z.mod_small in Hv by lia. lia.
  - exfalso.
    assert (f mod 2 ^ 64 = f + 2 ^ 64) as Hm.
    { symmetry. apply (Z.mod_unique _ _ (-1)); lia. }
    lia.
Qed.

Lemma new_replacer_counted (num_frames k : Z) :
  0 ≤ num_frames ≤ 2 ^ 64 - 2 ^ 31 → 1 ≤ k →
  counted (new_replacer num_frames k).
Proof.
  intros Hn Hk. split; [apply new_replacer_wf; simpl; lia|].
  split; [done|]. split; [done|]. split; [done|].
  split; [intros f [? Hf]; simpl in Hf; by rewrite lookup_empty in Hf|].
  split; [intros f [? Hf]; simpl in Hf; by rewrite lookup_empty in Hf|].
  reflexivity.
Qed.

Lemma is_evictable_flags r r' f :
  evictable_ r' = evictable_ r → is_evictable r' f = is_evictable r f.
Proof. unfold is_evictable. by intros ->. Qed.

Lemma size_add_frame (X Y : gset Z) f :
  f ∉ X → Y = {[f]} ∪ X → Z.of_nat (size Y) = Z.of_nat (size X) + 1.
Proof.
  intros Hf ->. rewrite size_union by set_solver.
  rewrite size_singleton. lia.
Qed.

Lemma size_pos_elem (X : gset Z) f : f ∈ X → (size X ≠ 0)%nat.
Proof.
  intros Hf H0. apply size_empty_inv in H0.
  apply (not_elem_of_empty (C := gset Z) f). by rewrite <- H0.
Qed.

Lemma size_drop_frame (X Y : gset Z) f :
  f ∈ X → Y = X ∖ {[f]} → Z.of_nat (size Y) = Z.of_nat (size X) - 1.
Proof.
  intros Hf ->. rewrite size_difference by set_solver.
  rewrite size_singleton.
  pose proof (size_pos_elem X f Hf). lia.
Qed.

Lemma RecordAccess_counted r f r' :
  counted r → frame_id_range f → current_timestamp_ r + 1 < 2 ^ 64 →
  RecordAccess r f = Some r' →
  counted r' ∧ curr_size_ r' = curr_size_ r ∧
  evictable_ r' = evictable_ r.
Proof.
  intros Hc Hf Hts Hrun.
  pose proof Hc as (Hwf & Hk & Ht0 & Hn & Hdom & Hflag & Hsize).
  pose proof (RecordAccess_wf r f r' Hwf Hk Hts Ht0 Hrun) as Hwf'.
  unfold RecordAccess in Hrun.
  destruct (valid_frame r f) eqn:Hv; [|discriminate]. simpl in Hrun.
  pose proof (valid_frame_range r f Hn Hf Hv) as Hrange.
  injection Hrun as <-.
  split; [|done]. split; [exact Hwf'|]. simpl.
  split; [done|]. split; [rewrite wrap_small; lia|]. split; [done|].
  split.
  { intros g [h Hg]. destruct (decide (g = f)) as [->|Hne]; [exact Hrange|].
    rewrite lookup_insert_ne in Hg by done. apply Hdom. by exists h. }
  split.
  { intros g Hg. destruct (decide (g = f)) as [->|Hne].
    - rewrite lookup_insert_eq. by eexists.
    - rewrite lookup_insert_ne by done. by apply Hflag. }
  rewrite Hsize. f_equal. f_equal. apply set_eq. intros g.
  rewrite !elem_of_evictable_frames. simpl.
  unfold is_evictable at 2. simpl. fold (is_evictable r g).
  destruct (decide (g = f)) as [->|Hne].
  - rewrite lookup_insert_eq. split.
    + intros [_ He]. split; [by eexists|done].
    + intros [Ht He]. split; [|done]. apply Hflag.
      unfold is_evictable in He. destruct (evictable_ r !! f); [by eexists|done].
  - by rewrite lookup_insert_ne.
Qed.

Lemma SetEvictable_counted r f b r' :
  counted r → SetEvictable r f b = Some r' →
  counted r' ∧ history_ r' = history_ r ∧
  (is_Some (history_ r !! f) →
     is_evictable r' f = b ∧
     curr_size_ r' = curr_size_ r + (if b then 1 else 0)
                     - (if is_evictable r f then 1 else 0)) ∧
  (history_ r !! f = None → r' = r) ∧
  ∀ g, g ≠ f → is_evictable r' g = is_evictable r g.
Proof.
  intros Hc Hrun.
  pose proof Hc as (Hwf & Hk & Ht0 & Hn & Hdom & Hflag & Hsize).
  pose proof (SetEvictable_wf r f b r' Hwf Hrun) as Hwf'.
  pose proof (evictable_bound r Hc) as Hb.
  unfold SetEvictable in Hrun.
  destruct (valid_frame r f) eqn:Hv; [|discriminate]. simpl in Hrun.
  destruct (history_ r !! f) as [h|] eqn:Hh.
  2:{ injection Hrun as <-. split; [done|]. split; [done|].
      split; [by intros [? ?]|]. by split. }
  destruct (bool_decide (is_evictable r f = b)) eqn:Hsame.
  { apply bool_decide_eq_true in Hsame. injection Hrun as <-.
    split; [done|]. split; [done|].
    split; [|by split]. intros _. split; [done|].
    rewrite Hsame. destruct b; lia. }
  apply bool_decide_eq_false in Hsame.
  pose proof (tracked_bound r (proj1 Hn) Hdom) as Htb.
  assert (Hmem : f ∈ evictable_frames r ↔ is_evictable r f = true).
  { rewrite elem_of_evictable_frames. split; [by intros [_ ?]|].
    intros He. split; [by eexists|done]. }
  assert (Hw : (if b then wrap (curr_size_ r + 1)
                else wrap (curr_size_ r - 1))
               = curr_size_ r + (if b then 1 else 0)
                 - (if is_evictable r f then 1 else 0)).
  { destruct b.
    - destruct (is_evictable r f) eqn:He; [done|].
      rewrite wrap_small; [lia|].
      assert (Hsub : {[f]} ∪ evictable_frames r ⊆ dom (history_ r)).
      { intros g Hg. apply elem_of_union in Hg as [Hg|Hg].
        - apply elem_of_singleton in Hg as ->. apply elem_of_dom. by eexists.
        - apply elem_of_evictable_frames in Hg as [Hg _].
          by apply elem_of_dom. }
      apply subseteq_size in Hsub.
      rewrite size_union in Hsub.
      + rewrite size_singleton in Hsub. lia.
      + intros g Hg1 Hg2. apply elem_of_singleton in Hg1 as ->.
        apply Hmem in Hg2. congruence.
    - destruct (is_evictable r f) eqn:He; [|done].
      rewrite wrap_small; [lia|].
      pose proof (size_pos_elem _ f (proj2 Hmem eq_refl)). lia. }
  rewrite Hw in Hrun. injection Hrun as <-.
  assert (Hev : ∀ g, is_evictable
            (mkReplacer (replacer_size_ r) (k_ r) (current_timestamp_ r)
               (curr_size_ r + (if b then 1 else 0)
                - (if is_evictable r f then 1 else 0))
               (history_ r) (<[f:=b]> (evictable_ r))) g
          = if decide (g = f) then b else is_evictable r g).
  { intros g. unfold is_evictable at 1. simpl.
    destruct (decide (g = f)) as [->|Hne].
    - by rewrite lookup_insert_eq.
    - by rewrite lookup_insert_ne. }
  split.
  2:{ split; [done|].
      split; [intros _; rewrite Hev; by rewrite decide_True|].
      split; [done|]. intros g Hne. rewrite Hev. by rewrite decide_False. }
  split; [exact Hwf'|]. simpl.
  split; [done|]. split; [done|]. split; [done|]. split; [done|].
  split.
  { intros g Hg. destruct (decide (g = f)) as [->|Hne]; [by eexists|].
    rewrite lookup_insert_ne in Hg by done. by apply Hflag. }
  destruct b.
  - assert (Hnot : f ∉ evictable_frames r).
    { rewrite Hmem. destruct (is_evictable r f); done. }
    rewrite (size_add_frame (evictable_frames r) _ f Hnot).
    + destruct (is_evictable r f); [done|]. lia.
    + apply set_eq. intros g.
      rewrite elem_of_union, elem_of_singleton, !elem_of_evictable_frames.
      rewrite Hev. simpl. destruct (decide (g = f)) as [->|Hne].
      * split; [by left|]. intros _. split; [by eexists|done].
      * split; [by right|]. by intros [|].
  - assert (Hin : f ∈ evictable_frames r).
    { rewrite Hmem. destruct (is_evictable r f); done. }
    rewrite (size_drop_frame (evictable_frames r) _ f Hin).
    + destruct (is_evictable r f); [lia|done].
    + apply set_eq. intros g.
      rewrite elem_of_difference, elem_of_singleton, !elem_of_evictable_frames.
      rewrite Hev. simpl. destruct (decide (g = f)) as [->|Hne].
      * split; [intros [_ Hx]; done|intros [_ Hx]; done].
      * tauto.
Qed.

Lemma wf_delete r c size' :
  wf r →
  wf (mkReplacer (replacer_size_ r) (k_ r) (current_timestamp_ r) size'
        (delete c (history_ r)) (delete c (evictable_ r))).
Proof.
  intros (Hts & Hn & Hh). split; [done|]. split; [done|]. simpl.
  intros f h Hf. apply lookup_delete_Some in Hf as [_ Hf].
  destruct (Hh f h Hf) as [Hne (Hnil & Hlen & Hrange)].
  split; [done|]. split; [done|]. split; [done|]. exact Hrange.
Qed.

(** Dropping an evictable frame [c], as [Evict] and [Remove] do. *)
Lemma drop_frame_counted r c :
  counted r → is_Some (history_ r !! c) → is_evictable r c = true →
  counted (mkReplacer (replacer_size_ r) (k_ r) (current_timestamp_ r)
             (wrap (curr_size_ r - 1))
             (delete c (history_ r)) (delete c (evictable_ r))) ∧
  wrap (curr_size_ r - 1) = curr_size_ r - 1.
Proof.
  intros Hc Ht He.
  pose proof Hc as (Hwf & Hk & Ht0 & Hn & Hdom & Hflag & Hsize).
  pose proof (evictable_bound r Hc) as Hb.
  assert (Hin : c ∈ evictable_frames r)
    by by apply elem_of_evictable_frames.
  pose proof (size_pos_elem _ c Hin) as Hpos.
  assert (Hw : wrap (curr_size_ r - 1) = curr_size_ r - 1)
    by (apply wrap_small; lia).
  split; [|exact Hw]. split; [by apply wf_delete|]. simpl.
  split; [done|]. split; [done|]. split; [done|].
  split.
  { intros g [h Hg]. apply lookup_delete_Some in Hg as [_ Hg].
    apply Hdom. by exists h. }
  split.
  { intros g [x Hg]. apply lookup_delete_Some in Hg as [Hne Hg].
    rewrite lookup_delete_ne by done. apply Hflag. by exists x. }
  rewrite Hw, Hsize.
  symmetry. apply (size_drop_frame _ _ c Hin).
  apply set_eq. intros g.
  rewrite elem_of_difference, elem_of_singleton, !elem_of_evictable_frames.
  unfold is_evictable. simpl.
  destruct (decide (g = c)) as [->|Hne].
  - rewrite !lookup_delete_eq. split; [intros [[? ?] _]; done|tauto].
  - rewrite !lookup_delete_ne by done. tauto.
Qed.

Lemma Remove_counted r f r' :
  counted r → Remove r f = Some r' →
  counted r' ∧ history_ r' !! f = None ∧
  curr_size_ r' =
    curr_size_ r - match history_ r !! f with Some _ => 1 | None => 0 end.
Proof.
  intros Hc Hrun. unfold Remove in Hrun.
  destruct (valid_frame r f); [|discriminate]. simpl in Hrun.
  destruct (history_ r !! f) as [h|] eqn:Hh.
  2:{ injection Hrun as <-. split; [done|]. split; [done|]. lia. }
  destruct (is_evictable r f) eqn:He; [|discriminate]. simpl in Hrun.
  injection Hrun as <-.
  destruct (drop_frame_counted r f Hc) as [Hc' Hw]; [by eexists|done|].
  split; [exact Hc'|]. simpl. rewrite lookup_delete_eq. split; [done|].
  exact Hw.
Qed.

Lemma Evict_counted r entries :
  counted r → entries ≡ₚ map_to_list (history_ r) →
  if decide (curr_size_ r = 0)
  then Evict_in_order r entries = Some (None, r)
  else ∃ f r', Evict_in_order r entries = Some (Some f, r') ∧
         is_Some (history_ r !! f) ∧ is_evictable r f = true ∧
         history_ r' = delete f (history_ r) ∧
         evictable_ r' = delete f (evictable_ r) ∧
         curr_size_ r' = curr_size_ r - 1 ∧ counted r'.
Proof.
  intros Hc Hperm.
  pose proof Hc as (Hwf & Hk & Ht0 & Hn & Hdom & Hflag & Hsize).
  destruct (decide (curr_size_ r = 0)) as [H0|Hne].
  { unfold Evict_in_order. by rewrite bool_decide_eq_true_2. }
  destruct (Evict_in_order_spec r entries Hwf Hperm Hne)
    as (st & Hrun & Hinv).
  unfold scan_inv in Hinv.
  destruct (decide (candidate_frame st = -1)) as [Hnone|Hcand].
  { exfalso. destruct Hinv as [_ Hall].
    destruct (size (evictable_frames r)) eqn:Hsz; [lia|].
    assert (∃ g, g ∈ evictable_frames r) as [g Hg].
    { apply set_choose_L. intros Hempty. rewrite Hempty in Hsz.
      by rewrite size_empty in Hsz. }
    apply elem_of_evictable_frames in Hg as [[h Hg] He].
    assert ((g, h) ∈ entries) as Hin.
    { rewrite Hperm. by apply elem_of_map_to_list. }
    rewrite (Hall g h Hin) in He. done. }
  destruct Hinv as (h & Hin & He & _).
  assert (Ht : history_ r !! candidate_frame st = Some h).
  { rewrite Hperm in Hin. by apply elem_of_map_to_list in Hin. }
  destruct (drop_frame_counted r (candidate_frame st) Hc) as [Hc' Hw];
    [by eexists|done|].
  exists (candidate_frame st). eexists. split.
  { rewrite Hrun. unfold evict_finish.
    rewrite bool_decide_eq_false_2 by done. reflexivity. }
  split; [by eexists|]. split; [done|]. split; [done|]. split; [done|].
  split; [exact Hw|exact Hc'].
Qed.

End ReplacerCount.

Lemma s3_state_counted : LRUK.counted LRUK.s3_state.
Proof.
  split; [exact s3_state_wf|].
  split; [simpl; lia|]. split; [simpl; lia|]. split; [simpl; lia|].
  split.
  { intros f [h Hf]. unfold LRUK.s3_state in Hf. cbn [LRUK.history_] in Hf.
    apply elem_of_list_to_map_2 in Hf. simpl.
    repeat (apply elem_of_cons in Hf as [Hf|Hf]); try (by inversion Hf);
      injection Hf as -> _; lia. }
  split.
  { intros f [x Hf]. unfold LRUK.s3_state in Hf. cbn [LRUK.evictable_] in Hf.
    apply elem_of_list_to_map_2 in Hf.
    repeat (apply elem_of_cons in Hf as [Hf|Hf]); try (by inversion Hf);
      injection Hf as -> _; by eexists. }
  vm_compute. reflexivity.
Qed.

(** X6.  [Size] is the number of tracked frames that are flagged
    evictable, and never more than the number of frames of the replacer.
    This bookkeeping ([counted]) holds of a new replacer with [k] at least 1
    and is kept by [RecordAccess] (which leaves [Size] and the flags as
    they are: a frame is not evictable by being accessed), [SetEvictable],
    [Remove] and [Evict], whenever they return. *)
Theorem replacer_size_counts_evictable_frames :
  (∀ num_frames k, 0 ≤ num_frames ≤ 2 ^ 64 - 2 ^ 31 → 1 ≤ k →
     LRUK.counted (LRUK.new_replacer num_frames k)) ∧
  (∀ r f r', LRUK.counted r → LRUK.frame_id_range f →
     LRUK.current_timestamp_ r + 1 < 2 ^ 64 →
     LRUK.RecordAccess r f = Some r' →
     LRUK.counted r' ∧ LRUK.Size r' = LRUK.Size r ∧
     LRUK.evictable_ r' = LRUK.evictable_ r) ∧
  (∀ r f b r', LRUK.counted r → LRUK.SetEvictable r f b = Some r' →
     LRUK.counted r') ∧
  (∀ r f r', LRUK.counted r → LRUK.Remove r f = Some r' →
     LRUK.counted r') ∧
  (∀ r entries res r', LRUK.counted r →
     entries ≡ₚ map_to_list (LRUK.history_ r) →
     LRUK.Evict_in_order r entries = Some (res, r') →
     LRUK.counted r') ∧
  (∀ r, LRUK.counted r →
     LRUK.Size r = Z.of_nat (size (LRUK.evictable_frames r)) ∧
     0 ≤ LRUK.Size r ≤ LRUK.replacer_size_ r).
Proof.
  split; [exact new_replacer_counted|].
  split; [exact RecordAccess_counted|].
  split.
  { intros r f b r' Hc Hrun.
    by destruct (SetEvictable_counted r f b r' Hc Hrun). }
  split.
  { intros r f r' Hc Hrun. by destruct (Remove_counted r f r' Hc Hrun). }
  split.
  { intros r entries res r' Hc Hperm Hrun.
    pose proof (Evict_counted r entries Hc Hperm) as Hev.
    destruct (decide (LRUK.curr_size_ r = 0)).
    - rewrite Hev in Hrun. by injection Hrun as <- <-.
    - destruct Hev as (f & r0 & Hrun0 & _ & _ & _ & _ & _ & Hc').
      rewrite Hrun0 in Hrun. by injection Hrun as <- <-. }
  intros r Hc. split; [|by apply evictable_bound].
  by destruct Hc as (_ & _ & _ & _ & _ & _ & Hsize).
Qed.

Lemma replacer_size_counts_evictable_frames_witness :
  LRUK.s3_replacer = Some LRUK.s3_state ∧
  LRUK.Size LRUK.s3_state
    = Z.of_nat (size (LRUK.evictable_frames LRUK.s3_state)) ∧
  0 ≤ LRUK.Size LRUK.s3_state ≤ LRUK.replacer_size_ LRUK.s3_state.
Proof.
  split; [exact s3_replacer_state|].
  destruct replacer_size_counts_evictable_frames
    as (_ & _ & _ & _ & _ & Hsize).
  exact (Hsize LRUK.s3_state s3_state_counted).
Defined.

(** X7.  On a replacer whose bookkeeping is right, [Evict] returns, in
    whatever order it visits the entries.  It returns false, changing
    nothing, exactly when [Size] is 0, and then no tracked frame is
    evictable.  Otherwise it returns true with a frame that was tracked
    and evictable; that frame's history and flag are erased, nothing else
    changes, and [Size] is one less. *)
Theorem Evict_false_iff_none_evictable (r : LRUK.Replacer)
  (entries : list (Z * list Z)) :
  LRUK.counted r → entries ≡ₚ map_to_list (LRUK.history_ r) →
  ∃ res r', LRUK.Evict_in_order r entries = Some (res, r') ∧
    LRUK.counted r' ∧
    match res with
    | None =>
        r' = r ∧ LRUK.Size r = 0 ∧
        ∀ f, is_Some (LRUK.history_ r !! f) → LRUK.is_evictable r f = false
    | Some f =>
        LRUK.Size r ≠ 0 ∧
        is_Some (LRUK.history_ r !! f) ∧ LRUK.is_evictable r f = true ∧
        LRUK.history_ r' = delete f (LRUK.history_ r) ∧
        LRUK.evictable_ r' = delete f (LRUK.evictable_ r) ∧
        LRUK.Size r' = LRUK.Size r - 1
    end.
Proof.
  intros Hc Hperm.
  pose proof (Evict_counted r entries Hc Hperm) as Hev.
  destruct (decide (LRUK.curr_size_ r = 0)) as [H0|Hne].
  - exists None, r. split; [done|]. split; [done|]. split; [done|].
    split; [done|]. intros f Ht.
    destruct (LRUK.is_evictable r f) eqn:He; [exfalso|done].
    destruct Hc as (_ & _ & _ & _ & _ & _ & Hsize).
    assert (f ∈ LRUK.evictable_frames r) as Hin
      by by apply elem_of_evictable_frames.
    pose proof (size_pos_elem _ f Hin). lia.
  - destruct Hev as (f & r' & Hrun & Ht & He & Hh & Hf & Hsize & Hc').
    exists (Some f), r'. by repeat (split; [done|]).
Qed.

Lemma Evict_false_iff_none_evictable_witness :
  ∃ res r', LRUK.Evict LRUK.s3_state = Some (res, r') ∧
    LRUK.counted r' ∧
    match res with
    | None =>
        r' = LRUK.s3_state ∧ LRUK.Size LRUK.s3_state = 0 ∧
        ∀ f, is_Some (LRUK.history_ LRUK.s3_state !! f) →
             LRUK.is_evictable LRUK.s3_state f = false
    | Some f =>
        LRUK.Size LRUK.s3_state ≠ 0 ∧
        is_Some (LRUK.history_ LRUK.s3_state !! f) ∧
        LRUK.is_evictable LRUK.s3_state f = true ∧
        LRUK.history_ r' = delete f (LRUK.history_ LRUK.s3_state) ∧
        LRUK.evictable_ r' = delete f (LRUK.evictable_ LRUK.s3_state) ∧
        LRUK.Size r' = LRUK.Size LRUK.s3_state - 1
    end.
Proof.
  exact (Evict_false_iff_none_evictable LRUK.s3_state
           (map_to_list (LRUK.history_ LRUK.s3_state))
           s3_state_counted (reflexivity _)).
Defined.

(** X8.  [SetEvictable] on a valid frame returns.  On a frame with no
    recorded access it changes nothing, so the frame does not become
    evictable.  On a tracked frame it sets the flag of that frame only, and
    [Size] goes up by one when the frame becomes evictable, down by one
    when it stops being evictable, and stays when the flag is as it was. *)
Theorem SetEvictable_spec (r : LRUK.Replacer) (f : Z) (b : bool) :
  LRUK.counted r → LRUK.valid_frame r f = true →
  ∃ r', LRUK.SetEvictable r f b = Some r' ∧ LRUK.counted r' ∧
    LRUK.history_ r' = LRUK.history_ r ∧
    (∀ g, g ≠ f → LRUK.is_evictable r' g = LRUK.is_evictable r g) ∧
    match LRUK.history_ r !! f with
    | None => r' = r
    | Some _ =>
        LRUK.is_evictable r' f = b ∧
        LRUK.Size r' = LRUK.Size r + (if b then 1 else 0)
                       - (if LRUK.is_evictable r f then 1 else 0)
    end.
Proof.
  intros Hc Hv.
  assert (∃ r', LRUK.SetEvictable r f b = Some r') as [r' Hrun].
  { unfold LRUK.SetEvictable. rewrite Hv. simpl.
    destruct (LRUK.history_ r !! f); [|by eexists].
    destruct (bool_decide _); by eexists. }
  destruct (SetEvictable_counted r f b r' Hc Hrun)
    as (Hc' & Hh & Hset & Hnone & Hother).
  exists r'. split; [done|]. split; [done|]. split; [done|].
  split; [done|].
  destruct (LRUK.history_ r !! f) as [h|] eqn:Ht; [|by apply Hnone].
  apply Hset. by eexists.
Qed.

Lemma SetEvictable_spec_witness :
  ∃ r', LRUK.SetEvictable LRUK.s3_state 1 false = Some r' ∧
    LRUK.counted r' ∧
    LRUK.history_ r' = LRUK.history_ LRUK.s3_state ∧
    (∀ g, g ≠ 1 → LRUK.is_evictable r' g = LRUK.is_evictable LRUK.s3_state g) ∧
    LRUK.is_evictable r' 1 = false ∧ LRUK.Size r' = 2.
Proof.
  exact (SetEvictable_spec LRUK.s3_state 1 false s3_state_counted eq_refl).
Defined.

Section ReplacerFrames.
Import LRUK.
Implicit Types (r : Replacer) (h : list Z) (f : Z).

Lemma none_evictable r f :
  counted r → curr_size_ r = 0 → is_Some (history_ r !! f) →
  is_evictable r f = false.
Proof.
  intros Hc H0 Ht. destruct (is_evictable r f) eqn:He; [exfalso|done].
  destruct Hc as (_ & _ & _ & _ & _ & _ & Hsize).
  assert (f ∈ evictable_frames r) as Hin by by apply elem_of_evictable_frames.
  pose proof (size_pos_elem _ f Hin). lia.
Qed.

Lemma Evict_in_order_fields r entries res r' :
  Evict_in_order r entries = Some (res, r') →
  replacer_size_ r' = replacer_size_ r ∧ k_ r' = k_ r ∧
  current_timestamp_ r' = current_timestamp_ r.
Proof.
  unfold Evict_in_order. case_bool_decide; [by intros [= <- <-]|].
  destruct (scan_entries r scan_init entries) as [st|]; [|done]. simpl.
  unfold evict_finish. case_bool_decide; by intros [= <- <-].
Qed.

Lemma RecordAccess_fields r f r' :
  RecordAccess r f = Some r' →
  replacer_size_ r' = replacer_size_ r ∧ k_ r' = k_ r ∧
  current_timestamp_ r' = wrap (current_timestamp_ r + 1) ∧
  evictable_ r' = evictable_ r ∧
  is_Some (history_ r' !! f) ∧
  ∀ g, g ≠ f → history_ r' !! g = history_ r !! g.
Proof.
  unfold RecordAccess. destruct (valid_frame r f); [|done]. simpl.
  intros [= <-]. simpl. do 4 (split; [done|]). split.
  - rewrite lookup_insert_eq. by eexists.
  - intros g Hne. by rewrite lookup_insert_ne.
Qed.

Lemma SetEvictable_fields r f b r' :
  SetEvictable r f b = Some r' →
  replacer_size_ r' = replacer_size_ r ∧ k_ r' = k_ r ∧
  current_timestamp_ r' = current_timestamp_ r ∧
  history_ r' = history_ r.
Proof.
  unfold SetEvictable. destruct (valid_frame r f); [|done]. simpl.
  destruct (history_ r !! f); [|by intros [= <-]].
  case_bool_decide; by intros [= <-].
Qed.

Lemma valid_frame_in_range r f :
  0 ≤ f < replacer_size_ r → replacer_size_ r < 2 ^ 64 →
  valid_frame r f = true.
Proof.
  intros Hf Hn. unfold valid_frame. apply bool_decide_eq_true.
  rewrite wrap_small; lia.
Qed.

Lemma is_evictable_delete r f g (s : Z) :
  g ≠ f →
  is_evictable (mkReplacer (replacer_size_ r) (k_ r) (current_timestamp_ r) s
                  (delete f (history_ r)) (delete f (evictable_ r))) g
  = is_evictable r g.
Proof.
  intros Hne. unfold is_evictable. simpl. by rewrite lookup_delete_ne.
Qed.

Lemma RecordAccess_total r f :
  valid_frame r f = true → ∃ r', RecordAccess r f = Some r'.
Proof. intros Hv. unfold RecordAccess. rewrite Hv. simpl. by eexists. Qed.

Lemma SetEvictable_total r f b :
  valid_frame r f = true → ∃ r', SetEvictable r f b = Some r'.
Proof.
  intros Hv. unfold SetEvictable. rewrite Hv. simpl.
  destruct (history_ r !! f); [|by eexists].
  case_bool_decide; by eexists.
Qed.

End ReplacerFrames.

(* ===================================================================== *)
(** ** The buffer pool: frames, page table, free list and replacer agree *)
(* ===================================================================== *)

Section PoolInvariant.
Context {Data : Type}.
Variable zero_data : Data.
Import BufferPool.
Implicit Types (bpm : BufferPoolManagerInstance Data) (page : Page Data).

Lemma hash_page_id_small p : 0 ≤ p < 2 ^ 31 → hash_page_id p = p.
Proof. intros Hp. unfold hash_page_id. apply wrap_small. lia. Qed.

Lemma table_find_total bpm pid :
  ExtendibleHash.table_ok hash_page_id (page_table_ bpm) →
  ∃ o, table_find bpm pid = Some o.
Proof.
  intros Hok. unfold table_find, ExtendibleHash.Find.
  destruct (slot_of_key hash_page_id _ pid Hok) as (a & b & Ha & Hb & _).
  rewrite Ha. simpl. rewrite Hb. simpl. by eexists.
Qed.

Lemma frame_at_range bpm f page :
  frame_at bpm f = Some page → 0 ≤ f < Z.of_nat (length (pages_ bpm)).
Proof.
  unfold frame_at. case_bool_decide; [done|]. intros Hf.
  apply lookup_lt_Some in Hf. lia.
Qed.

Lemma frame_at_total bpm f :
  0 ≤ f < Z.of_nat (length (pages_ bpm)) → ∃ page, frame_at bpm f = Some page.
Proof.
  intros Hf. unfold frame_at. rewrite bool_decide_eq_false_2 by lia.
  apply lookup_lt_is_Some. lia.
Qed.

Lemma new_pool_ok (pool_size : nat) (replacer_k : Z) (bucket_size : nat) :
  Z.of_nat pool_size < 2 ^ 31 → 1 ≤ replacer_k → (1 ≤ bucket_size)%nat →
  pool_ok (new_pool zero_data pool_size replacer_k bucket_size).
Proof.
  intros Hn Hk Hb. unfold pool_ok, pool_inv, new_pool. simpl.
  split; [by rewrite length_replicate|]. split; [done|].
  split; [apply new_table_ok|]. split; [done|].
  split; [apply new_replacer_counted; lia|]. split; [done|].
  split; [lia|].
  split. { apply (NoDup_fmap_2 _), NoDup_seq. }
  split.
  { intros f Hf. apply list_elem_of_fmap in Hf as (i & -> & Hi).
    apply elem_of_seq in Hi. lia. }
  split.
  { intros f page Hf _.
    pose proof (frame_at_range _ _ _ Hf) as Hr. simpl in Hr.
    rewrite length_replicate in Hr.
    unfold frame_at in Hf. simpl in Hf.
    rewrite bool_decide_eq_false_2 in Hf by lia.
    apply lookup_replicate in Hf as [-> _].
    unfold frame_ok. cbn [page_id_].
    destruct (decide (INVALID_PAGE_ID = INVALID_PAGE_ID)) as [_|?]; [|done].
    split.
    - apply list_elem_of_fmap. exists (Z.to_nat f). split; [lia|].
      apply elem_of_seq. lia.
    - unfold tracked. simpl. rewrite lookup_empty. by intros [? ?]. }
  split; [|done].
  intros pid f Hf. exfalso. unfold table_find, ExtendibleHash.Find in Hf.
  unfold ExtendibleHash.IndexOf in Hf. simpl in Hf.
  rewrite Z.land_0_r in Hf. simpl in Hf. discriminate.
Qed.

End PoolInvariant.

Section PoolVictim.
Context {Data : Type}.
Variable zero_data : Data.
Import BufferPool.
Implicit Types (bpm : BufferPoolManagerInstance Data) (page : Page Data).

(** Two frames with the same page hold it in the same frame. *)
Lemma frame_of_page bpm hole f g page page' :
  pool_inv hole bpm → frame_at bpm f = Some page → frame_at bpm g = Some page' →
  hole ≠ Some f → hole ≠ Some g →
  page_id_ page ≠ INVALID_PAGE_ID → page_id_ page' = page_id_ page → f = g.
Proof.
  intros (_ & _ & _ & _ & _ & _ & _ & _ & _ & Hframes & _) Hf Hg Hhf Hhg
    Hvalid Heq.
  pose proof (Hframes f page Hf Hhf) as Hokf.
  pose proof (Hframes g page' Hg Hhg) as Hokg.
  unfold frame_ok in Hokf, Hokg.
  destruct (decide (page_id_ page = INVALID_PAGE_ID)); [done|].
  destruct (decide (page_id_ page' = INVALID_PAGE_ID)); [congruence|].
  destruct Hokf as (_ & Htf & _). destruct Hokg as (_ & Htg & _).
  rewrite Heq in Htg. congruence.
Qed.

(** A frame of the free list holds no page. *)
Lemma free_frame_empty bpm hole f :
  pool_inv hole bpm → f ∈ free_list_ bpm →
  ∃ page, frame_at bpm f = Some page ∧ page_id_ page = INVALID_PAGE_ID ∧
          hole ≠ Some f ∧ ¬ tracked bpm f.
Proof.
  intros (Hlen & _ & _ & _ & _ & _ & _ & _ & Hfree & Hframes & _ & Hhole) Hin.
  destruct (frame_at_total bpm f) as [page Hf].
  { rewrite Hlen. by apply Hfree. }
  assert (Hh : hole ≠ Some f).
  { intros ->. by destruct (Hhole f eq_refl) as (_ & Hnot & _). }
  exists page. split; [done|].
  pose proof (Hframes f page Hf Hh) as Hok. unfold frame_ok in Hok.
  destruct (decide (page_id_ page = INVALID_PAGE_ID)) as [Hinv|Hvalid].
  - by destruct Hok.
  - by destruct Hok as (_ & _ & Hnot & _).
Qed.

Lemma frame_ok_transfer bpm bpm' f page :
  frame_ok bpm f page →
  (f ∈ free_list_ bpm → f ∈ free_list_ bpm') →
  (f ∉ free_list_ bpm → f ∉ free_list_ bpm') →
  (tracked bpm' f ↔ tracked bpm f) →
  next_page_id_ bpm ≤ next_page_id_ bpm' →
  (page_id_ page ≠ INVALID_PAGE_ID →
   table_find bpm' (page_id_ page) = table_find bpm (page_id_ page)) →
  LRUK.is_evictable (replacer_ bpm') f = LRUK.is_evictable (replacer_ bpm) f →
  frame_ok bpm' f page.
Proof.
  unfold frame_ok. intros Hok Hin Hout Htr Hnext Htab Hev.
  destruct (decide (page_id_ page = INVALID_PAGE_ID)).
  - destruct Hok as [H1 H2]. split; [by apply Hin|]. by rewrite Htr.
  - destruct Hok as (H1 & H2 & H3 & H4 & H5 & H6).
    split; [lia|]. split; [by rewrite Htab|]. split; [by apply Hout|].
    split; [by apply Htr|]. split; [done|]. by rewrite Hev.
Qed.

Lemma obtain_frame_spec bpm :
  pool_ok bpm →
  ∃ o, obtain_frame bpm = Some o ∧
  match o with
  | None =>
      free_list_ bpm = [] ∧
      ∀ f page, frame_at bpm f = Some page →
                page_id_ page ≠ INVALID_PAGE_ID ∧ 0 < pin_count_ page
  | Some (f, bpm1) =>
      pool_inv (Some f) bpm1 ∧
      next_page_id_ bpm1 = next_page_id_ bpm ∧
      pool_size_ bpm1 = pool_size_ bpm ∧
      LRUK.current_timestamp_ (replacer_ bpm1)
        = LRUK.current_timestamp_ (replacer_ bpm) ∧
      (∀ g, g ≠ f → frame_at bpm1 g = frame_at bpm g) ∧
      ∃ victim, frame_at bpm f = Some victim ∧
        if decide (page_id_ victim = INVALID_PAGE_ID) then
          free_list_ bpm = f :: free_list_ bpm1 ∧
          page_table_ bpm1 = page_table_ bpm ∧
          disk_manager_ bpm1 = disk_manager_ bpm
        else
          free_list_ bpm = [] ∧ free_list_ bpm1 = [] ∧
          pin_count_ victim = 0 ∧
          table_find bpm (page_id_ victim) = Some (Some f) ∧
          table_find bpm1 (page_id_ victim) = Some None ∧
          (∀ pid, pid ≠ page_id_ victim →
                  table_find bpm1 pid = table_find bpm pid) ∧
          disk_manager_ bpm1
          = if is_dirty_ victim
            then WritePage (disk_manager_ bpm) (page_id_ victim)
                   (data_ victim)
            else disk_manager_ bpm
  end.
Proof.
  intros Hinv.
  pose proof Hinv as (Hlen & Hps & Htab & Hbs & Hcnt & Hrs & Hnext & Hnd
                      & Hfree & Hframes & Htable & Hhole).
  unfold obtain_frame.
  destruct (free_list_ bpm) as [|f rest] eqn:Hfl.
  2:{ (* a free frame *)
    eexists. split; [reflexivity|].
    destruct (free_frame_empty bpm None f Hinv) as (victim & Hf & Hempty & _ & Hnt).
    { rewrite ?Hfl. left. }
    apply NoDup_cons in Hnd as [Hnotin Hnd'].
    split.
    { split; [done|]. split; [done|]. split; [done|]. split; [done|].
      split; [done|]. split; [done|]. split; [done|]. split; [done|].
      split. { intros g Hg. apply Hfree. rewrite ?Hfl. by right. }
      split.
      { intros g page Hg Hne.
        apply (frame_ok_transfer bpm); [by apply Hframes| | |done|done|done|done].
        - rewrite ?Hfl. intros Hin. apply elem_of_cons in Hin as [->|Hin];
            [done|exact Hin].
        - rewrite ?Hfl. intros Hout Hin. apply Hout. by right. }
      split.
      { intros pid g Hg. destruct (Htable pid g Hg) as (_ & page & Hpg & Hid & Hv).
        split; [|by exists page]. intros [= <-].
        assert (page = victim) as -> by congruence. congruence. }
      intros h [= <-]. split; [|done]. apply Hfree. rewrite ?Hfl. left. }
    split; [done|]. split; [done|]. split; [done|]. split; [done|].
    exists victim. split; [done|]. by rewrite decide_True. }
  (* no free frame: the replacer chooses *)
  unfold LRUK.Evict.
  pose proof (Evict_counted (replacer_ bpm)
                (map_to_list (LRUK.history_ (replacer_ bpm))) Hcnt
                (reflexivity _)) as Hev.
  destruct (decide (LRUK.curr_size_ (replacer_ bpm) = 0)) as [H0|Hne].
  { rewrite Hev. simpl. eexists. split; [reflexivity|]. split; [done|].
    intros f page Hf. pose proof (Hframes f page Hf ltac:(done)) as Hok.
    unfold frame_ok in Hok.
    destruct (decide (page_id_ page = INVALID_PAGE_ID)) as [Hi|Hv].
    - destruct Hok as [Hin _]. rewrite ?Hfl in Hin. by apply elem_of_nil in Hin.
    - split; [done|]. destruct Hok as (_ & _ & _ & Htr & Hpin & Hevict).
      pose proof (none_evictable _ f Hcnt H0 Htr) as Hnone.
      destruct (decide (pin_count_ page = 0)) as [Hz|]; [|lia].
      apply Hevict in Hz. congruence. }
  destruct Hev as (c & r' & Hrun & Htr & Hevict & Hh' & He' & Hsize' & Hcnt').
  rewrite Hrun. simpl.
  destruct (Evict_in_order_fields _ _ _ _ Hrun) as (Hrs' & Hk' & Hts').
  assert (Hc : 0 ≤ c < Z.of_nat (pool_size_ bpm)).
  { rewrite <- Hrs. destruct Hcnt as (_ & _ & _ & _ & Hdom & _). by apply Hdom. }
  destruct (frame_at_total bpm c) as [victim Hvic]; [by rewrite Hlen|].
  rewrite frame_at_set_replacer, Hvic. simpl.
  pose proof (Hframes c victim Hvic ltac:(done)) as Hok.
  unfold frame_ok in Hok.
  destruct (decide (page_id_ victim = INVALID_PAGE_ID)) as [Hi|Hvalid].
  { by destruct Hok as [_ Hnt]. }
  destruct Hok as (Hrange & Hfind & _ & _ & Hpin & Hpin0).
  rewrite bool_decide_eq_true_2 by done.
  set (bpm_b :=
         if is_dirty_ victim
         then set_frame
                (set_disk (set_replacer bpm r')
                   (WritePage (disk_manager_ bpm)
                      (page_id_ victim) (data_ victim)))
                c (mkPage (page_id_ victim) (pin_count_ victim) false
                     (data_ victim))
         else set_replacer bpm r').
  assert (Hb_table : page_table_ bpm_b = page_table_ bpm)
    by (unfold bpm_b; by destruct (is_dirty_ victim)).
  assert (Hb_rep : replacer_ bpm_b = r')
    by (unfold bpm_b; by destruct (is_dirty_ victim)).
  assert (Hb_free : free_list_ bpm_b = [])
    by (unfold bpm_b; destruct (is_dirty_ victim); simpl; by rewrite ?Hfl).
  assert (Hb_next : next_page_id_ bpm_b = next_page_id_ bpm)
    by (unfold bpm_b; by destruct (is_dirty_ victim)).
  assert (Hb_size : pool_size_ bpm_b = pool_size_ bpm)
    by (unfold bpm_b; by destruct (is_dirty_ victim)).
  assert (Hb_len : length (pages_ bpm_b) = length (pages_ bpm)).
  { unfold bpm_b. destruct (is_dirty_ victim); simpl; [|done].
    by rewrite length_insert. }
  assert (Hb_frames : ∀ g, g ≠ c → frame_at bpm_b g = frame_at bpm g).
  { intros g Hg. unfold bpm_b. destruct (is_dirty_ victim); [|done].
    rewrite frame_at_set_frame_ne by (done || lia). done. }
  assert (Hb_disk : disk_manager_ bpm_b
                    = if is_dirty_ victim
                      then WritePage (disk_manager_ bpm) (page_id_ victim)
                             (data_ victim)
                      else disk_manager_ bpm)
    by (unfold bpm_b; by destruct (is_dirty_ victim)).
  rewrite Hb_table.
  destruct (Remove_ok hash_page_id (page_table_ bpm) (page_id_ victim) Htab)
    as (rr & t' & Hrem & Htab' & _ & Hgone & Hothers & _).
  rewrite Hrem. simpl.
  pose proof (Remove_bucket_size hash_page_id _ _ _ _ Hrem) as Hbs'.
  eexists. split; [reflexivity|]. simpl.
  assert (Hfind1 : ∀ pid, pid ≠ page_id_ victim →
            table_find (set_page_table bpm_b t') pid = table_find bpm pid).
  { intros pid Hpid. unfold table_find. simpl. by apply Hothers. }
  split.
  { split; [simpl; lia|]. split; [simpl; lia|]. split; [done|].
    split; [simpl; lia|]. split; [simpl; by rewrite Hb_rep|].
    split; [simpl; rewrite Hb_rep, Hb_size; lia|].
    split; [simpl; lia|]. split; [simpl; rewrite Hb_free; apply NoDup_nil_2|].
    split. { simpl. rewrite Hb_free. intros g Hg. by apply elem_of_nil in Hg. }
    split.
    { intros g page Hg Hhg.
      assert (Hgc : g ≠ c) by congruence.
      change (frame_at bpm_b g = Some page) in Hg.
      rewrite (Hb_frames g Hgc) in Hg.
      apply (frame_ok_transfer bpm); [by apply Hframes| | | | | |].
      - simpl. rewrite ?Hfl. intros Hin. by apply elem_of_nil in Hin.
      - simpl. rewrite Hb_free. intros _ Hin. by apply elem_of_nil in Hin.
      - unfold tracked. simpl. rewrite Hb_rep, Hh'.
        by rewrite lookup_delete_ne.
      - simpl. lia.
      - intros Hv. apply Hfind1. intros Heq.
        apply Hgc. symmetry.
        by apply (frame_of_page bpm None c g victim page Hinv).
      - simpl. rewrite Hb_rep.
        unfold LRUK.is_evictable. rewrite He'.
        by rewrite lookup_delete_ne. }
    split.
    { intros pid g Hg.
      assert (Hpid : pid ≠ page_id_ victim).
      { intros ->. unfold table_find in Hg. simpl in Hg. congruence. }
      rewrite (Hfind1 pid Hpid) in Hg.
      destruct (Htable pid g Hg) as (_ & page & Hpg & Hid & Hv).
      assert (Hgc : g ≠ c).
      { intros ->. assert (page = victim) as -> by congruence. done. }
      split; [congruence|]. exists page. split; [|done].
      change (frame_at bpm_b g = Some page). by rewrite Hb_frames. }
    intros h [= <-]. split; [simpl; lia|].
    split. { simpl. rewrite Hb_free. apply not_elem_of_nil. }
    unfold tracked. simpl. rewrite Hb_rep, Hh', lookup_delete_eq.
    by intros [? ?]. }
  split; [done|]. split; [done|]. split; [by rewrite Hb_rep|].
  split; [exact Hb_frames|].
  exists victim. split; [done|]. rewrite decide_False by done.
  split; [done|]. split; [done|]. split; [by apply Hpin0|].
  split; [done|]. split; [done|]. split; [exact Hfind1|exact Hb_disk].
Qed.

End PoolVictim.

Section PoolInstall.
Context {Data : Type}.
Variable zero_data : Data.
Import BufferPool.
Implicit Types (bpm : BufferPoolManagerInstance Data) (page : Page Data).

(** Every page id in the page table is an allocated one. *)
Lemma resident_range bpm hole pid f :
  pool_inv hole bpm → table_find bpm pid = Some (Some f) →
  0 ≤ pid < next_page_id_ bpm.
Proof.
  intros (_ & _ & _ & _ & _ & _ & _ & _ & _ & Hframes & Htable & _) Hfind.
  destruct (Htable pid f Hfind) as (Hh & page & Hpg & Hid & Hv).
  pose proof (Hframes f page Hpg Hh) as Hok. unfold frame_ok in Hok.
  rewrite Hid in Hok. rewrite decide_False in Hok by done.
  by destruct Hok as [Hr _].
Qed.

Lemma page_table_insert bpm hole pid f :
  pool_inv hole bpm → 0 ≤ pid < next_page_id_ bpm →
  ∃ t', ExtendibleHash.Insert hash_page_id page_table_fuel (page_table_ bpm)
          pid f = Some t' ∧
        ExtendibleHash.table_ok hash_page_id t' ∧
        ExtendibleHash.bucket_size_ t'
        = ExtendibleHash.bucket_size_ (page_table_ bpm) ∧
        ExtendibleHash.Find hash_page_id t' pid = Some (Some f) ∧
        ∀ q, q ≠ pid →
             ExtendibleHash.Find hash_page_id t' q = table_find bpm q.
Proof.
  intros Hinv Hpid.
  pose proof Hinv as (Hlen & Hps & Htab & Hbs & Hcnt & Hrs & Hnext & Hnd
                      & Hfree & Hframes & Htable & Hhole).
  destruct (slot_of_key hash_page_id _ pid Htab) as (a & b & Ha & Hb & Hbok).
  destruct Hbok as (Hd & _).
  destruct (Insert_terminates hash_page_id 31 pid f 31%nat
              (page_table_ bpm) a b Htab Hbs) as [t' Hrun];
    [rewrite hash_page_id_small; lia| |done|done|lia|].
  { intros k v Hk.
    pose proof (resident_range bpm hole k v Hinv Hk) as Hr.
    rewrite !hash_page_id_small by lia. split; [lia|done]. }
  exists t'. split; [exact Hrun|].
  destruct (Insert_ok hash_page_id _ pid f _ t' Htab Hrun) as [Hok' Hothers].
  split; [done|].
  split; [by apply (Insert_bucket_size hash_page_id _ pid f _ t' Hrun)|].
  split; [by apply (Insert_then_Find hash_page_id _ _ pid f t' Hrun)|].
  exact Hothers.
Qed.

Lemma install_spec bpm f pid buf :
  pool_inv (Some f) bpm → table_find bpm pid = Some None →
  0 ≤ pid < next_page_id_ bpm →
  LRUK.current_timestamp_ (replacer_ bpm) + 1 < 2 ^ 64 →
  ∃ bpm', install bpm f pid buf = Some bpm' ∧ pool_ok bpm' ∧
    frame_at bpm' f = Some (mkPage pid 1 false buf) ∧
    (∀ g, g ≠ f → frame_at bpm' g = frame_at bpm g) ∧
    table_find bpm' pid = Some (Some f) ∧
    (∀ q, q ≠ pid → table_find bpm' q = table_find bpm q) ∧
    disk_manager_ bpm' = disk_manager_ bpm ∧
    free_list_ bpm' = free_list_ bpm ∧
    next_page_id_ bpm' = next_page_id_ bpm ∧
    pool_size_ bpm' = pool_size_ bpm.
Proof.
  intros Hinv Hfresh Hpid Hts.
  pose proof Hinv as (Hlen & Hps & Htab & Hbs & Hcnt & Hrs & Hnext & Hnd
                      & Hfree & Hframes & Htable & Hhole).
  destruct (Hhole f eq_refl) as (Hf & Hnotfree & Hnt).
  destruct (frame_at_total bpm f) as [old Hold]; [by rewrite Hlen|].
  destruct (page_table_insert bpm (Some f) pid f Hinv Hpid)
    as (t' & Hins & Htab' & Hbs' & Hfind' & Hothers').
  pose proof Hcnt as (Hwf & _ & _ & Hrsize & _).
  assert (Hvalid : LRUK.valid_frame (replacer_ bpm) f = true).
  { apply valid_frame_in_range; lia. }
  destruct (RecordAccess_total _ f Hvalid) as [r1 Hrec].
  destruct (RecordAccess_counted _ f r1 Hcnt) as (Hcnt1 & Hsz1 & Hev1);
    [unfold LRUK.frame_id_range; lia|done|done|].
  destruct (RecordAccess_fields _ f r1 Hrec)
    as (Hrs1 & Hk1 & Hts1 & _ & Htr1 & Hh1).
  assert (Hvalid1 : LRUK.valid_frame r1 f = true).
  { apply valid_frame_in_range; lia. }
  destruct (SetEvictable_total r1 f false Hvalid1) as [r2 Hset].
  destruct (SetEvictable_counted r1 f false r2 Hcnt1 Hset)
    as (Hcnt2 & Hh2 & Hflag2 & _ & Hev2).
  destruct (SetEvictable_fields r1 f false r2 Hset) as (Hrs2 & Hk2 & Hts2 & _).
  destruct (Hflag2 Htr1) as [Hnev _].
  unfold install. rewrite Hold. cbn [mbind option_bind].
  change (page_table_ (set_frame bpm f (mkPage pid 1 false buf)))
    with (page_table_ bpm).
  rewrite Hins. cbn [mbind option_bind].
  change (replacer_ (set_page_table
                       (set_frame bpm f (mkPage pid 1 false buf)) t'))
    with (replacer_ bpm).
  rewrite Hrec. cbn [mbind option_bind]. rewrite Hset.
  cbn [mbind option_bind].
  eexists. split; [reflexivity|].
  set (bpm' := set_replacer
                 (set_page_table (set_frame bpm f (mkPage pid 1 false buf)) t')
                 r2).
  assert (Hnew : frame_at bpm' f = Some (mkPage pid 1 false buf)).
  { unfold bpm'. rewrite frame_at_set_replacer.
    change (frame_at (set_frame bpm f (mkPage pid 1 false buf)) f = Some (mkPage pid 1 false buf)).
    by apply (frame_at_set_frame_eq bpm f old). }
  assert (Hsame : ∀ g, g ≠ f → frame_at bpm' g = frame_at bpm g).
  { intros g Hg. unfold bpm'. rewrite frame_at_set_replacer.
    change (frame_at (set_frame bpm f (mkPage pid 1 false buf)) g = frame_at bpm g).
    apply frame_at_set_frame_ne; [lia|done]. }
  assert (Hothers : ∀ q, q ≠ pid → table_find bpm' q = table_find bpm q).
  { intros q Hq. unfold bpm', table_find. simpl. by apply Hothers'. }
  assert (Htf : table_find bpm' pid = Some (Some f)) by exact Hfind'.
  split.
  2:{ split; [done|]. split; [done|]. split; [done|]. by split. }
  split; [simpl; by rewrite length_insert|]. split; [done|].
  split; [done|]. split; [simpl; lia|]. split; [done|].
  split; [simpl; lia|]. split; [done|]. split; [done|]. split; [done|].
  split.
  { intros g page Hg _. destruct (decide (g = f)) as [->|Hgf].
    - rewrite Hnew in Hg. injection Hg as <-.
      unfold frame_ok. cbn [page_id_ pin_count_].
      rewrite decide_False by (unfold INVALID_PAGE_ID; lia).
      split; [done|]. split; [done|]. split; [done|].
      split. { unfold tracked. simpl. by rewrite Hh2. }
      split; [lia|]. simpl. rewrite Hnev. split; [done|lia].
    - rewrite (Hsame g Hgf) in Hg.
      assert (Hhg : Some f ≠ Some g) by congruence.
      pose proof (Hframes g page Hg Hhg) as Hok.
      apply (frame_ok_transfer bpm); [done|done|done| |simpl; lia| |].
      + unfold tracked. simpl. rewrite Hh2, Hh1 by done. done.
      + intros Hv. apply Hothers. intros Heq.
        unfold frame_ok in Hok. rewrite decide_False in Hok by done.
        destruct Hok as (_ & Hfind & _). rewrite Heq in Hfind. congruence.
      + simpl. rewrite (Hev2 g Hgf). unfold LRUK.is_evictable.
        by rewrite Hev1. }
  split; [|done].
  intros q g Hq. split; [done|].
  destruct (decide (q = pid)) as [->|Hqp].
  - rewrite Htf in Hq. injection Hq as <-.
    eexists. split; [exact Hnew|]. split; [done|].
    unfold INVALID_PAGE_ID. lia.
  - rewrite (Hothers q Hqp) in Hq.
    destruct (Htable q g Hq) as (Hhg & page & Hpg & Hid & Hv).
    exists page. split; [|done]. rewrite Hsame; [done|congruence].
Qed.

End PoolInstall.

Section PoolOperations.
Context {Data : Type}.
Variable zero_data : Data.
Import BufferPool.
Implicit Types (bpm : BufferPoolManagerInstance Data) (page : Page Data).

Lemma pool_inv_alloc bpm hole :
  pool_inv hole bpm → next_page_id_ bpm + 1 < 2 ^ 31 →
  pool_inv hole (AllocatePage bpm).2 ∧
  table_find (AllocatePage bpm).2 (next_page_id_ bpm) = Some None.
Proof.
  intros Hinv Hroom.
  pose proof Hinv as (Hlen & Hps & Htab & Hbs & Hcnt & Hrs & Hnext & Hnd
                      & Hfree & Hframes & Htable & Hhole).
  split.
  - split; [done|]. split; [done|]. split; [done|]. split; [done|].
    split; [done|]. split; [done|]. split; [simpl; lia|]. split; [done|].
    split; [done|]. split; [|by split].
    intros f page Hf Hh.
    apply (frame_ok_transfer bpm); [by apply Hframes|done|done|done| |done|done].
    simpl. lia.
  - change (table_find bpm (next_page_id_ bpm) = Some None).
    destruct (table_find_total bpm (next_page_id_ bpm) Htab) as [[g|] Hg];
      [|done].
    pose proof (resident_range bpm hole _ g Hinv Hg). lia.
Qed.

(** [NewPgImp]. *)
Lemma NewPgImp_ok bpm :
  pool_ok bpm → next_page_id_ bpm + 1 < 2 ^ 31 →
  LRUK.current_timestamp_ (replacer_ bpm) + 1 < 2 ^ 64 →
  ∃ res bpm', NewPgImp zero_data bpm = Some (res, bpm') ∧ pool_ok bpm' ∧
    match res with
    | None =>
        bpm' = bpm ∧ free_list_ bpm = [] ∧
        ∀ f page, frame_at bpm f = Some page →
                  page_id_ page ≠ INVALID_PAGE_ID ∧ 0 < pin_count_ page
    | Some (pid, f) =>
        pid = next_page_id_ bpm ∧ next_page_id_ bpm' = pid + 1 ∧
        frame_at bpm' f = Some (mkPage pid 1 false zero_data) ∧
        table_find bpm' pid = Some (Some f) ∧
        (∀ g, g ≠ f → frame_at bpm' g = frame_at bpm g) ∧
        ∃ victim, frame_at bpm f = Some victim ∧
          if decide (page_id_ victim = INVALID_PAGE_ID) then
            free_list_ bpm = f :: free_list_ bpm' ∧
            (∀ q, q ≠ pid → table_find bpm' q = table_find bpm q) ∧
            disk_manager_ bpm' = disk_manager_ bpm
          else
            free_list_ bpm = [] ∧ free_list_ bpm' = [] ∧
            pin_count_ victim = 0 ∧
            table_find bpm (page_id_ victim) = Some (Some f) ∧
            table_find bpm' (page_id_ victim) = Some None ∧
            (∀ q, q ≠ pid → q ≠ page_id_ victim →
                  table_find bpm' q = table_find bpm q) ∧
            disk_manager_ bpm'
            = if is_dirty_ victim
              then WritePage (disk_manager_ bpm) (page_id_ victim)
                     (data_ victim)
              else disk_manager_ bpm
    end.
Proof.
  intros Hinv Hroom Hts.
  destruct (obtain_frame_spec bpm Hinv) as (o & Hob & Ho).
  unfold NewPgImp. rewrite Hob. cbn [mbind option_bind].
  destruct o as [[f bpm1]|].
  2:{ exists None, bpm. split; [done|]. split; [done|]. by split. }
  destruct Ho as (Hinv1 & Hnext1 & Hsize1 & Hts1 & Hframes1 & victim & Hvic
                  & Hcase).
  destruct (pool_inv_alloc bpm1 (Some f) Hinv1) as [Hinv2 Hfresh];
    [lia|].
  assert (Hrange2 : 0 ≤ next_page_id_ bpm1
                    < next_page_id_ (AllocatePage bpm1).2).
  { destruct Hinv1 as (_ & _ & _ & _ & _ & _ & Hn & _). simpl. lia. }
  destruct (install_spec (AllocatePage bpm1).2 f (next_page_id_ bpm1)
              zero_data Hinv2 Hfresh Hrange2)
    as (bpm' & Hinst & Hok' & Hnew & Hsame & Hfind & Hothers & Hdisk & Hfl
        & Hnext' & Hsize'); [simpl; lia|].
  cbn [AllocatePage]. cbn [AllocatePage snd] in Hinst.
  rewrite Hinst. cbn [mbind option_bind].
  exists (Some (next_page_id_ bpm1, f)), bpm'.
  split; [done|]. split; [done|].
  split; [done|]. split; [rewrite Hnext'; simpl; lia|].
  split; [exact Hnew|]. split; [exact Hfind|].
  split. { intros g Hg. rewrite (Hsame g Hg). by apply Hframes1. }
  exists victim. split; [done|].
  destruct (decide (page_id_ victim = INVALID_PAGE_ID)).
  - destruct Hcase as (Hfl1 & Htab1 & Hdisk1).
    split; [by rewrite Hfl|]. split; [|by rewrite Hdisk].
    intros q Hq. rewrite Hothers by done.
    unfold table_find. simpl. by rewrite Htab1.
  - destruct Hcase as (Hfl0 & Hfl1 & Hpin & Hfv & Hgone & Hoth1 & Hdisk1).
    split; [done|]. split; [by rewrite Hfl|]. split; [done|].
    split; [done|].
    assert (Hvne : page_id_ victim ≠ next_page_id_ bpm1).
    { pose proof (resident_range bpm None _ f Hinv Hfv). lia. }
    split. { by rewrite Hothers. }
    split; [|by rewrite Hdisk].
    intros q Hq Hqv. rewrite Hothers by done.
    by apply Hoth1.
Qed.

End PoolOperations.

Section PoolFrames.
Context {Data : Type}.
Variable zero_data : Data.
Import BufferPool.
Implicit Types (bpm : BufferPoolManagerInstance Data) (page : Page Data).

(** A change of frames that keeps every page id, with pin counts and
    replacer flags that still agree, keeps the pool in order. *)
Lemma pool_ok_frames bpm bpm' :
  pool_ok bpm →
  length (pages_ bpm') = length (pages_ bpm) →
  pool_size_ bpm' = pool_size_ bpm → page_table_ bpm' = page_table_ bpm →
  free_list_ bpm' = free_list_ bpm → next_page_id_ bpm' = next_page_id_ bpm →
  LRUK.counted (replacer_ bpm') →
  LRUK.replacer_size_ (replacer_ bpm')
  = LRUK.replacer_size_ (replacer_ bpm) →
  (∀ g, tracked bpm' g ↔ tracked bpm g) →
  (∀ g page', frame_at bpm' g = Some page' →
     ∃ page, frame_at bpm g = Some page ∧ page_id_ page' = page_id_ page ∧
       (page_id_ page ≠ INVALID_PAGE_ID →
        0 ≤ pin_count_ page' ∧
        (LRUK.is_evictable (replacer_ bpm') g = true
         ↔ pin_count_ page' = 0))) →
  pool_ok bpm'.
Proof.
  intros Hinv Hlen' Hsize' Htab' Hfl' Hnext' Hcnt' Hrs' Htr' Hpages.
  pose proof Hinv as (Hlen & Hps & Htab & Hbs & Hcnt & Hrs & Hnext & Hnd
                      & Hfree & Hframes & Htable & Hhole).
  split; [lia|]. split; [lia|]. split; [by rewrite Htab'|].
  split; [by rewrite Htab'|]. split; [done|]. split; [lia|].
  split; [lia|]. split; [by rewrite Hfl'|].
  split. { rewrite Hfl', Hsize'. exact Hfree. }
  split.
  { intros g page' Hg _.
    destruct (Hpages g page' Hg) as (page & Hpg & Hid & Hpin).
    pose proof (Hframes g page Hpg ltac:(done)) as Hok.
    unfold frame_ok in *. rewrite Hid.
    destruct (decide (page_id_ page = INVALID_PAGE_ID)) as [Hi|Hv].
    - destruct Hok as [H1 H2]. split; [by rewrite Hfl'|]. by rewrite Htr'.
    - destruct Hok as (H1 & H2 & H3 & H4 & H5 & H6).
      destruct (Hpin Hv) as [Hp Hev].
      split; [lia|]. split; [unfold table_find; by rewrite Htab'|].
      split; [by rewrite Hfl'|]. split; [by apply Htr'|]. by split. }
  split; [|done].
  intros pid g Hg. split; [done|].
  assert (Hg0 : table_find bpm pid = Some (Some g))
    by (unfold table_find in *; by rewrite <- Htab').
  destruct (Htable pid g Hg0) as (_ & page & Hpg & Hid & Hv).
  destruct (frame_at_total bpm' g) as [page' Hpg'].
  { rewrite Hlen'. by eapply frame_at_range. }
  destruct (Hpages g page' Hpg') as (page0 & Hpg0 & Hid0 & _).
  exists page'. split; [done|]. split; [congruence|done].
Qed.

Lemma frame_at_insert bpm bpm' f page page' :
  frame_at bpm f = Some page →
  pages_ bpm' = <[Z.to_nat f := page']> (pages_ bpm) →
  frame_at bpm' f = Some page' ∧
  ∀ g, g ≠ f → frame_at bpm' g = frame_at bpm g.
Proof.
  intros Hf Hpages. pose proof (frame_at_range bpm f page Hf) as Hr.
  unfold frame_at. rewrite Hpages. split.
  - rewrite bool_decide_eq_false_2 by lia.
    apply list_lookup_insert_eq. lia.
  - intros g Hg. destruct (bool_decide (g < 0)) eqn:Hneg; [done|].
    apply bool_decide_eq_false in Hneg.
    apply list_lookup_insert_ne. lia.
Qed.

(** One frame changes, keeping its page id. *)
Lemma pool_ok_update bpm bpm' f page page' :
  pool_ok bpm → frame_at bpm f = Some page →
  page_id_ page ≠ INVALID_PAGE_ID →
  page_id_ page' = page_id_ page → 0 ≤ pin_count_ page' →
  pages_ bpm' = <[Z.to_nat f := page']> (pages_ bpm) →
  pool_size_ bpm' = pool_size_ bpm → page_table_ bpm' = page_table_ bpm →
  free_list_ bpm' = free_list_ bpm → next_page_id_ bpm' = next_page_id_ bpm →
  LRUK.counted (replacer_ bpm') →
  LRUK.replacer_size_ (replacer_ bpm')
  = LRUK.replacer_size_ (replacer_ bpm) →
  (∀ g, tracked bpm' g ↔ tracked bpm g) →
  (∀ g, g ≠ f → LRUK.is_evictable (replacer_ bpm') g
                = LRUK.is_evictable (replacer_ bpm) g) →
  (LRUK.is_evictable (replacer_ bpm') f = true ↔ pin_count_ page' = 0) →
  pool_ok bpm'.
Proof.
  intros Hinv Hf Hv Hid Hpin Hpages Hsize' Htab' Hfl' Hnext' Hcnt' Hrs' Htr'
    Hevo Hevf.
  destruct (frame_at_insert bpm bpm' f page page' Hf Hpages) as [Hnew Hsame].
  apply (pool_ok_frames bpm); try done.
  { rewrite Hpages. by rewrite length_insert. }
  intros g q Hg. destruct (decide (g = f)) as [->|Hgf].
  - exists page. split; [done|]. assert (q = page') as -> by congruence.
    split; [done|]. by intros _.
  - rewrite (Hsame g Hgf) in Hg. exists q. split; [done|]. split; [done|].
    intros Hq.
    destruct Hinv as (_ & _ & _ & _ & _ & _ & _ & _ & _ & Hframes & _).
    pose proof (Hframes g q Hg ltac:(done)) as Hok. unfold frame_ok in Hok.
    rewrite decide_False in Hok by done.
    destruct Hok as (_ & _ & _ & _ & Hp & Hev). split; [done|].
    by rewrite (Hevo g Hgf).
Qed.

End PoolFrames.

Section PoolFetch.
Context {Data : Type}.
Variable zero_data : Data.
Import BufferPool.
Implicit Types (bpm : BufferPoolManagerInstance Data) (page : Page Data).

(** What the pool knows of a resident page. *)
Lemma resident_frame bpm pid f :
  pool_ok bpm → table_find bpm pid = Some (Some f) →
  ∃ page, frame_at bpm f = Some page ∧ page_id_ page = pid ∧
    pid ≠ INVALID_PAGE_ID ∧ 0 ≤ pid < next_page_id_ bpm ∧
    0 ≤ f < Z.of_nat (pool_size_ bpm) ∧
    (f ∉ free_list_ bpm) ∧ tracked bpm f ∧ 0 ≤ pin_count_ page ∧
    (LRUK.is_evictable (replacer_ bpm) f = true ↔ pin_count_ page = 0).
Proof.
  intros Hinv Hfind.
  pose proof Hinv as (Hlen & Hps & Htab & Hbs & Hcnt & Hrs & Hnext & Hnd
                      & Hfree & Hframes & Htable & Hhole).
  destruct (Htable pid f Hfind) as (_ & page & Hpg & Hid & Hv).
  pose proof (Hframes f page Hpg ltac:(done)) as Hok. unfold frame_ok in Hok.
  rewrite Hid in Hok. rewrite decide_False in Hok by done.
  destruct Hok as (H1 & H2 & H3 & H4 & H5 & H6).
  exists page. split; [done|]. split; [done|]. split; [done|].
  split; [done|]. split; [|done].
  rewrite <- Hlen. by eapply frame_at_range.
Qed.

Lemma FetchPgImp_ok bpm pid :
  pool_ok bpm → 0 ≤ pid < next_page_id_ bpm →
  LRUK.current_timestamp_ (replacer_ bpm) + 1 < 2 ^ 64 →
  ∃ res bpm', FetchPgImp zero_data bpm pid = Some (res, bpm') ∧
    pool_ok bpm' ∧ next_page_id_ bpm' = next_page_id_ bpm ∧
    match table_find bpm pid with
    | Some (Some f) =>
        res = Some f ∧
        ∃ page, frame_at bpm f = Some page ∧
          frame_at bpm' f
          = Some (mkPage pid (pin_count_ page + 1) (is_dirty_ page)
                    (data_ page)) ∧
          (∀ g, g ≠ f → frame_at bpm' g = frame_at bpm g) ∧
          page_table_ bpm' = page_table_ bpm ∧
          free_list_ bpm' = free_list_ bpm ∧
          disk_manager_ bpm' = disk_manager_ bpm
    | _ =>
        match res with
        | None =>
            bpm' = bpm ∧ free_list_ bpm = [] ∧
            ∀ f page, frame_at bpm f = Some page →
                      page_id_ page ≠ INVALID_PAGE_ID ∧ 0 < pin_count_ page
        | Some f =>
            frame_at bpm' f
            = Some (mkPage pid 1 false
                      (ReadPage zero_data (disk_manager_ bpm') pid)) ∧
            table_find bpm' pid = Some (Some f) ∧
            (∀ g, g ≠ f → frame_at bpm' g = frame_at bpm g) ∧
            ∃ victim, frame_at bpm f = Some victim ∧
              if decide (page_id_ victim = INVALID_PAGE_ID) then
                free_list_ bpm = f :: free_list_ bpm' ∧
                (∀ q, q ≠ pid → table_find bpm' q = table_find bpm q) ∧
                disk_manager_ bpm' = disk_manager_ bpm
              else
                free_list_ bpm = [] ∧ free_list_ bpm' = [] ∧
                pin_count_ victim = 0 ∧
                table_find bpm (page_id_ victim) = Some (Some f) ∧
                table_find bpm' (page_id_ victim) = Some None ∧
                (∀ q, q ≠ pid → q ≠ page_id_ victim →
                      table_find bpm' q = table_find bpm q) ∧
                disk_manager_ bpm'
                = if is_dirty_ victim
                  then WritePage (disk_manager_ bpm) (page_id_ victim)
                         (data_ victim)
                  else disk_manager_ bpm
        end
    end.
Proof.
  intros Hinv Hpid Hts.
  pose proof Hinv as (Hlen & Hps & Htab & Hbs & Hcnt & Hrs & Hnext & Hnd
                      & Hfree & Hframes & Htable & Hhole).
  unfold FetchPgImp.
  rewrite bool_decide_eq_false_2 by (unfold INVALID_PAGE_ID; lia).
  destruct (table_find_total bpm pid Htab) as [found Hfound].
  rewrite Hfound. cbn [mbind option_bind].
  destruct found as [f|].
  - (* resident *)
    destruct (resident_frame bpm pid f Hinv Hfound)
      as (page & Hpg & Hid & Hv & _ & Hf & Hnotfree & Htr & Hpin & Hev).
    rewrite Hpg. cbn [mbind option_bind].
    set (page' := mkPage (page_id_ page) (pin_count_ page + 1)
                    (is_dirty_ page) (data_ page)).
    change (replacer_ (set_frame bpm f page')) with (replacer_ bpm).
    pose proof Hcnt as (_ & _ & _ & Hrsize & _).
    assert (Hvalid : LRUK.valid_frame (replacer_ bpm) f = true)
      by (apply valid_frame_in_range; lia).
    destruct (RecordAccess_total _ f Hvalid) as [r1 Hrec].
    destruct (RecordAccess_counted _ f r1 Hcnt) as (Hcnt1 & Hsz1 & Hev1);
      [unfold LRUK.frame_id_range; lia|done|done|].
    destruct (RecordAccess_fields _ f r1 Hrec)
      as (Hrs1 & Hk1 & Hts1 & _ & Htr1 & Hh1).
    assert (Hvalid1 : LRUK.valid_frame r1 f = true)
      by (apply valid_frame_in_range; lia).
    destruct (SetEvictable_total r1 f false Hvalid1) as [r2 Hset].
    destruct (SetEvictable_counted r1 f false r2 Hcnt1 Hset)
      as (Hcnt2 & Hh2 & Hflag2 & _ & Hev2).
    destruct (SetEvictable_fields r1 f false r2 Hset)
      as (Hrs2 & Hk2 & Hts2 & _).
    destruct (Hflag2 Htr1) as [Hnev _].
    rewrite Hrec. cbn [mbind option_bind]. rewrite Hset.
    cbn [mbind option_bind].
    eexists _, _. split; [reflexivity|].
    destruct (frame_at_insert bpm (set_replacer (set_frame bpm f page') r2)
                f page page' Hpg eq_refl) as [Hnew Hsame].
    split.
    { apply (pool_ok_update bpm _ f page page' Hinv Hpg);
        [congruence|done|unfold page'; simpl; lia|done|done|done|done|done
        |exact Hcnt2|simpl; lia| | |].
      - intros g. unfold tracked. simpl. rewrite Hh2.
        destruct (decide (g = f)) as [->|Hgf]; [done|]. by rewrite Hh1.
      - intros g Hg. simpl. rewrite (Hev2 g Hg).
        unfold LRUK.is_evictable. by rewrite Hev1.
      - simpl. rewrite Hnev. unfold page'. simpl. split; [done|lia]. }
    split; [done|]. split; [done|].
    exists page. split; [done|]. split; [by rewrite Hnew, <- Hid|].
    split; [done|]. done.
  - (* not resident: a frame is chosen *)
    destruct (obtain_frame_spec bpm Hinv) as (o & Hob & Ho).
    rewrite Hob. cbn [mbind option_bind].
    destruct o as [[f bpm1]|].
    2:{ exists None, bpm. split; [done|]. split; [done|]. split; [done|].
        by split. }
    destruct Ho as (Hinv1 & Hnext1 & Hsize1 & Hts1 & Hframes1 & victim & Hvic
                    & Hcase).
    assert (Hfresh : table_find bpm1 pid = Some None).
    { destruct (decide (page_id_ victim = INVALID_PAGE_ID)).
      - destruct Hcase as (_ & Htab1 & _). unfold table_find.
        by rewrite Htab1.
      - destruct Hcase as (_ & _ & _ & Hfv & Hgone & Hoth1 & _).
        destruct (decide (pid = page_id_ victim)) as [->|Hne]; [done|].
        by rewrite Hoth1. }
    destruct (install_spec bpm1 f pid
                (ReadPage zero_data (disk_manager_ bpm1) pid) Hinv1 Hfresh)
      as (bpm' & Hinst & Hok' & Hnew & Hsame & Hfind & Hothers & Hdisk & Hfl
          & Hnext' & Hsize'); [lia|lia|].
    rewrite Hinst. cbn [mbind option_bind].
    exists (Some f), bpm'. split; [done|]. split; [done|].
    split; [lia|].
    split; [by rewrite Hdisk|]. split; [done|].
    split. { intros g Hg. rewrite (Hsame g Hg). by apply Hframes1. }
    exists victim. split; [done|].
    destruct (decide (page_id_ victim = INVALID_PAGE_ID)).
    + destruct Hcase as (Hfl1 & Htab1 & Hdisk1).
      split; [by rewrite Hfl|]. split; [|by rewrite Hdisk].
      intros q Hq. rewrite Hothers by done.
      unfold table_find. by rewrite Htab1.
    + destruct Hcase as (Hfl0 & Hfl1 & Hpin & Hfv & Hgone & Hoth1 & Hdisk1).
      split; [done|]. split; [by rewrite Hfl|]. split; [done|].
      split; [done|].
      assert (Hvne : page_id_ victim ≠ pid) by congruence.
      split. { by rewrite Hothers. }
      split; [|by rewrite Hdisk].
      intros q Hq Hqv. rewrite Hothers by done. by apply Hoth1.
Qed.

End PoolFetch.

Section PoolRelease.
Context {Data : Type}.
Variable zero_data : Data.
Import BufferPool.
Implicit Types (bpm : BufferPoolManagerInstance Data) (page : Page Data).

Lemma UnpinPgImp_ok bpm pid (is_dirty : bool) :
  pool_ok bpm →
  ∃ res bpm', UnpinPgImp bpm pid is_dirty = Some (res, bpm') ∧
    pool_ok bpm' ∧
    page_table_ bpm' = page_table_ bpm ∧ free_list_ bpm' = free_list_ bpm ∧
    disk_manager_ bpm' = disk_manager_ bpm ∧
    next_page_id_ bpm' = next_page_id_ bpm ∧
    match table_find bpm pid with
    | Some (Some f) =>
        ∃ page, frame_at bpm f = Some page ∧
          if decide (pin_count_ page = 0) then res = false ∧ bpm' = bpm
          else
            res = true ∧
            frame_at bpm' f
            = Some (mkPage pid (pin_count_ page - 1)
                      (is_dirty || is_dirty_ page) (data_ page)) ∧
            (∀ g, g ≠ f → frame_at bpm' g = frame_at bpm g) ∧
            (LRUK.is_evictable (replacer_ bpm') f = true
             ↔ pin_count_ page = 1)
    | _ => res = false ∧ bpm' = bpm
    end.
Proof.
  intros Hinv.
  pose proof Hinv as (Hlen & Hps & Htab & Hbs & Hcnt & Hrs & Hnext & Hnd
                      & Hfree & Hframes & Htable & Hhole).
  unfold UnpinPgImp.
  destruct (table_find_total bpm pid Htab) as [found Hfound].
  rewrite Hfound. cbn [mbind option_bind].
  destruct found as [f|].
  2:{ exists false, bpm. by repeat (split; [done|]). }
  destruct (resident_frame bpm pid f Hinv Hfound)
    as (page & Hpg & Hid & Hv & _ & Hf & Hnotfree & Htr & Hpin & Hev).
  rewrite Hpg. cbn [mbind option_bind].
  destruct (decide (pin_count_ page = 0)) as [Hz|Hnz].
  { rewrite bool_decide_eq_true_2 by lia.
    exists false, bpm. do 6 (split; [done|]). exists page.
    split; [done|]. by rewrite decide_True. }
  rewrite bool_decide_eq_false_2 by lia.
  set (page' := mkPage (page_id_ page) (pin_count_ page - 1)
                  (if is_dirty then true else is_dirty_ page) (data_ page)).
  assert (Hpage' : page' = mkPage pid (pin_count_ page - 1)
                             (is_dirty || is_dirty_ page) (data_ page)).
  { unfold page'. rewrite Hid. by destruct is_dirty. }
  pose proof Hcnt as (_ & _ & _ & Hrsize & _).
  assert (Hvalid : LRUK.valid_frame (replacer_ bpm) f = true)
    by (apply valid_frame_in_range; lia).
  destruct (decide (pin_count_ page - 1 = 0)) as [Hlast|Hmore].
  - rewrite bool_decide_eq_true_2 by done.
    change (replacer_ (set_frame bpm f page')) with (replacer_ bpm).
    destruct (SetEvictable_total _ f true Hvalid) as [r2 Hset].
    destruct (SetEvictable_counted _ f true r2 Hcnt Hset)
      as (Hcnt2 & Hh2 & Hflag2 & _ & Hev2).
    destruct (SetEvictable_fields _ f true r2 Hset)
      as (Hrs2 & Hk2 & Hts2 & _).
    destruct (Hflag2 Htr) as [Hyes _].
    rewrite Hset. cbn [mbind option_bind].
    eexists _, _. split; [reflexivity|].
    destruct (frame_at_insert bpm (set_replacer (set_frame bpm f page') r2)
                f page page' Hpg eq_refl) as [Hnew Hsame].
    split.
    { apply (pool_ok_update bpm _ f page page' Hinv Hpg);
        [congruence|done|unfold page'; simpl; lia|done|done|done|done|done
        |exact Hcnt2|simpl; lia| | |].
      - intros g. unfold tracked. simpl. by rewrite Hh2.
      - intros g Hg. simpl. by rewrite (Hev2 g Hg).
      - simpl. rewrite Hyes. unfold page'. simpl. split; [lia|done]. }
    do 4 (split; [done|]). exists page. split; [done|].
    rewrite decide_False by done. split; [done|].
    split; [by rewrite Hnew, Hpage'|]. split; [done|].
    simpl. rewrite Hyes. split; [lia|done].
  - rewrite bool_decide_eq_false_2 by done.
    eexists _, _. split; [reflexivity|].
    destruct (frame_at_insert bpm (set_frame bpm f page')
                f page page' Hpg eq_refl) as [Hnew Hsame].
    split.
    { apply (pool_ok_update bpm _ f page page' Hinv Hpg);
        [congruence|done|unfold page'; simpl; lia|done|done|done|done|done
        |exact Hcnt|done|done|done|].
      simpl. unfold page'. simpl. split; [|lia].
      intros He. apply Hev in He. lia. }
    do 4 (split; [done|]). exists page. split; [done|].
    rewrite decide_False by done. split; [done|].
    split; [by rewrite Hnew, Hpage'|]. split; [done|].
    simpl. split; [|lia]. intros He. apply Hev in He. lia.
Qed.

Lemma DeletePgImp_ok bpm pid :
  pool_ok bpm →
  ∃ res bpm', DeletePgImp zero_data bpm pid = Some (res, bpm') ∧
    pool_ok bpm' ∧
    disk_manager_ bpm' = disk_manager_ bpm ∧
    next_page_id_ bpm' = next_page_id_ bpm ∧
    match table_find bpm pid with
    | Some (Some f) =>
        ∃ page, frame_at bpm f = Some page ∧
          if decide (pin_count_ page = 0) then
            res = true ∧ table_find bpm' pid = Some None ∧
            (∀ q, q ≠ pid → table_find bpm' q = table_find bpm q) ∧
            frame_at bpm' f = Some (mkPage INVALID_PAGE_ID 0 false zero_data) ∧
            (∀ g, g ≠ f → frame_at bpm' g = frame_at bpm g) ∧
            free_list_ bpm' = free_list_ bpm ++ [f] ∧
            (¬ tracked bpm' f)
          else res = false ∧ bpm' = bpm
    | _ => res = true ∧ bpm' = bpm
    end.
Proof.
  intros Hinv.
  pose proof Hinv as (Hlen & Hps & Htab & Hbs & Hcnt & Hrs & Hnext & Hnd
                      & Hfree & Hframes & Htable & Hhole).
  unfold DeletePgImp.
  destruct (table_find_total bpm pid Htab) as [found Hfound].
  rewrite Hfound. cbn [mbind option_bind].
  destruct found as [f|].
  2:{ exists true, bpm. by repeat (split; [done|]). }
  destruct (resident_frame bpm pid f Hinv Hfound)
    as (page & Hpg & Hid & Hv & _ & Hf & Hnotfree & Htr & Hpin & Hev).
  rewrite Hpg. cbn [mbind option_bind].
  destruct (decide (pin_count_ page = 0)) as [Hz|Hnz].
  2:{ rewrite bool_decide_eq_true_2 by lia.
      exists false, bpm. do 4 (split; [done|]). exists page.
      split; [done|]. by rewrite decide_False. }
  rewrite bool_decide_eq_false_2 by lia.
  pose proof Hcnt as (_ & _ & _ & Hrsize & _).
  assert (Hvalid : LRUK.valid_frame (replacer_ bpm) f = true)
    by (apply valid_frame_in_range; lia).
  destruct (SetEvictable_total _ f true Hvalid) as [r1 Hset].
  destruct (SetEvictable_counted _ f true r1 Hcnt Hset)
    as (Hcnt1 & Hh1 & Hflag1 & _ & Hev1).
  destruct (SetEvictable_fields _ f true r1 Hset) as (Hrs1 & Hk1 & Hts1 & _).
  destruct (Hflag1 Htr) as [Hyes _].
  rewrite Hset. cbn [mbind option_bind].
  assert (Htr1 : is_Some (LRUK.history_ r1 !! f)) by by rewrite Hh1.
  destruct Htr1 as [h Hh].
  assert (Hrem : LRUK.Remove r1 f
                 = Some (LRUK.mkReplacer (LRUK.replacer_size_ r1) (LRUK.k_ r1)
                           (LRUK.current_timestamp_ r1)
                           (LRUK.wrap (LRUK.curr_size_ r1 - 1))
                           (delete f (LRUK.history_ r1))
                           (delete f (LRUK.evictable_ r1)))).
  { unfold LRUK.Remove.
    rewrite (valid_frame_in_range r1 f) by lia. simpl.
    rewrite Hh, Hyes. done. }
  destruct (drop_frame_counted r1 f Hcnt1) as [Hcnt2 _]; [by eexists|done|].
  rewrite Hrem. cbn [mbind option_bind].
  set (r2 := LRUK.mkReplacer _ _ _ _ _ _) in *.
  change (page_table_ (set_replacer bpm r2)) with (page_table_ bpm).
  destruct (Remove_ok hash_page_id (page_table_ bpm) pid Htab)
    as (rr & t' & Hremt & Htab' & _ & Hgone & Hothers & _).
  rewrite Hremt. cbn [mbind option_bind].
  pose proof (Remove_bucket_size hash_page_id _ _ _ _ Hremt) as Hbs'.
  eexists _, _. split; [reflexivity|].
  set (empty := mkPage INVALID_PAGE_ID 0 false zero_data).
  set (bpm' := set_free_list _ _).
  destruct (frame_at_insert bpm bpm' f page empty Hpg eq_refl)
    as [Hnew Hsame].
  assert (Hfind' : ∀ q, q ≠ pid → table_find bpm' q = table_find bpm q).
  { intros q Hq. unfold bpm', table_find. simpl. by apply Hothers. }
  assert (Hnt : ¬ tracked bpm' f).
  { unfold tracked, bpm', r2. simpl. rewrite lookup_delete_eq.
    by intros [? ?]. }
  split.
  2:{ do 2 (split; [done|]). exists page. split; [done|].
      rewrite decide_True by done. split; [done|]. split; [exact Hgone|].
      by repeat (split; [done|]). }
  split; [unfold bpm'; simpl; by rewrite length_insert|].
  split; [done|]. split; [done|]. split; [unfold bpm'; simpl; lia|].
  split; [done|]. split; [unfold bpm'; simpl; lia|]. split; [done|].
  split.
  { unfold bpm'. simpl. apply NoDup_app. split; [done|].
    split; [|apply NoDup_singleton].
    intros x Hx Hx'. apply list_elem_of_singleton in Hx' as ->. done. }
  split.
  { unfold bpm'. simpl. intros g Hg. apply elem_of_app in Hg as [Hg|Hg].
    - by apply Hfree.
    - apply list_elem_of_singleton in Hg as ->. done. }
  split.
  { intros g q Hg _. destruct (decide (g = f)) as [->|Hgf].
    - rewrite Hnew in Hg. injection Hg as <-.
      unfold frame_ok. cbn [page_id_ empty].
      destruct (decide (INVALID_PAGE_ID = INVALID_PAGE_ID)) as [_|?]; [|done].
      split; [|done]. unfold bpm'. simpl. apply elem_of_app. right.
      apply list_elem_of_singleton. done.
    - rewrite (Hsame g Hgf) in Hg.
      apply (frame_ok_transfer bpm); [by apply Hframes| | | |done| |].
      + unfold bpm'. simpl. intros Hin. apply elem_of_app. by left.
      + unfold bpm'. simpl. intros Hout Hin.
        apply elem_of_app in Hin as [Hin|Hin]; [done|].
        by apply list_elem_of_singleton in Hin.
      + unfold tracked, bpm', r2. simpl. rewrite lookup_delete_ne by done.
        by rewrite Hh1.
      + intros Hq. apply Hfind'. intros Heq. apply Hgf. symmetry.
        apply (frame_of_page bpm None f g page q Hinv); try done.
        * congruence.
        * congruence.
      + unfold bpm', r2. simpl. unfold LRUK.is_evictable at 1. simpl.
        rewrite lookup_delete_ne by done.
        by rewrite <- (Hev1 g Hgf). }
  split; [|done].
  intros q g Hg. split; [done|].
  assert (Hq : q ≠ pid).
  { intros ->. unfold table_find, bpm' in Hg. simpl in Hg. congruence. }
  rewrite (Hfind' q Hq) in Hg.
  destruct (Htable q g Hg) as (_ & pg & Hpg' & Hidq & Hvq).
  assert (Hgf : g ≠ f).
  { intros ->. assert (pg = page) as -> by congruence. congruence. }
  exists pg. split; [|done]. by rewrite Hsame.
Qed.

End PoolRelease.

Section PoolContent.
Context {Data : Type}.
Variable zero_data : Data.
Import BufferPool.
Implicit Types (bpm : BufferPoolManagerInstance Data) (page : Page Data).

Lemma ReadPage_WritePage_eq (d : DiskManager Data) pid buf :
  ReadPage zero_data (WritePage d pid buf) pid = buf.
Proof. unfold ReadPage, WritePage. simpl. by rewrite lookup_insert_eq. Qed.

Lemma ReadPage_WritePage_ne (d : DiskManager Data) pid buf q :
  q ≠ pid → ReadPage zero_data (WritePage d pid buf) q = ReadPage zero_data d q.
Proof.
  intros Hq. unfold ReadPage, WritePage. simpl. by rewrite lookup_insert_ne.
Qed.

Lemma stored_WritePage (d : DiskManager Data) pid buf q :
  is_Some (stored (WritePage d pid buf) !! q) →
  q = pid ∨ is_Some (stored d !! q).
Proof.
  unfold WritePage. simpl. destruct (decide (q = pid)) as [->|Hq]; [by left|].
  rewrite lookup_insert_ne by done. by right.
Qed.

Lemma page_content_resident bpm pid f page :
  table_find bpm pid = Some (Some f) → frame_at bpm f = Some page →
  page_content zero_data bpm pid = Some (data_ page).
Proof. intros Hf Hp. unfold page_content. rewrite Hf. simpl. by rewrite Hp. Qed.

Lemma page_content_absent bpm pid :
  table_find bpm pid = Some None →
  page_content zero_data bpm pid
  = Some (ReadPage zero_data (disk_manager_ bpm) pid).
Proof. intros Hf. unfold page_content. by rewrite Hf. Qed.

Lemma takes_frame_content bpm bpm' f pid buf :
  pool_ok bpm → disk_ok zero_data bpm → pool_ok bpm' →
  takes_frame bpm bpm' f pid →
  table_find bpm pid = Some None →
  frame_at bpm' f = Some (mkPage pid 1 false buf) →
  next_page_id_ bpm ≤ next_page_id_ bpm' →
  buf = ReadPage zero_data (disk_manager_ bpm') pid →
  disk_ok zero_data bpm' ∧
  ∀ q, q ≠ pid →
       page_content zero_data bpm' q = page_content zero_data bpm q.
Proof.
  intros Hinv [Hclean Hstored] Hinv' (Hfind' & Hsame & victim & Hvic & Hcase)
    Habsent Hnew Hnext Hbuf.
  pose proof Hinv as (Hlen & Hps & Htab & Hbs & Hcnt & Hrs & Hnx & Hnd
                      & Hfree & Hframes & Htable & Hhole).
  (* the disk changes at most at the page of the victim *)
  assert (Hread : ∀ q, (page_id_ victim = INVALID_PAGE_ID ∨ q ≠ page_id_ victim) →
            ReadPage zero_data (disk_manager_ bpm') q
            = ReadPage zero_data (disk_manager_ bpm) q).
  { intros q Hq. destruct (decide (page_id_ victim = INVALID_PAGE_ID)).
    - destruct Hcase as (_ & _ & ->). done.
    - destruct Hcase as (_ & _ & _ & _ & _ & _ & ->).
      destruct Hq as [?|Hq]; [done|].
      destruct (is_dirty_ victim); [|done].
      by apply ReadPage_WritePage_ne. }
  assert (Hvictim : page_id_ victim ≠ INVALID_PAGE_ID →
            ReadPage zero_data (disk_manager_ bpm') (page_id_ victim)
            = data_ victim).
  { intros Hv. rewrite decide_False in Hcase by done.
    destruct Hcase as (_ & _ & _ & _ & _ & _ & ->).
    destruct (is_dirty_ victim) eqn:Hd.
    - apply ReadPage_WritePage_eq.
    - symmetry. by apply (Hclean f). }
  (* a page in another frame is not the page of the victim *)
  assert (Hother : ∀ g page, g ≠ f → frame_at bpm g = Some page →
            page_id_ page ≠ INVALID_PAGE_ID →
            page_id_ victim = INVALID_PAGE_ID ∨ page_id_ page ≠ page_id_ victim).
  { intros g page Hg Hpg Hv.
    destruct (decide (page_id_ victim = INVALID_PAGE_ID)); [by left|].
    right. intros Heq. apply Hg.
    by apply (frame_of_page bpm None g f page victim Hinv). }
  split.
  { split.
    - intros g page Hpg Hv Hd. destruct (decide (g = f)) as [->|Hg].
      + rewrite Hnew in Hpg. injection Hpg as <-. exact Hbuf.
      + rewrite (Hsame g Hg) in Hpg.
        rewrite (Hread (page_id_ page)) by by eapply Hother.
        by apply (Hclean g).
    - intros q Hq.
      destruct (decide (page_id_ victim = INVALID_PAGE_ID)).
      + destruct Hcase as (_ & _ & Hdisk). rewrite Hdisk in Hq.
        pose proof (Hstored q Hq). lia.
      + destruct Hcase as (_ & _ & _ & Hfv & _ & _ & Hdisk).
        rewrite Hdisk in Hq.
        pose proof (resident_range bpm None _ f Hinv Hfv) as Hr.
        destruct (is_dirty_ victim).
        * apply stored_WritePage in Hq as [->|Hq]; [lia|].
          pose proof (Hstored q Hq). lia.
        * pose proof (Hstored q Hq). lia. }
  intros q Hq.
  destruct (decide (page_id_ victim ≠ INVALID_PAGE_ID ∧ q = page_id_ victim))
    as [[Hv ->]|Hnv].
  { rewrite decide_False in Hcase by done.
    destruct Hcase as (_ & _ & _ & Hfv & Hgone & _).
    rewrite (page_content_absent bpm' _ Hgone).
    rewrite (page_content_resident bpm _ f victim Hfv Hvic).
    by rewrite Hvictim. }
  assert (Hqv : page_id_ victim = INVALID_PAGE_ID ∨ q ≠ page_id_ victim).
  { destruct (decide (page_id_ victim = INVALID_PAGE_ID)); [by left|].
    right. intros ->. by apply Hnv. }
  assert (Htq : table_find bpm' q = table_find bpm q).
  { destruct (decide (page_id_ victim = INVALID_PAGE_ID)).
    - destruct Hcase as (_ & Ht & _). by apply Ht.
    - destruct Hcase as (_ & _ & _ & _ & _ & Ht & _). apply Ht; [done|].
      by destruct Hqv. }
  destruct (table_find_total bpm q Htab) as [[g|] Hg].
  - destruct (Htable q g Hg) as (_ & page & Hpg & Hid & Hv).
    assert (Hgf : g ≠ f).
    { intros ->. assert (page = victim) as -> by congruence.
      destruct Hqv as [?|?]; congruence. }
    rewrite (page_content_resident bpm q g page Hg Hpg).
    apply (page_content_resident bpm' q g page); [by rewrite Htq|].
    by rewrite Hsame.
  - rewrite (page_content_absent bpm q Hg).
    rewrite page_content_absent by by rewrite Htq.
    by rewrite Hread.
Qed.

End PoolContent.

Section PoolFlush.
Context {Data : Type}.
Variable zero_data : Data.
Import BufferPool.
Implicit Types (bpm : BufferPoolManagerInstance Data) (page : Page Data).

Lemma written_back_ok bpm f page :
  pool_ok bpm → frame_at bpm f = Some page →
  page_id_ page ≠ INVALID_PAGE_ID →
  pool_ok (written_back bpm f page) ∧
  (disk_ok zero_data bpm → disk_ok zero_data (written_back bpm f page)) ∧
  (∀ q, page_content zero_data (written_back bpm f page) q
        = page_content zero_data bpm q) ∧
  ReadPage zero_data (disk_manager_ (written_back bpm f page)) (page_id_ page)
  = data_ page.
Proof.
  intros Hinv Hpg Hv.
  pose proof Hinv as (Hlen & Hps & Htab & Hbs & Hcnt & Hrs & Hnx & Hnd
                      & Hfree & Hframes & Htable & Hhole).
  pose proof (Hframes f page Hpg ltac:(done)) as Hok. unfold frame_ok in Hok.
  rewrite decide_False in Hok by done.
  destruct Hok as (Hrange & Hfind & _ & _ & Hpin & Hev).
  set (page' := mkPage (page_id_ page) (pin_count_ page) false (data_ page)).
  destruct (frame_at_insert bpm (written_back bpm f page) f page page' Hpg
              eq_refl) as [Hnew Hsame].
  assert (Hother : ∀ g pg, g ≠ f → frame_at bpm g = Some pg →
            page_id_ pg ≠ INVALID_PAGE_ID → page_id_ pg ≠ page_id_ page).
  { intros g pg Hg Hpg' Hvg Heq. apply Hg.
    by apply (frame_of_page bpm None g f pg page Hinv). }
  split.
  { by apply (pool_ok_update bpm _ f page page' Hinv Hpg). }
  split.
  { intros [Hclean Hstored]. split.
    - intros g pg Hg Hvg Hd. destruct (decide (g = f)) as [->|Hgf].
      + rewrite Hnew in Hg. injection Hg as <-. simpl.
        symmetry. apply ReadPage_WritePage_eq.
      + rewrite (Hsame g Hgf) in Hg. simpl.
        rewrite ReadPage_WritePage_ne by by eapply Hother.
        by apply (Hclean g).
    - simpl. intros q Hq. apply stored_WritePage in Hq as [->|Hq]; [lia|].
      by apply Hstored. }
  split; [|apply ReadPage_WritePage_eq].
  intros q.
  assert (Htq : table_find (written_back bpm f page) q = table_find bpm q)
    by done.
  destruct (table_find_total bpm q Htab) as [[g|] Hg].
  - destruct (Htable q g Hg) as (_ & pg & Hpg' & Hid & Hvq).
    rewrite (page_content_resident zero_data bpm q g pg Hg Hpg').
    destruct (decide (g = f)) as [->|Hgf].
    + assert (pg = page) as -> by congruence.
      by apply (page_content_resident zero_data _ q f page');
        [rewrite Htq|].
    + apply (page_content_resident zero_data _ q g pg); [by rewrite Htq|].
      by rewrite Hsame.
  - rewrite (page_content_absent zero_data bpm q Hg).
    rewrite page_content_absent by by rewrite Htq.
    simpl. rewrite ReadPage_WritePage_ne; [done|].
    intros ->. congruence.
Qed.

Lemma FlushPgImp_ok bpm pid :
  pool_ok bpm →
  ∃ res bpm', FlushPgImp bpm pid = Some (res, bpm') ∧ pool_ok bpm' ∧
    (disk_ok zero_data bpm → disk_ok zero_data bpm') ∧
    (∀ q, page_content zero_data bpm' q = page_content zero_data bpm q) ∧
    (res = true ↔ ∃ f, table_find bpm pid = Some (Some f)) ∧
    (res = true →
     page_content zero_data bpm pid
     = Some (ReadPage zero_data (disk_manager_ bpm') pid)).
Proof.
  intros Hinv.
  pose proof Hinv as (Hlen & Hps & Htab & Hbs & Hcnt & Hrs & Hnx & Hnd
                      & Hfree & Hframes & Htable & Hhole).
  unfold FlushPgImp.
  destruct (table_find_total bpm pid Htab) as [found Hfound].
  case_bool_decide as Hinvalid.
  { exists false, bpm. do 4 (split; [done|]). split; [|done].
    split; [done|]. intros [f Hf].
    destruct (Htable pid f Hf) as (_ & _ & _ & _ & Hv). done. }
  rewrite Hfound. cbn [mbind option_bind].
  destruct found as [f|].
  2:{ exists false, bpm. do 4 (split; [done|]). split; [|done].
      split; [done|]. by intros [f ?]. }
  destruct (Htable pid f Hfound) as (_ & page & Hpg & Hid & Hv).
  rewrite Hpg. cbn [mbind option_bind].
  destruct (written_back_ok bpm f page Hinv Hpg) as (Hok' & Hd' & Hc' & Hr');
    [congruence|].
  unfold written_back in *. rewrite Hid in *.
  eexists _, _. split; [reflexivity|]. split; [exact Hok'|].
  split; [exact Hd'|]. split; [exact Hc'|].
  split; [split; [by exists f|done]|].
  intros _. rewrite Hr'.
  by apply (page_content_resident zero_data bpm pid f page).
Qed.

Lemma flush_frames_ok (frames : list nat) : ∀ bpm,
  pool_ok bpm → Forall (λ i, (i < pool_size_ bpm)%nat) frames →
  ∃ bpm', flush_frames bpm frames = Some bpm' ∧ pool_ok bpm' ∧
    pool_size_ bpm' = pool_size_ bpm ∧
    (disk_ok zero_data bpm → disk_ok zero_data bpm') ∧
    ∀ q, page_content zero_data bpm' q = page_content zero_data bpm q.
Proof.
  induction frames as [|i rest IH]; intros bpm Hinv Hall.
  { exists bpm. by repeat (split; [done|]). }
  apply Forall_cons in Hall as [Hi Hrest].
  pose proof Hinv as (Hlen & _).
  assert (∃ bpm1, flush_frame bpm i = Some bpm1 ∧ pool_ok bpm1 ∧
            pool_size_ bpm1 = pool_size_ bpm ∧
            (disk_ok zero_data bpm → disk_ok zero_data bpm1) ∧
            ∀ q, page_content zero_data bpm1 q = page_content zero_data bpm q)
    as (bpm1 & Hrun1 & Hok1 & Hsize1 & Hd1 & Hc1).
  { unfold flush_frame.
    destruct (pages_ bpm !! i) as [page|] eqn:Hpg.
    2:{ apply lookup_ge_None in Hpg. lia. }
    cbn [mbind option_bind].
    case_bool_decide as Hv; [|exists bpm; by repeat (split; [done|])].
    assert (Hf : frame_at bpm (Z.of_nat i) = Some page).
    { unfold frame_at. rewrite bool_decide_eq_false_2 by lia.
      by rewrite Nat2Z.id. }
    destruct (written_back_ok bpm (Z.of_nat i) page Hinv Hf Hv)
      as (Hok' & Hd' & Hc' & _).
    eexists. split; [reflexivity|]. by repeat (split; [done|]). }
  destruct (IH bpm1 Hok1) as (bpm' & Hrun & Hok' & Hsize' & Hd' & Hc').
  { by rewrite Hsize1. }
  exists bpm'. simpl. rewrite Hrun1. simpl.
  split; [done|]. split; [done|]. split; [lia|].
  split; [auto|]. intros q. by rewrite Hc', Hc1.
Qed.

Lemma FlushAllPgsImp_ok bpm :
  pool_ok bpm →
  ∃ bpm', FlushAllPgsImp bpm = Some bpm' ∧ pool_ok bpm' ∧
    (disk_ok zero_data bpm → disk_ok zero_data bpm') ∧
    (∀ q, page_content zero_data bpm' q = page_content zero_data bpm q) ∧
    ∀ f page, frame_at bpm' f = Some page →
              page_id_ page ≠ INVALID_PAGE_ID → is_dirty_ page = false.
Proof.
  intros Hinv. pose proof Hinv as (Hlen & _).
  destruct (flush_frames_ok (seq 0 (pool_size_ bpm)) bpm Hinv)
    as (bpm' & Hrun & Hok' & _ & Hd' & Hc').
  { apply Forall_forall. intros i Hi. apply elem_of_seq in Hi. lia. }
  exists bpm'. split; [exact Hrun|]. split; [done|]. split; [done|].
  split; [done|].
  destruct (flush_frames_prefix (pool_size_ bpm) bpm) as (bpm2 & Hrun2 & Hpages & _);
    [lia|].
  unfold FlushAllPgsImp in Hrun. rewrite Hrun in Hrun2.
  injection Hrun2 as <-.
  rewrite <- Hlen, firstn_all, drop_all, app_nil_r in Hpages.
  intros f page Hf Hv. unfold frame_at in Hf.
  case_bool_decide; [done|]. rewrite Hpages in Hf.
  apply list_lookup_fmap_Some in Hf as (page0 & -> & _).
  unfold flushed in *. by case_bool_decide.
Qed.

End PoolFlush.

Section PoolBytes.
Context {Data : Type}.
Variable zero_data : Data.
Import BufferPool.
Implicit Types (bpm : BufferPoolManagerInstance Data) (page : Page Data).

Lemma NewPgImp_content bpm :
  pool_ok bpm → disk_ok zero_data bpm → next_page_id_ bpm + 1 < 2 ^ 31 →
  LRUK.current_timestamp_ (replacer_ bpm) + 1 < 2 ^ 64 →
  ∃ res bpm', NewPgImp zero_data bpm = Some (res, bpm') ∧
    pool_ok bpm' ∧ disk_ok zero_data bpm' ∧
    (∀ q, q ≠ next_page_id_ bpm →
          page_content zero_data bpm' q = page_content zero_data bpm q) ∧
    (is_Some res →
     page_content zero_data bpm' (next_page_id_ bpm) = Some zero_data).
Proof.
  intros Hinv Hdisk Hroom Hts.
  destruct (NewPgImp_ok zero_data bpm Hinv Hroom Hts)
    as (res & bpm' & Hrun & Hok' & Hres).
  exists res, bpm'. split; [done|]. split; [done|].
  destruct res as [[pid f]|].
  2:{ destruct Hres as (-> & _). split; [done|]. split; [done|].
      by intros [? ?]. }
  destruct Hres as (-> & Hnext' & Hnew & Hfind & Hsame & victim & Hvic & Hcase).
  pose proof Hinv as (_ & _ & Htab & _ & _ & _ & Hnx & _).
  assert (Habsent : table_find bpm (next_page_id_ bpm) = Some None).
  { destruct (table_find_total bpm (next_page_id_ bpm) Htab) as [[g|] Hg];
      [|done].
    pose proof (resident_range bpm None _ g Hinv Hg). lia. }
  assert (Hzero : zero_data
                  = ReadPage zero_data (disk_manager_ bpm') (next_page_id_ bpm)).
  { destruct Hdisk as [_ Hstored].
    assert (Hnone : stored (disk_manager_ bpm) !! next_page_id_ bpm = None).
    { destruct (stored (disk_manager_ bpm) !! next_page_id_ bpm) eqn:Hs;
        [|done].
      pose proof (Hstored (next_page_id_ bpm) ltac:(by eexists)). lia. }
    destruct (decide (page_id_ victim = INVALID_PAGE_ID)).
    - destruct Hcase as (_ & _ & ->). unfold ReadPage. by rewrite Hnone.
    - destruct Hcase as (_ & _ & _ & Hfv & _ & _ & ->).
      pose proof (resident_range bpm None _ f Hinv Hfv).
      destruct (is_dirty_ victim).
      + rewrite ReadPage_WritePage_ne by lia.
        unfold ReadPage. by rewrite Hnone.
      + unfold ReadPage. by rewrite Hnone. }
  destruct (takes_frame_content zero_data bpm bpm' f (next_page_id_ bpm)
              zero_data Hinv Hdisk Hok') as [Hd' Hc']; try done.
  { split; [done|]. split; [done|]. by exists victim. }
  { lia. }
  split; [done|]. split; [done|]. intros _.
  by apply (page_content_resident zero_data bpm' _ f
              (mkPage (next_page_id_ bpm) 1 false zero_data)).
Qed.

Lemma FetchPgImp_content bpm pid :
  pool_ok bpm → disk_ok zero_data bpm → 0 ≤ pid < next_page_id_ bpm →
  LRUK.current_timestamp_ (replacer_ bpm) + 1 < 2 ^ 64 →
  ∃ res bpm', FetchPgImp zero_data bpm pid = Some (res, bpm') ∧
    pool_ok bpm' ∧ disk_ok zero_data bpm' ∧
    (∀ q, page_content zero_data bpm' q = page_content zero_data bpm q) ∧
    ∀ f, res = Some f →
         ∃ page, frame_at bpm' f = Some page ∧ page_id_ page = pid ∧
                 page_content zero_data bpm pid = Some (data_ page).
Proof.
  intros Hinv Hdisk Hpid Hts.
  destruct (FetchPgImp_ok zero_data bpm pid Hinv Hpid Hts)
    as (res & bpm' & Hrun & Hok' & Hnext' & Hres).
  exists res, bpm'. split; [done|]. split; [done|].
  pose proof Hinv as (_ & _ & Htab & _ & _ & _ & Hnx & _ & _ & _ & Htable & _).
  destruct (table_find_total bpm pid Htab) as [[f|] Hfound];
    rewrite Hfound in Hres.
  - (* resident *)
    destruct Hres as (-> & page & Hpg & Hnew & Hsame & Htab' & Hfl' & Hdisk').
    assert (Hfind' : ∀ q, table_find bpm' q = table_find bpm q)
      by (intros q; unfold table_find; by rewrite Htab').
    assert (Hc : ∀ q, page_content zero_data bpm' q
                      = page_content zero_data bpm q).
    { intros q. destruct (table_find_total bpm q Htab) as [[g|] Hg].
      - destruct (Htable q g Hg) as (_ & pg & Hpg' & Hid & Hvq).
        rewrite (page_content_resident zero_data bpm q g pg Hg Hpg').
        destruct (decide (g = f)) as [->|Hgf].
        + assert (pg = page) as -> by congruence.
          by apply (page_content_resident zero_data bpm' q f
                      (mkPage pid (pin_count_ page + 1) (is_dirty_ page)
                         (data_ page))); [rewrite Hfind'|].
        + apply (page_content_resident zero_data bpm' q g pg);
            [by rewrite Hfind'|by rewrite Hsame].
      - rewrite (page_content_absent zero_data bpm q Hg).
        rewrite page_content_absent by by rewrite Hfind'.
        by rewrite Hdisk'. }
    split.
    { destruct Hdisk as [Hclean Hstored]. split.
      - intros g pg Hg Hv Hd. rewrite Hdisk'.
        destruct (decide (g = f)) as [->|Hgf].
        + rewrite Hnew in Hg. injection Hg as <-. simpl in *.
          destruct (Htable pid f Hfound) as (_ & page0 & Hpg0 & Hid0 & _).
          assert (page0 = page) as -> by congruence.
          rewrite <- Hid0. apply (Hclean f); [done|congruence|done].
        + rewrite (Hsame g Hgf) in Hg. by apply (Hclean g).
      - intros q Hq. rewrite Hdisk' in Hq. rewrite Hnext'. by apply Hstored. }
    split; [done|].
    intros f' [= <-]. eexists. split; [exact Hnew|]. split; [done|].
    by apply (page_content_resident zero_data bpm pid f page).
  - (* not resident *)
    destruct res as [f|].
    2:{ destruct Hres as (-> & _). split; [done|]. split; [done|]. done. }
    destruct Hres as (Hnew & Hfind & Hsame & victim & Hvic & Hcase).
    destruct (takes_frame_content zero_data bpm bpm' f pid
                (ReadPage zero_data (disk_manager_ bpm') pid)
                Hinv Hdisk Hok') as [Hd' Hc']; try done.
    { split; [done|]. split; [done|]. by exists victim. }
    { lia. }
    assert (Hpc : page_content zero_data bpm pid
                  = Some (ReadPage zero_data (disk_manager_ bpm') pid)).
    { rewrite (page_content_absent zero_data bpm pid Hfound). f_equal.
      destruct (decide (page_id_ victim = INVALID_PAGE_ID)).
      - by destruct Hcase as (_ & _ & ->).
      - destruct Hcase as (_ & _ & _ & Hfv & _ & _ & ->).
        destruct (is_dirty_ victim); [|done].
        rewrite ReadPage_WritePage_ne; [done|]. congruence. }
    split; [done|]. split.
    { intros q. destruct (decide (q = pid)) as [->|Hq]; [|by apply Hc'].
      rewrite Hpc.
      by apply (page_content_resident zero_data bpm' pid f
                  (mkPage pid 1 false
                     (ReadPage zero_data (disk_manager_ bpm') pid))). }
    intros f' [= <-]. eexists. split; [exact Hnew|]. by split.
Qed.

Lemma UnpinPgImp_content bpm pid (is_dirty : bool) :
  pool_ok bpm → disk_ok zero_data bpm →
  ∃ res bpm', UnpinPgImp bpm pid is_dirty = Some (res, bpm') ∧
    pool_ok bpm' ∧ disk_ok zero_data bpm' ∧
    ∀ q, page_content zero_data bpm' q = page_content zero_data bpm q.
Proof.
  intros Hinv Hdisk.
  destruct (UnpinPgImp_ok bpm pid is_dirty Hinv)
    as (res & bpm' & Hrun & Hok' & Htab' & Hfl' & Hdisk' & Hnext' & Hres).
  exists res, bpm'. split; [done|]. split; [done|].
  pose proof Hinv as (_ & _ & Htab & _ & _ & _ & Hnx & _ & _ & _ & Htable & _).
  destruct (table_find_total bpm pid Htab) as [[f|] Hfound];
    rewrite Hfound in Hres.
  2:{ by destruct Hres as (_ & ->). }
  destruct Hres as (page & Hpg & Hcase).
  destruct (decide (pin_count_ page = 0)); [by destruct Hcase as (_ & ->)|].
  destruct Hcase as (_ & Hnew & Hsame & _).
  assert (Hfind' : ∀ q, table_find bpm' q = table_find bpm q)
    by (intros q; unfold table_find; by rewrite Htab').
  split.
  { destruct Hdisk as [Hclean Hstored]. split.
    - intros g pg Hg Hv Hd. rewrite Hdisk'.
      destruct (decide (g = f)) as [->|Hgf].
      + rewrite Hnew in Hg. injection Hg as <-. simpl in *.
        destruct (Htable pid f Hfound) as (_ & page0 & Hpg0 & Hid0 & _).
        assert (page0 = page) as -> by congruence.
        rewrite <- Hid0. apply (Hclean f); [done|congruence|].
        by destruct is_dirty, (is_dirty_ page).
      + rewrite (Hsame g Hgf) in Hg. by apply (Hclean g).
    - intros q Hq. rewrite Hdisk' in Hq. rewrite Hnext'. by apply Hstored. }
  intros q. destruct (table_find_total bpm q Htab) as [[g|] Hg].
  - destruct (Htable q g Hg) as (_ & pg & Hpg' & Hid & Hvq).
    rewrite (page_content_resident zero_data bpm q g pg Hg Hpg').
    destruct (decide (g = f)) as [->|Hgf].
    + assert (pg = page) as -> by congruence.
      by apply (page_content_resident zero_data bpm' q f
                  (mkPage pid (pin_count_ page - 1)
                     (is_dirty || is_dirty_ page) (data_ page)));
        [rewrite Hfind'|].
    + apply (page_content_resident zero_data bpm' q g pg);
        [by rewrite Hfind'|by rewrite Hsame].
  - rewrite (page_content_absent zero_data bpm q Hg).
    rewrite page_content_absent by by rewrite Hfind'.
    by rewrite Hdisk'.
Qed.

Lemma DeletePgImp_content bpm pid :
  pool_ok bpm → disk_ok zero_data bpm →
  ∃ res bpm', DeletePgImp zero_data bpm pid = Some (res, bpm') ∧
    pool_ok bpm' ∧ disk_ok zero_data bpm' ∧
    (∀ q, q ≠ pid →
          page_content zero_data bpm' q = page_content zero_data bpm q) ∧
    (res = true →
     table_find bpm' pid = Some None ∧
     page_content zero_data bpm' pid
     = Some (ReadPage zero_data (disk_manager_ bpm) pid)).
Proof.
  intros Hinv Hdisk.
  destruct (DeletePgImp_ok zero_data bpm pid Hinv)
    as (res & bpm' & Hrun & Hok' & Hdisk' & Hnext' & Hres).
  exists res, bpm'. split; [done|]. split; [done|].
  pose proof Hinv as (_ & _ & Htab & _ & _ & _ & Hnx & _ & _ & _ & Htable & _).
  destruct (table_find_total bpm pid Htab) as [[f|] Hfound];
    rewrite Hfound in Hres.
  2:{ destruct Hres as (_ & ->). split; [done|]. split; [done|].
      intros _. split; [done|]. by apply page_content_absent. }
  destruct Hres as (page & Hpg & Hcase).
  destruct (decide (pin_count_ page = 0)).
  2:{ destruct Hcase as (-> & ->). by repeat (split; [done|]). }
  destruct Hcase as (-> & Hgone & Hothers & Hnew & Hsame & Hfl' & Hnt).
  split.
  { destruct Hdisk as [Hclean Hstored]. split.
    - intros g pg Hg Hv Hd. rewrite Hdisk'.
      destruct (decide (g = f)) as [->|Hgf].
      + rewrite Hnew in Hg. injection Hg as <-. done.
      + rewrite (Hsame g Hgf) in Hg. by apply (Hclean g).
    - intros q Hq. rewrite Hdisk' in Hq. rewrite Hnext'. by apply Hstored. }
  split.
  { intros q Hq. destruct (table_find_total bpm q Htab) as [[g|] Hg].
    - destruct (Htable q g Hg) as (_ & pg & Hpg' & Hid & Hvq).
      rewrite (page_content_resident zero_data bpm q g pg Hg Hpg').
      assert (Hgf : g ≠ f).
      { intros ->. assert (pg = page) as -> by congruence.
        destruct (Htable pid f Hfound) as (_ & p0 & Hp0 & Hid0 & _).
        congruence. }
      apply (page_content_resident zero_data bpm' q g pg);
        [by rewrite Hothers|by rewrite Hsame].
    - rewrite (page_content_absent zero_data bpm q Hg).
      rewrite page_content_absent by by rewrite Hothers.
      by rewrite Hdisk'. }
  intros _. split; [done|].
  rewrite (page_content_absent zero_data bpm' pid Hgone). by rewrite Hdisk'.
Qed.

End PoolBytes.

Section PoolPinned.
Context {Data : Type}.
Variable zero_data : Data.
Import BufferPool.
Implicit Types (bpm : BufferPoolManagerInstance Data) (page : Page Data).

(** A pinned page is not the one that gives up its frame. *)
Lemma takes_frame_keeps_pinned bpm bpm' f pid q g page :
  pool_ok bpm → takes_frame bpm bpm' f pid →
  table_find bpm pid = Some None →
  resident bpm q g page → 0 < pin_count_ page →
  resident bpm' q g page.
Proof.
  intros Hinv (Hfind' & Hsame & victim & Hvic & Hcase) Habsent [Hq Hpg] Hpin.
  pose proof Hinv as (_ & _ & _ & _ & _ & _ & _ & _ & _ & _ & Htable & _).
  destruct (Htable q g Hq) as (_ & pg & Hpg' & Hid & Hv).
  assert (pg = page) as -> by congruence.
  assert (Hqp : q ≠ pid) by congruence.
  assert (Hgf : g ≠ f).
  { intros ->. assert (victim = page) as -> by congruence.
    destruct (decide (page_id_ page = INVALID_PAGE_ID)); [congruence|].
    destruct Hcase as (_ & _ & Hz & _). lia. }
  split; [|by rewrite Hsame].
  destruct (decide (page_id_ victim = INVALID_PAGE_ID)).
  - destruct Hcase as (_ & Ht & _). by rewrite Ht.
  - destruct Hcase as (_ & _ & _ & Hfv & _ & Ht & _). rewrite Ht; [done..|].
    intros ->. congruence.
Qed.

Lemma demo_pool_ok : pool_ok demo_pool.
Proof.
  destruct (NewPgImp_ok 0 (new_pool 0 3 2 4)) as (res & bpm' & Hrun & Hok & _).
  - apply new_pool_ok; [done|lia|lia].
  - done.
  - done.
  - unfold demo_pool. by rewrite Hrun.
Qed.

Lemma demo_pool_disk_ok : disk_ok 0 demo_pool.
Proof.
  split.
  - intros f page Hf Hv Hd.
    pose proof (frame_at_range _ _ _ Hf) as Hr.
    change (length (pages_ demo_pool)) with 3%nat in Hr.
    assert (f = 0 ∨ f = 1 ∨ f = 2) as [->|[->| ->]] by lia;
      vm_compute in Hf; injection Hf as <-; done.
  - intros pid [x Hx]. vm_compute in Hx. done.
Qed.

(** One pass of the loop of [FlushAllPgsImp]: the frame [i] then has the
    bytes it has on disk, and so has every frame that had them before. *)
Lemma flush_frame_synced bpm (i : nat) :
  pool_ok bpm → (i < pool_size_ bpm)%nat →
  ∃ bpm1, flush_frame bpm i = Some bpm1 ∧ pool_ok bpm1 ∧
    pool_size_ bpm1 = pool_size_ bpm ∧
    ∀ f page, frame_at bpm f = Some page →
      ∃ page', frame_at bpm1 f = Some page' ∧
        page_id_ page' = page_id_ page ∧ data_ page' = data_ page ∧
        (page_id_ page ≠ INVALID_PAGE_ID →
         ReadPage zero_data (disk_manager_ bpm) (page_id_ page) = data_ page
         ∨ f = Z.of_nat i →
         ReadPage zero_data (disk_manager_ bpm1) (page_id_ page)
         = data_ page).
Proof.
  intros Hinv Hi. pose proof Hinv as (Hlen & _).
  destruct (pages_ bpm !! i) as [pg|] eqn:Hpg.
  2:{ apply lookup_ge_None in Hpg. lia. }
  assert (Hf : frame_at bpm (Z.of_nat i) = Some pg).
  { unfold frame_at. rewrite bool_decide_eq_false_2 by lia.
    by rewrite Nat2Z.id. }
  unfold flush_frame. rewrite Hpg. cbn [mbind option_bind].
  case_bool_decide as Hv.
  2:{ exists bpm. split; [done|]. split; [done|]. split; [done|].
      intros f page Hp. exists page. split; [done|]. split; [done|].
      split; [done|]. intros Hvp [Hs| ->]; [done|].
      assert (page = pg) as -> by congruence. destruct Hv. done. }
  destruct (written_back_ok zero_data bpm (Z.of_nat i) pg Hinv Hf Hv)
    as (Hok' & _ & _ & Hr').
  destruct (frame_at_insert bpm (written_back bpm (Z.of_nat i) pg)
              (Z.of_nat i) pg _ Hf eq_refl) as [Hnew Hsame].
  exists (written_back bpm (Z.of_nat i) pg).
  split; [done|]. split; [exact Hok'|]. split; [done|].
  intros f page Hp. destruct (decide (f = Z.of_nat i)) as [->|Hne].
  - assert (page = pg) as -> by congruence.
    eexists. split; [exact Hnew|]. split; [done|]. split; [done|].
    intros _ _. exact Hr'.
  - exists page. split; [by rewrite Hsame|]. split; [done|]. split; [done|].
    intros Hvp [Hs|?]; [|done].
    change (ReadPage zero_data
              (WritePage (disk_manager_ bpm) (page_id_ pg) (data_ pg))
              (page_id_ page) = data_ page).
    rewrite ReadPage_WritePage_ne; [done|].
    intros Heq. apply Hne.
    by apply (frame_of_page bpm None f (Z.of_nat i) page pg Hinv).
Qed.

Lemma flush_frames_synced (frames : list nat) : ∀ bpm,
  pool_ok bpm → Forall (λ i, (i < pool_size_ bpm)%nat) frames →
  ∃ bpm', flush_frames bpm frames = Some bpm' ∧ pool_ok bpm' ∧
    ∀ f page, frame_at bpm f = Some page →
      ∃ page', frame_at bpm' f = Some page' ∧
        page_id_ page' = page_id_ page ∧ data_ page' = data_ page ∧
        (page_id_ page ≠ INVALID_PAGE_ID →
         ReadPage zero_data (disk_manager_ bpm) (page_id_ page) = data_ page
         ∨ f ∈ (Z.of_nat <$> frames) →
         ReadPage zero_data (disk_manager_ bpm') (page_id_ page)
         = data_ page).
Proof.
  induction frames as [|i rest IH]; intros bpm Hinv Hall.
  { exists bpm. split; [done|]. split; [done|].
    intros f page Hp. exists page. split; [done|]. split; [done|].
    split; [done|]. intros _ [Hs|Hin]; [done|].
    by apply elem_of_nil in Hin. }
  apply Forall_cons in Hall as [Hi Hrest].
  destruct (flush_frame_synced bpm i Hinv Hi)
    as (bpm1 & Hrun1 & Hok1 & Hsize1 & Hstep).
  destruct (IH bpm1 Hok1) as (bpm' & Hrun & Hok' & Hkeep).
  { by rewrite Hsize1. }
  exists bpm'. simpl. rewrite Hrun1. simpl. split; [done|]. split; [done|].
  intros f page Hp.
  destruct (Hstep f page Hp) as (p1 & Hp1 & Hid1 & Hd1 & Hs1).
  destruct (Hkeep f p1 Hp1) as (p' & Hp' & Hid' & Hd' & Hs').
  exists p'. split; [done|]. split; [congruence|]. split; [congruence|].
  intros Hv Hcase. rewrite <- Hid1, <- Hd1. apply Hs'; [congruence|].
  destruct Hcase as [Hs|Hin].
  - left. rewrite Hid1, Hd1. apply Hs1; [done|by left].
  - apply elem_of_cons in Hin as [->|Hin].
    + left. rewrite Hid1, Hd1. apply Hs1; [done|by right].
    + right. exact Hin.
Qed.

Lemma FlushAllPgsImp_synced bpm :
  pool_ok bpm →
  ∃ bpm', FlushAllPgsImp bpm = Some bpm' ∧ pool_ok bpm' ∧
    ∀ f page, frame_at bpm' f = Some page →
      page_id_ page ≠ INVALID_PAGE_ID →
      is_dirty_ page = false ∧
      ReadPage zero_data (disk_manager_ bpm') (page_id_ page) = data_ page ∧
      ∃ page0, frame_at bpm f = Some page0 ∧
               page_id_ page0 = page_id_ page ∧
               pin_count_ page0 = pin_count_ page ∧
               data_ page0 = data_ page.
Proof.
  intros Hinv. pose proof Hinv as (Hlen & _).
  destruct (flush_frames_synced (seq 0 (pool_size_ bpm)) bpm Hinv)
    as (bpm' & Hrun & Hok' & Hkeep).
  { apply Forall_forall. intros i Hi. apply elem_of_seq in Hi. lia. }
  exists bpm'. split; [exact Hrun|]. split; [done|].
  destruct (flush_frames_prefix (pool_size_ bpm) bpm)
    as (bpm2 & Hrun2 & Hpages & _); [lia|].
  unfold FlushAllPgsImp in Hrun. rewrite Hrun in Hrun2.
  injection Hrun2 as <-.
  rewrite <- Hlen, firstn_all, drop_all, app_nil_r in Hpages.
  intros f page Hf Hv.
  pose proof (frame_at_range _ _ _ Hf) as Hr.
  rewrite Hpages, length_fmap in Hr.
  destruct (frame_at_total bpm f Hr) as [page0 Hp0].
  destruct (Hkeep f page0 Hp0) as (p' & Hp' & Hid' & Hd' & Hs').
  assert (p' = page) as -> by congruence.
  assert (Hfl : page = flushed page0).
  { unfold frame_at in Hf, Hp0. case_bool_decide; [done|].
    rewrite Hpages in Hf. rewrite list_lookup_fmap, Hp0 in Hf.
    by injection Hf as <-. }
  split.
  { rewrite Hfl. unfold flushed. case_bool_decide; [done|].
    exfalso. congruence. }
  split.
  { rewrite Hid', Hd'. apply Hs'; [congruence|]. right.
    apply list_elem_of_fmap. exists (Z.to_nat f). split; [lia|].
    apply elem_of_seq. lia. }
  exists page0. split; [done|]. split; [done|]. split; [|done].
  rewrite Hfl. unfold flushed. by case_bool_decide.
Qed.

End PoolPinned.

Section PoolResident.
Context {Data : Type}.
Variable zero_data : Data.
Import BufferPool.
Implicit Types (bpm : BufferPoolManagerInstance Data) (page : Page Data).

Lemma new_pool_disk_ok (pool_size : nat) (replacer_k : Z) (bucket_size : nat) :
  disk_ok zero_data (new_pool zero_data pool_size replacer_k bucket_size).
Proof.
  split.
  - intros f page Hf Hv. exfalso. apply Hv.
    unfold frame_at in Hf. case_bool_decide; [done|]. simpl in Hf.
    by apply lookup_replicate in Hf as [-> _].
  - intros pid [x Hx]. simpl in Hx. by rewrite lookup_empty in Hx.
Qed.

(** A pinned resident page is not evictable. *)
Lemma pinned_not_evictable bpm f page :
  pool_ok bpm → frame_at bpm f = Some page →
  page_id_ page ≠ INVALID_PAGE_ID → 0 < pin_count_ page →
  LRUK.is_evictable (replacer_ bpm) f = false.
Proof.
  intros (_ & _ & _ & _ & _ & _ & _ & _ & _ & Hframes & _) Hf Hv Hpin.
  pose proof (Hframes f page Hf ltac:(done)) as Hok. unfold frame_ok in Hok.
  rewrite decide_False in Hok by done.
  destruct Hok as (_ & _ & _ & _ & _ & Hev).
  destruct (LRUK.is_evictable (replacer_ bpm) f); [|done].
  assert (pin_count_ page = 0) by by apply Hev. lia.
Qed.

End PoolResident.

(** X10.  The buffer pool stays in order, and in a pool in order every
    operation returns.  In order ([pool_ok]) means: a frame without a page
    is in the free list and unknown to the replacer; a frame with a page
    holds an allocated page id that the page table maps to this frame, is
    not in the free list, is tracked by the replacer, has a pin count of at
    least 0 and is evictable exactly when the pin count is 0; the page
    table maps page ids only to frames holding them; the free list has no
    frame twice; page table and replacer are in order themselves.  A new
    pool is in order; [NewPgImp] (page ids and timestamps not exhausted),
    [FetchPgImp] (of an allocated page id), [UnpinPgImp], [FlushPgImp],
    [FlushAllPgsImp] and [DeletePgImp] return and keep it in order. *)
Theorem pool_kept_in_order {Data : Type} (zero_data : Data) :
  (∀ (pool_size : nat) (replacer_k : Z) (bucket_size : nat),
     Z.of_nat pool_size < 2 ^ 31 → 1 ≤ replacer_k → (1 ≤ bucket_size)%nat →
     BufferPool.pool_ok
       (BufferPool.new_pool zero_data pool_size replacer_k bucket_size)) ∧
  (∀ bpm : BufferPool.BufferPoolManagerInstance Data,
     BufferPool.pool_ok bpm →
     BufferPool.next_page_id_ bpm + 1 < 2 ^ 31 →
     LRUK.current_timestamp_ (BufferPool.replacer_ bpm) + 1 < 2 ^ 64 →
     ∃ res bpm', BufferPool.NewPgImp zero_data bpm = Some (res, bpm') ∧
                 BufferPool.pool_ok bpm') ∧
  (∀ (bpm : BufferPool.BufferPoolManagerInstance Data) (page_id : Z),
     BufferPool.pool_ok bpm →
     0 ≤ page_id < BufferPool.next_page_id_ bpm →
     LRUK.current_timestamp_ (BufferPool.replacer_ bpm) + 1 < 2 ^ 64 →
     ∃ res bpm',
       BufferPool.FetchPgImp zero_data bpm page_id = Some (res, bpm') ∧
       BufferPool.pool_ok bpm') ∧
  (∀ (bpm : BufferPool.BufferPoolManagerInstance Data) (page_id : Z)
     (is_dirty : bool),
     BufferPool.pool_ok bpm →
     ∃ res bpm',
       BufferPool.UnpinPgImp bpm page_id is_dirty = Some (res, bpm') ∧
       BufferPool.pool_ok bpm') ∧
  (∀ (bpm : BufferPool.BufferPoolManagerInstance Data) (page_id : Z),
     BufferPool.pool_ok bpm →
     ∃ res bpm', BufferPool.FlushPgImp bpm page_id = Some (res, bpm') ∧
                 BufferPool.pool_ok bpm') ∧
  (∀ bpm : BufferPool.BufferPoolManagerInstance Data,
     BufferPool.pool_ok bpm →
     ∃ bpm', BufferPool.FlushAllPgsImp bpm = Some bpm' ∧
             BufferPool.pool_ok bpm') ∧
  (∀ (bpm : BufferPool.BufferPoolManagerInstance Data) (page_id : Z),
     BufferPool.pool_ok bpm →
     ∃ res bpm',
       BufferPool.DeletePgImp zero_data bpm page_id = Some (res, bpm') ∧
       BufferPool.pool_ok bpm').
Proof.
  split; [apply new_pool_ok|].
  split.
  { intros bpm Hok Hroom Hts.
    destruct (NewPgImp_ok zero_data bpm Hok Hroom Hts)
      as (res & bpm' & Hrun & Hok' & _).
    by exists res, bpm'. }
  split.
  { intros bpm pid Hok Hpid Hts.
    destruct (FetchPgImp_ok zero_data bpm pid Hok Hpid Hts)
      as (res & bpm' & Hrun & Hok' & _).
    by exists res, bpm'. }
  split.
  { intros bpm pid d Hok.
    destruct (UnpinPgImp_ok bpm pid d Hok) as (res & bpm' & Hrun & Hok' & _).
    by exists res, bpm'. }
  split.
  { intros bpm pid Hok.
    destruct (FlushPgImp_ok zero_data bpm pid Hok)
      as (res & bpm' & Hrun & Hok' & _).
    by exists res, bpm'. }
  split.
  { intros bpm Hok.
    destruct (FlushAllPgsImp_ok zero_data bpm Hok) as (bpm' & Hrun & Hok' & _).
    by exists bpm'. }
  intros bpm pid Hok.
  destruct (DeletePgImp_ok zero_data bpm pid Hok)
    as (res & bpm' & Hrun & Hok' & _).
  by exists res, bpm'.
Qed.

Lemma pool_kept_in_order_witness :
  BufferPool.pool_ok (BufferPool.new_pool 0 3 2 4) ∧
  ∃ res bpm',
    BufferPool.NewPgImp 0 (BufferPool.new_pool 0 3 2 4) = Some (res, bpm') ∧
    BufferPool.pool_ok bpm'.
Proof.
  destruct (pool_kept_in_order (Data := Z) 0) as (Hnew & Hnewpg & _).
  assert (Hok : BufferPool.pool_ok (BufferPool.new_pool 0 3 2 4)).
  { apply Hnew; [reflexivity|lia|lia]. }
  split; [exact Hok|].
  apply Hnewpg; [exact Hok|reflexivity|reflexivity].
Defined.

(** X11.  [NewPgImp] on a pool in order.  It returns [nullptr], changing
    nothing, only when the free list is empty and every frame holds a page
    with a positive pin count.  Otherwise it returns the page id
    [next_page_id_], which is then increased by one, in a frame holding
    that page with pin count 1, clean and zeroed, and not evictable.  The
    frame is the front of the free list, or else a frame whose page had
    pin count 0; that page leaves the page table and is written to disk
    when it was dirty.  Every page resident with a positive pin count stays
    in its frame untouched. *)
Theorem NewPgImp_spec {Data : Type} (zero_data : Data)
  (bpm : BufferPool.BufferPoolManagerInstance Data) :
  BufferPool.pool_ok bpm →
  BufferPool.next_page_id_ bpm + 1 < 2 ^ 31 →
  LRUK.current_timestamp_ (BufferPool.replacer_ bpm) + 1 < 2 ^ 64 →
  ∃ res bpm', BufferPool.NewPgImp zero_data bpm = Some (res, bpm') ∧
    (∀ q g page, BufferPool.resident bpm q g page →
                 0 < BufferPool.pin_count_ page →
                 BufferPool.resident bpm' q g page) ∧
    match res with
    | None =>
        bpm' = bpm ∧ BufferPool.free_list_ bpm = [] ∧
        ∀ f page, BufferPool.frame_at bpm f = Some page →
                  BufferPool.page_id_ page ≠ BufferPool.INVALID_PAGE_ID ∧
                  0 < BufferPool.pin_count_ page
    | Some (page_id, f) =>
        page_id = BufferPool.next_page_id_ bpm ∧
        BufferPool.next_page_id_ bpm' = page_id + 1 ∧
        BufferPool.resident bpm' page_id f
          (BufferPool.mkPage page_id 1 false zero_data) ∧
        LRUK.is_evictable (BufferPool.replacer_ bpm') f = false ∧
        BufferPool.takes_frame bpm bpm' f page_id
    end.
Proof.
  intros Hok Hroom Hts.
  destruct (NewPgImp_ok zero_data bpm Hok Hroom Hts)
    as (res & bpm' & Hrun & Hok' & Hres).
  exists res, bpm'. split; [done|].
  destruct res as [[pid f]|].
  2:{ destruct Hres as (-> & Hfl & Hall). by split. }
  destruct Hres as (-> & Hnext' & Hnew & Hfind & Hsame & Hvictim).
  assert (Htakes : BufferPool.takes_frame bpm bpm' f (BufferPool.next_page_id_ bpm))
    by by split.
  assert (Habsent : BufferPool.table_find bpm (BufferPool.next_page_id_ bpm)
                    = Some None).
  { pose proof Hok as (_ & _ & Htab & _).
    destruct (table_find_total bpm (BufferPool.next_page_id_ bpm) Htab)
      as [[g|] Hg]; [|done].
    pose proof (resident_range bpm None _ g Hok Hg). lia. }
  split.
  { intros q g page Hres Hpin.
    by apply (takes_frame_keeps_pinned bpm bpm' f
                (BufferPool.next_page_id_ bpm)). }
  split; [done|]. split; [done|]. split; [by split|]. split; [|done].
  apply (pinned_not_evictable bpm' f
           (BufferPool.mkPage (BufferPool.next_page_id_ bpm) 1 false zero_data)
           Hok' Hnew); simpl; [|lia].
  pose proof Hok as (_ & _ & _ & _ & _ & _ & Hnx & _).
  unfold BufferPool.INVALID_PAGE_ID. lia.
Qed.

Lemma NewPgImp_spec_witness :
  ∃ res bpm', BufferPool.NewPgImp 0 BufferPool.demo_pool = Some (res, bpm') ∧
    (∀ q g page, BufferPool.resident BufferPool.demo_pool q g page →
                 0 < BufferPool.pin_count_ page →
                 BufferPool.resident bpm' q g page) ∧
    match res with
    | None =>
        bpm' = BufferPool.demo_pool ∧
        BufferPool.free_list_ BufferPool.demo_pool = [] ∧
        ∀ f page, BufferPool.frame_at BufferPool.demo_pool f = Some page →
                  BufferPool.page_id_ page ≠ BufferPool.INVALID_PAGE_ID ∧
                  0 < BufferPool.pin_count_ page
    | Some (page_id, f) =>
        page_id = BufferPool.next_page_id_ BufferPool.demo_pool ∧
        BufferPool.next_page_id_ bpm' = page_id + 1 ∧
        BufferPool.resident bpm' page_id f
          (BufferPool.mkPage page_id 1 false 0) ∧
        LRUK.is_evictable (BufferPool.replacer_ bpm') f = false ∧
        BufferPool.takes_frame BufferPool.demo_pool bpm' f page_id
    end.
Proof.
  apply (NewPgImp_spec 0 BufferPool.demo_pool demo_pool_ok);
    vm_compute; reflexivity.
Defined.

(** X12.  [FetchPgImp] of an allocated page id on a pool in order.  A
    resident page is returned in its frame with the pin count one higher
    and not evictable; no other frame, the page table, the free list and
    the disk are untouched.  For a page that is not resident it returns
    [nullptr], changing nothing, only when the free list is empty and
    every frame holds a page with a positive pin count; otherwise the page
    is read from disk into a frame taken as in [NewPgImp], with pin
    count 1 and clean.  Every other page resident with a positive pin
    count stays in its frame untouched. *)
Theorem FetchPgImp_spec {Data : Type} (zero_data : Data)
  (bpm : BufferPool.BufferPoolManagerInstance Data) (page_id : Z) :
  BufferPool.pool_ok bpm →
  0 ≤ page_id < BufferPool.next_page_id_ bpm →
  LRUK.current_timestamp_ (BufferPool.replacer_ bpm) + 1 < 2 ^ 64 →
  ∃ res bpm',
    BufferPool.FetchPgImp zero_data bpm page_id = Some (res, bpm') ∧
    BufferPool.next_page_id_ bpm' = BufferPool.next_page_id_ bpm ∧
    (∀ q g page, q ≠ page_id → BufferPool.resident bpm q g page →
                 0 < BufferPool.pin_count_ page →
                 BufferPool.resident bpm' q g page) ∧
    match BufferPool.table_find bpm page_id with
    | Some (Some f) =>
        res = Some f ∧
        ∃ page, BufferPool.frame_at bpm f = Some page ∧
          BufferPool.resident bpm' page_id f
            (BufferPool.mkPage page_id (BufferPool.pin_count_ page + 1)
               (BufferPool.is_dirty_ page) (BufferPool.data_ page)) ∧
          LRUK.is_evictable (BufferPool.replacer_ bpm') f = false ∧
          (∀ g, g ≠ f →
                BufferPool.frame_at bpm' g = BufferPool.frame_at bpm g) ∧
          BufferPool.page_table_ bpm' = BufferPool.page_table_ bpm ∧
          BufferPool.free_list_ bpm' = BufferPool.free_list_ bpm ∧
          BufferPool.disk_manager_ bpm' = BufferPool.disk_manager_ bpm
    | _ =>
        match res with
        | None =>
            bpm' = bpm ∧ BufferPool.free_list_ bpm = [] ∧
            ∀ f page, BufferPool.frame_at bpm f = Some page →
                      BufferPool.page_id_ page ≠ BufferPool.INVALID_PAGE_ID ∧
                      0 < BufferPool.pin_count_ page
        | Some f =>
            BufferPool.resident bpm' page_id f
              (BufferPool.mkPage page_id 1 false
                 (BufferPool.ReadPage zero_data
                    (BufferPool.disk_manager_ bpm') page_id)) ∧
            LRUK.is_evictable (BufferPool.replacer_ bpm') f = false ∧
            BufferPool.takes_frame bpm bpm' f page_id
        end
    end.
Proof.
  intros Hok Hpid Hts.
  destruct (FetchPgImp_ok zero_data bpm page_id Hok Hpid Hts)
    as (res & bpm' & Hrun & Hok' & Hnext' & Hres).
  exists res, bpm'. split; [done|]. split; [done|].
  assert (Hvalid : page_id ≠ BufferPool.INVALID_PAGE_ID)
    by (unfold BufferPool.INVALID_PAGE_ID; lia).
  destruct (BufferPool.table_find bpm page_id) as [[f|]|] eqn:Hfound.
  - destruct Hres as (-> & page & Hpg & Hnew & Hsame & Htab' & Hfl' & Hdisk').
    pose proof Hok as (_ & _ & _ & _ & _ & _ & _ & _ & _ & Hframes & _).
    pose proof (Hframes f page Hpg ltac:(done)) as Hfok.
    unfold BufferPool.frame_ok in Hfok.
    destruct (resident_frame bpm page_id f Hok Hfound)
      as (page0 & Hpg0 & Hid0 & _ & _ & _ & _ & _ & Hpin0 & _).
    assert (page0 = page) as -> by congruence.
    split.
    { intros q g pg Hq [Hfq Hgq] Hpin. split.
      - unfold BufferPool.table_find in *. by rewrite Htab'.
      - rewrite Hsame; [done|]. intros ->.
        destruct (resident_frame bpm q f Hok Hfq) as (pq & Hpq & Hidq & _).
        congruence. }
    split; [done|]. exists page. split; [done|].
    split. { split; [|done]. unfold BufferPool.table_find in *.
             by rewrite Htab'. }
    split; [|done].
    apply (pinned_not_evictable bpm' f _ Hok' Hnew); simpl; [done|lia].
  - destruct res as [f|].
    2:{ destruct Hres as (-> & Hfl & Hall). by split. }
    destruct Hres as (Hnew & Hfind & Hsame & Hvictim).
    assert (Htakes : BufferPool.takes_frame bpm bpm' f page_id) by by split.
    split.
    { intros q g page _ Hres Hpin.
      by apply (takes_frame_keeps_pinned bpm bpm' f page_id). }
    split; [by split|]. split; [|done].
    apply (pinned_not_evictable bpm' f _ Hok' Hnew); simpl; [done|lia].
  - pose proof Hok as (_ & _ & Htab & _).
    destruct (table_find_total bpm page_id Htab) as [o Ho]. congruence.
Qed.

Lemma FetchPgImp_spec_witness :
  ∃ res bpm',
    BufferPool.FetchPgImp 0 BufferPool.demo_pool 0 = Some (res, bpm') ∧
    BufferPool.next_page_id_ bpm'
    = BufferPool.next_page_id_ BufferPool.demo_pool ∧
    (∀ q g page, q ≠ 0 → BufferPool.resident BufferPool.demo_pool q g page →
                 0 < BufferPool.pin_count_ page →
                 BufferPool.resident bpm' q g page) ∧
    res = Some 0 ∧
    ∃ page, BufferPool.frame_at BufferPool.demo_pool 0 = Some page ∧
      BufferPool.resident bpm' 0 0
        (BufferPool.mkPage 0 (BufferPool.pin_count_ page + 1)
           (BufferPool.is_dirty_ page) (BufferPool.data_ page)) ∧
      LRUK.is_evictable (BufferPool.replacer_ bpm') 0 = false ∧
      (∀ g, g ≠ 0 → BufferPool.frame_at bpm' g
                    = BufferPool.frame_at BufferPool.demo_pool g) ∧
      BufferPool.page_table_ bpm'
      = BufferPool.page_table_ BufferPool.demo_pool ∧
      BufferPool.free_list_ bpm' = BufferPool.free_list_ BufferPool.demo_pool ∧
      BufferPool.disk_manager_ bpm'
      = BufferPool.disk_manager_ BufferPool.demo_pool.
Proof.
  apply (FetchPgImp_spec 0 BufferPool.demo_pool 0 demo_pool_ok);
    vm_compute; (reflexivity || (split; [discriminate|reflexivity])).
Defined.

(** X13.  [DeletePgImp] on a pool in order returns.  For a page that is
    not resident it returns true and changes nothing; for a resident page
    with a positive pin count it returns false and changes nothing.  For a
    resident page with pin count 0 it returns true: the page leaves the
    page table, its frame is reset and appended to the free list and is no
    longer tracked by the replacer, no other page or frame is touched, and
    nothing is written to disk, also when the page was dirty. *)
Theorem DeletePgImp_spec {Data : Type} (zero_data : Data)
  (bpm : BufferPool.BufferPoolManagerInstance Data) (page_id : Z) :
  BufferPool.pool_ok bpm →
  ∃ res bpm',
    BufferPool.DeletePgImp zero_data bpm page_id = Some (res, bpm') ∧
    BufferPool.disk_manager_ bpm' = BufferPool.disk_manager_ bpm ∧
    BufferPool.next_page_id_ bpm' = BufferPool.next_page_id_ bpm ∧
    match BufferPool.table_find bpm page_id with
    | Some (Some f) =>
        ∃ page, BufferPool.frame_at bpm f = Some page ∧
          if decide (BufferPool.pin_count_ page = 0) then
            res = true ∧
            BufferPool.table_find bpm' page_id = Some None ∧
            (∀ q, q ≠ page_id →
                  BufferPool.table_find bpm' q = BufferPool.table_find bpm q) ∧
            BufferPool.frame_at bpm' f
            = Some (BufferPool.mkPage BufferPool.INVALID_PAGE_ID 0 false
                      zero_data) ∧
            (∀ g, g ≠ f →
                  BufferPool.frame_at bpm' g = BufferPool.frame_at bpm g) ∧
            BufferPool.free_list_ bpm' = BufferPool.free_list_ bpm ++ [f] ∧
            (¬ BufferPool.tracked bpm' f)
          else 0 < BufferPool.pin_count_ page ∧ res = false ∧ bpm' = bpm
    | _ => res = true ∧ bpm' = bpm
    end.
Proof.
  intros Hok.
  destruct (DeletePgImp_ok zero_data bpm page_id Hok)
    as (res & bpm' & Hrun & Hok' & Hdisk' & Hnext' & Hres).
  exists res, bpm'. split; [done|]. split; [done|]. split; [done|].
  destruct (BufferPool.table_find bpm page_id) as [[f|]|] eqn:Hfound;
    [|done|done].
  destruct Hres as (page & Hpg & Hcase). exists page. split; [done|].
  destruct (decide (BufferPool.pin_count_ page = 0)); [done|].
  split; [|done].
  destruct (resident_frame bpm page_id f Hok Hfound)
    as (page0 & Hpg0 & _ & _ & _ & _ & _ & _ & Hpin0 & _).
  assert (page0 = page) as -> by congruence. lia.
Qed.

Lemma DeletePgImp_spec_witness :
  ∃ res bpm',
    BufferPool.DeletePgImp 0 BufferPool.demo_pool 0 = Some (res, bpm') ∧
    BufferPool.disk_manager_ bpm'
    = BufferPool.disk_manager_ BufferPool.demo_pool ∧
    BufferPool.next_page_id_ bpm'
    = BufferPool.next_page_id_ BufferPool.demo_pool ∧
    ∃ page, BufferPool.frame_at BufferPool.demo_pool 0 = Some page ∧
      if decide (BufferPool.pin_count_ page = 0) then
        res = true ∧
        BufferPool.table_find bpm' 0 = Some None ∧
        (∀ q, q ≠ 0 → BufferPool.table_find bpm' q
                      = BufferPool.table_find BufferPool.demo_pool q) ∧
        BufferPool.frame_at bpm' 0
        = Some (BufferPool.mkPage BufferPool.INVALID_PAGE_ID 0 false 0) ∧
        (∀ g, g ≠ 0 → BufferPool.frame_at bpm' g
                      = BufferPool.frame_at BufferPool.demo_pool g) ∧
        BufferPool.free_list_ bpm'
        = BufferPool.free_list_ BufferPool.demo_pool ++ [0] ∧
        (¬ BufferPool.tracked bpm' 0)
      else 0 < BufferPool.pin_count_ page ∧ res = false ∧
           bpm' = BufferPool.demo_pool.
Proof.
  exact (DeletePgImp_spec 0 BufferPool.demo_pool 0 demo_pool_ok).
Defined.

(** X14.  The pool does not lose bytes.  [page_content] is what a client
    sees of a page: the bytes of its frame when resident, else the bytes
    on disk.  When every clean resident page has the bytes the disk holds
    for it ([disk_ok], true of a new pool), this stays so, and no
    operation changes the content of a page, whichever page is evicted:
    [NewPgImp] changes only the content of the new page, which reads as
    zeroes; [FetchPgImp] returns the page with exactly its content;
    [UnpinPgImp], [FlushPgImp] and [FlushAllPgsImp] change no content;
    [DeletePgImp] changes at most the content of the deleted page, which
    falls back to the bytes on disk. *)
Theorem pool_keeps_page_content {Data : Type} (zero_data : Data) :
  (∀ (pool_size : nat) (replacer_k : Z) (bucket_size : nat),
     BufferPool.disk_ok zero_data
       (BufferPool.new_pool zero_data pool_size replacer_k bucket_size)) ∧
  (∀ bpm : BufferPool.BufferPoolManagerInstance Data,
     BufferPool.pool_ok bpm → BufferPool.disk_ok zero_data bpm →
     BufferPool.next_page_id_ bpm + 1 < 2 ^ 31 →
     LRUK.current_timestamp_ (BufferPool.replacer_ bpm) + 1 < 2 ^ 64 →
     ∃ res bpm', BufferPool.NewPgImp zero_data bpm = Some (res, bpm') ∧
       BufferPool.disk_ok zero_data bpm' ∧
       (∀ q, q ≠ BufferPool.next_page_id_ bpm →
             BufferPool.page_content zero_data bpm' q
             = BufferPool.page_content zero_data bpm q) ∧
       (is_Some res →
        BufferPool.page_content zero_data bpm' (BufferPool.next_page_id_ bpm)
        = Some zero_data)) ∧
  (∀ (bpm : BufferPool.BufferPoolManagerInstance Data) (page_id : Z),
     BufferPool.pool_ok bpm → BufferPool.disk_ok zero_data bpm →
     0 ≤ page_id < BufferPool.next_page_id_ bpm →
     LRUK.current_timestamp_ (BufferPool.replacer_ bpm) + 1 < 2 ^ 64 →
     ∃ res bpm',
       BufferPool.FetchPgImp zero_data bpm page_id = Some (res, bpm') ∧
       BufferPool.disk_ok zero_data bpm' ∧
       (∀ q, BufferPool.page_content zero_data bpm' q
             = BufferPool.page_content zero_data bpm q) ∧
       ∀ f, res = Some f →
            ∃ page, BufferPool.frame_at bpm' f = Some page ∧
                    BufferPool.page_id_ page = page_id ∧
                    BufferPool.page_content zero_data bpm page_id
                    = Some (BufferPool.data_ page)) ∧
  (∀ (bpm : BufferPool.BufferPoolManagerInstance Data) (page_id : Z)
     (is_dirty : bool),
     BufferPool.pool_ok bpm → BufferPool.disk_ok zero_data bpm →
     ∃ res bpm',
       BufferPool.UnpinPgImp bpm page_id is_dirty = Some (res, bpm') ∧
       BufferPool.disk_ok zero_data bpm' ∧
       ∀ q, BufferPool.page_content zero_data bpm' q
            = BufferPool.page_content zero_data bpm q) ∧
  (∀ (bpm : BufferPool.BufferPoolManagerInstance Data) (page_id : Z),
     BufferPool.pool_ok bpm → BufferPool.disk_ok zero_data bpm →
     ∃ res bpm', BufferPool.FlushPgImp bpm page_id = Some (res, bpm') ∧
       BufferPool.disk_ok zero_data bpm' ∧
       ∀ q, BufferPool.page_content zero_data bpm' q
            = BufferPool.page_content zero_data bpm q) ∧
  (∀ bpm : BufferPool.BufferPoolManagerInstance Data,
     BufferPool.pool_ok bpm → BufferPool.disk_ok zero_data bpm →
     ∃ bpm', BufferPool.FlushAllPgsImp bpm = Some bpm' ∧
       BufferPool.disk_ok zero_data bpm' ∧
       ∀ q, BufferPool.page_content zero_data bpm' q
            = BufferPool.page_content zero_data bpm q) ∧
  (∀ (bpm : BufferPool.BufferPoolManagerInstance Data) (page_id : Z),
     BufferPool.pool_ok bpm → BufferPool.disk_ok zero_data bpm →
     ∃ res bpm',
       BufferPool.DeletePgImp zero_data bpm page_id = Some (res, bpm') ∧
       BufferPool.disk_ok zero_data bpm' ∧
       (∀ q, q ≠ page_id →
             BufferPool.page_content zero_data bpm' q
             = BufferPool.page_content zero_data bpm q) ∧
       (res = true →
        BufferPool.page_content zero_data bpm' page_id
        = Some (BufferPool.ReadPage zero_data
                  (BufferPool.disk_manager_ bpm) page_id))).
Proof.
  split; [apply new_pool_disk_ok|].
  split.
  { intros bpm Hok Hdisk Hroom Hts.
    destruct (NewPgImp_content zero_data bpm Hok Hdisk Hroom Hts)
      as (res & bpm' & Hrun & _ & Hd' & Hc' & Hnew).
    by exists res, bpm'. }
  split.
  { intros bpm pid Hok Hdisk Hpid Hts.
    destruct (FetchPgImp_content zero_data bpm pid Hok Hdisk Hpid Hts)
      as (res & bpm' & Hrun & _ & Hd' & Hc' & Hnew).
    by exists res, bpm'. }
  split.
  { intros bpm pid d Hok Hdisk.
    destruct (UnpinPgImp_content zero_data bpm pid d Hok Hdisk)
      as (res & bpm' & Hrun & _ & Hd' & Hc').
    by exists res, bpm'. }
  split.
  { intros bpm pid Hok Hdisk.
    destruct (FlushPgImp_ok zero_data bpm pid Hok)
      as (res & bpm' & Hrun & _ & Hd' & Hc' & _).
    exists res, bpm'. split; [done|]. split; [by apply Hd'|done]. }
  split.
  { intros bpm Hok Hdisk.
    destruct (FlushAllPgsImp_ok zero_data bpm Hok)
      as (bpm' & Hrun & _ & Hd' & Hc' & _).
    exists bpm'. split; [done|]. split; [by apply Hd'|done]. }
  intros bpm pid Hok Hdisk.
  destruct (DeletePgImp_content zero_data bpm pid Hok Hdisk)
    as (res & bpm' & Hrun & _ & Hd' & Hc' & Hgone).
  exists res, bpm'. split; [done|]. split; [done|]. split; [done|].
  intros Hres. by destruct (Hgone Hres).
Qed.

Lemma pool_keeps_page_content_witness :
  ∃ res bpm',
    BufferPool.UnpinPgImp BufferPool.demo_pool 0 true = Some (res, bpm') ∧
    BufferPool.disk_ok 0 bpm' ∧
    ∀ q, BufferPool.page_content 0 bpm' q
         = BufferPool.page_content 0 BufferPool.demo_pool q.
Proof.
  destruct (pool_keeps_page_content (Data := Z) 0)
    as (_ & _ & _ & Hunpin & _).
  exact (Hunpin BufferPool.demo_pool 0 true demo_pool_ok demo_pool_disk_ok).
Defined.

(** X15.  [FlushAllPgsImp] on a pool in order returns, and afterwards
    every frame that holds a page is clean and the disk holds exactly the
    bytes of that frame under its page id; page ids, pin counts and bytes
    of the frames are as before. *)
Theorem FlushAllPgsImp_syncs {Data : Type} (zero_data : Data)
  (bpm : BufferPool.BufferPoolManagerInstance Data) :
  BufferPool.pool_ok bpm →
  ∃ bpm', BufferPool.FlushAllPgsImp bpm = Some bpm' ∧
    ∀ f page, BufferPool.frame_at bpm' f = Some page →
      BufferPool.page_id_ page ≠ BufferPool.INVALID_PAGE_ID →
      BufferPool.is_dirty_ page = false ∧
      BufferPool.ReadPage zero_data (BufferPool.disk_manager_ bpm')
        (BufferPool.page_id_ page)
      = BufferPool.data_ page ∧
      ∃ page0, BufferPool.frame_at bpm f = Some page0 ∧
               BufferPool.page_id_ page0 = BufferPool.page_id_ page ∧
               BufferPool.pin_count_ page0 = BufferPool.pin_count_ page ∧
               BufferPool.data_ page0 = BufferPool.data_ page.
Proof.
  intros Hok.
  destruct (FlushAllPgsImp_synced zero_data bpm Hok)
    as (bpm' & Hrun & _ & Hall).
  by exists bpm'.
Qed.

Lemma FlushAllPgsImp_syncs_witness :
  ∃ bpm', BufferPool.FlushAllPgsImp BufferPool.demo_pool = Some bpm' ∧
    ∀ f page, BufferPool.frame_at bpm' f = Some page →
      BufferPool.page_id_ page ≠ BufferPool.INVALID_PAGE_ID →
      BufferPool.is_dirty_ page = false ∧
      BufferPool.ReadPage 0 (BufferPool.disk_manager_ bpm')
        (BufferPool.page_id_ page)
      = BufferPool.data_ page ∧
      ∃ page0, BufferPool.frame_at BufferPool.demo_pool f = Some page0 ∧
               BufferPool.page_id_ page0 = BufferPool.page_id_ page ∧
               BufferPool.pin_count_ page0 = BufferPool.pin_count_ page ∧
               BufferPool.data_ page0 = BufferPool.data_ page.
Proof.
  exact (FlushAllPgsImp_syncs 0 BufferPool.demo_pool demo_pool_ok).
Defined.

(* ===================================================================== *)
(** ** The B+ tree as a dictionary *)
(* ===================================================================== *)

Section TreeDictionary.
Import BPlusTree.

Lemma run_inserts_dictionary fuel ops : ∀ G t H (m : gmap Z Z),
  ord_inv G t H None →
  (∀ k v, stored t k v ↔ m !! k = Some v) →
  forallb is_insert ops = true → (H + length ops ≤ fuel)%nat →
  ∃ t' G' H', run_operations fuel t ops = Some t' ∧ ord_inv G' t' H' None ∧
    (H' ≤ H + length ops)%nat ∧
    ∀ k v, stored t' k v ↔ foldl dictionary_step m ops !! k = Some v.
Proof.
  induction ops as [|op ops IH]; intros G t H m Hinv Hm Hins Hfuel.
  { exists t, G, H. split; [done|]. split; [done|]. split; [lia|done]. }
  destruct op as [key value|key]; [|done].
  simpl in Hins, Hfuel. simpl.
  destruct (Insert_ord G t H fuel key value Hinv ltac:(lia))
    as [[[v0 Hst] Hrun]|[Hnst (t1 & G1 & H1 & Hrun & Hinv1 & HH1 & Hst1)]].
  - rewrite Hrun. cbn [mbind option_bind].
    apply Hm in Hst. rewrite Hst.
    destruct (IH G t H m Hinv Hm Hins ltac:(lia))
      as (t' & G' & H' & Hrun' & Hinv' & HH' & Hm').
    exists t', G', H'. split; [done|]. split; [done|]. split; [lia|done].
  - rewrite Hrun. cbn [mbind option_bind].
    assert (Hnone : m !! key = None).
    { destruct (m !! key) as [v0|] eqn:Hk; [|done].
      destruct (Hnst v0). by apply Hm. }
    rewrite Hnone.
    destruct (IH G1 t1 H1 (<[key := value]> m) Hinv1) as
      (t' & G' & H' & Hrun' & Hinv' & HH' & Hm'); [|done|lia|].
    { intros k v. rewrite Hst1, Hm.
      destruct (decide (k = key)) as [->|Hne].
      - rewrite lookup_insert_eq. rewrite Hnone. split.
        + intros [[_ ->]|?]; done.
        + intros [= ->]. by left.
      - rewrite lookup_insert_ne by done. split; [|by right].
        intros [[? _]|?]; done. }
    exists t', G', H'. split; [done|]. split; [done|]. split; [lia|done].
Qed.


End TreeDictionary.

(** X16.  The index is a dictionary under inserts.  Starting from the
    empty index (both maximum sizes at least 2, a pool that serves every
    request), after any sequence of [Insert] calls made with a transaction
    every call has returned with its latches released, and [GetValue], made
    with a transaction, then returns for every key what a dictionary holds
    after the same calls: the value of the first [Insert] of the key, and
    nothing for a key that was not inserted. *)
Theorem index_is_dictionary (fuel : nat) (leaf_max_size internal_max_size
  first_page_id : Z) (pairs : list (Z * Z)) :
  2 ≤ leaf_max_size → 2 ≤ internal_max_size → 0 ≤ first_page_id →
  (length pairs ≤ fuel)%nat →
  ∃ t,
    Crabbing.insert_all fuel
      (Crabbing.with_transaction
         (BPlusTree.new_tree leaf_max_size internal_max_size first_page_id
            []))
      pairs = Some (Crabbing.with_transaction t) ∧
    ∀ key, Crabbing.GetValue fuel (Crabbing.with_transaction t) key
           = Some (BPlusTree.dictionary_after (Crabbing.inserts pairs) !! key,
                   Crabbing.with_transaction t).
Proof.
  intros Hlm Him Hfirst Hfuel.
  pose proof (inserts_are_inserts pairs) as Hins.
  pose proof (length_inserts pairs) as Hlen.
  destruct (new_tree_well_formed leaf_max_size internal_max_size
              first_page_id Hlm Him Hfirst) as [G Hinv].
  destruct (run_inserts_dictionary fuel (Crabbing.inserts pairs) G _ 0%nat ∅
              Hinv)
    as (t & G' & H' & Hrun & Hinv' & HH' & Hm); [|done|lia|].
  { intros k v. rewrite lookup_empty. split; [|done].
    intros (x & items & Hx & _). unfold BPlusTree.leaf_items,
      BPlusTree.leaf_at, BPlusTree.page_at in Hx. simpl in Hx.
    by rewrite lookup_empty in Hx. }
  exists t. split.
  { by apply (insert_all_with_transaction fuel pairs G _ 0%nat t Hinv);
      [lia|]. }
  intros key.
  destruct (GetValue_spec G' t H' fuel key Hinv' ltac:(lia))
    as (r & Hget & Hr).
  rewrite (GetValue_with_transaction G' t H' fuel key r Hinv' ltac:(lia)
             Hget).
  f_equal. f_equal. unfold BPlusTree.dictionary_after.
  destruct r as [v|].
  - symmetry. apply Hm, Hr. done.
  - destruct (foldl BPlusTree.dictionary_step ∅ (Crabbing.inserts pairs)
                !! key) as [v|] eqn:Hk; [|done].
    apply Hm, Hr in Hk. done.
Qed.

Lemma index_is_dictionary_witness :
  ∃ t,
    Crabbing.insert_all 10
      (Crabbing.with_transaction (BPlusTree.new_tree 4 4 1 []))
      (Crabbing.ascending_items 10) = Some (Crabbing.with_transaction t) ∧
    ∀ key, Crabbing.GetValue 10 (Crabbing.with_transaction t) key
           = Some (BPlusTree.dictionary_after
                     (Crabbing.inserts (Crabbing.ascending_items 10)) !! key,
                   Crabbing.with_transaction t).
Proof.
  apply (index_is_dictionary 10 4 4 1 (Crabbing.ascending_items 10));
    [lia|lia|lia|simpl; lia].
Defined.



(* ===================================================================== *)
(** ** The chain of the leaves and the scan *)
(* ===================================================================== *)

Section LeafViews.
Import BPlusTree.
Implicit Types (t : BPlusTree) (l : LeafPage) (n : InternalPage).

Lemma leaf_view_write_internal t pid n x :
  leaf_at t pid = None →
  leaf_view (write_page t pid (InternalNode n)) x = leaf_view t x.
Proof.
  intros Hnone. unfold leaf_view, leaf_at in *.
  rewrite page_at_write_page. destruct (decide (pid = x)) as [<-|Hne]; [|done].
  simpl. destruct (page_at t pid) as [[l|?]|]; done.
Qed.

Lemma leaf_view_SetParent t c q p x :
  page_at t c = Some p →
  leaf_view (write_page t c (SetParentPageId p q)) x = leaf_view t x.
Proof.
  intros Hp. unfold leaf_view, leaf_at. rewrite page_at_write_page.
  destruct (decide (c = x)) as [<-|Hne]; [|done].
  rewrite Hp. by destruct p.
Qed.

Lemma ids_below_write t pid p :
  ids_below t → pid < next_page_id (buffer_pool_manager_ t) →
  ids_below (write_page t pid p).
Proof.
  intros Hb Hpid x. rewrite page_at_write_page.
  destruct (decide (pid = x)) as [<-|Hne]; [done|]. apply Hb.
Qed.

Lemma ids_below_fresh t :
  ids_below t → page_at t (next_page_id (buffer_pool_manager_ t)) = None.
Proof.
  intros Hb. destruct (page_at t _) eqn:Hp; [|done].
  pose proof (Hb _ ltac:(by eexists)). lia.
Qed.

Lemma kept_refl t : served t → ids_below t → kept t t.
Proof. by intros. Qed.

Lemma kept_trans t1 t2 t3 : kept t1 t2 → kept t2 t3 → kept t1 t3.
Proof.
  intros (_ & _ & H12) (Hs & Hb & H23). split; [done|]. split; [done|].
  intros x. by rewrite H23.
Qed.

Lemma kept_set_parent t c q t' :
  served t → ids_below t → set_parent_of t c q = Some t' → kept t t'.
Proof.
  intros Hs Hb Hset. apply set_parent_of_Some in Hset as (p & Hp & ->).
  split; [by apply write_page_served|]. split.
  - apply ids_below_write; [done|]. apply Hb. by eexists.
  - intros x. by apply leaf_view_SetParent.
Qed.

Lemma kept_write_internal t pid n :
  served t → ids_below t → leaf_at t pid = None →
  pid < next_page_id (buffer_pool_manager_ t) →
  kept t (write_page t pid (InternalNode n)).
Proof.
  intros Hs Hb Hnone Hpid. split; [by apply write_page_served|].
  split; [by apply ids_below_write|].
  intros x. by apply leaf_view_write_internal.
Qed.

Lemma kept_after_NewPage t :
  served t → ids_below t → kept t (after_NewPage t).
Proof.
  intros Hs Hb. split; [done|]. split; [|done].
  intros x Hx. pose proof (Hb x Hx). simpl. lia.
Qed.

Lemma kept_UpdateRootPageId t root b t' :
  served t → ids_below t →
  UpdateRootPageId (set_root t root) b = Some t' → kept t t'.
Proof.
  intros Hs Hb Hrun.
  destruct (served_UpdateRootPageId (set_root t root) b)
    as (t2 & Hrun2 & (_ & _ & _ & Hnext) & Hs2 & Hpages); [done|].
  assert (t2 = t') as -> by congruence.
  split; [done|]. split.
  - intros x Hx. rewrite Hpages in Hx. rewrite Hnext. by apply Hb.
  - intros x. unfold leaf_view, leaf_at. by rewrite Hpages.
Qed.

Lemma kept_adopt_children children : ∀ t q r t',
  served t → ids_below t →
  adopt_children t children q = Some (r, t') → kept t t'.
Proof.
  induction children as [|c rest IH]; intros t q r t' Hs Hb Hrun.
  { simpl in Hrun. injection Hrun as <- <-. by apply kept_refl. }
  simpl in Hrun. rewrite (served_FetchPage t c Hs) in Hrun.
  case_bool_decide; [|injection Hrun as <- <-; by apply kept_refl].
  destruct (set_parent_of t c q) as [t1|] eqn:Hset; [|done].
  cbn [mbind option_bind] in Hrun.
  pose proof (kept_set_parent t c q t1 Hs Hb Hset) as Hk1.
  destruct Hk1 as (Hs1 & Hb1 & Hv1).
  apply (kept_trans t t1 t'); [done|]. by eapply IH.
Qed.

End LeafViews.

Section LeafViews2.
Import BPlusTree.
Implicit Types (t : BPlusTree) (l : LeafPage) (n : InternalPage).

Lemma internal_not_leaf t pid n : internal_at t pid = Some n → leaf_at t pid = None.
Proof.
  intros Hn. apply page_at_internal in Hn. unfold leaf_at. by rewrite Hn.
Qed.

Lemma InsertIntoParent_body_kept recur t parent_id left_id key right_id t' :
  (∀ t1 p1 c1 k1 r1 t2, served t1 → ids_below t1 →
                        recur t1 p1 c1 k1 r1 = Some t2 → kept t1 t2) →
  served t → ids_below t →
  InsertIntoParent_body recur t parent_id left_id key right_id = Some t' →
  kept t t'.
Proof.
  intros Hrec Hs Hb Hrun. unfold InsertIntoParent_body in Hrun.
  case_bool_decide as Hpar.
  - (* a new root *)
    rewrite (served_NewPage t Hs) in Hrun. fold (after_NewPage t) in Hrun.
    pose proof (kept_after_NewPage t Hs Hb) as K1.
    pose proof (ids_below_fresh t Hb) as Hfresh.
    set (R := next_page_id (buffer_pool_manager_ t)) in *.
    set (root := InternalNode _) in Hrun.
    set (t1 := write_page (after_NewPage t) R root) in *.
    assert (K2 : kept (after_NewPage t) t1).
    { destruct K1 as (Hs1 & Hb1 & _).
      apply kept_write_internal; [done|done| |simpl; lia].
      unfold leaf_at.
      change (page_at (after_NewPage t) R) with (page_at t R).
      by rewrite Hfresh. }
    pose proof (kept_trans _ _ _ K1 K2) as K12.
    destruct K12 as (Hs1 & Hb1 & Hv1).
    rewrite (served_FetchPage t1 left_id Hs1) in Hrun.
    rewrite (served_FetchPage t1 right_id Hs1) in Hrun.
    destruct (bool_decide (left_id ≠ INVALID_PAGE_ID)
              && bool_decide (right_id ≠ INVALID_PAGE_ID)).
    2:{ injection Hrun as <-. by repeat split. }
    destruct (set_parent_of t1 left_id R) as [t2|] eqn:Hset2; [|done].
    cbn [mbind option_bind] in Hrun.
    pose proof (kept_set_parent _ _ _ _ Hs1 Hb1 Hset2) as K3.
    destruct K3 as (Hs2 & Hb2 & Hv2).
    destruct (set_parent_of t2 right_id R) as [t3|] eqn:Hset3; [|done].
    cbn [mbind option_bind] in Hrun.
    pose proof (kept_set_parent _ _ _ _ Hs2 Hb2 Hset3) as K4.
    destruct K4 as (Hs3 & Hb3 & Hv3).
    pose proof (kept_UpdateRootPageId _ _ _ _ Hs3 Hb3 Hrun) as (Hs4 & Hb4 & Hv4).
    split; [done|]. split; [done|]. intros x.
    by rewrite Hv4, Hv3, Hv2, Hv1.
  - rewrite (served_FetchPage t parent_id Hs) in Hrun.
    rewrite bool_decide_eq_true_2 in Hrun by done. cbn [negb] in Hrun.
    destruct (internal_at t parent_id) as [pn|] eqn:Hpn; [|done].
    cbn [mbind option_bind] in Hrun.
    set (pos := match index_of_child _ _ _ with Some i => S i | None => O end)
      in Hrun.
    set (t1 := write_page t parent_id _) in Hrun.
    assert (K1 : kept t t1).
    { apply kept_write_internal; [done|done|by eapply internal_not_leaf|].
      apply Hb. apply page_at_internal in Hpn. by eexists. }
    destruct K1 as (Hs1 & Hb1 & Hv1).
    rewrite (served_FetchPage t1 right_id Hs1) in Hrun.
    assert (∃ t2, (if bool_decide (right_id ≠ INVALID_PAGE_ID)
                   then set_parent_of t1 right_id parent_id else Some t1)
                  = Some t2 ∧ kept t1 t2) as (t2 & Ht2 & K2).
    { destruct (bool_decide (right_id ≠ INVALID_PAGE_ID)).
      - destruct (set_parent_of t1 right_id parent_id) as [t2|] eqn:Hset;
          [|done].
        exists t2. split; [done|]. by eapply kept_set_parent.
      - exists t1. split; [done|]. by apply kept_refl. }
    rewrite Ht2 in Hrun. cbn [mbind option_bind] in Hrun.
    pose proof (kept_trans t t1 t2 ltac:(by repeat split) K2) as K12.
    destruct K12 as (Hs2 & Hb2 & Hv2).
    destruct (internal_at t2 parent_id) as [pn2|] eqn:Hpn2; [|done].
    cbn [mbind option_bind] in Hrun.
    clear Ht2. case_bool_decide as Hbig; [|injection Hrun as <-; by repeat split].
    rewrite (served_NewPage t2 Hs2) in Hrun. fold (after_NewPage t2) in Hrun.
    pose proof (kept_after_NewPage t2 Hs2 Hb2) as K3.
    pose proof (ids_below_fresh t2 Hb2) as Hfresh.
    set (N := next_page_id (buffer_pool_manager_ t2)) in *.
    destruct (KeyAt (i_items pn2) _) as [mk|]; [|done].
    cbn [mbind option_bind] in Hrun.
    destruct (ValueAt (i_items pn2) _) as [pc|]; [|done].
    cbn [mbind option_bind] in Hrun.
    set (t3 := write_page (after_NewPage t2) N _) in Hrun.
    assert (K4 : kept (after_NewPage t2) t3).
    { destruct K3 as (Hs3 & Hb3 & _).
      apply kept_write_internal; [done|done| |simpl; lia].
      unfold leaf_at.
      change (page_at (after_NewPage t2) N) with (page_at t2 N).
      by rewrite Hfresh. }
    pose proof (kept_trans _ _ _ K3 K4) as K34.
    destruct K34 as (Hs3 & Hb3 & Hv3).
    set (t4 := write_page t3 parent_id _) in Hrun.
    assert (K5 : kept t3 t4).
    { apply kept_write_internal; [done|done| |].
      - assert (Hl : ∀ y, leaf_at t3 y = None ↔ leaf_at t2 y = None).
        { intros y. pose proof (Hv3 y) as Hy. unfold leaf_view in Hy.
          destruct (leaf_at t3 y), (leaf_at t2 y); done. }
        apply Hl. by eapply internal_not_leaf.
      - apply page_at_internal in Hpn2.
        pose proof (Hb2 parent_id ltac:(by eexists)). simpl. lia. }
    destruct K5 as (Hs4 & Hb4 & Hv4).
    match type of Hrun with
    | context [adopt_children t4 ?cs N] =>
        destruct (adopt_children t4 cs N) as [[ok t5]|] eqn:Hadopt; [|done]
    end.
    cbn [mbind option_bind] in Hrun.
    pose proof (kept_adopt_children _ _ _ _ _ Hs4 Hb4 Hadopt)
      as (Hs5 & Hb5 & Hv5).
    assert (K05 : kept t t5).
    { split; [done|]. split; [done|]. intros x.
      by rewrite Hv5, Hv4, Hv3, Hv2. }
    destruct ok; [|by injection Hrun as <-].
    destruct (internal_at t5 parent_id) as [pn5|]; [|done].
    cbn [mbind option_bind] in Hrun.
    apply (kept_trans t t5 t'); [done|]. by eapply Hrec.
Qed.

Lemma InsertIntoParent_kept fuel : ∀ t parent_id left_id key right_id t',
  served t → ids_below t →
  InsertIntoParent fuel t parent_id left_id key right_id = Some t' →
  kept t t'.
Proof.
  induction fuel as [|fuel IH]; intros t p c k r t' Hs Hb Hrun.
  - simpl in Hrun.
    eapply (InsertIntoParent_body_kept _ t p c k r t'); [|done|done|exact Hrun].
    intros t1 p1 c1 k1 r1 t2 _ _ Hnone. discriminate.
  - simpl in Hrun.
    eapply (InsertIntoParent_body_kept _ t p c k r t'); [|done|done|exact Hrun].
    intros t1 p1 c1 k1 r1 t2 Hs1 Hb1 Hrun1. by eapply IH.
Qed.

End LeafViews2.

Section LeafViews3.
Import BPlusTree.
Implicit Types (t : BPlusTree) (l : LeafPage) (n : InternalPage).

Lemma ord_inv_ids_below G t H defect : ord_inv G t H defect → ids_below t.
Proof.
  intros Hinv pid Hp. by apply (page_in_range G t H defect pid Hinv).
Qed.

Lemma leaf_view_write_leaf t pid l x :
  leaf_view (write_page t pid (LeafNode l)) x
  = if decide (x = pid) then Some (l_next l, l_items l) else leaf_view t x.
Proof.
  unfold leaf_view, leaf_at. rewrite page_at_write_page.
  destruct (decide (pid = x)) as [<-|Hne].
  - by rewrite decide_True.
  - by rewrite decide_False.
Qed.

Lemma leaf_view_Some t x l :
  page_at t x = Some (LeafNode l) → leaf_view t x = Some (l_next l, l_items l).
Proof. intros Hl. unfold leaf_view, leaf_at. by rewrite Hl. Qed.

(** The leaves after [Insert]. *)
Lemma Insert_leaf_views G t H fuel key value r t' :
  ord_inv G t H None → (H ≤ fuel)%nat →
  Insert fuel t key value = Some (r, t') →
  (r = false ∧ t' = t) ∨
  (root_page_id_ t = INVALID_PAGE_ID ∧
   ∃ R, 0 ≤ R ∧
     ∀ x, leaf_view t' x
          = if decide (x = R) then Some (INVALID_PAGE_ID, [(key, value)])
            else None) ∨
  ∃ L l pos,
    page_at t L = Some (LeafNode l) ∧
    ((∀ x, leaf_view t' x
           = if decide (x = L)
             then Some (l_next l, insert_at (l_items l) pos (key, value))
             else leaf_view t x) ∨
     ∃ N s, leaf_view t N = None ∧ N ≠ L ∧ 0 ≤ N ∧
       (0 < s < S (length (l_items l)))%nat ∧
       ∀ x, leaf_view t' x
            = if decide (x = L)
              then Some (N, take s (insert_at (l_items l) pos (key, value)))
              else if decide (x = N)
              then Some (l_next l,
                         drop s (insert_at (l_items l) pos (key, value)))
              else leaf_view t x).
Proof.
  intros Hinv Hfuel Hrun.
  pose proof Hinv as (Hs & Hlm & Him & Hn & Hr & Hroot & _ & Hall).
  pose proof (ord_inv_ids_below _ _ _ _ Hinv) as Hb.
  unfold Insert in Hrun.
  destruct (decide (root_page_id_ t = INVALID_PAGE_ID)) as [Hrt|Hrt].
  { (* the first key *)
    right. left. split; [done|].
    rewrite bool_decide_eq_true_2 in Hrun by done.
    rewrite (served_NewPage t Hs) in Hrun. fold (after_NewPage t) in Hrun.
    set (R := next_page_id (buffer_pool_manager_ t)) in *.
    set (t2 := write_page (after_NewPage t) R _) in Hrun.
    destruct (UpdateRootPageId (set_root t2 R) true) as [t3|] eqn:Hup; [|done].
    cbn [mbind option_bind] in Hrun. injection Hrun as <- <-.
    destruct (served_UpdateRootPageId (set_root t2 R) true)
      as (t3' & Hup' & _ & _ & Hpages); [done|].
    assert (t3' = t3) as -> by congruence.
    exists R. split; [done|]. intros x.
    unfold leaf_view, leaf_at. rewrite Hpages.
    change (page_at (set_root t2 R) x) with (page_at t2 x).
    unfold t2. rewrite page_at_write_page.
    change (page_at (after_NewPage t) x) with (page_at t x).
    rewrite Hroot.
    destruct (decide (R = x)) as [<-|Hne].
    - by rewrite decide_True.
    - by rewrite decide_False. }
  rewrite bool_decide_eq_false_2 in Hrun by done.
  destruct (FindLeafPage_spec _ _ _ fuel key Hinv Hrt Hfuel)
    as (L & l & Hfind & HL & Hlo & Hhi).
  rewrite Hfind in Hrun. cbn [mbind option_bind] in Hrun.
  rewrite (proj2 (page_at_leaf t L l) HL) in Hrun.
  cbn [mbind option_bind] in Hrun.
  destruct (find_insert_pos (l_items l) key 0) as [pos dup] eqn:Hpos.
  rewrite (hand_off_stay _ _ _ _ _ key pos dup Hinv HL Hhi) in Hrun.
  cbn [mbind option_bind] in Hrun.
  destruct dup; [left; by injection Hrun as <- <-|].
  right. right. exists L, l, pos. split; [done|].
  rewrite (proj2 (page_at_leaf t L l) HL) in Hrun.
  cbn [mbind option_bind] in Hrun.
  set (items := insert_at (l_items l) pos (key, value)) in *.
  assert (Hlen : length items = S (length (l_items l)))
    by apply length_insert_at.
  set (l1 := set_l_items l items) in *.
  set (t1 := write_page t L (LeafNode l1)) in *.
  assert (Hs1 : served t1) by by apply write_page_served.
  assert (Hv1 : ∀ x, leaf_view t1 x
                     = if decide (x = L) then Some (l_next l, items)
                       else leaf_view t x).
  { intros x. unfold t1. by rewrite leaf_view_write_leaf. }
  case_bool_decide as Hfull.
  2:{ left. injection Hrun as <- <-. exact Hv1. }
  right.
  rewrite (served_NewPage t1 Hs1) in Hrun. fold (after_NewPage t1) in Hrun.
  pose proof (ids_below_fresh t Hb) as Hfresh.
  set (N := next_page_id (buffer_pool_manager_ t1)) in *.
  assert (HN : N = next_page_id (buffer_pool_manager_ t)) by done.
  set (s := Z.to_nat (Z.quot (Z.of_nat (length items)) 2)) in *.
  destruct (Hall _ _ HL) as (HLrange & _ & [_ HLok] & _).
  destruct HLok as (_ & HLmax & _).
  assert (Hs_range : (0 < s < length items)%nat).
  { unfold s. rewrite Z.quot_div_nonneg by lia. simpl in Hfull. lia. }
  destruct (KeyAt (drop s items) 0) as [mid|] eqn:HK; [|done].
  cbn [mbind option_bind] in Hrun.
  set (t3 := write_page (write_page (after_NewPage t1) N _) L _) in Hrun.
  destruct (InsertIntoParent fuel t3 (l_parent l) L mid N) as [t4|] eqn:Hpar;
    [|done].
  cbn [mbind option_bind] in Hrun. injection Hrun as <- <-.
  assert (HNL : N ≠ L) by lia.
  assert (Hv3 : ∀ x, leaf_view t3 x
                     = if decide (x = L) then Some (N, take s items)
                       else if decide (x = N) then Some (l_next l, drop s items)
                       else leaf_view t x).
  { intros x. unfold t3. rewrite !leaf_view_write_leaf.
    destruct (decide (x = L)) as [->|HxL]; [done|].
    destruct (decide (x = N)) as [->|HxN]; [done|].
    change (leaf_view (after_NewPage t1) x) with (leaf_view t1 x).
    rewrite Hv1. by rewrite decide_False. }
  assert (Hs3 : served t3).
  { unfold t3. by do 2 apply write_page_served. }
  assert (Hb3 : ids_below t3).
  { unfold t3. apply ids_below_write; [apply ids_below_write|].
    - intros x Hx.
      change (is_Some (page_at t1 x)) in Hx. unfold t1 in Hx.
      rewrite page_at_write_page in Hx.
      destruct (decide (L = x)) as [<-|Hne]; [simpl; lia|].
      pose proof (Hb x Hx). simpl. lia.
    - simpl. lia.
    - simpl. lia. }
  destruct (InsertIntoParent_kept fuel t3 _ _ _ _ t4 Hs3 Hb3 Hpar)
    as (_ & _ & Hv4).
  exists N, s. split.
  { unfold leaf_view, leaf_at. by rewrite HN, Hfresh. }
  split; [done|]. split; [lia|]. split; [lia|].
  intros x. by rewrite Hv4, Hv3.
Qed.

End LeafViews3.

Section LeafChain.
Import BPlusTree.
Implicit Types (t : BPlusTree) (l : LeafPage) (ids : list Z).

Lemma chain_ext_next t t' ids : ∀ x,
  (∀ y, y ∈ ids → fst <$> leaf_view t' y = fst <$> leaf_view t y) →
  chain t ids x → chain t' ids x.
Proof.
  induction ids as [|y rest IH]; intros x Hsame; simpl; [done|].
  intros (-> & v & Hv & Hrest). split; [done|].
  assert (Hy : fst <$> leaf_view t' y = Some v.1).
  { rewrite Hsame, Hv; [done|]. apply elem_of_cons. by left. }
  destruct (leaf_view t' y) as [v'|]; [|done].
  injection Hy as Hy. exists v'. split; [done|]. rewrite Hy.
  apply IH; [|done]. intros z Hz. apply Hsame. apply elem_of_cons. by right.
Qed.

Lemma chain_ext t t' ids x :
  (∀ y, y ∈ ids → leaf_view t' y = leaf_view t y) →
  chain t ids x → chain t' ids x.
Proof.
  intros Hsame. apply chain_ext_next. intros y Hy. by rewrite Hsame.
Qed.

Lemma chain_items_cons t y rest :
  chain_items t (y :: rest)
  = default [] (snd <$> leaf_view t y) ++ chain_items t rest.
Proof. done. Qed.

Lemma chain_items_ext t t' ids :
  (∀ y, y ∈ ids → leaf_view t' y = leaf_view t y) →
  chain_items t' ids = chain_items t ids.
Proof.
  induction ids as [|y rest IH]; intros Hsame; [done|].
  rewrite !chain_items_cons, Hsame, IH; [done| |set_solver].
  intros z Hz. apply Hsame. set_solver.
Qed.

Lemma elem_of_insert_after L N ids x :
  x ∈ insert_after L N ids ↔ x ∈ ids ∨ (x = N ∧ L ∈ ids).
Proof.
  induction ids as [|y rest IH]; simpl.
  { split; [intros Hx|intros [Hx|[_ Hx]]]; by apply elem_of_nil in Hx. }
  destruct (decide (y = L)) as [->|Hne].
  - rewrite !elem_of_cons. intuition auto.
  - rewrite !elem_of_cons, IH. intuition congruence.
Qed.

Lemma NoDup_insert_after L N ids :
  NoDup ids → N ∉ ids → NoDup (insert_after L N ids).
Proof.
  induction ids as [|y rest IH]; simpl; [done|].
  intros [Hy Hrest]%list.NoDup_cons HN.
  apply not_elem_of_cons in HN as [HNy HN].
  destruct (decide (y = L)) as [->|Hne].
  - apply list.NoDup_cons.
    split; [apply not_elem_of_cons; split; [congruence|done]|].
    apply list.NoDup_cons. split; [done|done].
  - apply list.NoDup_cons. split; [|by apply IH].
    rewrite elem_of_insert_after. intros [?|[? _]]; [done|congruence].
Qed.

Lemma head_insert_after L N ids :
  head (insert_after L N ids) = head ids.
Proof. destruct ids as [|y rest]; simpl; [done|]. by case_decide. Qed.

Section Split.
Context (t t' : BPlusTree) (L N nxt : Z) (its its1 its2 : list (Z * Z)).
Hypothesis HL : leaf_view t L = Some (nxt, its).
Hypothesis HN : leaf_view t N = None.
Hypothesis HNL : N ≠ L.
Hypothesis Hv : ∀ x, leaf_view t' x
  = if decide (x = L) then Some (N, its1)
    else if decide (x = N) then Some (nxt, its2)
    else leaf_view t x.

Lemma split_same ids y :
  (∀ z, z ∈ ids → is_Some (leaf_view t z)) → L ∉ ids → y ∈ ids →
  leaf_view t' y = leaf_view t y.
Proof.
  intros Hleaf HLn Hy. rewrite Hv.
  rewrite decide_False by (by intros ->).
  rewrite decide_False; [done|].
  intros ->. destruct (Hleaf N Hy) as [? ?]. congruence.
Qed.

Lemma chain_insert_after ids : ∀ x,
  NoDup ids → (∀ z, z ∈ ids → is_Some (leaf_view t z)) →
  chain t ids x → chain t' (insert_after L N ids) x.
Proof.
  induction ids as [|y rest IH]; intros x Hnd Hleaf; simpl; [done|].
  apply list.NoDup_cons in Hnd as [Hy Hnd].
  intros (-> & v & Hvy & Hrest).
  destruct (decide (y = L)) as [->|Hne].
  - rewrite HL in Hvy. injection Hvy as <-. simpl in Hrest.
    split; [done|]. exists (N, its1). split; [by rewrite Hv, decide_True|].
    simpl. split; [done|]. exists (nxt, its2).
    split; [by rewrite Hv, decide_False, decide_True|]. simpl.
    eapply chain_ext; [|exact Hrest].
    intros z Hz. eapply split_same; [|exact Hy|exact Hz].
    intros w Hw. apply Hleaf. apply elem_of_cons. by right.
  - split; [done|]. exists v. split.
    + rewrite Hv, decide_False, decide_False; [done| |done].
      intros ->. destruct (Hleaf N) as [? ?]; [apply elem_of_cons; by left|congruence].
    + apply IH; [done| |done]. intros w Hw. apply Hleaf. apply elem_of_cons. by right.
Qed.

Lemma chain_items_insert_after ids :
  NoDup ids → (∀ z, z ∈ ids → is_Some (leaf_view t z)) →
  (length (chain_items t' (insert_after L N ids))
   ≤ length (chain_items t ids)
     + (length its1 + length its2 - length its))%nat.
Proof.
  induction ids as [|y rest IH]; intros Hnd Hleaf; simpl; [lia|].
  apply list.NoDup_cons in Hnd as [Hy Hnd].
  destruct (decide (y = L)) as [->|Hne].
  - rewrite !chain_items_cons.
    rewrite !Hv, decide_True, decide_False, decide_True, HL by done. simpl.
    rewrite (chain_items_ext t t' rest).
    + rewrite !length_app. lia.
    + intros z Hz. eapply split_same; [|exact Hy|exact Hz].
      intros w Hw. apply Hleaf. apply elem_of_cons. by right.
  - rewrite !chain_items_cons, !length_app.
    assert (leaf_view t' y = leaf_view t y) as ->.
    { rewrite Hv, decide_False, decide_False; [done| |done].
      intros ->. destruct (Hleaf N) as [? ?]; [apply elem_of_cons; by left|congruence]. }
    assert (Hrest : ∀ z, z ∈ rest → is_Some (leaf_view t z))
      by (intros z Hz; apply Hleaf, elem_of_cons; by right).
    specialize (IH Hnd Hrest). lia.
Qed.

End Split.

Section Grow.
Context (t t' : BPlusTree) (L nxt : Z) (its its1 : list (Z * Z)).
Hypothesis HL : leaf_view t L = Some (nxt, its).
Hypothesis Hv : ∀ x, leaf_view t' x
  = if decide (x = L) then Some (nxt, its1) else leaf_view t x.

Lemma chain_grow ids x : chain t ids x → chain t' ids x.
Proof.
  apply chain_ext_next. intros y _. rewrite Hv.
  destruct (decide (y = L)) as [->|]; [by rewrite HL|done].
Qed.

Lemma chain_items_grow ids :
  NoDup ids →
  (length (chain_items t' ids)
   ≤ length (chain_items t ids) + (length its1 - length its))%nat.
Proof.
  induction ids as [|y rest IH]; intros Hnd; [simpl; lia|].
  apply list.NoDup_cons in Hnd as [Hy Hnd].
  rewrite !chain_items_cons, !length_app. rewrite Hv.
  destruct (decide (y = L)) as [->|Hne].
  - rewrite HL. simpl. rewrite (chain_items_ext t t' rest); [lia|].
    intros z Hz. rewrite Hv, decide_False; [done|]. by intros ->.
  - specialize (IH Hnd). lia.
Qed.

End Grow.

(** [Insert] keeps the chain of the leaves and adds at most one item. *)
Lemma Insert_chain_ok G t H fuel key value r t' ids :
  ord_inv G t H None → (H ≤ fuel)%nat → chain_ok t ids →
  Insert fuel t key value = Some (r, t') →
  ∃ ids', chain_ok t' ids' ∧
    (length (chain_items t' ids') ≤ S (length (chain_items t ids)))%nat.
Proof.
  intros Hinv Hfuel (Hnd & Hleaf & Hch) Hrun.
  destruct (Insert_leaf_views G t H fuel key value r t' Hinv Hfuel Hrun)
    as [[_ ->]|[(Hrt & R & HR & Hv)|(L & l & pos & HL & Hcase)]].
  - exists ids. split; [done|lia].
  - exists [R]. split; [|rewrite chain_items_cons, Hv, decide_True by done;
                         simpl; lia].
    split; [apply NoDup_singleton|]. split.
    + intros x. rewrite Hv, list_elem_of_singleton.
      destruct (decide (x = R)); split; try done.
    + simpl. split; [done|]. eexists. split; [by rewrite Hv, decide_True|].
      done.
  - pose proof (leaf_view_Some t L l HL) as HvL.
    assert (HLin : L ∈ ids) by (apply Hleaf; by rewrite HvL).
    pose proof (length_insert_at (l_items l) pos (key, value)) as Hlen.
    set (items := insert_at (l_items l) pos (key, value)) in *.
    destruct Hcase as [Hv|(N & s & HN & HNL & HN0 & Hs & Hv)].
    + exists ids. split.
      * split; [done|]. split.
        -- intros x. rewrite Hv, <- Hleaf.
           destruct (decide (x = L)) as [->|]; [|done]. by rewrite HvL.
        -- by eapply chain_grow.
      * pose proof (chain_items_grow t t' L _ _ _ HvL Hv ids Hnd). lia.
    + exists (insert_after L N ids). split.
      * split; [|split].
        -- apply NoDup_insert_after; [done|].
           intros HNin. apply Hleaf in HNin as [? ?]. congruence.
        -- intros x. rewrite Hv, elem_of_insert_after, <- Hleaf.
           destruct (decide (x = L)) as [->|HxL].
           { split; [intros _; left; by rewrite HvL|done]. }
           destruct (decide (x = N)) as [->|HxN].
           { split; [by right|done]. }
           split; [by left|]. by intros [?|[? _]].
        -- rewrite head_insert_after.
           eapply chain_insert_after; [exact HvL|exact HN|exact HNL|exact Hv
                                      |exact Hnd| |exact Hch].
           intros z Hz. by apply Hleaf.
      * pose proof (chain_items_insert_after t t' L N _ _ _ _ HvL HN HNL Hv
                      ids Hnd) as Hle.
        rewrite length_take, length_drop in Hle.
        specialize (Hle ltac:(intros z Hz; by apply Hleaf)). lia.
Qed.

(** [Insert] leaves no leaf empty. *)
Lemma Insert_no_empty_leaf G t H fuel key value r t' :
  ord_inv G t H None → (H ≤ fuel)%nat →
  (∀ x v, leaf_view t x = Some v → v.2 ≠ []) →
  Insert fuel t key value = Some (r, t') →
  ∀ x v, leaf_view t' x = Some v → v.2 ≠ [].
Proof.
  intros Hinv Hfuel Hfull Hrun.
  destruct (Insert_leaf_views G t H fuel key value r t' Hinv Hfuel Hrun)
    as [[_ ->]|[(Hrt & R & HR & Hv)|(L & l & pos & HL & Hcase)]]; [done|..].
  - intros x v. rewrite Hv. destruct (decide (x = R)) as [->|]; [|done].
    by intros [= <-].
  - pose proof (length_insert_at (l_items l) pos (key, value)) as Hlen.
    set (items := insert_at (l_items l) pos (key, value)) in *.
    destruct Hcase as [Hv|(N & s & HN & HNL & HN0 & Hs & Hv)].
    + intros x v. rewrite Hv. destruct (decide (x = L)) as [->|].
      * intros [= <-]. simpl. intros Hnil. by rewrite Hnil in Hlen.
      * apply Hfull.
    + intros x v. rewrite Hv.
      destruct (decide (x = L)) as [->|HxL].
      { intros [= <-]. simpl.
        intros Hnil. apply (f_equal length) in Hnil.
        rewrite length_take in Hnil. simpl in Hnil. lia. }
      destruct (decide (x = N)) as [->|HxN]; [|apply Hfull].
      intros [= <-]. simpl.
      intros Hnil. apply (f_equal length) in Hnil.
      rewrite length_drop in Hnil. simpl in Hnil. lia.
Qed.

Lemma Insert_chain G t H fuel key value r t' ids :
  ord_inv G t H None → (H ≤ fuel)%nat → chain_inv t ids →
  Insert fuel t key value = Some (r, t') →
  ∃ ids', chain_inv t' ids' ∧
    (length (chain_items t' ids') ≤ S (length (chain_items t ids)))%nat.
Proof.
  intros Hinv Hfuel [Hc Hfull] Hrun.
  destruct (Insert_chain_ok G t H fuel key value r t' ids Hinv Hfuel Hc Hrun)
    as (ids' & Hc' & Hlen).
  exists ids'. split; [|done]. split; [done|].
  by eapply Insert_no_empty_leaf.
Qed.

End LeafChain.

Section LeafScan.
Import BPlusTree.
Implicit Types (t : BPlusTree) (l : LeafPage) (ids : list Z) (G : Z → Info).

Lemma leaf_view_inv t x v :
  leaf_view t x = Some v →
  ∃ l, page_at t x = Some (LeafNode l) ∧ v = (l_next l, l_items l).
Proof.
  unfold leaf_view. destruct (leaf_at t x) as [l|] eqn:Hl; [|done].
  intros [= <-]. exists l. split; [by apply page_at_leaf|done].
Qed.

Lemma leaf_view_items t x : snd <$> leaf_view t x = leaf_items t x.
Proof. unfold leaf_view, leaf_items. by destruct (leaf_at t x). Qed.

Lemma chain_items_stored t ids k v :
  (∀ x, is_Some (leaf_view t x) ↔ x ∈ ids) →
  (k, v) ∈ chain_items t ids ↔ stored t k v.
Proof.
  intros Hleaf. unfold chain_items, stored. rewrite list_elem_of_bind. split.
  - intros (x & Hin & Hx). rewrite leaf_view_items in Hin.
    destruct (leaf_items t x) as [items|] eqn:Hit; [|by apply elem_of_nil in Hin].
    by exists x, items.
  - intros (x & items & Hit & Hin). exists x.
    rewrite leaf_view_items, Hit. split; [done|].
    apply Hleaf. rewrite <- leaf_view_items in Hit.
    by destruct (leaf_view t x).
Qed.

(** Along the chain the keys ascend. *)
Lemma chain_sorted G t H ids :
  ord_inv G t H None → (∀ x v, leaf_view t x = Some v → v.2 ≠ []) →
  ∀ x, chain t ids x →
  StronglySorted Z.lt (chain_items t ids).*1 ∧
  Forall (above (g_lo (G x))) (chain_items t ids).*1.
Proof.
  intros Hinv Hfull.
  pose proof Hinv as (_ & _ & _ & _ & _ & _ & _ & Hall).
  induction ids as [|y rest IH]; intros x.
  { intros _. split; constructor. }
  cbn [chain]. intros (-> & v & Hv & Hrest).
  rewrite chain_items_cons, Hv. cbn [fmap option_fmap option_map default].
  pose proof (Hfull _ _ Hv) as Hne.
  apply leaf_view_inv in Hv as (l & Hl & ->). cbn [fst snd] in *.
  destruct (Hall _ _ Hl) as (_ & _ & [_ Hok] & _).
  destruct Hok as (_ & _ & [Hsorted Hbounds] & Hnext).
  destruct (IH _ Hrest) as [Hsr Hlo]. clear IH.
  rewrite fmap_app.
  assert (Hrel : rest = [] ∨
            ∃ h, g_hi (G y) = Some h ∧
                 Forall (λ k, h ≤ k) (chain_items t rest).*1).
  { destruct rest as [|z rest']; [by left|]. right.
    simpl in Hrest. destruct Hrest as (Hz & v & Hvz & _).
    apply leaf_view_inv in Hvz as (lz & Hlz & _).
    destruct (Hall _ _ Hlz) as ([Hz0 _] & _).
    destruct Hnext as [_ Hmeets]; [unfold INVALID_PAGE_ID; lia|].
    unfold meets in Hmeets.
    destruct (g_hi (G y)) as [h|]; [|done].
    destruct (g_lo (G (l_next l))) as [lo'|]; [|done].
    exists h. split; [done|].
    eapply Forall_impl; [exact Hlo|]. simpl. intros k Hk. lia. }
  rewrite list.Forall_forall in Hbounds.
  destruct Hrel as [->|(h & Hh & Hge)].
  { simpl. rewrite app_nil_r. split; [done|].
    apply list.Forall_forall. intros k Hk. by apply Hbounds. }
  rewrite list.Forall_forall in Hge. rewrite Hh in Hbounds.
  split.
  - apply StronglySorted_app_2; [|done|done].
    intros k1 k2 Hk1 Hk2. destruct (Hbounds _ Hk1) as [_ Hb]. simpl in Hb.
    specialize (Hge _ Hk2). lia.
  - apply Forall_app. split.
    + apply list.Forall_forall. intros k Hk. by apply Hbounds.
    + destruct (l_items l) as [|[k0 v0] its] eqn:Hits; [done|].
      destruct (Hbounds k0) as [Hab Hbe]; [simpl; left|].
      apply list.Forall_forall. intros k Hk. specialize (Hge _ Hk).
      simpl in Hbe. destruct (g_lo (G y)) as [lo|]; [|done]. simpl in *. lia.
Qed.

(** Only the first leaf of the chain has no lower bound. *)
Lemma chain_bounded G t H ids :
  ord_inv G t H None →
  ∀ x z, chain t ids x → z ∈ ids → z = x ∨ is_Some (g_lo (G z)).
Proof.
  intros Hinv.
  pose proof Hinv as (_ & _ & _ & _ & _ & _ & _ & Hall).
  induction ids as [|y rest IH]; intros x z; simpl.
  { intros _ Hz. by apply elem_of_nil in Hz. }
  intros (-> & v & Hv & Hrest) Hz.
  apply elem_of_cons in Hz as [->|Hz]; [by left|]. right.
  destruct (IH _ _ Hrest Hz) as [->|Hsome]; [|done].
  apply leaf_view_inv in Hv as (l & Hl & ->). simpl in *.
  destruct (Hall _ _ Hl) as (_ & _ & [_ Hok] & _).
  destruct Hok as (_ & _ & _ & Hnext).
  destruct rest as [|w rest']; [by apply elem_of_nil in Hz|].
  simpl in Hrest. destruct Hrest as (Hw & vw & Hvw & _).
  apply leaf_view_inv in Hvw as (lw & Hlw & _).
  destruct (Hall _ _ Hlw) as ([Hw0 _] & _).
  destruct Hnext as [_ Hmeets]; [unfold INVALID_PAGE_ID; lia|].
  unfold meets in Hmeets. destruct (g_hi (G y)); [|done].
  by destruct (g_lo (G (l_next l))).
Qed.

Lemma chain_head G t H ids L l :
  ord_inv G t H None → chain_ok t ids →
  page_at t L = Some (LeafNode l) → g_lo (G L) = None →
  ∃ rest, ids = L :: rest.
Proof.
  intros Hinv (_ & Hleaf & Hch) HL Hlo.
  assert (HLin : L ∈ ids).
  { apply Hleaf. by rewrite (leaf_view_Some t L l HL). }
  destruct ids as [|y rest]; [by apply elem_of_nil in HLin|].
  simpl in Hch.
  destruct (chain_bounded G t H (y :: rest) Hinv y L Hch HLin)
    as [->|[? Hsome]]; [by exists rest|congruence].
Qed.

(** The way down to the leftmost leaf. *)
Lemma descend_leftmost G t H key : ∀ fuel pid p,
  ord_inv G t H None → page_at t pid = Some p →
  (g_height (G pid) ≤ fuel)%nat → g_lo (G pid) = None →
  ∃ L l, descend fuel t pid key true = Some (Some L, t) ∧
         page_at t L = Some (LeafNode l) ∧ g_lo (G L) = None.
Proof.
  intros fuel pid p Hinv. revert pid p.
  pose proof Hinv as (Hs & _ & _ & _ & _ & _ & _ & Hall).
  assert (Hgen : ∀ h fuel pid p, g_height (G pid) = h →
            page_at t pid = Some p → (h ≤ fuel)%nat →
            g_lo (G pid) = None →
            ∃ L l, descend fuel t pid key true = Some (Some L, t) ∧
                   page_at t L = Some (LeafNode l) ∧ g_lo (G L) = None).
  { clear fuel. induction h as [|h IH]; intros fuel pid p Hh Hp Hfuel Hlo.
    - destruct (Hall _ _ Hp) as (_ & _ & [_ Hok] & _).
      destruct p as [l|n].
      + exists pid, l. split; [|done].
        destruct fuel; simpl; by rewrite Hp.
      + destruct Hok as (h' & Hh' & _). congruence.
    - destruct (Hall _ _ Hp) as (_ & _ & [_ Hok] & _).
      destruct p as [l|n]; [destruct Hok as (Hh0 & _); congruence|].
      destruct Hok as (h' & Hh' & _ & Hne & _ & Hch).
      assert (h' = h) as -> by congruence.
      destruct fuel as [|fuel]; [lia|].
      rewrite (descend_internal _ _ _ _ _ _ Hp).
      destruct (i_items n) as [|[k0 c] rest] eqn:Hitems; [done|].
      change (child_for ((k0, c) :: rest) key true) with (Some c).
      cbn [mbind option_bind].
      destruct (Hch c (g_lo (G pid)) (next_key rest (g_hi (G pid))))
        as (_ & [pc Hpc] & Hok); [simpl; left|]. simpl in Hok.
      destruct (Hall _ _ Hpc) as (Hrange & _).
      rewrite (served_FetchPage t c Hs).
      rewrite bool_decide_eq_true_2 by (unfold INVALID_PAGE_ID; lia).
      apply (IH fuel c pc); [by rewrite Hok|done|lia|by rewrite Hok]. }
  intros pid p Hp Hfuel. by eapply Hgen.
Qed.

Lemma Begin_leftmost G t H fuel :
  ord_inv G t H None → root_page_id_ t ≠ INVALID_PAGE_ID → (H ≤ fuel)%nat →
  ∃ L l, Begin fuel t = Some (mkIter true L 0 true, t) ∧
         page_at t L = Some (LeafNode l) ∧ g_lo (G L) = None.
Proof.
  intros Hinv Hrt Hfuel.
  pose proof Hinv as (Hs & _ & _ & _ & _ & Hroot & _ & Hall).
  rewrite decide_False in Hroot by done.
  destruct Hroot as [[p Hp] Hrc]. simpl in Hrc.
  unfold Begin. rewrite bool_decide_eq_false_2 by done.
  rewrite (served_FetchPage t _ Hs), bool_decide_eq_true_2 by done.
  destruct (descend_leftmost G t H 0 fuel _ p Hinv Hp)
    as (L & l & Hd & HL & Hlo); [by rewrite Hrc|by rewrite Hrc|].
  rewrite Hd. cbn [mbind option_bind].
  destruct (Hall _ _ HL) as (Hrange & _).
  exists L, l. split; [|done].
  unfold make_iterator.
  rewrite bool_decide_eq_true_2 by (unfold INVALID_PAGE_ID; lia).
  rewrite (served_FetchPage t _ Hs).
  by rewrite bool_decide_eq_true_2 by (unfold INVALID_PAGE_ID; lia).
Qed.

(** The loop over the iterator, from the item [i] of the leaf [x]. *)
Lemma iterate_chain t :
  served t → (∀ x v, leaf_view t x = Some v → 0 ≤ x ∧ v.2 ≠ []) →
  ∀ fuel x (i : nat) rest v,
    leaf_view t x = Some v → chain t rest v.1 → (i < length v.2)%nat →
    (length (drop i v.2 ++ chain_items t rest) ≤ fuel)%nat →
    iterate fuel t (mkIter true x (Z.of_nat i) true)
    = Some (drop i v.2 ++ chain_items t rest).
Proof.
  intros Hs Hfull.
  induction fuel as [|fuel IH]; intros x i rest v Hv Hch Hi Hlen.
  { rewrite length_app, length_drop in Hlen. lia. }
  destruct (Hfull _ _ Hv) as [Hx0 _].
  pose proof Hv as Hv'.
  apply leaf_view_inv in Hv' as (l & Hl & ->). simpl in *.
  apply page_at_leaf in Hl.
  destruct (lookup_lt_is_Some_2 (l_items l) i Hi) as [e He].
  rewrite (drop_S _ _ _ He) in *.
  assert (Hne : iter_ne (mkIter true x (Z.of_nat i) true) End = true).
  { unfold iter_ne, iter_eq. simpl.
    rewrite (bool_decide_eq_false_2 (x = INVALID_PAGE_ID))
      by (unfold INVALID_PAGE_ID; lia). done. }
  cbn [iterate]. rewrite Hne.
  assert (Hend : IsEnd t (mkIter true x (Z.of_nat i) true) = Some false).
  { unfold IsEnd. simpl.
    rewrite (bool_decide_eq_false_2 (x = INVALID_PAGE_ID))
      by (unfold INVALID_PAGE_ID; lia). simpl.
    rewrite Hl. simpl. by rewrite bool_decide_eq_false_2 by lia. }
  unfold deref, advance. rewrite Hend. cbn [mbind option_bind].
  cbn [page_id_ index_ has_pool leaf_page_].
  rewrite Hl. cbn [mbind option_bind].
  unfold item_at. rewrite (bool_decide_eq_false_2 (Z.of_nat i < 0)) by lia.
  rewrite Nat2Z.id, He. cbn [mbind option_bind].
  destruct (decide (S i < length (l_items l))%nat) as [Hmore|Hlast].
  - rewrite bool_decide_eq_false_2 by lia.
    replace (Z.of_nat i + 1) with (Z.of_nat (S i)) by lia.
    cbn [mbind option_bind].
    rewrite (IH x (S i) rest _ Hv Hch); [done|done|].
    simpl in Hlen. simpl. lia.
  - rewrite bool_decide_eq_true_2 by lia.
    assert (Hdrop : drop (S i) (l_items l) = [])
      by (apply drop_ge; lia).
    rewrite Hdrop in *.
    destruct rest as [|y rest'].
    + simpl in Hch. rewrite Hch, bool_decide_eq_true_2 by done.
      cbn [mbind option_bind].
      assert (iterate fuel t (mkIter true INVALID_PAGE_ID 0 false) = Some [])
        as -> by (by destruct fuel).
      done.
    + simpl in Hch. destruct Hch as (Hy & vy & Hvy & Hrest).
      destruct (Hfull _ _ Hvy) as [Hy0 Hyne].
      rewrite bool_decide_eq_false_2 by (unfold INVALID_PAGE_ID; lia).
      rewrite (served_FetchPage t _ Hs).
      rewrite bool_decide_eq_true_2 by (unfold INVALID_PAGE_ID; lia).
      rewrite Hy. cbn [mbind option_bind].
      rewrite chain_items_cons, Hvy in *.
      cbn [fmap option_fmap option_map default app] in *.
      pose proof (IH y 0%nat rest' vy Hvy Hrest) as IH0.
      change (Z.of_nat 0) with 0 in IH0. rewrite drop_0 in IH0.
      rewrite IH0; [done| |simpl in Hlen; lia].
      destruct (vy.2); [done|simpl; lia].
Qed.

(** A full scan returns the items of the leaves in the order of the
    chain. *)
Lemma scan_all_chain G t H fuel ids :
  ord_inv G t H None → chain_inv t ids → (H ≤ fuel)%nat →
  (length (chain_items t ids) ≤ fuel)%nat →
  scan_all fuel t = Some (chain_items t ids).
Proof.
  intros Hinv Hc Hfuel Hlen.
  pose proof Hinv as (Hs & _ & _ & _ & _ & Hroot & _ & Hall).
  pose proof Hc as ((Hnd & Hleaf & Hch) & Hnonempty).
  assert (Hfull : ∀ x v, leaf_view t x = Some v → 0 ≤ x ∧ v.2 ≠ []).
  { intros x v Hv. split; [|by eapply Hnonempty].
    apply leaf_view_inv in Hv as (l & Hl & _).
    by destruct (Hall _ _ Hl) as ([? _] & _). }
  unfold scan_all.
  destruct (decide (root_page_id_ t = INVALID_PAGE_ID)) as [Hrt|Hrt].
  - assert (ids = []) as ->.
    { destruct ids as [|y rest]; [done|].
      destruct (proj2 (Hleaf y)) as [v Hv]; [left|].
      apply leaf_view_inv in Hv as (l & Hl & _). by rewrite Hroot in Hl. }
    unfold Begin. rewrite bool_decide_eq_true_2 by done.
    cbn [mbind option_bind]. by destruct fuel.
  - destruct (Begin_leftmost G t H fuel Hinv Hrt Hfuel)
      as (L & l & -> & HL & Hlo).
    cbn [mbind option_bind].
    destruct (chain_head G t H ids L l Hinv (proj1 Hc) HL Hlo) as [rest ->].
    simpl in Hch. destruct Hch as (_ & v & Hv & Hrest).
    destruct (Hfull _ _ Hv) as [_ Hne].
    rewrite chain_items_cons, Hv in *.
    cbn [fmap option_fmap option_map default] in *.
    pose proof (iterate_chain t Hs Hfull fuel L 0%nat rest v Hv Hrest) as Hit.
    change (Z.of_nat 0) with 0 in Hit. rewrite drop_0 in Hit.
    apply Hit; [|done].
    destruct (v.2); [done|simpl; lia].
Qed.

End LeafScan.

Section TreeScan.
Import BPlusTree.

Lemma run_inserts_chain fuel ops : ∀ G t H ids,
  ord_inv G t H None → chain_inv t ids →
  forallb is_insert ops = true → (H + length ops ≤ fuel)%nat →
  ∃ t' G' H' ids', run_operations fuel t ops = Some t' ∧
    ord_inv G' t' H' None ∧ (H' ≤ H + length ops)%nat ∧
    chain_inv t' ids' ∧
    (length (chain_items t' ids')
     ≤ length (chain_items t ids) + length ops)%nat.
Proof.
  induction ops as [|op ops IH]; intros G t H ids Hinv Hc Hins Hfuel.
  { exists t, G, H, ids. split; [done|]. split; [done|]. split; [lia|].
    split; [done|lia]. }
  destruct op as [key value|key]; [|done].
  simpl in Hins, Hfuel. simpl.
  destruct (Insert_ord G t H fuel key value Hinv ltac:(lia))
    as [[_ Hrun]|[_ (t1 & G1 & H1 & Hrun & Hinv1 & HH1 & _)]].
  - rewrite Hrun. cbn [mbind option_bind].
    destruct (IH G t H ids Hinv Hc Hins ltac:(lia))
      as (t' & G' & H' & ids' & Hrun' & Hinv' & HH' & Hc' & Hlen').
    exists t', G', H', ids'. split; [done|]. split; [done|]. split; [lia|].
    split; [done|lia].
  - destruct (Insert_chain G t H fuel key value true t1 ids Hinv
                ltac:(lia) Hc Hrun) as (ids1 & Hc1 & Hlen1).
    rewrite Hrun. cbn [mbind option_bind].
    destruct (IH G1 t1 H1 ids1 Hinv1 Hc1 Hins ltac:(lia))
      as (t' & G' & H' & ids' & Hrun' & Hinv' & HH' & Hc' & Hlen').
    exists t', G', H', ids'. split; [done|]. split; [done|]. split; [lia|].
    split; [done|lia].
Qed.

Lemma new_tree_chain lm im first : chain_inv (new_tree lm im first []) [].
Proof.
  assert (Hnone : ∀ x, leaf_view (new_tree lm im first []) x = None).
  { intros x. unfold leaf_view, leaf_at, page_at. simpl.
    by rewrite lookup_empty. }
  split; [|intros x v; by rewrite Hnone].
  split; [constructor|]. split; [|done].
  intros x. rewrite Hnone. split; [by intros [? ?]|].
  intros Hx. by apply elem_of_nil in Hx.
Qed.

End TreeScan.

(** X18.  A scan from [Begin()] to [End()] after inserts.  Starting from
    the empty index (both maximum sizes at least 2, a pool that serves
    every request), after any sequence of [Insert] calls made with a
    transaction every call has returned with its latches released, and the
    loop over the iterator then ends and yields exactly the pairs the index
    holds, each once, in strictly ascending order of the keys. *)
Theorem scan_after_inserts (fuel : nat) (leaf_max_size internal_max_size
  first_page_id : Z) (pairs : list (Z * Z)) :
  2 ≤ leaf_max_size → 2 ≤ internal_max_size → 0 ≤ first_page_id →
  (length pairs ≤ fuel)%nat →
  ∃ t items,
    Crabbing.insert_all fuel
      (Crabbing.with_transaction
         (BPlusTree.new_tree leaf_max_size internal_max_size first_page_id
            []))
      pairs = Some (Crabbing.with_transaction t) ∧
    BPlusTree.scan_all fuel t = Some items ∧
    StronglySorted Z.lt items.*1 ∧
    ∀ k v, (k, v) ∈ items
           ↔ BPlusTree.dictionary_after (Crabbing.inserts pairs) !! k
             = Some v.
Proof.
  intros Hlm Him Hfirst Hfuel.
  pose proof (inserts_are_inserts pairs) as Hins.
  rewrite <- (length_inserts pairs) in Hfuel.
  set (ops := Crabbing.inserts pairs) in *.
  destruct (new_tree_well_formed leaf_max_size internal_max_size
              first_page_id Hlm Him Hfirst) as [G Hinv].
  destruct (run_inserts_chain fuel ops G _ 0%nat [] Hinv
              (new_tree_chain _ _ _) Hins ltac:(lia))
    as (t & G' & H' & ids & Hrun & Hinv' & HH' & Hc & Hlen).
  destruct (run_inserts_dictionary fuel ops G _ 0%nat ∅ Hinv)
    as (t2 & _ & _ & Hrun2 & _ & _ & Hm); [|done|lia|].
  { intros k v. rewrite lookup_empty. split; [|done].
    intros (x & items & Hx & _). unfold BPlusTree.leaf_items,
      BPlusTree.leaf_at, BPlusTree.page_at in Hx. simpl in Hx.
    by rewrite lookup_empty in Hx. }
  assert (t2 = t) as -> by congruence.
  exists t, (BPlusTree.chain_items t ids). split.
  { apply (insert_all_with_transaction fuel pairs G _ 0%nat t Hinv);
      [|done]. unfold ops in Hfuel. rewrite length_inserts in Hfuel. lia. }
  pose proof Hc as ((_ & Hleaf & Hch) & Hfull).
  split; [|split].
  - apply (scan_all_chain G' t H' fuel ids Hinv' Hc); [lia|].
    simpl in Hlen. lia.
  - by eapply (chain_sorted G' t H' ids Hinv').
  - intros k v. rewrite (chain_items_stored t ids k v Hleaf). apply Hm.
Qed.

Lemma scan_after_inserts_witness :
  ∃ t items,
    Crabbing.insert_all 10
      (Crabbing.with_transaction (BPlusTree.new_tree 4 4 1 []))
      (Crabbing.ascending_items 10) = Some (Crabbing.with_transaction t) ∧
    BPlusTree.scan_all 10 t = Some items ∧
    StronglySorted Z.lt items.*1 ∧
    ∀ k v, (k, v) ∈ items
           ↔ BPlusTree.dictionary_after
               (Crabbing.inserts (Crabbing.ascending_items 10)) !! k
             = Some v.
Proof.
  apply (scan_after_inserts 10 4 4 1 (Crabbing.ascending_items 10));
    [lia|lia|lia|simpl; lia].
Defined.
(* ===================================================================== *)
(** ** The order of the leaves along the chain *)
(* ===================================================================== *)

Section ChainOrder.
Import BPlusTree.
Implicit Types (t : BPlusTree) (l : LeafPage) (ids : list Z) (G : Z → Info).

(** A page with a parent is listed there with its bounds. *)
Lemma listed_child G t H x p :
  ord_inv G t H None → page_at t x = Some p →
  g_parent (G x) ≠ INVALID_PAGE_ID →
  ∃ n h, page_at t (g_parent (G x)) = Some (InternalNode n) ∧
    g_height (G (g_parent (G x))) = S h ∧
    G x = mkInfo (g_parent (G x)) h (g_lo (G x)) (g_hi (G x)) ∧
    (x, (g_lo (G x), g_hi (G x)))
      ∈ expect (g_lo (G (g_parent (G x)))) (i_items n)
          (g_hi (G (g_parent (G x)))) ∧
    apart (g_lo (G x)) (g_hi (G x)).
Proof.
  intros Hinv Hx Hpar.
  pose proof Hinv as (_ & _ & _ & _ & _ & _ & _ & Hall).
  destruct (Hall _ _ Hx) as (_ & _ & _ & Hlink).
  assert (Hnot : ¬ unlisted None x) by (by intros ?).
  specialize (Hlink Hnot). rewrite decide_False in Hlink by done.
  destruct Hlink as (n & Hn & Hin).
  destruct (Hall _ _ Hn) as (_ & _ & [_ Hok] & _).
  destruct Hok as (h & Hh & _ & _ & _ & Hch).
  rewrite <- (expect_fst (g_lo (G (g_parent (G x)))) _
                (g_hi (G (g_parent (G x))))) in Hin.
  apply list_elem_of_fmap in Hin as ([c [lo hi]] & Hc & Hin).
  simpl in Hc. subst c.
  destruct (Hch _ _ _ Hin) as (Hap & _ & HGx). unfold child_ok in HGx.
  exists n, h. split; [done|]. split; [done|].
  rewrite HGx. simpl. rewrite HGx in Hin. simpl in Hin. done.
Qed.

(** The root has no bounds. *)
Lemma root_info G t H x p :
  ord_inv G t H None → page_at t x = Some p →
  g_parent (G x) = INVALID_PAGE_ID →
  x = root_page_id_ t ∧ G x = mkInfo INVALID_PAGE_ID H None None.
Proof.
  intros Hinv Hx Hpar.
  pose proof (ord_inv_root_page _ _ _ _ _ _ Hinv Hx) as Hrt.
  pose proof Hinv as (_ & _ & _ & _ & _ & Hroot & _ & Hall).
  destruct (Hall _ _ Hx) as (_ & _ & _ & Hlink).
  assert (Hnot : ¬ unlisted None x) by (by intros ?).
  specialize (Hlink Hnot). rewrite decide_True in Hlink by done.
  rewrite decide_False in Hroot by done. destruct Hroot as [_ Hrc].
  simpl in Hrc. subst x. done.
Qed.

Lemma page_apart G t H x p :
  ord_inv G t H None → page_at t x = Some p →
  apart (g_lo (G x)) (g_hi (G x)).
Proof.
  intros Hinv Hx.
  destruct (decide (g_parent (G x) = INVALID_PAGE_ID)) as [Hpar|Hpar].
  - destruct (root_info G t H x p Hinv Hx Hpar) as [_ ->]. done.
  - by destruct (listed_child G t H x p Hinv Hx Hpar) as (? & ? & _ & _ & _ & _ & ?).
Qed.

Lemma chain_suffix t pre y post : ∀ x,
  chain t (pre ++ y :: post) x → chain t (y :: post) y.
Proof.
  induction pre as [|p pre IH]; intros x; simpl.
  - intros (-> & Hrest). done.
  - intros (-> & v & _ & Hrest). by eapply IH.
Qed.

(** Every leaf further down the chain has its keys above those of [y]. *)
Lemma chain_after G t H y rest W :
  ord_inv G t H None → chain t (y :: rest) y → W ∈ rest →
  ∃ h lo, g_hi (G y) = Some h ∧ g_lo (G W) = Some lo ∧ h ≤ lo.
Proof.
  intros Hinv.
  pose proof Hinv as (_ & _ & _ & _ & _ & _ & _ & Hall).
  revert y. induction rest as [|z rest IH]; intros y Hch HW.
  { by apply elem_of_nil in HW. }
  cbn [chain] in Hch. destruct Hch as (_ & v & Hv & Hz & Hrest).
  apply leaf_view_inv in Hv as (l & Hl & ->). simpl in Hz.
  destruct Hrest as (vz & Hvz & Hrest).
  pose proof Hvz as Hvz'.
  apply leaf_view_inv in Hvz' as (lz & Hlz & _).
  destruct (Hall _ _ Hlz) as ([Hz0 _] & _).
  destruct (Hall _ _ Hl) as (_ & _ & [_ Hok] & _).
  destruct Hok as (_ & _ & _ & Hnext).
  destruct Hnext as [_ Hmeets]; [unfold INVALID_PAGE_ID; lia|].
  rewrite Hz in Hmeets. unfold meets in Hmeets.
  destruct (g_hi (G y)) as [h|] eqn:Hhy; [|done].
  destruct (g_lo (G z)) as [lo|] eqn:Hlz'; [|done].
  apply elem_of_cons in HW as [->|HW].
  { exists h, lo. by rewrite Hlz'. }
  destruct (IH z) as (hz & lw & Hhz & Hlw & Hle); [|done|].
  { cbn [chain]. split; [done|]. by exists vz. }
  pose proof (page_apart G t H z _ Hinv Hlz) as Hap.
  rewrite Hlz', Hhz in Hap. simpl in Hap.
  exists h, lw. split; [done|]. split; [done|]. lia.
Qed.

End ChainOrder.
(* ===================================================================== *)
(** ** The scan from a key *)
(* ===================================================================== *)

Section ScanFrom.
Import BPlusTree.
Implicit Types (ids : list Z) (items : list (Z * Z)) (G : Z → Info).

Lemma key_scan_shift items key : ∀ index,
  key_scan items key index = index + key_scan items key 0.
Proof.
  induction items as [|[k v] rest IH]; intros index; simpl; [lia|].
  case_bool_decide; [|lia]. rewrite (IH (index + 1)), (IH (0 + 1)). lia.
Qed.

(** The scan of a leaf in [Begin(key)] stops at the first key from [key]
    on. *)
Lemma key_scan_spec items key :
  StronglySorted Z.lt items.*1 →
  ∃ i : nat, key_scan items key 0 = Z.of_nat i ∧ (i ≤ length items)%nat ∧
    (∀ kv, kv ∈ take i items → kv.1 < key) ∧
    (∀ kv, kv ∈ drop i items → key ≤ kv.1).
Proof.
  induction items as [|[k v] rest IH]; intros Hsorted.
  { exists 0%nat. split; [done|]. split; [done|].
    split; intros kv Hin; by apply elem_of_nil in Hin. }
  rewrite fmap_cons in Hsorted. cbn [fst] in Hsorted.
  apply StronglySorted_cons in Hsorted as [Hall Hsorted].
  rewrite list.Forall_forall in Hall.
  simpl. case_bool_decide as Hgt.
  - rewrite comparator_gt in Hgt.
    destruct (IH Hsorted) as (i & Hi & Hlen & Hlt & Hge).
    exists (S i). rewrite key_scan_shift, Hi.
    split; [lia|]. split; [simpl; lia|]. split; [|done].
    intros kv Hin. simpl in Hin.
    apply elem_of_cons in Hin as [->|Hin]; [simpl; lia|]. by apply Hlt.
  - rewrite comparator_gt in Hgt.
    exists 0%nat. split; [done|]. split; [lia|].
    split; [intros kv Hin; by apply elem_of_nil in Hin|].
    intros kv Hin. simpl in Hin. apply elem_of_cons in Hin as [->|Hin].
    + simpl. lia.
    + assert (k < kv.1); [|lia]. apply Hall.
      apply list_elem_of_fmap. by exists kv.
Qed.

Lemma chain_items_app t ids1 ids2 :
  chain_items t (ids1 ++ ids2) = chain_items t ids1 ++ chain_items t ids2.
Proof. unfold chain_items. apply bind_app. Qed.

(** The keys of a leaf lie within its bounds. *)
Lemma leaf_item_bounds G t H x (l : LeafPage) kv :
  ord_inv G t H None → page_at t x = Some (LeafNode l) → kv ∈ l_items l →
  above (g_lo (G x)) kv.1 ∧ below (g_hi (G x)) kv.1.
Proof.
  intros Hinv Hx Hin.
  pose proof Hinv as (_ & _ & _ & _ & _ & _ & _ & Hall).
  destruct (Hall _ _ Hx) as (_ & _ & [_ (_ & _ & [_ Hb] & _)] & _).
  rewrite list.Forall_forall in Hb. apply Hb.
  apply list_elem_of_fmap. by exists kv.
Qed.

Lemma chain_items_elem t ids kv :
  kv ∈ chain_items t ids →
  ∃ x (l : LeafPage), x ∈ ids ∧ page_at t x = Some (LeafNode l) ∧
                      kv ∈ l_items l.
Proof.
  unfold chain_items. rewrite list_elem_of_bind.
  intros (x & Hin & Hx).
  destruct (leaf_view t x) as [v|] eqn:Hv; [|by apply elem_of_nil in Hin].
  apply leaf_view_inv in Hv as (l & Hl & ->). by exists x, l.
Qed.

(** The loop from [Begin(key)] yields the items of the chain from [key]
    on. *)
Lemma scan_from_chain G t H fuel ids key :
  ord_inv G t H None → chain_inv t ids → (H ≤ fuel)%nat →
  (length (chain_items t ids) ≤ fuel)%nat →
  ∃ before items,
    scan_from fuel t key = Some items ∧
    chain_items t ids = before ++ items ∧
    (∀ kv, kv ∈ before → kv.1 < key) ∧ (∀ kv, kv ∈ items → key ≤ kv.1).
Proof.
  intros Hinv Hc Hfuel Hlen.
  pose proof Hinv as (Hs & _ & _ & _ & _ & Hroot & _ & Hall).
  pose proof Hc as ((Hnd & Hleaf & Hch) & Hnonempty).
  assert (Hfull : ∀ x v, leaf_view t x = Some v → 0 ≤ x ∧ v.2 ≠ []).
  { intros x v Hv. split; [|by eapply Hnonempty].
    apply leaf_view_inv in Hv as (l & Hl & _).
    by destruct (Hall _ _ Hl) as ([? _] & _). }
  unfold scan_from, Begin_key.
  destruct (decide (root_page_id_ t = INVALID_PAGE_ID)) as [Hrt|Hrt].
  { assert (ids = []) as ->.
    { destruct ids as [|y rest]; [done|].
      destruct (proj2 (Hleaf y)) as [v Hv]; [left|].
      apply leaf_view_inv in Hv as (l & Hl & _). by rewrite Hroot in Hl. }
    rewrite bool_decide_eq_true_2 by done. cbn [mbind option_bind].
    exists [], []. split; [by destruct fuel|]. split; [done|].
    split; intros kv Hin; by apply elem_of_nil in Hin. }
  rewrite bool_decide_eq_false_2 by done.
  rewrite (served_FetchPage t _ Hs), bool_decide_eq_true_2 by done.
  destruct Hroot as [[p Hp] Hrc]. simpl in Hrc.
  destruct (descend_spec G t H key fuel _ p Hinv Hp)
    as (L & l & Hd & HL & Hlo & Hhi);
    [by rewrite Hrc|by rewrite Hrc|by rewrite Hrc|].
  rewrite Hd. cbn [mbind option_bind].
  rewrite (proj2 (page_at_leaf t L l) HL). cbn [mbind option_bind].
  destruct (Hall _ _ HL) as ([HL0 _] & _ & [_ (_ & _ & [Hsorted _] & _)] & _).
  destruct (key_scan_spec (l_items l) key Hsorted)
    as (i & -> & Hi & Hlt & Hge).
  pose proof (leaf_view_Some t L l HL) as HvL.
  assert (HLin : L ∈ ids) by (apply Hleaf; by rewrite HvL).
  apply list_elem_of_split in HLin as (pre & post & ->).
  pose proof (chain_suffix _ _ _ _ _ Hch) as Hsub.
  pose proof Hsub as Hsub'.
  cbn [chain] in Hsub'. destruct Hsub' as (_ & v & Hv & Hrest).
  rewrite HvL in Hv. injection Hv as <-. simpl in Hrest.
  rewrite chain_items_app, chain_items_cons, HvL in *.
  cbn [fmap option_fmap option_map default from_option id snd] in *.
  assert (Hpre : ∀ kv, kv ∈ chain_items t pre → kv.1 < key).
  { intros kv Hkv.
    apply chain_items_elem in Hkv as (W & lw & HW & Hlw & Hin).
    apply list_elem_of_split in HW as (p1 & p2 & ->).
    rewrite <- app_assoc in Hch. simpl in Hch.
    destruct (chain_after G t H W (p2 ++ L :: post) L Hinv)
      as (h & lo & HhW & HlL & Hle).
    - by eapply chain_suffix.
    - apply elem_of_app. right. left.
    - destruct (leaf_item_bounds G t H W lw kv Hinv Hlw Hin) as [_ Hb].
      rewrite HhW in Hb. rewrite HlL in Hlo. simpl in *. lia. }
  assert (Hpost : ∀ kv, kv ∈ chain_items t post → key < kv.1).
  { intros kv Hkv.
    apply chain_items_elem in Hkv as (W & lw & HW & Hlw & Hin).
    destruct (chain_after G t H L post W Hinv Hsub HW)
      as (h & lo & HhL & HlW & Hle).
    destruct (leaf_item_bounds G t H W lw kv Hinv Hlw Hin) as [Ha _].
    rewrite HlW in Ha. rewrite HhL in Hhi. simpl in *. lia. }
  exists (chain_items t pre ++ take i (l_items l)),
    (drop i (l_items l) ++ chain_items t post).
  split; [|split; [|split]].
  - rewrite !length_app in Hlen.
    destruct (decide (i < length (l_items l))%nat) as [Hin|Hout].
    + rewrite bool_decide_eq_false_2 by lia.
      unfold make_iterator.
      rewrite bool_decide_eq_true_2 by (unfold INVALID_PAGE_ID; lia).
      rewrite (served_FetchPage t _ Hs).
      rewrite bool_decide_eq_true_2 by (unfold INVALID_PAGE_ID; lia).
      apply (iterate_chain t Hs Hfull fuel L i post _ HvL Hrest Hin).
      rewrite length_app, length_drop. simpl. lia.
    + rewrite bool_decide_eq_true_2 by lia.
      rewrite drop_ge by lia. simpl.
      destruct post as [|N post'].
      * simpl in Hrest. rewrite Hrest, bool_decide_eq_true_2 by done.
        by destruct fuel.
      * cbn [chain] in Hrest. destruct Hrest as (HN & vn & Hvn & Hrest').
        destruct (Hfull _ _ Hvn) as [HN0 HNne].
        pose proof Hvn as Hvn'.
        apply leaf_view_inv in Hvn' as (ln & Hln & ->). cbn [fst snd] in *.
        rewrite HN.
        rewrite bool_decide_eq_false_2 by (unfold INVALID_PAGE_ID; lia).
        rewrite (served_FetchPage t _ Hs).
        rewrite bool_decide_eq_true_2 by (unfold INVALID_PAGE_ID; lia).
        rewrite (proj2 (page_at_leaf t N ln) Hln). cbn [mbind option_bind].
        rewrite chain_items_cons, Hvn in *.
        cbn [fmap option_fmap option_map default from_option id snd] in *.
        assert (key_scan (l_items ln) key 0 = 0) as ->.
        { destruct (l_items ln) as [|[k0 v0] rest] eqn:Hits; [done|].
          simpl. assert (key < k0).
          { apply (Hpost (k0, v0)). apply elem_of_app. left. left. }
          rewrite bool_decide_eq_false_2; [done|].
          rewrite comparator_gt. lia. }
        rewrite bool_decide_eq_false_2
          by (destruct (l_items ln); [done|simpl; lia]).
        unfold make_iterator.
        rewrite bool_decide_eq_true_2 by (unfold INVALID_PAGE_ID; lia).
        rewrite (served_FetchPage t _ Hs).
        rewrite bool_decide_eq_true_2 by (unfold INVALID_PAGE_ID; lia).
        pose proof (iterate_chain t Hs Hfull fuel N 0%nat post' _ Hvn Hrest')
          as Hit.
        change (Z.of_nat 0) with 0 in Hit. rewrite drop_0 in Hit.
        apply Hit; [destruct (l_items ln); [done|simpl; lia]|].
        simpl. rewrite !length_app in *. simpl in Hlen. lia.
  - rewrite <- !app_assoc. f_equal. rewrite (app_assoc (take _ _)).
    by rewrite take_drop.
  - intros kv Hin. apply elem_of_app in Hin as [Hin|Hin]; [by apply Hpre|].
    by apply Hlt.
  - intros kv Hin. apply elem_of_app in Hin as [Hin|Hin]; [by apply Hge|].
    specialize (Hpost _ Hin). lia.
Qed.

End ScanFrom.

(** X19.  A scan from [Begin(key)] to [End()] after inserts.  Starting
    from the empty index (both maximum sizes at least 2, a pool that serves
    every request), after any sequence of [Insert] calls made with a
    transaction every call has returned with its latches released, and the
    loop over the iterator from [Begin(key)] then ends and yields exactly
    the pairs the index holds whose key is [key] or above, each once, in
    strictly ascending order of the keys. *)
Theorem scan_from_key_after_inserts (fuel : nat) (leaf_max_size
  internal_max_size first_page_id : Z) (pairs : list (Z * Z)) (key : Z) :
  2 ≤ leaf_max_size → 2 ≤ internal_max_size → 0 ≤ first_page_id →
  (length pairs ≤ fuel)%nat →
  ∃ t items,
    Crabbing.insert_all fuel
      (Crabbing.with_transaction
         (BPlusTree.new_tree leaf_max_size internal_max_size first_page_id
            []))
      pairs = Some (Crabbing.with_transaction t) ∧
    BPlusTree.scan_from fuel t key = Some items ∧
    StronglySorted Z.lt items.*1 ∧
    ∀ k v, (k, v) ∈ items
           ↔ key ≤ k ∧
             BPlusTree.dictionary_after (Crabbing.inserts pairs) !! k
             = Some v.
Proof.
  intros Hlm Him Hfirst Hfuel.
  pose proof (inserts_are_inserts pairs) as Hins.
  rewrite <- (length_inserts pairs) in Hfuel.
  set (ops := Crabbing.inserts pairs) in *.
  destruct (new_tree_well_formed leaf_max_size internal_max_size
              first_page_id Hlm Him Hfirst) as [G Hinv].
  destruct (run_inserts_chain fuel ops G _ 0%nat [] Hinv
              (new_tree_chain _ _ _) Hins ltac:(lia))
    as (t & G' & H' & ids & Hrun & Hinv' & HH' & Hc & Hlen).
  destruct (run_inserts_dictionary fuel ops G _ 0%nat ∅ Hinv)
    as (t2 & _ & _ & Hrun2 & _ & _ & Hm); [|done|lia|].
  { intros k v. rewrite lookup_empty. split; [|done].
    intros (x & items & Hx & _). unfold BPlusTree.leaf_items,
      BPlusTree.leaf_at, BPlusTree.page_at in Hx. simpl in Hx.
    by rewrite lookup_empty in Hx. }
  assert (t2 = t) as -> by congruence.
  pose proof Hc as ((_ & Hleaf & Hch) & Hfull).
  destruct (scan_from_chain G' t H' fuel ids key Hinv' Hc)
    as (before & items & Hscan & Happ & Hlt & Hge); [lia|simpl in Hlen; lia|].
  destruct (chain_sorted G' t H' ids Hinv' Hfull _ Hch) as [Hsorted _].
  rewrite Happ, fmap_app in Hsorted.
  apply StronglySorted_app in Hsorted as (_ & _ & Hsorted).
  exists t, items. split.
  { apply (insert_all_with_transaction fuel pairs G _ 0%nat t Hinv);
      [|done]. unfold ops in Hfuel. rewrite length_inserts in Hfuel. lia. }
  split; [done|]. split; [done|].
  intros k v. unfold BPlusTree.dictionary_after. rewrite <- Hm.
  rewrite <- (chain_items_stored t ids k v Hleaf), Happ. split.
  - intros Hin. split; [exact (Hge _ Hin)|]. apply elem_of_app. by right.
  - intros [Hk Hin]. apply elem_of_app in Hin as [Hin|Hin]; [|done].
    specialize (Hlt _ Hin). simpl in Hlt. lia.
Qed.

Lemma scan_from_key_after_inserts_witness :
  ∃ t items,
    Crabbing.insert_all 10
      (Crabbing.with_transaction (BPlusTree.new_tree 4 4 1 []))
      (Crabbing.ascending_items 10) = Some (Crabbing.with_transaction t) ∧
    BPlusTree.scan_from 10 t 5 = Some items ∧
    StronglySorted Z.lt items.*1 ∧
    ∀ k v, (k, v) ∈ items
           ↔ 5 ≤ k ∧
             BPlusTree.dictionary_after
               (Crabbing.inserts (Crabbing.ascending_items 10)) !! k
             = Some v.
Proof.
  apply (scan_from_key_after_inserts 10 4 4 1 (Crabbing.ascending_items 10)
           5); [lia|lia|lia|simpl; lia].
Defined.
(* ===================================================================== *)
(** ** The calls with their latches, made without a transaction *)
(* ===================================================================== *)

Section CrabbingAlone.
Import BPlusTree Crabbing.
Implicit Types (t : BPlusTree) (s : Index) (op : OperationType)
  (G : Z → Info).

Lemma latch_latching op t L p :
  p ∉ L → latch op (latching op t L) p = Some (latching op t ({[p]} ∪ L)).
Proof.
  intros Hp. destruct op; simpl; unfold RLatch, WLatch; simpl;
    rewrite decide_False; try done; intros [Hin|Hin]; try done;
    by apply elem_of_empty in Hin.
Qed.

Lemma unlatch_latching op t L p :
  p ∈ L → unlatch op (latching op t L) p = Some (latching op t (L ∖ {[p]})).
Proof.
  intros Hp. destruct op; simpl; unfold RUnlatch, WUnlatch; simpl;
    by rewrite decide_True.
Qed.

Lemma tree_latching op t L : tree (latching op t L) = t.
Proof. by destruct op. Qed.

Lemma latching_idle op t : latching op t ∅ = without_transaction t.
Proof. by destruct op. Qed.

Lemma pair_minus (a b : Z) :
  a ≠ b → ({[a]} ∪ {[b]}) ∖ {[b]} = ({[a]} : gset Z).
Proof.
  intros Hab. apply set_eq. intros y.
  rewrite elem_of_difference, elem_of_union, !elem_of_singleton.
  split; [tauto|]. intros ->. tauto.
Qed.

Lemma single_minus (a : Z) : ({[a]} : gset Z) ∖ {[a]} = ∅.
Proof.
  apply set_eq. intros y.
  rewrite elem_of_difference, !elem_of_singleton, elem_of_empty. tauto.
Qed.

(** A page that a parent lists is not the root. *)
Lemma child_not_root G t H cur n c pc :
  ord_inv G t H None → page_at t cur = Some (InternalNode n) →
  c ∈ (i_items n).*2 → page_at t c = Some pc → IsRootPage pc = false.
Proof.
  intros Hinv Hp Hc Hpc.
  pose proof Hinv as (_ & _ & _ & _ & _ & _ & _ & Hall).
  destruct (Hall _ _ Hp) as ([Hcur _] & _ & [_ Hok] & _).
  destruct Hok as (h & Hh & _ & _ & _ & Hch).
  rewrite <- (expect_fst (g_lo (G cur)) _ (g_hi (G cur))) in Hc.
  apply list_elem_of_fmap in Hc as ([c' [lo hi]] & -> & Hin).
  destruct (Hch _ _ _ Hin) as (_ & _ & HG). simpl in *.
  destruct (Hall _ _ Hpc) as (_ & _ & [Hpar _] & _).
  rewrite HG in Hpar. simpl in Hpar.
  unfold IsRootPage. apply bool_decide_eq_false_2. rewrite Hpar.
  unfold INVALID_PAGE_ID. lia.
Qed.

(** The way down without a transaction: when every child on the way lets
    go of its parent, the leaf is the only page latched at the end. *)
Lemma descend_latching G t H op key left_most : ∀ fuel cur leaf,
  ord_inv G t H None →
  (∀ pid p, page_at t pid = Some p → IsRootPage p = false →
            match op with SEARCH => true | _ => IsSafe p op end = true) →
  BPlusTree.descend fuel t cur key left_most = Some (Some leaf, t) →
  Crabbing.descend op fuel (latching op t {[cur]}) cur key left_most
  = Some (Some leaf, latching op t {[leaf]}).
Proof.
  intros fuel cur leaf Hinv Hsafe. revert cur.
  pose proof Hinv as (Hs & _).
  induction fuel as [|fuel IH]; intros cur Hrun.
  - simpl in Hrun. simpl. rewrite tree_latching.
    destruct (page_at t cur) as [[lf|n]|] eqn:Hp; simpl in *; try done.
    by injection Hrun as <-.
  - simpl in Hrun. simpl. rewrite tree_latching.
    destruct (page_at t cur) as [[lf|n]|] eqn:Hp; simpl in *; try done.
    { by injection Hrun as <-. }
    destruct (child_for (i_items n) key left_most) as [c|] eqn:Hc;
      simpl in *; [|done].
    destruct (child_height G t H cur n c Hinv Hp (child_for_elem _ _ _ _ Hc))
      as (Hh & [pc Hpc] & Hcv).
    rewrite (served_FetchPage t c Hs) in Hrun |- *.
    rewrite bool_decide_eq_true_2 in Hrun |- * by done.
    assert (Hne : c ≠ cur) by (intros ->; lia).
    replace (set_tree (latching op t {[cur]}) t) with (latching op t {[cur]})
      by (by destruct op).
    rewrite latch_latching by (by rewrite elem_of_singleton).
    simpl. rewrite tree_latching, Hpc. simpl.
    rewrite (Hsafe c pc Hpc
               (child_not_root G t H cur n c pc Hinv Hp
                  (child_for_elem _ _ _ _ Hc) Hpc)).
    replace (set_page_set (latching op t ({[c]} ∪ {[cur]}))
               (pop_or_erase cur))
      with (latching op t ({[c]} ∪ {[cur]})) by (by destruct op).
    rewrite unlatch_latching
      by (rewrite elem_of_union, !elem_of_singleton; tauto).
    simpl. rewrite pair_minus by done.
    replace (AddIntoPageSet (latching op t {[c]}) c) with (latching op t {[c]})
      by (by destruct op).
    by apply IH.
Qed.

Lemma FindLeafPage_latching G t H op fuel key left_most leaf :
  ord_inv G t H None →
  (∀ pid p, page_at t pid = Some p → IsRootPage p = false →
            match op with SEARCH => true | _ => IsSafe p op end = true) →
  BPlusTree.FindLeafPage fuel t key left_most = Some (Some leaf, t) →
  Crabbing.FindLeafPage op fuel (without_transaction t) key left_most
  = Some (Some leaf, latching op t {[leaf]}).
Proof.
  intros Hinv Hsafe. pose proof Hinv as (Hs & _).
  unfold BPlusTree.FindLeafPage, Crabbing.FindLeafPage.
  change (tree (without_transaction t)) with t.
  case_bool_decide as Hroot; [done|].
  rewrite (served_FetchPage t _ Hs), bool_decide_eq_true_2 by done.
  intros Hrun.
  change (set_tree (without_transaction t) t) with (without_transaction t).
  rewrite <- (latching_idle op).
  rewrite latch_latching by apply not_elem_of_empty. simpl.
  replace (AddIntoPageSet (latching op t ({[root_page_id_ t]} ∪ ∅))
             (root_page_id_ t))
    with (latching op t {[root_page_id_ t]}).
  2:{ rewrite union_empty_r_L. by destruct op. }
  by apply (descend_latching G t H).
Qed.

Lemma GetValue_without_transaction G t H fuel key r :
  ord_inv G t H None → (H ≤ fuel)%nat →
  BPlusTree.GetValue fuel t key = Some (r, t) →
  Crabbing.GetValue fuel (without_transaction t) key
  = Some (r, without_transaction t).
Proof.
  intros Hinv Hfuel. pose proof Hinv as (Hs & _).
  unfold BPlusTree.GetValue, Crabbing.GetValue.
  destruct (BPlusTree.FindLeafPage fuel t key false) as [[page t1]|] eqn:Hfind;
    simpl; [|done].
  pose proof (served_FindLeafPage fuel t key false _ _ Hs Hfind) as ->.
  destruct page as [leaf|].
  - rewrite (FindLeafPage_latching G t H SEARCH fuel key false leaf Hinv
               ltac:(done) Hfind).
    simpl.
    destruct (leaf_at t leaf) as [lf|]; simpl; [|done].
    intros [= <-]. unfold RUnlatch. simpl.
    rewrite decide_True by (by apply elem_of_singleton).
    simpl. by rewrite single_minus.
  - intros [= <-].
    destruct (decide (root_page_id_ t = INVALID_PAGE_ID)) as [Hroot|Hroot].
    + unfold Crabbing.FindLeafPage. simpl.
      by rewrite bool_decide_eq_true_2.
    + destruct (FindLeafPage_spec G t H fuel key Hinv Hroot Hfuel)
        as (L & lf & Hfind' & _). congruence.
Qed.


Local Abbreviation idle t := (mkIndex t ∅ ∅ None).

Local Ltac norm :=
  unfold set_tree, set_page_set, AddIntoPageSet, in_page_set;
  cbn [tree read_latched write_latched transaction fmap option_fmap
       option_map mbind option_bind].

Lemma adopt_children_served children : ∀ t q r t',
  served t → adopt_children t children q = Some (r, t') → served t'.
Proof.
  induction children as [|c children IH]; intros t q r t' Hs; simpl.
  - by intros [= <- <-].
  - rewrite (served_FetchPage t c Hs). case_bool_decide; [|by intros [= <- <-]].
    destruct (set_parent_of t c q) as [t1|] eqn:Hset; simpl; [|done].
    destruct (set_parent_of_Some _ _ _ _ Hset) as (p & Hp & ->).
    by apply IH.
Qed.

Lemma set_parent_of_served t c q t' :
  served t → set_parent_of t c q = Some t' → served t'.
Proof.
  intros Hs Hset. by destruct (set_parent_of_Some _ _ _ _ Hset) as (p & _ & ->).
Qed.

Lemma WLatch_idle t p :
  WLatch (idle t) p = Some (mkIndex t ∅ {[p]} None).
Proof.
  pose proof (latch_latching INSERT t ∅ p (not_elem_of_empty p)) as Hl.
  simpl in Hl. by rewrite union_empty_r_L in Hl.
Qed.

Lemma WUnlatch_single t p :
  WUnlatch (mkIndex t ∅ {[p]} None) p = Some (idle t).
Proof.
  pose proof (unlatch_latching INSERT t {[p]} p
                (proj2 (elem_of_singleton p p) eq_refl)) as Hu.
  simpl in Hu. by rewrite single_minus in Hu.
Qed.

Lemma InsertIntoParent_body_alone recur recur' :
  (∀ t a b c d t', served t → recur t a b c d = Some t' →
     recur' (idle t) a b c d = Some (idle t')) →
  ∀ t parent_id left_id key right_id t', served t →
    BPlusTree.InsertIntoParent_body recur t parent_id left_id key right_id
    = Some t' →
    Crabbing.InsertIntoParent_body recur' (idle t) parent_id left_id key
      right_id
    = Some (idle t').
Proof.
  intros Hrec t parent_id left_id key right_id t' Hs.
  unfold BPlusTree.InsertIntoParent_body, Crabbing.InsertIntoParent_body.
  norm.
  case_bool_decide as Hparent.
  - rewrite (served_NewPage t Hs).
    set (n := next_page_id (buffer_pool_manager_ t)).
    set (t1 := write_page _ n _).
    assert (Hs1 : served t1) by done.
    rewrite (served_FetchPage t1 left_id Hs1).
    rewrite (served_FetchPage t1 right_id Hs1).
    destruct (bool_decide (left_id ≠ INVALID_PAGE_ID)
              && bool_decide (right_id ≠ INVALID_PAGE_ID)) eqn:Hok.
    + destruct (set_parent_of t1 left_id n) as [t2|] eqn:H2; norm; [|done].
      destruct (set_parent_of t2 right_id n) as [t3|] eqn:H3; norm; [|done].
      destruct (UpdateRootPageId (set_root t3 n) false) as [t5|] eqn:Hup;
        norm; [|done].
      by intros [= <-].
    + intros [= <-]. rewrite !andb_false_r. done.
  - rewrite (served_FetchPage t parent_id Hs).
    rewrite bool_decide_eq_true_2 by done. cbn [negb].
    rewrite WLatch_idle. norm. cbn [negb].
    destruct (internal_at t parent_id) as [pn|] eqn:Hpn; norm; [|done].
    set (t1 := write_page t parent_id _).
    assert (Hs1 : served t1) by done.
    rewrite (served_FetchPage t1 right_id Hs1).
    destruct (if bool_decide (right_id ≠ INVALID_PAGE_ID)
              then set_parent_of t1 right_id parent_id else Some t1)
      as [t2|] eqn:H2; norm; [|done].
    assert (Hs2 : served t2).
    { destruct (bool_decide (right_id ≠ INVALID_PAGE_ID)).
      - by eapply set_parent_of_served.
      - by injection H2 as <-. }
    destruct (internal_at t2 parent_id) as [pn2|] eqn:Hpn2; norm; [|done].
    destruct (bool_decide (i_max pn2 < Z.of_nat (length (i_items pn2))))
      eqn:Hsplit.
    + rewrite (served_NewPage t2 Hs2).
      set (n := next_page_id (buffer_pool_manager_ t2)).
      destruct (KeyAt _ _) as [middle_key|]; norm; [|done].
      destruct (ValueAt _ _) as [pivot_child|]; norm; [|done].
      set (t4 := write_page (write_page _ n _) parent_id _).
      assert (Hs4 : served t4) by done.
      destruct (adopt_children t4 _ n) as [[ok t5]|] eqn:Hadopt; norm; [|done].
      pose proof (adopt_children_served _ _ _ _ _ Hs4 Hadopt) as Hs5.
      unfold release_parent. rewrite WUnlatch_single. norm.
      destruct ok.
      * destruct (internal_at t5 parent_id) as [pn5|] eqn:Hpn5; norm; [|done].
        by apply Hrec.
      * by intros [= <-].
    + intros [= <-]. unfold release_parent. by rewrite WUnlatch_single.
Qed.

Lemma InsertIntoParent_alone fuel : ∀ t a b c d t',
  served t →
  BPlusTree.InsertIntoParent fuel t a b c d = Some t' →
  Crabbing.InsertIntoParent fuel (idle t) a b c d = Some (idle t').
Proof.
  induction fuel as [|fuel IH]; intros t a b c d t' Hs Hrun.
  - simpl in *.
    eapply (InsertIntoParent_body_alone _ _); [|done|exact Hrun]. done.
  - simpl in *.
    eapply (InsertIntoParent_body_alone _ _); [|done|exact Hrun].
    intros. by eapply IH.
Qed.

Lemma hand_off_latching G t H L lf key pos dup :
  ord_inv G t H None → page_at t L = Some (LeafNode lf) →
  below (g_hi (G L)) key →
  Crabbing.hand_off (mkIndex t ∅ {[L]} None) L lf key pos dup
  = Some (L, pos, dup, mkIndex t ∅ {[L]} None).
Proof.
  intros Hinv HL Hhi.
  pose proof Hinv as (Hs & _ & _ & _ & _ & _ & _ & Hall).
  destruct (Hall _ _ HL) as (_ & _ & [_ HLok] & _).
  destruct HLok as (_ & _ & _ & Hnext).
  unfold Crabbing.hand_off. destruct (_ && _) eqn:Hcond; [|done].
  apply andb_prop in Hcond as [_ Hpos%bool_decide_eq_true].
  destruct (KeyAt _ _) as [last_key|] eqn:Hlast; norm.
  2:{ exfalso. unfold KeyAt, item_at in Hlast.
      rewrite bool_decide_eq_false_2 in Hlast by lia.
      destruct (lookup_lt_is_Some_2 (l_items lf)
                  (Z.to_nat (Z.of_nat (length (l_items lf)) - 1)))
        as [it Hit]; [lia|].
      by rewrite Hit in Hlast. }
  case_bool_decide; [|done].
  case_bool_decide as Hnx; [|done].
  destruct (Hnext Hnx) as [[nl Hnl] Hmeets].
  rewrite (served_FetchPage t _ Hs), bool_decide_eq_true_2 by done.
  pose proof (next_not_self G t H L lf Hinv HL) as Hself.
  pose proof (latch_latching INSERT t {[L]} (l_next lf)
                ltac:(by rewrite elem_of_singleton)) as Hlatch.
  simpl in Hlatch. rewrite Hlatch. clear Hlatch.
  norm. rewrite Hnl. norm.
  assert (Hback :
    WUnlatch (mkIndex t ∅ ({[l_next lf]} ∪ {[L]}) None) (l_next lf)
    = Some (mkIndex t ∅ {[L]} None)).
  { pose proof (unlatch_latching INSERT t ({[l_next lf]} ∪ {[L]}) (l_next lf)
                  ltac:(rewrite elem_of_union, elem_of_singleton; tauto))
      as Hu.
    simpl in Hu. rewrite Hu. do 2 f_equal. apply set_eq. intros y.
    rewrite elem_of_difference, elem_of_union, !elem_of_singleton.
    split; [tauto|]. intros ->. split; [tauto|]. done. }
  destruct (l_items nl) as [|[k0 v0] rest] eqn:Hitems.
  { by rewrite Hback. }
  rewrite bool_decide_eq_false_2; [by rewrite Hback|].
  rewrite comparator_ge.
  apply page_at_leaf in Hnl.
  destruct (Hall _ _ Hnl) as (_ & _ & [_ Hok'] & _).
  destruct Hok' as (_ & _ & [_ Hbounds'] & _).
  rewrite Hitems in Hbounds'. simpl in Hbounds'.
  apply list.Forall_cons in Hbounds' as [[Hlo' _] _].
  destruct (g_hi (G L)), (g_lo (G (l_next lf))); simpl in *; try done. lia.
Qed.

(** A call without a transaction on a tree in which every page but the
    root has room does what the call with a transaction does, and leaves
    no latch. *)
Lemma Insert_without_transaction G t H fuel key value b t' :
  ord_inv G t H None → (H ≤ fuel)%nat → roomy t →
  BPlusTree.Insert fuel t key value = Some (b, t') →
  Crabbing.Insert fuel (without_transaction t) key value
  = Some (b, without_transaction t').
Proof.
  intros Hinv Hfuel Hsafe.
  pose proof Hinv as (Hs & _ & _ & _ & _ & _ & _ & Hall).
  unfold BPlusTree.Insert, Crabbing.Insert.
  change (tree (without_transaction t)) with t.
  case_bool_decide as Hroot.
  { destruct (NewPage t) as [[n|] t1]; [|by intros [= <- <-]].
    destruct (UpdateRootPageId _ _) as [t2|]; norm; [|done].
    by intros [= <- <-]. }
  destruct (FindLeafPage_spec G t H fuel key Hinv Hroot Hfuel)
    as (L & lf & Hfind & HL & Hlo & Hhi).
  rewrite Hfind.
  rewrite (FindLeafPage_latching G t H INSERT fuel key false L Hinv Hsafe
             Hfind).
  norm. cbn [latching tree].
  rewrite (proj2 (page_at_leaf t L lf) HL). norm.
  destruct (find_insert_pos (l_items lf) key 0) as [pos dup] eqn:Hpos.
  rewrite (hand_off_stay _ _ _ _ _ key pos dup Hinv HL Hhi).
  rewrite (hand_off_latching G t H L lf key pos dup Hinv HL Hhi).
  norm.
  destruct dup.
  { intros [= <- <-]. by rewrite WUnlatch_single. }
  rewrite (proj2 (page_at_leaf t L lf) HL). norm.
  set (items := insert_at (l_items lf) pos (key, value)).
  set (t1 := write_page t L _).
  assert (Hs1 : served t1) by done.
  destruct (bool_decide (l_max lf ≤ Z.of_nat (length items))) eqn:Hfull.
  - rewrite (served_NewPage t1 Hs1).
    set (N := next_page_id (buffer_pool_manager_ t1)).
    destruct (KeyAt _ _) as [middle_key|]; norm; [|done].
    rewrite WUnlatch_single. norm.
    set (t3 := write_page (write_page _ N _) L _).
    destruct (BPlusTree.InsertIntoParent fuel t3 (l_parent lf) L middle_key N)
      as [t4|] eqn:Hrun; norm; [|done].
    intros [= <- <-].
    by rewrite (InsertIntoParent_alone fuel t3 _ _ _ _ _ ltac:(done) Hrun).
  - intros [= <- <-]. by rewrite WUnlatch_single.
Qed.

End CrabbingAlone.

(** X20.  [GetValue] with and without a transaction.  On a search tree of
    height [H] over a pool that serves every request, with fuel above [H]:
    the call returns, with a transaction and without one; it gives the
    same answer both ways, the value stored under the key if there is one;
    it leaves the tree as it is; and when it has returned, the thread
    holds no latch, and the page set is empty. *)
Theorem GetValue_releases_latches (fuel : nat) (t : BPlusTree.BPlusTree)
  (H : nat) (key : Z) :
  BPlusTree.well_formed t H → (H < fuel)%nat →
  ∃ found,
    Crabbing.GetValue fuel (Crabbing.without_transaction t) key
      = Some (found, Crabbing.without_transaction t) ∧
    Crabbing.GetValue fuel (Crabbing.with_transaction t) key
      = Some (found, Crabbing.with_transaction t) ∧
    ∀ v, found = Some v ↔ BPlusTree.stored t key v.
Proof.
  intros [G Hinv] Hfuel.
  destruct (GetValue_spec G t H fuel key Hinv ltac:(lia)) as (r & Hget & Hr).
  exists r. split; [|split; [|done]].
  - by apply (GetValue_without_transaction G t H); [|lia|].
  - by apply (GetValue_with_transaction G t H); [|lia|].
Qed.

Lemma GetValue_releases_latches_witness :
  ∃ found,
    Crabbing.GetValue 16
      (Crabbing.without_transaction BPlusTree.ascending_tree) 7
      = Some (found, Crabbing.without_transaction BPlusTree.ascending_tree) ∧
    Crabbing.GetValue 16
      (Crabbing.with_transaction BPlusTree.ascending_tree) 7
      = Some (found, Crabbing.with_transaction BPlusTree.ascending_tree) ∧
    ∀ v, found = Some v ↔ BPlusTree.stored BPlusTree.ascending_tree 7 v.
Proof.
  destruct (run_operations_well_formed 16 BPlusTree.ascending_ops
              BPlusTree.tree44 0)
    as (t & H & Hrun & Hwf & HH);
    [by apply new_tree_well_formed|reflexivity|simpl; lia|].
  assert (Ht : t = BPlusTree.ascending_tree).
  { vm_compute in Hrun. injection Hrun as <-. vm_compute. reflexivity. }
  subst t. simpl in HH.
  apply (GetValue_releases_latches 16 BPlusTree.ascending_tree H 7 Hwf).
  lia.
Defined.

(** X21.  [Insert] without a transaction, while the pages have room.  On
    a search tree of height [H] over a pool that serves every request, in
    which every page but the root holds fewer items than its maximum, with
    fuel above [H]: the call without a transaction returns what the call
    with a transaction returns, leaves the same tree, and when it has
    returned the thread holds no latch. *)
Theorem Insert_without_transaction_with_room (fuel : nat)
  (t : BPlusTree.BPlusTree) (H : nat) (key value : Z) :
  BPlusTree.well_formed t H → (H < fuel)%nat → Crabbing.roomy t →
  ∃ result t',
    Crabbing.Insert fuel (Crabbing.with_transaction t) key value
      = Some (result, Crabbing.with_transaction t') ∧
    Crabbing.Insert fuel (Crabbing.without_transaction t) key value
      = Some (result, Crabbing.without_transaction t').
Proof.
  intros [G Hinv] Hfuel Hroom.
  destruct (Insert_ord G t H fuel key value Hinv ltac:(lia))
    as [[_ Hrun]|[_ (t' & _ & _ & Hrun & _)]].
  - exists false, t. split.
    + by apply (Insert_with_transaction G t H); [|lia|].
    + by apply (Insert_without_transaction G t H); [|lia| |].
  - exists true, t'. split.
    + by apply (Insert_with_transaction G t H); [|lia|].
    + by apply (Insert_without_transaction G t H); [|lia| |].
Qed.

Lemma Insert_without_transaction_with_room_witness :
  ∃ result t',
    Crabbing.Insert 16 (Crabbing.with_transaction BPlusTree.ascending_tree)
      11 11
      = Some (result, Crabbing.with_transaction t') ∧
    Crabbing.Insert 16
      (Crabbing.without_transaction BPlusTree.ascending_tree) 11 11
      = Some (result, Crabbing.without_transaction t').
Proof.
  destruct (run_operations_well_formed 16 BPlusTree.ascending_ops
              BPlusTree.tree44 0)
    as (t & H & Hrun & Hwf & HH);
    [by apply new_tree_well_formed|reflexivity|simpl; lia|].
  assert (Ht : t = BPlusTree.ascending_tree).
  { vm_compute in Hrun. injection Hrun as <-. vm_compute. reflexivity. }
  subst t. simpl in HH.
  apply (Insert_without_transaction_with_room 16 BPlusTree.ascending_tree H
           11 11 Hwf); [lia|].
  intros pid p Hp.
  assert (Hall : map_Forall
            (λ _ p, BPlusTree.IsRootPage p = false →
                    Crabbing.IsSafe p Crabbing.INSERT = true)
            (BPlusTree.pages
               (BPlusTree.buffer_pool_manager_ BPlusTree.ascending_tree))).
  { refine (bool_decide_unpack _ _). vm_compute. exact I. }
  exact (Hall pid p Hp).
Defined.
